(* ===== verification/_CoqProject ===== *)
-Q . S2P
Prelude.v
GoStrings.v
GoTime.v
GoErrors.v
GoEncoding.v
GoNumbers.v
GoSHA256.v
GoJSON.v
GoNetip.v
GoMail.v
GoMIME.v
Email.v
SenderPolicy.v
SMTPParser.v
SMTPParserProps.v
SpoolCommon.v
Records.v
Schema.v
RecordsProps.v
SchemaProps.v
RecordsSpec.v
RecordsInv.v
SpoolStore.v
SpoolStoreProps.v
SpoolLife.v
StoreLaws.v
PayloadFS.v
PayloadTree.v
PayloadHoare.v
PayloadStore.v
PayloadProps.v
PayloadRefine.v
PayloadInit.v
PayloadCodec.v
DiskSpool.v
SpoolOpen.v
Worker.v
WorkerProps.v
Observability.v
Relay.v
Config.v
HTTPClient.v
ACS.v
ACSProps.v
SES.v
SESProps.v
Startup.v
Delivery.v
SMTPServer.v
Main.v
SMTPLifecycle.v
SMTPProps.v
EndToEnd.v
Witnesses.v
ProviderWitnesses.v
PayloadWitnesses.v
SMTPWitnesses.v
OpenWitnesses.v
