(* ===== verification/Prelude.v ===== *)
(** * smtp-cloud-relay: a verification development

    smtp-cloud-relay is a Go service that accepts mail over SMTP, writes every
    accepted message to a durable spool, and delivers spooled messages through
    a cloud e-mail API (Azure Communication Services, Amazon SES) from a
    background worker.  The promise that matters is: a sender that was told
    "250 OK" has a record on disk, that record is never lost, it is submitted a
    bounded number of times, and its state only moves forward.

    ** The parts of the program and how they interact

    [cmd/relay/main.go] loads the configuration, builds the delivery runtime,
    opens the spool, recovers it, builds the SMTP server, starts the worker, the
    SMTP server and the observability endpoints, and stops them on a signal or a
    failure.  A session of [internal/smtp] parses a message and calls the adapter of
    [main], which calls the handler of [internal/relay]: sender policy
    ([internal/email]), a slot of a bounded channel, [Store.Enqueue] of
    [internal/spool].  The worker of [internal/spool] takes records with
    [Store.ClaimReady] and [Store.NextSubmitted], calls the provider, and
    writes the outcome with the [Mark] operations.  The store keeps metadata in
    one SQLite table and payloads in directories named by the record.

    ** Which file models what

    - [Prelude]: the state-and-error monad [io] (the state survives an error),
      the pure error monad, the frame predicate [keeps], 64-bit integers,
      shared lemmas, hint databases and tactics.
    - [GoStrings], [GoTime], [GoErrors], [GoEncoding], [GoNumbers], [GoSHA256],
      [GoJSON], [GoNetip], [GoMail], [GoMIME]: what the code uses of Go's standard
      library: strings, numbers, times, errors, base64, hex, SHA-256 and HMAC,
      JSON with its printer, its parser and decoding into Go values, IP addresses
      and networks, mail headers, media types, encoded words, quoted-printable
      text and multipart bodies.  A reader is the bytes it delivers and its final
      error ([stream]).  [internal/spool/errors.go] and
      [internal/email/delivery_error.go] are in [GoErrors].
    - [Email], [SenderPolicy]: [internal/email].
    - [SMTPParser]: [smtp/parser.go]; [SMTPParserProps] that it ends.
    - [SpoolCommon]: [spool/types.go], [spool/common.go] (records, states,
      identifiers).
    - [Records]: the record operations of [spool/sqlite_record_store.go] and the
      table constraints of [spool/schema.go].  State [database T]: the contents
      the connection sees, the contents at [BEGIN] when a transaction is open,
      whether the handle is open, and counters that index the oracles; [dbstate]
      has the rows as contents.  [durable] is what a crash leaves.
      [RecordsProps], [RecordsSpec], [RecordsInv] prove its operations correct.
    - [Schema], [SchemaProps]: opening the database: pragmas, bootstrap and
      validation of the schema.  Contents [dbfile]: [user_version], the objects of
      [sqlite_master] and the rows; the statements of the source are interpreted
      on it as text.
    - [SpoolStore]: [spool/spool_store.go] over an interface [Payloads] to the
      payload store, and the contract of [spool/store.go] as the class [Store]
      with the laws [StoreLaws].  [SpoolStoreProps] proves the operations
      correct, [SpoolLife] runs arbitrary sequences of operations and crashes
      (and those after a [COMMIT] that failed),
      [StoreLaws] shows that the spool implements the contract
      ([SpoolStore_laws]); the views of the contract are the ledger of states and
      attempts, the [committed] metadata and the stored [mail].
    - [PayloadFS]: [spool/payload_fs.go] over one tree of directories, files and
      links with a mark on what is synced; system calls count and may fail.
      [PayloadStore]: [spool/payload_store.go]; [PayloadCodec]: its manifests as
      JSON text.  [PayloadTree] and [PayloadHoare] are the reasoning about
      trees and the specifications of the file operations, [PayloadProps] what
      the store operations do, [PayloadRefine] that they implement the
      interface of [SpoolStore], [PayloadInit] the opening of the store,
      [DiskSpool] the two stores together, and [SpoolOpen] [NewSpoolStore] and
      [Close] over a [volume], the tree and the database file.
    - [Worker], [WorkerProps]: [spool/worker.go], proved against [StoreLaws]
      only.  State [wstate]: the store, counters for the oracles, the trace of
      events (submissions, polls, metric updates).
    - [Relay]: [relay/handler.go], [smtp/delivery_status.go], the enqueue
      adapter of [main], and [hstep], the interleaving of concurrent sessions.
    - [Observability]: [observability/metrics.go] and [observability/http.go].
    - [Config]: [config/config.go].
    - [HTTPClient]: [providers/httpclient/builder.go].
    - [ACS], [ACSProps]: [providers/acs/provider.go].  State [astate]: counters
      for the oracles and the requests and waits made so far.
    - [SES], [SESProps]: [providers/ses/provider.go].
    - [Startup]: [providers/factory.go], [providers/noop/provider.go], and the
      background-delivery and readiness parts of [main].
    - [SMTPServer], [SMTPProps]: construction, admission and sessions of
      [smtp/server.go]; [SMTPLifecycle]: its [Start], [Shutdown] and [Close] with
      the serving goroutines, as the step relation [lstep].
    - [Main]: the rest of [main]: [main_startup], in the order of the source, and
      [pstep], the three goroutines, the two [select]s and the shutdown.
    - [EndToEnd]: a session, the adapter, the handler and the spool on disk, and
      the next process that opens it.
    - [Delivery]: the cloud clients under the factory's budget and the worker.
    - [Witnesses], [ProviderWitnesses], [PayloadWitnesses], [SMTPWitnesses],
      [OpenWitnesses]: an in-memory payload store, a fault-free driver, a service,
      an empty disk, an SMTP client, and concrete runs at which the theorems with
      hypotheses are applied.

    ** What the theorems show

    - Durable acceptance: [accepted_mail_survives], from the DATA command to the
      next process that opens the spool; [Enqueue_ok], [Enqueue_preserves],
      [newEnqueueMessageHandler_reply], [accepted_have_records].
    - The payload store: [payload_store_refines] (the interface of the spool
      store holds of the directory tree under any system-call faults),
      [Save_then_Load], [QuarantineOrphans_ok], [manifest_round_trip].
    - Opening the spool: [NewSpoolStore_ok], [validateCurrentSchema_equiv] (the
      queries against a predicate on the file), [schema_init_restart] (what is
      bootstrapped is what is validated).
    - The record lifecycle under any faults and crashes: [spool_lifecycle],
      [spool_table_ok], [scan_rowOf].
    - Claiming and recovery, on metadata and on the whole spool:
      [claimReadyMetadata_ok], [ClaimReady_ok], [ClaimReady_terminates],
      [recoverMetadata_ok], [Recover_ok].
    - Delivery: [processQueuedOnce_ok], [processSubmittedOnce_ok],
      [submissions_bounded], [submitRetryDelay_growth].
    - Admission: [admission_by_cidr], [session_gate], [inflight_bounded],
      [ApplySenderPolicy_spec], [glob_Match_one_label], [NewSenderPolicy_wf],
      [newUUIDv4_canonical]; parsing ends ([parseMultipart_terminates]).
    - Configuration, start and stop: [Load_safe], [runtimeSendTimeout_exact],
      [main_startup_ok], [loaded_configuration_starts], [process_shutdown],
      [server_single_use], [listeners_closed]; [scrape_counts] for the metrics.
    - The cloud clients: [acs_Submit_ok], [acs_Poll_ok], [acs_NewProvider_ok],
      [buildSendRequest_ok], [parseConnection_round_trip],
      [acs_submit_within_budget]; [ses_Submit_ok], [buildRawMessage_headers],
      [writeBase64MIME_ok], [normalizeLineEndings_ok].
    - Behaviour the authors did not intend: [noop_never_starts],
      [failed_commit_wedges], [shutdown_dead_letters], [serve_error_lost],
      [untyped_part_dropped], [foreign_index_opens_once].

    ** Parameters

    What is outside the repository is an argument of the definitions.
    [UnicodeTables]: case mapping and quoting of non-ASCII text.  [MailRegexp]:
    [mail.ParseAddress] and [regexp.Compile].  [AddressList]:
    [mail.ParseAddressList].  [MIMEEnv]: how much of a part a failing
    quoted-printable decoder leaves unread.  [Environment]: the environment and
    the file system as configuration reads it.  [GoSMTP]: two errors of go-smtp
    and [net.SplitHostPort]; go-smtp itself calls the session in any order
    ([sevent]).  [KeyPairs]: [tls.LoadX509KeyPair].  [RecordEnv]: whether the
    n-th driver call fails, whether its statement took effect all the same
    ([drv_lands]), whether a pooled connection is reset, the n-th clock
    reading.  The order in which Go ranges over the map of required indexes is an argument of
    [validateCurrentSchema].  [IDSource]: the n-th
    reading of [crypto/rand].  [Provider]: the mail API.  [WorkerEnv]: what
    the worker sees of its context, clock and timers.  [FSEnv]: whether the n-th
    system call fails, whether a rename crosses devices, how much a failing
    write wrote, the order of directory listings, the random source.
    [CertPool], [WebLibs], [ACSWorld], [AWS], [SESWorld], [Worlds]: [x509],
    [net/url] and HTTP dates, the network, clock and timers of the ACS client,
    the AWS SDK and its answers.  [Payloads], [ManifestCodec], [Store] and
    [MessageHandler] are interfaces between components, discharged by
    [payload_store_refines], [json_codec_laws], [SpoolStore_laws] and
    [relay_handler] of [EndToEnd].  No theorem assumes that a driver, filesystem or network
    call succeeds unless its statement says so; [Healthy] is a world in which
    system calls do.

    ** Bounds and fuel

    [claim_loop] has fuel 1 + the number of rows: each turn but the last moves
    a queued row out of the queued state, and [ClaimReady_terminates] proves
    that the bounded loop ends with the outcome of the source's unbounded one.
    [Start n] runs [n] turns of a loop that the program leaves only when its
    context ends; the theorems hold for every [n].  Recursive removal and
    copying have the depth of the tree as fuel, the search for a quarantine name
    one turn more than there are names; [Save_then_Load] and
    [QuarantineOrphans_ok] prove success, hence that both are enough.  The
    sixteen attempts at a fresh name and the 10000 levels of JSON are those of
    the source and of [encoding/json]; the JSON parser has three steps per byte,
    and [parse_print] shows that what is printed is parsed.  The parser of
    multipart messages has one step more than there are bytes left; out of turns
    is [None], apart from every answer and error of the code, and
    [parseMultipart_terminates] proves that every such bound gives an answer, and
    the same one; the readers of lines, header fields and quoted-printable text drop at
    least one byte per step.  [int], [int64] and [time.Duration]
    arithmetic wraps at 64 bits ([wrap64]) wherever the source can reach the
    bound.  Calls of
    [Store.Enqueue] by different sessions are steps of [hstep] one after the
    other: the record store has one pooled connection, so their transactions
    are serialised, and payload directories are disjoint.

    ** Not modelled

    Logging; the text format and registry of Prometheus; the HTTP listener of the
    observability server; what go-smtp, the AWS SDK and the SQLite driver do
    inside, beyond the rules named above; file modes; [isClosedServerError], which
    appears as the difference between a listener that was closed and one that
    failed; [ensureDir] and [syncDir] of [spool/common.go], which nothing calls.
    A crash keeps what is committed and synced; how much of the rest it keeps is
    not modelled.  [QuarantineOrphans] is modelled without the partial list it
    returns beside an error; the [Shutdown] calls of [main], bounded there by ten
    seconds, are single steps.  Still to be added: that a message built for SES is read back
    by the parser. *)
From stdpp Require Export base tactics strings gmap list sorting relations.
From Stdlib Require Export ZArith Lia.
From Stdlib Require Import Ascii.

(** ** Scopes, hint databases *)

Declare Scope relay_scope.
Delimit Scope relay_scope with relay.
Open Scope Z_scope.

Create HintDb relay discriminated.
Create HintDb goeff discriminated.
Create Rewrite HintDb gostr.

(** ** Go integers: [int] and [int64] are 64-bit two's complement *)

Definition two63 : Z := 9223372036854775808.
Definition two64 : Z := 18446744073709551616.

(** The value a 64-bit signed register holds after an operation whose exact
    result is [z]. *)
Definition wrap64 (z : Z) : Z := (z + two63) mod two64 - two63.

Definition in_int64 (z : Z) : Prop := - two63 <= z < two63.

Lemma wrap64_id (z : Z) : in_int64 z → wrap64 z = z.
Proof.
  unfold in_int64, wrap64, two63, two64. intros H.
  rewrite Z.mod_small; lia.
Qed.

Lemma wrap64_range (z : Z) : in_int64 (wrap64 z).
Proof.
  unfold in_int64, wrap64, two63, two64.
  pose proof (Z.mod_pos_bound (z + 9223372036854775808) 18446744073709551616).
  lia.
Qed.

#[export] Hint Resolve wrap64_range : relay.

(** ** Stateful fallible computations

    A Go function that acts on a mutable object and returns [(T, error)] is a
    function of the object's state that returns the new state and either a
    value or an error.  The state is kept on the error path: an effect that
    happened before a failing call is not undone by the failure. *)

Section io.
Context {E S : Type}.

Definition io (A : Type) : Type := S → S * (A + E).

Definition ret {A} (a : A) : io A := λ s, (s, inl a).
Definition fail {A} (e : E) : io A := λ s, (s, inr e).
Definition get : io S := λ s, (s, inl s).
Definition modify (f : S → S) : io unit := λ s, (f s, inl tt).

Definition bind {A B} (m : io A) (k : A → io B) : io B := λ s,
  match m s with
  | (s', inl a) => k a s'
  | (s', inr e) => (s', inr e)
  end.

(** [if v, err := m(); err != nil { h } else { k }] *)
Definition try {A B} (m : io A) (k : A + E → io B) : io B := λ s,
  match m s with (s', r) => k r s' end.

(** [_ = m()]: the error is dropped. *)
Definition ignore {A} (m : io A) : io unit := λ s, (fst (m s), inl tt).

(** [defer c()] around [m]: [c] runs last, whatever [m] returned, and the
    result is [m]'s. *)
Definition finally {A} (m : io A) (c : io unit) : io A := λ s,
  match m s with (s', r) => (fst (c s'), r) end.

Definition lift {A} (r : A + E) : io A := λ s, (s, r).

(** *** Reasoning principles *)

(** [keeps R m]: every run of [m], successful or not, moves the state along
    [R]. *)
Definition keeps {A} (R : relation S) (m : io A) : Prop := ∀ s, R s (fst (m s)).

Lemma bind_ok {A B} (m : io A) (k : A → io B) s s' b :
  bind m k s = (s', inl b) →
  ∃ a s1, m s = (s1, inl a) ∧ k a s1 = (s', inl b).
Proof. unfold bind. destruct (m s) as [s1 [a|e]]; naive_solver. Qed.

Section keeps.
Context (R : relation S) `{!PreOrder R}.

Lemma keeps_ret {A} (a : A) : keeps R (ret a).
Proof. intros s. cbn. reflexivity. Qed.
Lemma keeps_fail {A} (e : E) : keeps R (fail (A:=A) e).
Proof. intros s. cbn. reflexivity. Qed.
Lemma keeps_lift {A} (r : A + E) : keeps R (lift r).
Proof. intros s. cbn. reflexivity. Qed.
Lemma keeps_get : keeps R get.
Proof. intros s. cbn. reflexivity. Qed.
Lemma keeps_bind {A B} (m : io A) (k : A → io B) :
  keeps R m → (∀ a, keeps R (k a)) → keeps R (bind m k).
Proof.
  intros Hm Hk s. unfold bind. specialize (Hm s).
  destruct (m s) as [s' [a|e]]; cbn in *; [|done].
  etrans; [done|]. apply Hk.
Qed.
(** As [keeps_bind], with what the first part's success tells. *)
Lemma keeps_bind_ok {A B} (m : io A) (k : A → io B) :
  keeps R m → (∀ s s' a, m s = (s', inl a) → R s' (fst (k a s'))) → keeps R (bind m k).
Proof.
  intros Hm Hk s. unfold bind. specialize (Hm s).
  destruct (m s) as [s' [a|e]] eqn:E1; cbn in *; [|done].
  etrans; [done|]. by eapply Hk.
Qed.
Lemma keeps_try {A B} (m : io A) (k : A + E → io B) :
  keeps R m → (∀ r, keeps R (k r)) → keeps R (try m k).
Proof.
  intros Hm Hk s. unfold try. specialize (Hm s).
  destruct (m s) as [s' r]; cbn in *. etrans; [done|]. apply Hk.
Qed.
Lemma keeps_ignore {A} (m : io A) : keeps R m → keeps R (ignore m).
Proof. intros H s. apply H. Qed.
Lemma keeps_finally {A} (m : io A) c :
  keeps R m → keeps R c → keeps R (finally m c).
Proof.
  intros Hm Hc s. unfold finally. specialize (Hm s).
  destruct (m s) as [s' r]; cbn in *. etrans; [done|]. apply Hc.
Qed.
End keeps.
End io.

Arguments io E S A : clear implicits.
Arguments ret {E S A} a s /.
Arguments fail {E S A} e s /.
Arguments get {E S} s /.
Arguments modify {E S} f s /.
Arguments lift {E S A} r s /.

#[export] Hint Resolve keeps_ret keeps_fail keeps_lift keeps_get keeps_bind
  keeps_try keeps_ignore keeps_finally : goeff.
#[export] Hint Extern 0 (PreOrder _) => typeclasses eauto : goeff.

Notation "'let!' x ':=' m 'in' k" := (bind m (λ x, k))
  (at level 10, x pattern, m at level 100, k at level 200,
   format "'[v' 'let!'  x  ':='  m  'in' '/' k ']'") : relay_scope.
Notation "m ;;! k" := (bind m (λ _, k))
  (at level 199, right associativity) : relay_scope.

(** ** Fallible pure computations: [(T, error)] without state *)

Definition rbind {A B E} (m : A + E) (k : A → B + E) : B + E :=
  match m with inl a => k a | inr e => inr e end.

Notation "'let*' x ':=' m 'in' k" := (rbind m (λ x, k))
  (at level 10, x pattern, m at level 100, k at level 200,
   format "'[v' 'let*'  x  ':='  m  'in' '/' k ']'") : relay_scope.

Lemma rbind_ok {A B E} (m : A + E) (k : A → B + E) b :
  rbind m k = inl b → ∃ a, m = inl a ∧ k a = inl b.
Proof. destruct m as [a|]; [|done]. cbn. eauto. Qed.

(** ** State machines *)

Lemma rtc_invariant {A} (R : relation A) (I : A → Prop) x y :
  (∀ a b, R a b → I a → I b) → rtc R x y → I x → I y.
Proof. intros Hstep. induction 1; eauto. Qed.

(** ** Tactics *)

(** Case analysis on the scrutinee of a [match]/[if] in the goal or in a
    hypothesis, keeping the equation. *)
Ltac go_case :=
  match goal with
  | |- context [match ?x with _ => _ end] => destruct x eqn:?
  | H : context [match ?x with _ => _ end] |- _ => destruct x eqn:?
  end.

Ltac go_simp := repeat (progress (cbn in *; simplify_eq)).
Ltac go_cases := repeat (go_case; go_simp; try done).

(** Split a run of a [bind] chain that succeeded into the runs of its parts. *)
Ltac bind_step H :=
  let a := fresh "v" in let s := fresh "s" in let H1 := fresh "Hrun" in
  apply bind_ok in H as (a & s & H1 & H).

(** The same for [rbind]. *)
Ltac rbind_step H :=
  let a := fresh "v" in let H1 := fresh "Hv" in apply rbind_ok in H as (a & H1 & H).

Tactic Notation "bind_inv" hyp(H) "as" simple_intropattern(a) ident(s) ident(H1) :=
  apply bind_ok in H as (a & s & H1 & H).
