(* ===== verification/GoStrings.v ===== *)
(** * Go strings

    Go's [string] is a sequence of bytes; here it is Rocq's [string].  This
    file models the functions of [strings], [strconv], [encoding/hex] and
    [fmt] that the relay uses.  White space is Unicode white space recognised
    in its UTF-8 encoding, as [strings.TrimSpace] does; case mapping, case
    folding and quoting of strings that hold a non-ASCII byte depend on the
    Unicode tables, which are the parameters of the class [UnicodeTables]. *)
From Stdlib Require Import Ascii.
From stdpp Require Export pretty.
From S2P Require Import Prelude.
#[local] Open Scope Z_scope.

Abbreviation bytes := (list ascii).

Definition bs (s : string) : bytes := String.list_ascii_of_string s.
Definition sb (l : bytes) : string := String.string_of_list_ascii l.

Lemma sb_bs (s : string) : sb (bs s) = s.
Proof. apply String.string_of_list_ascii_of_string. Qed.
Lemma bs_sb (l : bytes) : bs (sb l) = l.
Proof. apply String.list_ascii_of_string_of_list_ascii. Qed.
#[export] Hint Rewrite sb_bs bs_sb : gostr.

Lemma bs_app (s t : string) : bs (s +:+ t) = bs s ++ bs t.
Proof.
  induction s as [|c s IH]; [done|]. change (String c s +:+ t) with (String c (s +:+ t)).
  unfold bs in *. cbn. by rewrite IH.
Qed.
#[export] Hint Rewrite bs_app : gostr.

Lemma sb_app (l k : bytes) : sb (l ++ k) = sb l +:+ sb k.
Proof. induction l as [|c l IH]; [done|]. unfold sb in *. cbn. by rewrite IH. Qed.

Lemma length_bs (s : string) : length (bs s) = String.length s.
Proof. induction s as [|c s IH]; [done|]. unfold bs in *. cbn. f_equal. exact IH. Qed.

(** ** Bytes *)

Definition byte_val (c : ascii) : Z := Z.of_N (N_of_ascii c).
Definition chr (z : Z) : ascii := ascii_of_N (Z.to_N z).

Definition isASCII_byte (c : ascii) : bool := byte_val c <? 128.
Definition isASCII (s : string) : bool := forallb isASCII_byte (bs s).

Definition between (a b : Z) (c : ascii) : bool :=
  (a <=? byte_val c) && (byte_val c <=? b).

(** ** strings.TrimSpace *)

(** The UTF-8 encodings of the runes for which [unicode.IsSpace] holds. *)
Definition space_encodings : list bytes :=
  map (λ z, [chr z]) [9; 10; 11; 12; 13; 32]
  ++ map (map chr)
      ([[194; 133]; [194; 160]; [225; 154; 128]]
       ++ map (λ z, [226; 128; z])
            [128; 129; 130; 131; 132; 133; 134; 135; 136; 137; 138; 168; 169; 175]
       ++ [[226; 129; 159]; [227; 128; 128]]).

Fixpoint strip_prefix (p l : bytes) : option bytes :=
  match p, l with
  | [], _ => Some l
  | a :: p', b :: l' => if Ascii.eqb a b then strip_prefix p' l' else None
  | _ :: _, [] => None
  end.

Fixpoint strip_any (encs : list bytes) (l : bytes) : option bytes :=
  match encs with
  | [] => None
  | e :: encs' =>
      match strip_prefix e l with Some l' => Some l' | None => strip_any encs' l end
  end.

(** Every step drops at least one byte, so [length l] steps are enough. *)
Fixpoint trim_with (encs : list bytes) (fuel : nat) (l : bytes) : bytes :=
  match fuel with
  | O => l
  | S n => match strip_any encs l with Some l' => trim_with encs n l' | None => l end
  end.

Definition trim_left (l : bytes) : bytes := trim_with space_encodings (length l) l.
Definition trim_right (l : bytes) : bytes :=
  reverse (trim_with (map reverse space_encodings) (length l) (reverse l)).

Definition TrimSpace (s : string) : string := sb (trim_right (trim_left (bs s))).

Lemma strip_prefix_Some (p l l' : bytes) : strip_prefix p l = Some l' ↔ l = p ++ l'.
Proof.
  revert l. induction p as [|a p IH]; intros l; cbn; [naive_solver|].
  destruct l as [|b l]; [naive_solver|].
  destruct (Ascii.eqb_spec a b) as [->|Hne]; [rewrite IH; naive_solver|naive_solver].
Qed.

Lemma strip_any_Some encs l l' :
  strip_any encs l = Some l' → ∃ e, e ∈ encs ∧ l = e ++ l'.
Proof.
  induction encs as [|e encs IH]; cbn; [done|].
  destruct (strip_prefix e l) as [k|] eqn:He.
  - intros [= ->]. exists e. apply strip_prefix_Some in He. split; [set_solver|done].
  - intros H. destruct (IH H) as (e' & Hin & ->). exists e'. split; [set_solver|done].
Qed.

Lemma strip_any_None encs l :
  strip_any encs l = None → ∀ e k, e ∈ encs → l ≠ e ++ k.
Proof.
  induction encs as [|e encs IH]; cbn; intros H e' k Hin; [set_solver|].
  destruct (strip_prefix e l) eqn:He; [done|].
  apply elem_of_cons in Hin as [->|Hin]; [|by apply IH].
  intros Heq. apply strip_prefix_Some in Heq. congruence.
Qed.

Lemma strip_any_None_2 encs l :
  (∀ e k, e ∈ encs → l ≠ e ++ k) → strip_any encs l = None.
Proof.
  intros H. destruct (strip_any encs l) as [l'|] eqn:Hs; [|done].
  destruct (strip_any_Some _ _ _ Hs) as (e & Hin & ->). by destruct (H e l' Hin).
Qed.

Section trim_with.
Context (encs : list bytes).
Hypothesis Hne : Forall (λ e, e ≠ []) encs.

Lemma trim_with_clean fuel l :
  (length l ≤ fuel)%nat → strip_any encs (trim_with encs fuel l) = None.
Proof.
  revert l. induction fuel as [|n IH]; intros l Hl; cbn.
  - destruct l; [|cbn in Hl; lia]. apply strip_any_None_2.
    intros e k Hin Heq. rewrite Forall_forall in Hne.
    destruct e; [by apply (Hne []) | done].
  - destruct (strip_any encs l) as [l'|] eqn:Hs; [|done].
    apply IH. destruct (strip_any_Some _ _ _ Hs) as (e & Hin & ->).
    rewrite Forall_forall in Hne. specialize (Hne e Hin).
    rewrite length_app in Hl. destruct e; [done|]. cbn in Hl. lia.
Qed.

Lemma trim_with_suffix fuel l : ∃ p, l = p ++ trim_with encs fuel l.
Proof.
  revert l. induction fuel as [|n IH]; intros l; cbn; [by exists []|].
  destruct (strip_any encs l) as [l'|] eqn:Hs; [|by exists []].
  destruct (strip_any_Some _ _ _ Hs) as (e & _ & ->).
  destruct (IH l') as [p Hp]. exists (e ++ p). rewrite <- app_assoc. by f_equal.
Qed.
End trim_with.

Lemma trim_with_id encs fuel l : strip_any encs l = None → trim_with encs fuel l = l.
Proof. intros H. destruct fuel; cbn; [done|]. by rewrite H. Qed.

Lemma space_encodings_ne : Forall (λ e, e ≠ []) space_encodings.
Proof. repeat constructor; done. Qed.

Lemma space_encodings_rev_ne : Forall (λ e, e ≠ []) (map reverse space_encodings).
Proof. repeat constructor; done. Qed.

(** A string is trimmed when it neither starts nor ends with white space. *)
Definition trimmed (l : bytes) : Prop :=
  strip_any space_encodings l = None ∧
  strip_any (map reverse space_encodings) (reverse l) = None.

Lemma TrimSpace_trimmed_id s : trimmed (bs s) → TrimSpace s = s.
Proof.
  intros [Hl Hr]. unfold TrimSpace, trim_left, trim_right.
  rewrite (trim_with_id _ _ (bs s)) by done. rewrite trim_with_id by done.
  by rewrite reverse_involutive, sb_bs.
Qed.

Lemma trimmed_TrimSpace s : trimmed (bs (TrimSpace s)).
Proof.
  unfold TrimSpace. rewrite bs_sb. unfold trimmed, trim_right.
  set (l := trim_left (bs s)).
  assert (Hl : strip_any space_encodings l = None).
  { apply trim_with_clean; [apply space_encodings_ne|done]. }
  destruct (trim_with_suffix (map reverse space_encodings) (length l) (reverse l))
    as [p Hp].
  set (r := trim_with (map reverse space_encodings) (length l) (reverse l)) in *.
  split.
  - apply strip_any_None_2. intros e k Hin Heq.
    apply (strip_any_None _ _ Hl e (k ++ reverse p) Hin).
    rewrite app_assoc, <- Heq, <- reverse_app, <- Hp. by rewrite reverse_involutive.
  - rewrite reverse_involutive. apply trim_with_clean; [apply space_encodings_rev_ne|].
    by rewrite length_reverse.
Qed.

(** Trimming twice is trimming once. *)
Lemma TrimSpace_idem s : TrimSpace (TrimSpace s) = TrimSpace s.
Proof. apply TrimSpace_trimmed_id, trimmed_TrimSpace. Qed.
#[export] Hint Rewrite TrimSpace_idem : gostr.

(** A printable, non-blank ASCII byte. *)
Definition graphic (c : ascii) : bool := between 33 126 c.

Lemma graphic_not_space c l :
  graphic c = true →
  strip_any space_encodings (c :: l) = None ∧
  strip_any (map reverse space_encodings) (c :: l) = None.
Proof. intros H. destruct c as [[] [] [] [] [] [] [] []]; first [discriminate H | done]. Qed.

Lemma TrimSpace_graphic s : forallb graphic (bs s) = true → TrimSpace s = s.
Proof.
  intros H. apply TrimSpace_trimmed_id. rewrite forallb_forall in H.
  assert (Hg : ∀ c, c ∈ bs s → graphic c = true).
  { intros c Hc. by apply H, list_elem_of_In. }
  clear H. split.
  - destruct (bs s) as [|c l]; [done|].
    destruct (graphic_not_space c l) as [H1 _]; [apply Hg; set_solver|]. exact H1.
  - assert (Hr : ∀ c, c ∈ reverse (bs s) → graphic c = true).
    { intros c Hc. by apply Hg, elem_of_reverse. }
    destruct (reverse (bs s)) as [|c l]; [done|].
    destruct (graphic_not_space c l) as [_ H2]; [apply Hr; set_solver|]. exact H2.
Qed.

(** ** Case mapping, folding, quoting *)

(** The parts of [strings.ToLower], [strings.EqualFold] and [strconv.Quote]
    that consult the Unicode tables: what they return on an argument that
    holds a non-ASCII byte. *)
Class UnicodeTables := {
  unicode_ToLower : string → string;
  unicode_EqualFold : string → string → bool;
  unicode_Quote : string → string;
}.

Definition lower_byte (c : ascii) : ascii :=
  if between 65 90 c then chr (byte_val c + 32) else c.

Definition ascii_lower (s : string) : string := sb (map lower_byte (bs s)).

Definition ToLower `{UnicodeTables} (s : string) : string :=
  if isASCII s then ascii_lower s else unicode_ToLower s.

Definition EqualFold `{UnicodeTables} (s t : string) : bool :=
  if isASCII s && isASCII t then bool_decide (ascii_lower s = ascii_lower t)
  else unicode_EqualFold s t.

Definition hex_digit (z : Z) : ascii := if z <? 10 then chr (48 + z) else chr (87 + z).

Definition hex_byte (c : ascii) : bytes :=
  [hex_digit (byte_val c / 16); hex_digit (byte_val c mod 16)].

Definition dquote : ascii := chr 34.
Definition backslash : ascii := chr 92.

(** [strconv.Quote] on one ASCII byte. *)
Definition quote_byte (c : ascii) : bytes :=
  let z := byte_val c in
  if bool_decide (c = dquote ∨ c = backslash) then [backslash; c]
  else if between 32 126 c then [c]
  else match z with
       | 7 => [backslash; chr 97]
       | 8 => [backslash; chr 98]
       | 12 => [backslash; chr 102]
       | 10 => [backslash; chr 110]
       | 13 => [backslash; chr 114]
       | 9 => [backslash; chr 116]
       | 11 => [backslash; chr 118]
       | _ => backslash :: chr 120 :: hex_byte c
       end.

(** [fmt]'s [%q]. *)
Definition Quote `{UnicodeTables} (s : string) : string :=
  if isASCII s then sb (dquote :: (bs s ≫= quote_byte) ++ [dquote]) else unicode_Quote s.

(** [fmt]'s [%d] and [strconv.Itoa]. *)
Definition Itoa (z : Z) : string := pretty z.

(** ** Searching and splitting *)

Definition HasPrefix (s p : string) : bool :=
  match strip_prefix (bs p) (bs s) with Some _ => true | None => false end.

Definition HasSuffix (s p : string) : bool :=
  match strip_prefix (reverse (bs p)) (reverse (bs s)) with Some _ => true | None => false end.

(** [strings.TrimPrefix] *)
Definition TrimPrefix (s p : string) : string :=
  match strip_prefix (bs p) (bs s) with Some l => sb l | None => s end.

Fixpoint contains_bytes (p l : bytes) : bool :=
  match strip_prefix p l with
  | Some _ => true
  | None => match l with [] => false | _ :: l' => contains_bytes p l' end
  end.

Definition Contains (s p : string) : bool := contains_bytes (bs p) (bs s).

(** [strings.Count] and [strings.Contains] for a one-byte pattern. *)
Definition CountByte (s : string) (c : ascii) : Z :=
  Z.of_nat (length (filter (λ a, a = c) (bs s))).
Definition ContainsByte (s : string) (c : ascii) : bool := bool_decide (c ∈ bs s).

Fixpoint split_on (c : ascii) (l : bytes) : list bytes :=
  match l with
  | [] => [[]]
  | a :: l' =>
      if Ascii.eqb a c then [] :: split_on c l'
      else match split_on c l' with
           | h :: t => (a :: h) :: t
           | [] => [[a]]
           end
  end.

Fixpoint join_bytes (sep : bytes) (parts : list bytes) : bytes :=
  match parts with
  | [] => []
  | [p] => p
  | p :: rest => p ++ sep ++ join_bytes sep rest
  end.

(** [strings.Split] for a one-byte separator, [strings.Join]. *)
Definition Split (s : string) (c : ascii) : list string := sb <$> split_on c (bs s).
Definition Join (parts : list string) (sep : string) : string :=
  sb (join_bytes (bs sep) (bs <$> parts)).

(** [strings.Fields]: the maximal runs without white space.  Every step drops
    at least one byte. *)
Fixpoint fields_with (fuel : nat) (cur : bytes) (l : bytes) : list bytes :=
  let flush := match cur with [] => [] | _ => [reverse cur] end in
  match fuel, l with
  | S n, c :: l' =>
      match strip_any space_encodings l with
      | Some rest => flush ++ fields_with n [] rest
      | None => fields_with n (c :: cur) l'
      end
  | _, _ => flush
  end.

Definition Fields (s : string) : list string :=
  sb <$> fields_with (String.length s) [] (bs s).

(** [strings.LastIndex] of a one-byte pattern, split around it: what precedes
    the last occurrence and what follows it. *)
Fixpoint cut_last (c : ascii) (l : bytes) : option (bytes * bytes) :=
  match l with
  | [] => None
  | a :: l' =>
      match cut_last c l' with
      | Some (x, y) => Some (a :: x, y)
      | None => if Ascii.eqb a c then Some ([], l') else None
      end
  end.

Lemma split_on_cons c l : ∃ h t, split_on c l = h :: t.
Proof.
  induction l as [|a l IH]; cbn; [eauto|].
  destruct (Ascii.eqb a c); [eauto|]. destruct IH as (h & t & ->). eauto.
Qed.

(** Joining what [Split] cut gives the string back. *)
Lemma join_split_on c l : join_bytes [c] (split_on c l) = l.
Proof.
  induction l as [|a l IH]; cbn; [done|].
  destruct (split_on_cons c l) as (h & t & Heq).
  destruct (Ascii.eqb_spec a c) as [->|Hne]; rewrite Heq in *.
  - cbn. f_equal. exact IH.
  - destruct t; cbn in *; by f_equal.
Qed.

Lemma split_on_notin c l : Forall (λ p, c ∉ p) (split_on c l).
Proof.
  induction l as [|a l IH]; cbn; [repeat constructor; set_solver|].
  destruct (Ascii.eqb_spec a c) as [->|Hne]; [constructor; [set_solver|done]|].
  destruct (split_on_cons c l) as (h & t & Heq). rewrite Heq in *.
  inversion IH; subst. constructor; [set_solver|done].
Qed.

Lemma split_on_app c a l : c ∉ a → split_on c (a ++ c :: l) = a :: split_on c l.
Proof.
  induction a as [|b a IH]; intros Hc; cbn.
  - by rewrite Ascii.eqb_refl.
  - destruct (Ascii.eqb_spec b c) as [->|Hne]; [set_solver|].
    rewrite IH by set_solver. done.
Qed.

Lemma Join_Split s c : Join (Split s c) (sb [c]) = s.
Proof.
  unfold Join, Split. rewrite bs_sb, <- list_fmap_compose.
  rewrite (list_fmap_ext _ id), list_fmap_id, join_split_on.
  - apply sb_bs.
  - intros i x _. apply bs_sb.
Qed.

(** ** ASCII case lemmas *)

Lemma lower_byte_ascii c : isASCII_byte c = true → isASCII_byte (lower_byte c) = true.
Proof. by destruct c as [[] [] [] [] [] [] [] []]. Qed.

Lemma isASCII_lower s : isASCII s = true → isASCII (ascii_lower s) = true.
Proof.
  unfold isASCII, ascii_lower. rewrite bs_sb, !forallb_forall.
  intros H c (a & <- & Ha)%in_map_iff. by apply lower_byte_ascii, H.
Qed.

(** ** Concrete tables

    For evaluation on ASCII data the tables are never consulted; this instance
    (not declared as such) makes the definitions closed terms. *)
Definition ascii_tables : UnicodeTables := {|
  unicode_ToLower := ascii_lower;
  unicode_EqualFold := λ s t, bool_decide (ascii_lower s = ascii_lower t);
  unicode_Quote := λ s, s;
|}.

#[global] Arguments TrimSpace : simpl never.
#[global] Arguments ToLower : simpl never.
#[global] Arguments Quote : simpl never.
#[global] Arguments Split : simpl never.
#[global] Arguments Join : simpl never.
#[global] Arguments Itoa : simpl never.
