(* ===== verification/GoTime.v ===== *)
(** * Go time

    A [time.Time] in UTC is the number of nanoseconds since the Unix epoch; the
    zero [time.Time] is 1 January of year 1.  [UTC()] changes the location
    only, so it is the identity here.  A [time.Duration] is an [int64] number
    of nanoseconds. *)
From stdpp Require Import pretty.
From S2P Require Import Prelude.
#[local] Open Scope Z_scope.

Definition time := Z.
Definition duration := Z.

Definition Millisecond : duration := 1000000.
Definition Second : duration := 1000000000.
Definition Hour : duration := 3600 * Second.

Definition zeroTime : time := - 62135596800 * Second.

Definition IsZero (t : time) : bool := t =? zeroTime.

Definition time_Add (t : time) (d : duration) : time := t + d.
Definition time_After (t u : time) : bool := u <? t.
Definition time_Before (t u : time) : bool := t <? u.

(** [Time.UnixMilli]: the nanosecond part is dropped towards the past. *)
Definition UnixMilli (t : time) : Z := wrap64 (t / Millisecond).

(** [time.UnixMilli] *)
Definition ofUnixMilli (ms : Z) : time := ms * Millisecond.

(** The largest time every millisecond of which fits the database column. *)
Definition ms_range (t : time) : Prop := 0 < t / Millisecond < two63.

(** A time as it is read back after being stored with millisecond precision. *)
Definition trunc_ms (t : time) : time := ofUnixMilli (t / Millisecond).

(** *** [Duration.String] *)

(** The last [prec] decimal digits of [v]. *)
Fixpoint digits (prec : nat) (v : Z) : list Z :=
  match prec with
  | O => []
  | S p => digits p (v / 10) ++ [v mod 10]
  end.

Fixpoint drop_zeros (l : list Z) : list Z :=
  match l with
  | 0 :: l => drop_zeros l
  | l => l
  end.

(** [fmtFrac]: the fraction [v / 10^prec] without trailing zeros, and the whole
    part. *)
Definition fmtFrac (prec : nat) (v : Z) : string * Z :=
  match reverse (drop_zeros (reverse (digits prec v))) with
  | [] => ("", v / 10 ^ Z.of_nat prec)
  | l => ("." +:+ String.concat "" (pretty <$> l), v / 10 ^ Z.of_nat prec)
  end.

Definition Duration_String (d : duration) : string :=
  let u := Z.abs d in
  let text :=
    if u =? 0 then "0s"
    else if u <? 1000 then pretty u +:+ "ns"
    else if u <? Millisecond then let '(f, v) := fmtFrac 3 u in pretty v +:+ f +:+ "µs"
    else if u <? Second then let '(f, v) := fmtFrac 6 u in pretty v +:+ f +:+ "ms"
    else
      let '(f, v) := fmtFrac 9 u in
      let secs := pretty (v mod 60) +:+ f +:+ "s" in
      let v := v / 60 in
      if v =? 0 then secs
      else
        let mins := pretty (v mod 60) +:+ "m" +:+ secs in
        let v := v / 60 in
        if v =? 0 then mins else pretty v +:+ "h" +:+ mins in
  if d <? 0 then "-" +:+ text else text.

Example Duration_String_day : Duration_String (24 * Hour) = "24h0m0s".
Proof. vm_compute. reflexivity. Qed.
Example Duration_String_frac : Duration_String 90500000000 = "1m30.5s".
Proof. vm_compute. reflexivity. Qed.
Example Duration_String_ms : Duration_String 1500000 = "1.5ms".
Proof. vm_compute. reflexivity. Qed.

Lemma ms_range_not_zero t : ms_range t → IsZero t = false.
Proof.
  unfold ms_range, IsZero, zeroTime, Millisecond, Second. intros [H _].
  apply Z.eqb_neq. intros ->. revert H. vm_compute. done.
Qed.

Lemma UnixMilli_range t : ms_range t → UnixMilli t = t / Millisecond.
Proof.
  intros [H1 H2]. unfold UnixMilli. apply wrap64_id. unfold in_int64, two63 in *. lia.
Qed.

#[export] Hint Resolve ms_range_not_zero UnixMilli_range : relay.
#[global] Arguments IsZero : simpl never.
#[global] Arguments trunc_ms : simpl never.
#[global] Arguments UnixMilli : simpl never.
