(* ===== verification/GoErrors.v ===== *)
(** * Go errors

    An [error] value is a chain of wrapped errors.  [goerr] has one
    constructor per error type the relay declares, one for the text-only
    errors of [errors.New]/[fmt.Errorf], one for [fmt.Errorf] with [%w], and
    the sentinels and system errors the code tests for.  [errors.As] and
    [errors.Is] walk the chain. *)
From S2P Require Import Prelude.
From S2P Require Import GoStrings.
#[local] Open Scope Z_scope.

Inductive errno :=
  | ENOENT | EEXIST | ENOTDIR | ELOOP | EXDEV | ENOTEMPTY
  | Eother (text : string).

#[export] Instance errno_eq_dec : EqDecision errno.
Proof. solve_decision. Defined.

(** SMTP enhanced status code, [gosmtp.EnhancedCode]. *)
Definition enhanced : Type := Z * Z * Z.

Inductive goerr :=
  (** [errors.New], [fmt.Errorf] without [%w], and errors made by code outside
      the repository that the relay only prints or wraps *)
  | EText (msg : string)
  (** [fmt.Errorf("prefix: %w", inner)] *)
  | EWrapf (prefix : string) (inner : goerr)
  (** [context.Canceled], [context.DeadlineExceeded] *)
  | ECanceled
  | EDeadlineExceeded
  | EErrno (e : errno)
  (** [spool.errUnexpectedFileType] *)
  | EUnexpectedFileType
  | StoreError (op : string) (err : goerr)
  | RecordCorruptionError (recordID : string) (err : goerr)
  | PayloadCorruptionError (id path : string) (err : goerr)
  | SenderPolicyError (reason : string)
  | BusyError (limit : Z)
  (** [gosmtp.SMTPError] *)
  | SMTPError (code : Z) (enh : enhanced) (message : string)
  (** [acs.SendError] and [ses.SendError], told apart by [ProviderName()] *)
  | SendError (provider requestID : string) (attempt attempts statusCode : Z)
      (retryable : bool) (err : option goerr).

(** [errors.As]: the first error of the chain that [f] accepts. *)
Fixpoint errors_As {A} (f : goerr → option A) (e : goerr) : option A :=
  match f e with
  | Some a => Some a
  | None =>
      match e with
      | EWrapf _ i | StoreError _ i | RecordCorruptionError _ i
      | PayloadCorruptionError _ _ i => errors_As f i
      | SendError _ _ _ _ _ _ (Some i) => errors_As f i
      | _ => None
      end
  end.

Definition is_Canceled (e : goerr) : option unit :=
  match e with ECanceled => Some tt | _ => None end.
Definition is_DeadlineExceeded (e : goerr) : option unit :=
  match e with EDeadlineExceeded => Some tt | _ => None end.

(** [errors.Is] against a sentinel. *)
Definition errors_Is (f : goerr → option unit) (e : goerr) : bool :=
  match errors_As f e with Some _ => true | None => false end.

(** ** spool/errors.go and spool/payload_store.go *)

Definition AsStoreError (e : goerr) : option (string * goerr) :=
  errors_As (λ e, match e with StoreError op i => Some (op, i) | _ => None end) e.

Definition AsRecordCorruptionError (e : goerr) : option (string * goerr) :=
  errors_As (λ e, match e with RecordCorruptionError id i => Some (id, i) | _ => None end) e.

Definition AsPayloadCorruptionError (e : goerr) : option (string * string * goerr) :=
  errors_As (λ e, match e with
                  | PayloadCorruptionError id p i => Some (id, p, i)
                  | _ => None
                  end) e.

(** [wrapStoreError] on a non-nil error (every caller has one). *)
Definition wrapStoreError (op : string) (e : goerr) : goerr :=
  match AsStoreError e with Some _ => e | None => StoreError op e end.

(** The in-place [existing.RecordID = recordID] of [newRecordCorruptionError]:
    the first record-corruption error of the chain gets the identifier when it
    has none. *)
Fixpoint fill_recordID (recordID : string) (e : goerr) : goerr :=
  match e with
  | RecordCorruptionError id i =>
      RecordCorruptionError (if decide (id = "") then recordID else id) i
  | EWrapf p i => EWrapf p (fill_recordID recordID i)
  | StoreError op i => StoreError op (fill_recordID recordID i)
  | PayloadCorruptionError id p i => PayloadCorruptionError id p (fill_recordID recordID i)
  | SendError p r a n s t (Some i) => SendError p r a n s t (Some (fill_recordID recordID i))
  | _ => e
  end.

Definition newRecordCorruptionError (recordID : string) (e : goerr) : goerr :=
  match AsRecordCorruptionError e with
  | Some _ => fill_recordID recordID e
  | None => RecordCorruptionError recordID e
  end.

(** ** email/delivery_error.go, email/sender_policy.go, relay/handler.go *)

(** What a [DeliveryError] exposes: provider name, temporary, HTTP status. *)
Record delivery := { de_provider : string; de_temporary : bool; de_status : Z; de_self : goerr }.

Definition AsDeliveryError (e : goerr) : option delivery :=
  errors_As (λ e, match e with
                  | SendError p _ _ _ st t _ =>
                      Some {| de_provider := p; de_temporary := t; de_status := st; de_self := e |}
                  | _ => None
                  end) e.

Definition AsSenderPolicyError (e : goerr) : option string :=
  errors_As (λ e, match e with SenderPolicyError r => Some r | _ => None end) e.

Definition AsBusyError (e : goerr) : option Z :=
  errors_As (λ e, match e with BusyError l => Some l | _ => None end) e.

Definition AsSMTPError (e : goerr) : option (Z * enhanced * string) :=
  errors_As (λ e, match e with SMTPError c h m => Some (c, h, m) | _ => None end) e.

(** ** The [Error()] methods *)

Section Error.
Context `{UnicodeTables}.

Definition errno_text (e : errno) : string :=
  match e with
  | ENOENT => "no such file or directory"
  | EEXIST => "file exists"
  | ENOTDIR => "not a directory"
  | ELOOP => "too many levels of symbolic links"
  | EXDEV => "invalid cross-device link"
  | ENOTEMPTY => "directory not empty"
  | Eother t => t
  end.

Definition StoreError_Error (op inner : string) : string :=
  if decide (TrimSpace op = "") then "spool store error: " +:+ inner
  else "spool store " +:+ TrimSpace op +:+ ": " +:+ inner.

Definition RecordCorruptionError_Error (recordID inner : string) : string :=
  "spool record " +:+ Quote recordID +:+ " is corrupt: " +:+ inner.

Definition PayloadCorruptionError_Error (id path inner : string) : string :=
  if decide (path = "") then "spool payload " +:+ Quote id +:+ " is corrupt: " +:+ inner
  else "spool payload " +:+ Quote id +:+ " at " +:+ path +:+ " is corrupt: " +:+ inner.

Definition SenderPolicyError_Error (reason : string) : string :=
  "sender policy rejected message: " +:+ reason.

Definition BusyError_Error (limit : Z) : string :=
  if limit <=? 0 then "relay busy, try again later"
  else "relay busy, try again later (max inflight: " +:+ Itoa limit +:+ ")".

Definition SendError_Error (provider requestID : string) (attempt attempts statusCode : Z)
    (retryable : bool) (inner : option string) : string :=
  let prefix := provider +:+ " send failed request_id=" +:+ requestID
                +:+ " attempt=" +:+ Itoa attempt +:+ "/" +:+ Itoa attempts
                +:+ " retryable=" +:+ (if retryable then "true" else "false") in
  if 0 <? statusCode then prefix +:+ " status=" +:+ Itoa statusCode
  else match inner with
       | Some m => prefix +:+ " err=" +:+ m
       | None => prefix
       end.

Fixpoint err_Error (e : goerr) : string :=
  match e with
  | EText m => m
  | EWrapf p i => p +:+ ": " +:+ err_Error i
  | ECanceled => "context canceled"
  | EDeadlineExceeded => "context deadline exceeded"
  | EErrno n => errno_text n
  | EUnexpectedFileType => "unexpected file type"
  | StoreError op i => StoreError_Error op (err_Error i)
  | RecordCorruptionError id i => RecordCorruptionError_Error id (err_Error i)
  | PayloadCorruptionError id p i => PayloadCorruptionError_Error id p (err_Error i)
  | SenderPolicyError r => SenderPolicyError_Error r
  | BusyError l => BusyError_Error l
  | SMTPError _ _ m => m
  | SendError p r a n s t o =>
      SendError_Error p r a n s t
        (match o with Some i => Some (err_Error i) | None => None end)
  end.
End Error.

(** ** Lemmas on wrapping *)

