(* ===== verification/GoEncoding.v ===== *)
(** * Go encodings

    [encoding/base64] (standard alphabet), [encoding/hex], the string part of
    [encoding/json], [url.PathEscape], and the functions of [strings] the
    providers use besides those of [GoStrings]. *)
From Stdlib Require Import Ascii.
From S2P Require Import Prelude.
From S2P Require Import GoStrings.
#[local] Open Scope Z_scope.

(** ** strings *)

(** [strings.TrimRight(s, string(c))] *)
Definition TrimRightByte (s : string) (c : ascii) : string :=
  sb (reverse (trim_with [[c]] (length (bs s)) (reverse (bs s)))).

(** [strings.SplitN(s, string(c), 2)]: [None] when [c] does not occur. *)
Fixpoint cut_first (c : ascii) (l : bytes) : option (bytes * bytes) :=
  match l with
  | [] => None
  | a :: l =>
      if decide (a = c) then Some ([], l)
      else match cut_first c l with
           | Some (x, y) => Some (a :: x, y)
           | None => None
           end
  end.

(** [strings.ReplaceAll] with a non-empty pattern. *)
Fixpoint replace_bytes (fuel : nat) (old new l : bytes) : bytes :=
  match fuel, l with
  | O, _ | _, [] => l
  | S fuel, a :: l' =>
      match strip_prefix old l with
      | Some rest => new ++ replace_bytes fuel old new rest
      | None => a :: replace_bytes fuel old new l'
      end
  end.

Definition ReplaceAll (s old new : string) : string :=
  sb (replace_bytes (length (bs s)) (bs old) (bs new) (bs s)).

(** ** encoding/hex *)

Definition hex_EncodeToString (l : bytes) : string := sb (l ≫= hex_byte).

(** ** encoding/base64, [StdEncoding] *)

Definition base64_char (z : Z) : ascii :=
  if z <? 26 then chr (65 + z)
  else if z <? 52 then chr (71 + z)
  else if z <? 62 then chr (z - 4)
  else if z <? 63 then chr 43 else chr 47.

Definition base64_value (c : ascii) : option Z :=
  let z := byte_val c in
  if between 65 90 c then Some (z - 65)
  else if between 97 122 c then Some (z - 71)
  else if between 48 57 c then Some (z + 4)
  else if decide (z = 43) then Some 62
  else if decide (z = 47) then Some 63
  else None.

Definition pad : ascii := chr 61.

Fixpoint base64_encode (l : bytes) : bytes :=
  match l with
  | [] => []
  | [a] =>
      let v := byte_val a in
      [base64_char (v / 4); base64_char (v mod 4 * 16); pad; pad]
  | [a; b] =>
      let v := byte_val a * 256 + byte_val b in
      [base64_char (v / 1024); base64_char (v / 16 mod 64); base64_char (v mod 16 * 4); pad]
  | a :: b :: c :: l =>
      let v := byte_val a * 65536 + byte_val b * 256 + byte_val c in
      base64_char (v / 262144) :: base64_char (v / 4096 mod 64)
        :: base64_char (v / 64 mod 64) :: base64_char (v mod 64) :: base64_encode l
  end.

(** Quanta of four characters; padding ends the input. *)
Fixpoint base64_quanta (l : bytes) : option bytes :=
  match l with
  | [] => Some []
  | a :: b :: c :: d :: l =>
      x ← base64_value a; y ← base64_value b;
      if decide (c = pad) then
        if decide (d = pad ∧ l = []) then Some [chr (x * 4 + y / 16)] else None
      else
        z ← base64_value c;
        if decide (d = pad) then
          if decide (l = []) then Some [chr (x * 4 + y / 16); chr (y mod 16 * 16 + z / 4)]
          else None
        else
          w ← base64_value d;
          rest ← base64_quanta l;
          Some (chr (x * 4 + y / 16) :: chr (y mod 16 * 16 + z / 4)
                  :: chr (z mod 4 * 64 + w) :: rest)
  | _ => None
  end.

(** Line ends in the input are skipped. *)
Definition base64_decode (l : bytes) : option bytes :=
  base64_quanta (filter (λ c, c ≠ chr 10 ∧ c ≠ chr 13) l).

Definition base64_EncodeToString (l : bytes) : string := sb (base64_encode l).

(** ** net/url *)

(** Bytes that [url.PathEscape] keeps: unreserved ones and [$&+=:@]. *)
Definition segment_byte (c : ascii) : bool :=
  between 97 122 c || between 65 90 c || between 48 57 c
  || bool_decide (c ∈ bs "-_.~$&+=:@").

Definition hex_upper (z : Z) : ascii := if z <? 10 then chr (48 + z) else chr (55 + z).

Definition PathEscape (s : string) : string :=
  sb (bs s ≫= λ c,
    if segment_byte c then [c]
    else [chr 37; hex_upper (byte_val c / 16); hex_upper (byte_val c mod 16)]).

(** ** UTF-8 *)

Definition continuation (c : ascii) : bool := between 128 191 c.

(** The length of the valid encoding of a rune at the head of [l]. *)
Definition rune_length (l : bytes) : option nat :=
  match l with
  | [] => None
  | a :: l =>
      if isASCII_byte a then Some 1%nat
      else if between 194 223 a then
        match l with b :: _ => if continuation b then Some 2%nat else None | _ => None end
      else if between 224 239 a then
        match l with
        | b :: c :: _ =>
            let ok := if decide (a = chr 224) then between 160 191 b
                      else if decide (a = chr 237) then between 128 159 b
                      else continuation b in
            if ok && continuation c then Some 3%nat else None
        | _ => None
        end
      else if between 240 244 a then
        match l with
        | b :: c :: d :: _ =>
            let ok := if decide (a = chr 240) then between 144 191 b
                      else if decide (a = chr 244) then between 128 143 b
                      else continuation b in
            if ok && continuation c && continuation d then Some 4%nat else None
        | _ => None
        end
      else None
  end.

(** What is left of a string after [encoding/json]: every byte that is not
    part of a valid encoding is U+FFFD. *)
Fixpoint valid_runes (fuel : nat) (l : bytes) : bytes :=
  match fuel, l with
  | O, _ | _, [] => []
  | S fuel, _ :: l' =>
      match rune_length l with
      | None => [chr 239; chr 191; chr 189] ++ valid_runes fuel l'
      | Some n => take n l ++ valid_runes fuel (drop n l)
      end
  end.

Definition ToValidUTF8 (s : string) : string := sb (valid_runes (length (bs s)) (bs s)).

(** ** encoding/json: strings *)

(** One ASCII byte of a string, with HTML escaping on. *)
Definition json_byte (c : ascii) : bytes :=
  let z := byte_val c in
  if bool_decide (c = dquote ∨ c = backslash) then [backslash; c]
  else match z with
       | 8 => bs "\b" | 12 => bs "\f" | 10 => bs "\n" | 13 => bs "\r" | 9 => bs "\t"
       | _ =>
           if (z <? 32) || bool_decide (c ∈ bs "<>&") then bs "\u00" ++ hex_byte c else [c]
       end.

(** An invalid byte becomes U+FFFD; U+2028 and U+2029 are escaped. *)
Fixpoint json_runes (fuel : nat) (l : bytes) : bytes :=
  match fuel, l with
  | O, _ | _, [] => []
  | S fuel, a :: l' =>
      match rune_length l with
      | None => bs "\ufffd" ++ json_runes fuel l'
      | Some 1%nat => json_byte a ++ json_runes fuel l'
      | Some n =>
          let r := take n l in
          (if decide (r = [chr 226; chr 128; chr 168]) then bs "\u2028"
           else if decide (r = [chr 226; chr 128; chr 169]) then bs "\u2029" else r)
          ++ json_runes fuel (drop n l)
      end
  end.

Definition json_string (s : string) : string :=
  sb (dquote :: json_runes (length (bs s)) (bs s) ++ [dquote]).

(** Objects and arrays from their encoded members. *)
Definition json_object (fields : list (string * string)) : string :=
  "{" +:+ Join ((λ f, json_string f.1 +:+ ":" +:+ f.2) <$> fields) "," +:+ "}".

Definition json_array (items : list string) : string := "[" +:+ Join items "," +:+ "]".

(** Map entries in the order of their keys. *)
Definition key_le (x y : string * string) : Prop := String.leb x.1 y.1 = true.
#[export] Instance key_le_dec : RelDecision key_le.
Proof. intros x y. unfold key_le. apply _. Defined.

Definition sorted_entries (m : gmap string string) : list (string * string) :=
  merge_sort key_le (map_to_list m).

(** ** mime: [QEncoding.Encode("utf-8", s)] *)

(** Bytes other than space that stand for themselves in an encoded word. *)
Definition q_plain (c : ascii) : bool :=
  between 33 126 c && negb (bool_decide (c ∈ bs "=?_")).

Definition q_byte (c : ascii) : bytes :=
  if decide (c = chr 32) then [chr 95]
  else if q_plain c then [c]
  else [chr 61; hex_upper (byte_val c / 16); hex_upper (byte_val c mod 16)].

Definition q_open : bytes := bs "=?utf-8?q?".
Definition q_close : bytes := bs "?=".

(** An encoded word holds 75 characters, 63 of them content; a rune is not
    split between words.  An invalid byte counts as one rune. *)
Fixpoint q_words (fuel : nat) (current : Z) (l : bytes) : bytes :=
  match fuel, l with
  | O, _ | _, [] => []
  | S fuel, b :: _ =>
      let plain := q_plain b || bool_decide (b = chr 32) in
      let runeLen := if plain then 1%nat else default 1%nat (rune_length l) in
      let encLen := if plain then 1 else 3 * Z.of_nat runeLen in
      let split := 63 <? current + encLen in
      (if split then q_close ++ [chr 32] ++ q_open else [])
      ++ (take runeLen l ≫= q_byte)
      ++ q_words fuel ((if split then 0 else current) + encLen) (drop runeLen l)
  end.

Definition q_needs_encoding (s : string) : bool :=
  existsb (λ c, negb (between 32 126 c) && negb (bool_decide (c = chr 9))) (bs s).

Definition QEncode (s : string) : string :=
  if q_needs_encoding s then sb (q_open ++ q_words (length (bs s)) 0 (bs s) ++ q_close) else s.

(** ** Properties *)

Lemma byte_val_range c : 0 <= byte_val c < 256.
Proof. unfold byte_val. pose proof (N_ascii_bounded c). lia. Qed.

Lemma chr_byte_val c : chr (byte_val c) = c.
Proof. unfold chr, byte_val. by rewrite N2Z.id, ascii_N_embedding. Qed.

Lemma byte_val_chr z : 0 <= z < 256 → byte_val (chr z) = z.
Proof. intros ?. unfold chr, byte_val. rewrite N_ascii_embedding by lia. lia. Qed.

Lemma base64_char_spec z : 0 <= z < 64 →
  base64_value (base64_char z) = Some z ∧ base64_char z ≠ pad ∧
  graphic (base64_char z) = true ∧ base64_char z ≠ chr 59.
Proof.
  intros Hz.
  assert (Hall : Forall (λ z, base64_value (base64_char z) = Some z ∧ base64_char z ≠ pad ∧
    graphic (base64_char z) = true ∧ base64_char z ≠ chr 59) (Z.of_nat <$> seq 0 64)).
  { cbn. repeat constructor; vm_compute; by repeat split. }
  rewrite Forall_forall in Hall. apply Hall, list_elem_of_fmap.
  exists (Z.to_nat z). rewrite elem_of_seq. lia.
Qed.

#[local] Ltac divmod := Z.div_mod_to_equations; lia.

(** An encoding consists of printable characters other than [;]. *)
Lemma base64_encode_graphic l :
  Forall (λ c, graphic c = true ∧ c ≠ chr 59) (base64_encode l).
Proof.
  assert (Hz : ∀ z, 0 <= z < 64 → graphic (base64_char z) = true ∧ base64_char z ≠ chr 59).
  { intros z Hz. by destruct (base64_char_spec z Hz) as (_ & _ & ? & ?). }
  assert (Hpad : graphic pad = true ∧ pad ≠ chr 59) by done.
  induction l as [l IH] using (induction_ltof1 _ (@length ascii)); unfold ltof in IH.
  destruct l as [|a [|b [|c l]]]; cbn [base64_encode]; [by constructor|..].
  all: pose proof (byte_val_range a); try pose proof (byte_val_range b);
    try pose proof (byte_val_range c).
  all: repeat (apply Forall_cons; split; [first [exact Hpad|apply Hz; divmod]|]).
  1,2: by constructor.
  apply IH. cbn. lia.
Qed.

Lemma base64_encode_clean l :
  filter (λ c, c ≠ chr 10 ∧ c ≠ chr 13) (base64_encode l) = base64_encode l.
Proof.
  induction (base64_encode_graphic l) as [|c k [Hc _] _ IH]; [done|].
  rewrite filter_cons_True; [by rewrite IH|]. by split; intros ->.
Qed.

Lemma base64_quanta_full x y z w l :
  0 <= x < 64 → 0 <= y < 64 → 0 <= z < 64 → 0 <= w < 64 →
  base64_quanta (base64_char x :: base64_char y :: base64_char z :: base64_char w :: l) =
  (λ rest, chr (x * 4 + y / 16) :: chr (y mod 16 * 16 + z / 4)
             :: chr (z mod 4 * 64 + w) :: rest) <$> base64_quanta l.
Proof.
  intros Hx Hy Hz Hw. cbn [base64_quanta].
  destruct (base64_char_spec x Hx) as (-> & _), (base64_char_spec y Hy) as (-> & _),
    (base64_char_spec z Hz) as (-> & Hzp & _), (base64_char_spec w Hw) as (-> & Hwp & _).
  cbn. rewrite !decide_False by done. by destruct (base64_quanta l).
Qed.

Lemma base64_quanta_encode l : base64_quanta (base64_encode l) = Some l.
Proof.
  induction l as [l IH] using (induction_ltof1 _ (@length ascii)); unfold ltof in IH.
  destruct l as [|a [|b [|c l]]]; cbn [base64_encode]; [done|..];
    pose proof (byte_val_range a) as Ha.
  - cbn [base64_quanta].
    destruct (base64_char_spec (byte_val a / 4)) as (-> & _); [divmod|].
    destruct (base64_char_spec (byte_val a mod 4 * 16)) as (-> & _); [divmod|].
    cbn -[Z.div Z.modulo]. transitivity (Some [chr (byte_val a)]); [|by rewrite chr_byte_val].
    do 3 f_equal. divmod.
  - pose proof (byte_val_range b) as Hb. set (v := byte_val a * 256 + byte_val b).
    assert (Hv : 0 <= v < 65536) by lia. cbn [base64_quanta].
    destruct (base64_char_spec (v / 1024)) as (-> & _); [divmod|].
    destruct (base64_char_spec (v / 16 mod 64)) as (-> & _); [divmod|].
    destruct (base64_char_spec (v mod 16 * 4)) as (-> & Hp & _); [divmod|].
    cbn -[Z.div Z.modulo]. rewrite decide_False by done.
    transitivity (Some [chr (byte_val a); chr (byte_val b)]); [|by rewrite !chr_byte_val].
    repeat f_equal; unfold v; divmod.
  - pose proof (byte_val_range b) as Hb. pose proof (byte_val_range c) as Hc.
    set (v := byte_val a * 65536 + byte_val b * 256 + byte_val c).
    assert (Hv : 0 <= v < 16777216) by lia.
    rewrite base64_quanta_full, IH by first [divmod|cbn; lia]. cbn -[Z.div Z.modulo].
    transitivity (Some (chr (byte_val a) :: chr (byte_val b) :: chr (byte_val c) :: l));
      [|by rewrite !chr_byte_val].
    repeat f_equal; unfold v; divmod.
Qed.

(** What is encoded decodes to itself. *)
Lemma base64_round_trip l : base64_decode (base64_encode l) = Some l.
Proof. unfold base64_decode. rewrite base64_encode_clean. apply base64_quanta_encode. Qed.

Lemma ToValidUTF8_ascii s : isASCII s = true → ToValidUTF8 s = s.
Proof.
  unfold isASCII, ToValidUTF8. intros Hs. rewrite <- (sb_bs s) at 3. f_equal. revert Hs.
  induction (bs s) as [|a l IH]; cbn; [done|]. intros [Ha Hl]%andb_true_iff.
  rewrite Ha. cbn. by rewrite take_0, drop_0, IH.
Qed.

Lemma cut_first_app c a l : c ∉ a → cut_first c (a ++ c :: l) = Some (a, l).
Proof.
  induction a as [|b a IH]; intros Hc; cbn.
  - by rewrite decide_True.
  - rewrite decide_False by set_solver. rewrite IH; [done|]. set_solver.
Qed.

Lemma split_on_single c l : c ∉ l → split_on c l = [l].
Proof.
  induction l as [|b l IH]; intros Hc; cbn; [done|].
  destruct (Ascii.eqb_spec b c) as [->|Hne]; [set_solver|].
  rewrite IH by set_solver. done.
Qed.
