(* ===== verification/GoNumbers.v ===== *)
(** * Decimal numbers

    What [strconv] and [fmt] print for an integer: digits, without a leading
    zero, that denote it. *)
From Stdlib Require Import Ascii.
From stdpp Require Import pretty.
From S2P Require Import Prelude.
From S2P Require Import GoStrings.
From S2P Require Import GoEncoding.
#[local] Open Scope Z_scope.

Definition digit (c : ascii) : bool := between 48 57 c.

(** The number a string of digits denotes. *)
Definition dec_value (l : bytes) : Z := foldl (λ acc c, acc * 10 + (byte_val c - 48)) 0 l.

(** A JSON or Go decimal literal without a sign. *)
Definition decimal (l : bytes) : Prop :=
  forallb digit l = true ∧ l ≠ [] ∧ (head l = Some (chr 48) → l = [chr 48]).

Lemma dec_value_snoc l c : dec_value (l ++ [c]) = dec_value l * 10 + (byte_val c - 48).
Proof. unfold dec_value. by rewrite foldl_app. Qed.

Lemma pretty_N_char_digit (x : N) : (x < 10)%N →
  digit (pretty_N_char x) = true ∧ byte_val (pretty_N_char x) - 48 = Z.of_N x ∧
  ((0 < x)%N → pretty_N_char x ≠ chr 48).
Proof.
  intros Hx.
  assert (x = 0 ∨ x = 1 ∨ x = 2 ∨ x = 3 ∨ x = 4 ∨ x = 5 ∨ x = 6 ∨ x = 7 ∨ x = 8 ∨ x = 9)%N
    as Hcases by lia.
  repeat destruct Hcases as [->|Hcases]; subst; by repeat split.
Qed.

Lemma pretty_N_go_decimal (x : N) s : (0 < x)%N →
  ∃ l, bs (pretty_N_go x s) = l ++ bs s ∧ forallb digit l = true ∧ l ≠ [] ∧
       head l ≠ Some (chr 48) ∧ dec_value l = Z.of_N x.
Proof.
  revert s. induction (N.lt_wf_0 x) as [x _ IH]; intros s Hx.
  rewrite pretty_N_go_step by done.
  destruct (pretty_N_char_digit (x `mod` 10)) as (Hd & Hv & Hz); [by apply N.mod_lt|].
  set (c := pretty_N_char (x `mod` 10)) in *.
  destruct (decide (x < 10)%N) as [Hlt|Hge].
  - rewrite N.div_small by done. exists [c]. rewrite N.mod_small in * by done.
    split; [done|]. split; [cbn; by rewrite Hd|]. split; [done|].
    split; [intros [= Hc]; by apply Hz|]. cbn. lia.
  - destruct (IH (x `div` 10)%N) with (s := String c s) as (l & Hl & Hdig & Hne & Hh & Hval).
    { by apply N.div_lt. } { apply N.div_str_pos. lia. }
    exists (l ++ [c]). rewrite Hl. split; [by rewrite <- app_assoc|].
    split; [rewrite forallb_app, Hdig; cbn; by rewrite Hd|].
    split; [by destruct l|]. split; [by destruct l|].
    rewrite dec_value_snoc, Hval, Hv. rewrite (N.div_mod x 10) at 3 by done. lia.
Qed.

Lemma Itoa_decimal z : 0 <= z → decimal (bs (Itoa z)) ∧ dec_value (bs (Itoa z)) = z.
Proof.
  intros Hz. unfold Itoa, pretty. destruct z as [|p|p]; [| |lia]; unfold pretty_Z.
  - split; [|done]. by split.
  - unfold pretty, pretty_positive, pretty, pretty_N. rewrite decide_False by done.
    destruct (pretty_N_go_decimal (N.pos p) "") as (l & Hl & Hd & Hne & Hh & Hv); [done|].
    rewrite app_nil_r in Hl. rewrite Hl. split; [|done]. by split.
Qed.

Lemma digit_graphic c : digit c = true → graphic c = true.
Proof. destruct c as [[] [] [] [] [] [] [] []]; by intros. Qed.

Lemma Itoa_inj x y : Itoa x = Itoa y → x = y.
Proof. apply pretty_Z_inj. Qed.
