(* ===== verification/GoSHA256.v ===== *)
(** * crypto/sha256 and crypto/hmac

    SHA-256 (FIPS 180-4) on byte lists, with 32-bit words as integers below
    2^32, and HMAC over it. *)
From Stdlib Require Import Ascii.
From S2P Require Import Prelude.
From S2P Require Import GoStrings.
#[local] Open Scope Z_scope.

Definition word32 (x : Z) : Z := Z.land x 4294967295.
Definition add32 (x y : Z) : Z := word32 (x + y).
Definition rotr (x n : Z) : Z := Z.lor (Z.shiftr x n) (word32 (Z.shiftl x (32 - n))).
Definition not32 (x : Z) : Z := Z.lxor x 4294967295.

Definition Ch (x y z : Z) : Z := Z.lxor (Z.land x y) (Z.land (not32 x) z).
Definition Maj (x y z : Z) : Z := Z.lxor (Z.lxor (Z.land x y) (Z.land x z)) (Z.land y z).
Definition Sigma0 (x : Z) : Z := Z.lxor (Z.lxor (rotr x 2) (rotr x 13)) (rotr x 22).
Definition Sigma1 (x : Z) : Z := Z.lxor (Z.lxor (rotr x 6) (rotr x 11)) (rotr x 25).
Definition sigma0 (x : Z) : Z := Z.lxor (Z.lxor (rotr x 7) (rotr x 18)) (Z.shiftr x 3).
Definition sigma1 (x : Z) : Z := Z.lxor (Z.lxor (rotr x 17) (rotr x 19)) (Z.shiftr x 10).

(** The constants are the first 32 bits of the fractional parts of the cube
    roots of the first 64 primes, and of the square roots of the first eight. *)
Definition primes (upto : Z) : list Z :=
  List.filter (λ p, forallb (λ d, negb (p mod d =? 0)) (seqZ 2 (p - 2))) (seqZ 2 (upto - 1)).

(** The largest [r + k] with [k < 2 ^ n] whose cube is at most [x]. *)
Fixpoint cube_root (n : nat) (r x : Z) : Z :=
  match n with
  | O => r
  | S n => let c := r + 2 ^ Z.of_nat n in cube_root n (if c ^ 3 <=? x then c else r) x
  end.

Definition round_constants : list Z :=
  Eval vm_compute in (λ p, word32 (cube_root 36 0 (p * 2 ^ 96))) <$> primes 311.

(** The eight working variables. *)
Record digest := MkDigest {
  d_a : Z; d_b : Z; d_c : Z; d_d : Z; d_e : Z; d_f : Z; d_g : Z; d_h : Z;
}.

Definition initial_digest : digest :=
  Eval vm_compute in
  match (λ p, word32 (Z.sqrt (p * 2 ^ 64))) <$> primes 19 with
  | [a; b; c; d; e; f; g; h] => MkDigest a b c d e f g h
  | _ => MkDigest 0 0 0 0 0 0 0 0
  end.

Definition sha_round (s : digest) (kw : Z * Z) : digest :=
  let t1 := word32 (d_h s + Sigma1 (d_e s) + Ch (d_e s) (d_f s) (d_g s) + kw.1 + kw.2) in
  let t2 := word32 (Sigma0 (d_a s) + Maj (d_a s) (d_b s) (d_c s)) in
  MkDigest (add32 t1 t2) (d_a s) (d_b s) (d_c s) (add32 (d_d s) t1) (d_e s) (d_f s) (d_g s).

(** The message schedule, last word first. *)
Fixpoint schedule (n : nat) (w : list Z) : list Z :=
  match n with
  | O => w
  | S n =>
      let at_ i := nth i w 0 in
      schedule n (word32 (sigma1 (at_ 1%nat) + at_ 6%nat + sigma0 (at_ 14%nat) + at_ 15%nat) :: w)
  end.

Definition compress (s : digest) (block : list Z) : digest :=
  let w := reverse (schedule 48 (reverse block)) in
  let r := foldl sha_round s (zip round_constants w) in
  MkDigest (add32 (d_a s) (d_a r)) (add32 (d_b s) (d_b r)) (add32 (d_c s) (d_c r))
    (add32 (d_d s) (d_d r)) (add32 (d_e s) (d_e r)) (add32 (d_f s) (d_f r))
    (add32 (d_g s) (d_g r)) (add32 (d_h s) (d_h r)).

Fixpoint words (l : list Z) : list Z :=
  match l with
  | a :: b :: c :: d :: l => (((a * 256 + b) * 256 + c) * 256 + d) :: words l
  | _ => []
  end.

Fixpoint blocks (fuel : nat) (l : list Z) : list (list Z) :=
  match fuel, l with
  | O, _ | _, [] => []
  | S fuel, _ => take 16 l :: blocks fuel (drop 16 l)
  end.

(** The [n] low bytes of [x], high byte first. *)
Fixpoint big_endian (n : nat) (x : Z) : list Z :=
  match n with
  | O => []
  | S n => big_endian n (Z.shiftr x 8) ++ [Z.land x 255]
  end.

Definition sha_pad (l : list Z) : list Z :=
  let n := Z.of_nat (length l) in
  l ++ [128] ++ repeat 0 (Z.to_nat ((55 - n) mod 64)) ++ big_endian 8 (n * 8).

Definition digest_bytes (d : digest) : list Z :=
  big_endian 4 (d_a d) ++ big_endian 4 (d_b d) ++ big_endian 4 (d_c d) ++ big_endian 4 (d_d d)
  ++ big_endian 4 (d_e d) ++ big_endian 4 (d_f d) ++ big_endian 4 (d_g d) ++ big_endian 4 (d_h d).

Definition sha256_bytes (l : bytes) : bytes :=
  let w := words (sha_pad (byte_val <$> l)) in
  chr <$> digest_bytes (foldl compress initial_digest (blocks (length w) w)).

(** [sha256.Sum256] *)
Definition sha256 (s : string) : bytes := sha256_bytes (bs s).

(** [hmac.New(sha256.New, key)] over one message *)
Definition hmac_SHA256 (key : bytes) (msg : string) : bytes :=
  let key := if (64 <? Z.of_nat (length key)) then sha256_bytes key else key in
  let key := key ++ repeat (chr 0) (64 - length key) in
  let xor n := (λ c, chr (Z.lxor (byte_val c) n)) <$> key in
  sha256_bytes (xor 0x5c ++ sha256_bytes (xor 0x36 ++ bs msg)).

Lemma sha256_size s : length (sha256 s) = 32%nat.
Proof. reflexivity. Qed.

#[global] Arguments sha256 : simpl never.
#[global] Arguments hmac_SHA256 : simpl never.

(** The test vectors of FIPS 180-4 and RFC 4231. *)
Definition hex_string (l : bytes) : string := sb (l ≫= hex_byte).

Example sha256_empty :
  hex_string (sha256 "") = "e3b0c44298fc1c149afbf4c8996fb92427ae41e4649b934ca495991b7852b855".
Proof. vm_compute. reflexivity. Qed.
Example sha256_abc :
  hex_string (sha256 "abc") = "ba7816bf8f01cfea414140de5dae2223b00361a396177a9cb410ff61f20015ad".
Proof. vm_compute. reflexivity. Qed.
Example sha256_two_blocks :
  hex_string (sha256 "abcdbcdecdefdefgefghfghighijhijkijkljklmklmnlmnomnopnopq") =
  "248d6a61d20638b8e5c026930c3e6039a33ce45964ff2167f6ecedd419db06c1".
Proof. vm_compute. reflexivity. Qed.
Example hmac_case_2 :
  hex_string (hmac_SHA256 (bs "Jefe") "what do ya want for nothing?") =
  "5bdcc146bf60754e6a042426089575c75a003f089d2739839dec58b964ec3843".
Proof. vm_compute. reflexivity. Qed.
