(* ===== verification/GoJSON.v ===== *)
(** * encoding/json

    Values, the compact text [json.Marshal] writes for them, the parser behind
    [json.Unmarshal], and decoding into Go values.  The texts of syntax and
    type errors are abbreviated. *)
From Stdlib Require Import Ascii.
From S2P Require Import Prelude.
From S2P Require Import GoStrings.
From S2P Require Import GoErrors.
From S2P Require Import GoEncoding.
From S2P Require Import GoNumbers.
#[local] Open Scope Z_scope.

Inductive json :=
  | JNull
  | JBool (b : bool)
  | JNumber (lit : bytes)
  | JString (s : bytes)
  | JArray (l : list json)
  | JObject (l : list (bytes * json)).

(** ** Printing *)

Definition print_string (s : bytes) : bytes :=
  dquote :: json_runes (length s) s ++ [dquote].

Fixpoint print (v : json) : bytes :=
  match v with
  | JNull => bs "null"
  | JBool b => bs (if b then "true" else "false")
  | JNumber lit => lit
  | JString s => print_string s
  | JArray l => bs "[" ++ join_bytes (bs ",") (print <$> l) ++ bs "]"
  | JObject l =>
      bs "{" ++ join_bytes (bs ",") ((λ f, print_string f.1 ++ bs ":" ++ print f.2) <$> l) ++ bs "}"
  end.

(** ** Parsing *)

Definition json_space (c : ascii) : bool :=
  bool_decide (c ∈ [chr 32; chr 9; chr 10; chr 13]).

Fixpoint skip_space (l : bytes) : bytes :=
  match l with
  | c :: l' => if json_space c then skip_space l' else l
  | [] => []
  end.

Definition hex_nibble (c : ascii) : option Z :=
  if between 48 57 c then Some (byte_val c - 48)
  else if between 97 102 c then Some (byte_val c - 87)
  else if between 65 70 c then Some (byte_val c - 55)
  else None.

(** [getu4] on what follows the backslash: [uXXXX]. *)
Definition getu4 (l : bytes) : option (Z * bytes) :=
  match l with
  | u :: a :: b :: c :: d :: l =>
      if decide (u = chr 117) then
        w ← hex_nibble a; x ← hex_nibble b; y ← hex_nibble c; z ← hex_nibble d;
        Some (w * 4096 + x * 256 + y * 16 + z, l)
      else None
  | _ => None
  end.

(** [utf8.AppendRune]; a surrogate half is U+FFFD. *)
Definition encode_rune (r : Z) : bytes :=
  if r <? 128 then [chr r]
  else if r <? 2048 then [chr (192 + r / 64); chr (128 + r mod 64)]
  else if (55296 <=? r) && (r <=? 57343) then [chr 239; chr 191; chr 189]
  else if r <? 65536 then
    [chr (224 + r / 4096); chr (128 + r / 64 mod 64); chr (128 + r mod 64)]
  else
    [chr (240 + r / 262144); chr (128 + r / 4096 mod 64); chr (128 + r / 64 mod 64);
     chr (128 + r mod 64)].

(** What follows a backslash: the bytes it stands for, and the rest. *)
Definition unescape (l : bytes) : option (bytes * bytes) :=
  match l with
  | [] => None
  | c :: l' =>
      let z := byte_val c in
      if bool_decide (c = dquote ∨ c = backslash ∨ c = chr 47) then Some ([c], l')
      else if decide (z = 98) then Some ([chr 8], l')
      else if decide (z = 102) then Some ([chr 12], l')
      else if decide (z = 110) then Some ([chr 10], l')
      else if decide (z = 114) then Some ([chr 13], l')
      else if decide (z = 116) then Some ([chr 9], l')
      else
        match getu4 l with
        | None => None
        | Some (r, rest) =>
            if (55296 <=? r) && (r <=? 57343) then
              match rest with
              | b :: rest' =>
                  match (if decide (b = backslash) then getu4 rest' else None) with
                  | Some (r2, rest2) =>
                      if (r <=? 56319) && (56320 <=? r2) && (r2 <=? 57343)
                      then Some (encode_rune ((r - 55296) * 1024 + (r2 - 56320) + 65536), rest2)
                      else Some (encode_rune 65533, rest)
                  | None => Some (encode_rune 65533, rest)
                  end
              | [] => Some (encode_rune 65533, rest)
              end
            else Some (encode_rune r, rest)
        end
  end.

(** One element of a string: the closing quote, an escape, a rune, or a byte
    that is not valid. *)
Definition string_step (l : bytes) : option (option bytes * bytes) :=
  match l with
  | [] => None
  | c :: l' =>
      if decide (c = dquote) then Some (None, l')
      else if decide (c = backslash) then
        '(out, rest) ← unescape l'; Some (Some out, rest)
      else if byte_val c <? 32 then None
      else match rune_length l with
           | Some n => Some (Some (take n l), drop n l)
           | None => Some (Some [chr 239; chr 191; chr 189], l')
           end
  end.

(** A string after its opening quote. *)
Fixpoint parse_string (fuel : nat) (l : bytes) : option (bytes * bytes) :=
  match fuel with
  | O => None
  | S fuel =>
      match string_step l with
      | None => None
      | Some (None, rest) => Some ([], rest)
      | Some (Some out, rest) =>
          '(s, rest) ← parse_string fuel rest; Some (out ++ s, rest)
      end
  end.

Fixpoint span_digits (l : bytes) : bytes * bytes :=
  match l with
  | c :: l' => if digit c then let '(a, b) := span_digits l' in (c :: a, b) else ([], l)
  | [] => ([], [])
  end.

(** [0] or digits without a leading zero. *)
Definition parse_int (l : bytes) : option (bytes * bytes) :=
  match l with
  | c :: l' =>
      if decide (c = chr 48) then Some ([c], l')
      else match span_digits l with ([], _) => None | r => Some r end
  | [] => None
  end.

(** At least one digit after the introducing bytes [p]. *)
Definition digits_after (p l : bytes) : option (bytes * bytes) :=
  match span_digits l with ([], _) => None | (d, rest) => Some (p ++ d, rest) end.

Definition parse_frac (l : bytes) : option (bytes * bytes) :=
  match l with
  | c :: l' => if decide (c = chr 46) then digits_after [c] l' else Some ([], l)
  | [] => Some ([], [])
  end.

Definition parse_exp (l : bytes) : option (bytes * bytes) :=
  match l with
  | c :: l' =>
      if decide (c = chr 101 ∨ c = chr 69) then
        match l' with
        | s :: l'' =>
            if decide (s = chr 43 ∨ s = chr 45) then digits_after [c; s] l'' else digits_after [c] l'
        | [] => None
        end
      else Some ([], l)
  | [] => Some ([], [])
  end.

Definition parse_number (l : bytes) : option (bytes * bytes) :=
  let '(sign, l) := match l with
                    | c :: l' => if decide (c = chr 45) then ([c], l') else ([], l)
                    | [] => ([], [])
                    end in
  '(i, l) ← parse_int l; '(f, l) ← parse_frac l; '(e, l) ← parse_exp l;
  Some (sign ++ i ++ f ++ e, l).

(** The input and the nesting both bound the recursion: [fuel] is at least the
    length of what is left, [depth] the arrays and objects that may still be
    opened ([maxNestingDepth]). *)
Fixpoint parse_value (fuel depth : nat) (l : bytes) : option (json * bytes) :=
  match fuel with
  | O => None
  | S fuel =>
      match skip_space l with
      | [] => None
      | c :: l' =>
          if decide (c = dquote) then
            '(s, rest) ← parse_string (S (length l')) l'; Some (JString s, rest)
          else if decide (c = chr 91) then
            match depth with
            | O => None
            | S depth =>
                match skip_space l' with
                | d :: rest =>
                    if decide (d = chr 93) then Some (JArray [], rest)
                    else '(vs, rest) ← parse_elements fuel depth (d :: rest); Some (JArray vs, rest)
                | [] => None
                end
            end
          else if decide (c = chr 123) then
            match depth with
            | O => None
            | S depth =>
                match skip_space l' with
                | d :: rest =>
                    if decide (d = chr 125) then Some (JObject [], rest)
                    else '(fs, rest) ← parse_members fuel depth (d :: rest); Some (JObject fs, rest)
                | [] => None
                end
            end
          else if decide (c = chr 116) then
            rest ← strip_prefix (bs "rue") l'; Some (JBool true, rest)
          else if decide (c = chr 102) then
            rest ← strip_prefix (bs "alse") l'; Some (JBool false, rest)
          else if decide (c = chr 110) then
            rest ← strip_prefix (bs "ull") l'; Some (JNull, rest)
          else
            '(lit, rest) ← parse_number (c :: l'); Some (JNumber lit, rest)
      end
  end
(** Elements up to the closing bracket. *)
with parse_elements (fuel depth : nat) (l : bytes) : option (list json * bytes) :=
  match fuel with
  | O => None
  | S fuel =>
      '(v, rest) ← parse_value fuel depth l;
      match skip_space rest with
      | c :: rest =>
          if decide (c = chr 44) then
            '(vs, rest) ← parse_elements fuel depth rest; Some (v :: vs, rest)
          else if decide (c = chr 93) then Some ([v], rest)
          else None
      | [] => None
      end
  end
(** Members up to the closing brace. *)
with parse_members (fuel depth : nat) (l : bytes) : option (list (bytes * json) * bytes) :=
  match fuel with
  | O => None
  | S fuel =>
      match skip_space l with
      | c :: rest =>
          if decide (c = dquote) then
            '(k, rest) ← parse_string (S (length rest)) rest;
            match skip_space rest with
            | c :: rest =>
                if decide (c = chr 58) then
                  '(v, rest) ← parse_value fuel depth rest;
                  match skip_space rest with
                  | c :: rest =>
                      if decide (c = chr 44) then
                        '(fs, rest) ← parse_members fuel depth rest; Some ((k, v) :: fs, rest)
                      else if decide (c = chr 125) then Some ([(k, v)], rest)
                      else None
                  | [] => None
                  end
                else None
            | [] => None
            end
          else None
      | [] => None
      end
  end.

Definition maxNestingDepth : nat := Z.to_nat 10000.

(** The whole input is one value. *)
Definition parse (l : bytes) : option json :=
  match parse_value (S (3 * length l)) maxNestingDepth l with
  | Some (v, rest) => match skip_space rest with [] => Some v | _ => None end
  | None => None
  end.

(** ** Round trip

    What [Marshal] prints is parsed back, with strings made valid UTF-8. *)

Lemma string_step_byte c tail :
  isASCII_byte c = true → string_step (json_byte c ++ tail) = Some (Some [c], tail).
Proof.
  destruct c as [[] [] [] [] [] [] [] []]; intros Hc; first [discriminate Hc|reflexivity].
Qed.

Lemma rune_length_app l n tail :
  rune_length l = Some n →
  (0 < n <= length l)%nat ∧ rune_length (take n l ++ tail) = Some n ∧
  (n ≠ 1%nat → ∃ a l', l = a :: l' ∧ isASCII_byte a = false).
Proof.
  destruct l as [|a l]; [done|]. cbn [rune_length].
  destruct (isASCII_byte a) eqn:Ha.
  { intros [= <-]. cbn. rewrite Ha. split; [lia|]. done. }
  assert (Hex : ∀ l, ∃ a0 l', a :: l = a0 :: l' ∧ isASCII_byte a0 = false) by eauto.
  destruct (between 194 223 a) eqn:H2.
  { destruct l as [|b l]; [done|]. destruct (continuation b) eqn:Hb; [|done]. intros [= <-].
    cbn [take app rune_length]. rewrite Ha, H2, Hb. split; [cbn; lia|]. eauto. }
  destruct (between 224 239 a) eqn:H3.
  { destruct l as [|b [|c l]]; [done|done|]. set (ok := if decide (a = chr 224) then _ else _).
    destruct (ok && continuation c) eqn:Hok; [|done]. intros [= <-].
    cbn [take app rune_length]. rewrite Ha, H2, H3. fold ok. rewrite Hok. split; [cbn; lia|]. eauto. }
  destruct (between 240 244 a) eqn:H4; [|done].
  destruct l as [|b [|c [|d l]]]; [done|done|done|].
  set (ok := if decide (a = chr 240) then _ else _).
  destruct (ok && continuation c && continuation d) eqn:Hok; [|done]. intros [= <-].
  cbn [take app rune_length]. rewrite Ha, H2, H3, H4. fold ok. rewrite Hok. split; [cbn; lia|]. eauto.
Qed.

Lemma string_step_rune l n tail :
  rune_length l = Some n → n ≠ 1%nat →
  string_step (take n l ++ tail) = Some (Some (take n l), tail).
Proof.
  intros Hn H1. destruct (rune_length_app l n tail Hn) as (Hlen & Hr & Hhead).
  destruct (Hhead H1) as (a & l' & -> & Ha).
  destruct n as [|n]; [lia|]. cbn [take app] in *. cbn [string_step].
  assert (a ≠ dquote ∧ a ≠ backslash ∧ 32 <= byte_val a) as (Hq & Hb & Hv).
  { destruct a as [[] [] [] [] [] [] [] []]; first [discriminate Ha|by vm_compute]. }
  rewrite !decide_False by done. destruct (Z.ltb_spec (byte_val a) 32); [lia|].
  rewrite Hr. cbn [take drop]. cbn in Hlen.
  rewrite take_app_length', drop_app_length' by (rewrite length_take; lia). done.
Qed.

Lemma parse_string_runes k s F rest :
  (length s <= k)%nat → (length (json_runes k s) < F)%nat →
  parse_string F (json_runes k s ++ dquote :: rest) = Some (valid_runes k s, rest).
Proof.
  revert s F. induction k as [|k IH]; intros s F Hs HF.
  { destruct s; [|cbn in Hs; lia]. destruct F; [cbn in HF; lia|]. done. }
  destruct s as [|a s]; [destruct F; [cbn in HF; lia|]; done|].
  assert (Hstep : ∀ chunk out s',
    (0 < length chunk)%nat → (length s' <= k)%nat →
    (∀ tail, string_step (chunk ++ tail) = Some (Some out, tail)) →
    (length (chunk ++ json_runes k s') < F)%nat →
    parse_string F ((chunk ++ json_runes k s') ++ dquote :: rest) =
    Some (out ++ valid_runes k s', rest)).
  { intros chunk out s' Hc Hs' Hst HF'. rewrite length_app in HF'. destruct F as [|F]; [lia|].
    cbn [parse_string]. rewrite <- app_assoc, Hst. rewrite IH by lia. done. }
  cbn [json_runes valid_runes] in *. cbn in Hs.
  destruct (rune_length (a :: s)) as [n|] eqn:Hn; [|by apply Hstep; [cbn; lia|lia|done|done]].
  destruct (rune_length_app _ _ [] Hn) as (Hlen & _ & Hhead).
  destruct (decide (n = 1%nat)) as [->|H1].
  - assert (Ha : isASCII_byte a = true).
    { cbn in Hn. destruct (isASCII_byte a); [done|]. exfalso. clear -Hn. repeat case_match; done. }
    cbn [take drop]. rewrite take_0, drop_0. apply Hstep; [|lia| |done].
    + clear. unfold json_byte. repeat case_match; cbn; lia.
    + intros tail. by apply string_step_byte.
  - destruct n as [|[|n]]; [lia|done|]. apply Hstep; [| | |done].
    + repeat case_decide; [cbn; lia..|]. rewrite length_take. cbn in *. lia.
    + rewrite length_drop. cbn in *. lia.
    + intros tail. case_decide as E1; [by rewrite E1|]. case_decide as E2; [by rewrite E2|].
      by apply string_step_rune.
Qed.

Lemma parse_print_string s rest :
  ∃ l, print_string s ++ rest = dquote :: l ∧
       parse_string (S (length l)) l = Some (valid_runes (length s) s, rest).
Proof.
  exists (json_runes (length s) s ++ dquote :: rest). split.
  - unfold print_string. cbn. by rewrite <- app_assoc.
  - apply parse_string_runes; [done|]. rewrite length_app. lia.
Qed.

(** The value that is read back. *)
Fixpoint normal (v : json) : json :=
  match v with
  | JString s => JString (valid_runes (length s) s)
  | JArray l => JArray (normal <$> l)
  | JObject l => JObject ((λ f, (valid_runes (length f.1) f.1, normal f.2)) <$> l)
  | _ => v
  end.

(** Arrays and objects nested in [v], and the recursive calls its text takes. *)
Fixpoint nesting (v : json) : nat :=
  match v with
  | JArray l => S (foldr Nat.max O (nesting <$> l))
  | JObject l => S (foldr Nat.max O ((λ f, nesting f.2) <$> l))
  | _ => O
  end.

Fixpoint weight (v : json) : nat :=
  match v with
  | JArray l => S (sum_list ((λ v, S (weight v)) <$> l))
  | JObject l => S (sum_list ((λ f, S (weight f.2)) <$> l))
  | _ => 1%nat
  end.

(** A decimal integer. *)
Definition integral (lit : bytes) : Prop :=
  decimal lit ∨ ∃ l, lit = chr 45 :: l ∧ decimal l.

(** Values whose numbers are integers. *)
Fixpoint decimals (v : json) : Prop :=
  match v with
  | JNumber lit => integral lit
  | JArray l => foldr and True (decimals <$> l)
  | JObject l => foldr and True ((λ f, decimals f.2) <$> l)
  | _ => True
  end.

(** What may follow a value: nothing that would continue a number. *)
Definition ends (rest : bytes) : Prop :=
  match rest with
  | c :: _ => digit c = false ∧ c ∉ [chr 46; chr 101; chr 69]
  | [] => True
  end.

Lemma span_digits_app l rest :
  forallb digit l = true → ends rest → span_digits (l ++ rest) = (l, rest).
Proof.
  intros Hl Hr. induction l as [|c l IH]; cbn.
  - destruct rest as [|c rest]; [done|]. destruct Hr as [Hd _]. cbn. by rewrite Hd.
  - apply andb_true_iff in Hl as [Hc Hl]. by rewrite Hc, IH.
Qed.

Lemma parse_int_decimal lit rest :
  decimal lit → ends rest → parse_int (lit ++ rest) = Some (lit, rest).
Proof.
  intros (Hd & Hne & Hz) Hr. destruct lit as [|c lit]; [done|]. cbn [app]. unfold parse_int.
  case_decide as H0.
  - subst. specialize (Hz eq_refl). injection Hz as ->. done.
  - change (c :: lit ++ rest) with ((c :: lit) ++ rest). by rewrite span_digits_app.
Qed.

Lemma parse_number_integral lit rest :
  integral lit → ends rest → parse_number (lit ++ rest) = Some (lit, rest).
Proof.
  intros Hlit Hr. unfold parse_number.
  assert (Hf : parse_frac rest = Some ([], rest)).
  { destruct rest as [|d rest]; [done|]. destruct Hr as [_ Hn]. unfold parse_frac.
    rewrite decide_False by set_solver. done. }
  assert (He : parse_exp rest = Some ([], rest)).
  { destruct rest as [|d rest]; [done|]. destruct Hr as [_ Hn]. unfold parse_exp.
    rewrite decide_False by set_solver. done. }
  destruct Hlit as [Hlit|(l & -> & Hlit)].
  - assert (Hs : match lit ++ rest with
                 | c :: l' => if decide (c = chr 45) then ([c], l') else ([], lit ++ rest)
                 | [] => ([], [])
                 end = ([], lit ++ rest)).
    { destruct Hlit as (Hd & Hne & _). destruct lit as [|c lit]; [done|].
      apply andb_true_iff in Hd as [Hc _]. cbn [app]. by rewrite decide_False by by intros ->. }
    rewrite Hs. cbn match. rewrite parse_int_decimal by done. cbn [mbind option_bind].
    rewrite Hf. cbn [mbind option_bind]. rewrite He. cbn [mbind option_bind]. by rewrite !app_nil_r.
  - cbn [app]. rewrite decide_True by done. rewrite parse_int_decimal by done.
    cbn [mbind option_bind].
    rewrite Hf. cbn [mbind option_bind]. rewrite He. cbn [mbind option_bind]. by rewrite !app_nil_r.
Qed.

(** The first byte of an integer. *)
Lemma integral_head lit : integral lit → ∃ c l, lit = c :: l ∧ (digit c = true ∨ c = chr 45).
Proof.
  intros [(Hd & Hne & _)|(l & -> & _)]; [|eauto]. destruct lit as [|c l]; [done|].
  apply andb_true_iff in Hd as [? _]. eauto.
Qed.

(** The first byte of a value's text. *)
Lemma print_head v : decimals v → ∃ c l, print v = c :: l ∧ json_space c = false ∧
  c ≠ chr 93 ∧ c ≠ chr 125.
Proof.
  destruct v as [|[]|lit|s|l|l]; intros Hv; cbn;
    try (do 2 eexists; split; [reflexivity|by repeat split]).
  destruct (integral_head lit Hv) as (c & l & -> & Hc). exists c, l. split; [done|].
  destruct Hc as [Hc| ->]; [|done].
  destruct c as [[] [] [] [] [] [] [] []]; first [discriminate Hc|by repeat split].
Qed.

Lemma skip_space_print v rest : decimals v → skip_space (print v ++ rest) = print v ++ rest.
Proof.
  intros (c & l & -> & Hs & _)%print_head. cbn. by rewrite Hs.
Qed.

Lemma fold_max_le (l : list nat) n : (foldr Nat.max O l <= n)%nat ↔ Forall (λ x, x <= n)%nat l.
Proof.
  induction l as [|x l IH]; cbn; [split; [done|lia]|]. rewrite Forall_cons, <- IH. lia.
Qed.

Lemma fold_and {A} (P : A → Prop) l : foldr and True (P <$> l) ↔ Forall P l.
Proof. induction l as [|x l IH]; cbn; [done|]. by rewrite Forall_cons, <- IH. Qed.

Definition print_member (f : bytes * json) : bytes := print_string f.1 ++ bs ":" ++ print f.2.
Definition normal_member (f : bytes * json) : bytes * json :=
  (valid_runes (length f.1) f.1, normal f.2).

Definition value_ok (fuel : nat) : Prop := ∀ v depth rest,
  decimals v → (weight v <= fuel)%nat → (nesting v <= depth)%nat → ends rest →
  parse_value fuel depth (print v ++ rest) = Some (normal v, rest).
Definition elements_ok (fuel : nat) : Prop := ∀ l depth rest,
  l ≠ [] → Forall decimals l → (sum_list ((λ v, S (weight v)) <$> l) <= fuel)%nat →
  Forall (λ v, nesting v <= depth)%nat l →
  parse_elements fuel depth (join_bytes (bs ",") (print <$> l) ++ chr 93 :: rest) =
  Some (normal <$> l, rest).
Definition members_ok (fuel : nat) : Prop := ∀ l depth rest,
  l ≠ [] → Forall (λ f, decimals f.2) l → (sum_list ((λ f, S (weight f.2)) <$> l) <= fuel)%nat →
  Forall (λ f : bytes * json, nesting f.2 <= depth)%nat l →
  parse_members fuel depth (join_bytes (bs ",") (print_member <$> l) ++ chr 125 :: rest) =
  Some (normal_member <$> l, rest).

Lemma ends_sep c rest : c ∈ [chr 44; chr 93; chr 125] → ends (c :: rest).
Proof.
  intros Hc. cbn. repeat (apply elem_of_cons in Hc as [->|Hc]; [split; [done|set_solver]|]).
  by apply elem_of_nil in Hc.
Qed.

Lemma skip_space_cons c l : json_space c = false → skip_space (c :: l) = c :: l.
Proof. cbn. by intros ->. Qed.

Lemma elements_step fuel : value_ok fuel → elements_ok fuel → elements_ok (S fuel).
Proof.
  intros Hv He l depth rest Hne Hd Hw Hn. destruct l as [|v l]; [done|].
  apply Forall_cons in Hd as [Hdv Hd], Hn as [Hnv Hn]. cbn in Hw.
  cbn [parse_elements]. destruct l as [|w l].
  - cbn [fmap list_fmap join_bytes]. rewrite Hv by first [done|lia|apply ends_sep; set_solver].
    cbn [mbind option_bind skip_space]. done.
  - cbn [fmap list_fmap]. change (join_bytes (bs ",") (print v :: print w :: (print <$> l))) with
      (print v ++ chr 44 :: join_bytes (bs ",") (print <$> (w :: l))).
    rewrite <- app_assoc. cbn [app].
    rewrite Hv by first [done|lia|apply ends_sep; set_solver]. cbn [mbind option_bind].
    rewrite skip_space_cons by done. cbn match. rewrite decide_True by done.
    cbn in Hw. rewrite He by first [done|cbn; lia]. done.
Qed.

Lemma members_step fuel : value_ok fuel → members_ok fuel → members_ok (S fuel).
Proof.
  intros Hv He l depth rest Hne Hd Hw Hn. destruct l as [|[k v] l]; [done|].
  apply Forall_cons in Hd as [Hdv Hd], Hn as [Hnv Hn]. cbn in Hw, Hdv, Hnv.
  cbn [parse_members].
  assert (Hkey : ∀ tail, ∃ r, print_member (k, v) ++ tail = dquote :: r ∧
    parse_string (S (length r)) r =
    Some (valid_runes (length k) k, chr 58 :: print v ++ tail)).
  { intros tail. destruct (parse_print_string k (chr 58 :: print v ++ tail)) as (r & Hr & Hp).
    exists r. split; [|done]. rewrite <- Hr. unfold print_member. by rewrite <- !app_assoc. }
  destruct l as [|w l].
  - cbn [fmap list_fmap join_bytes]. destruct (Hkey (chr 125 :: rest)) as (r & -> & Hp).
    rewrite skip_space_cons by done. cbn match. rewrite decide_True by done.
    rewrite Hp. cbn [mbind option_bind]. rewrite skip_space_cons by done. cbn match.
    rewrite decide_True by done.
    rewrite Hv by first [done|lia|apply ends_sep; set_solver]. done.
  - cbn [fmap list_fmap].
    change (join_bytes (bs ",") (print_member (k, v) :: print_member w :: (print_member <$> l)))
      with (print_member (k, v) ++ chr 44 :: join_bytes (bs ",") (print_member <$> (w :: l))).
    rewrite <- app_assoc. cbn [app].
    destruct (Hkey (chr 44 :: join_bytes (bs ",") (print_member <$> w :: l) ++ chr 125 :: rest))
      as (r & -> & Hp).
    rewrite skip_space_cons by done. cbn match. rewrite decide_True by done.
    rewrite Hp. cbn [mbind option_bind]. rewrite skip_space_cons by done. cbn match.
    rewrite decide_True by done.
    rewrite Hv by first [done|lia|apply ends_sep; set_solver]. cbn [mbind option_bind].
    rewrite skip_space_cons by done. cbn match. rewrite decide_True by done.
    cbn in Hw. rewrite He by first [done|cbn; lia]. done.
Qed.

Lemma value_step fuel : elements_ok fuel → members_ok fuel → value_ok (S fuel).
Proof.
  intros He Hm v depth rest Hd Hw Hn Hr. cbn [parse_value].
  rewrite skip_space_print by done. destruct v as [|[]|lit|s|l|l]; try done.
  - (* a number *)
    pose proof Hd as Hlit. apply integral_head in Hlit as (c & l & -> & Hc). cbn [print app].
    assert (c ≠ dquote ∧ c ≠ chr 91 ∧ c ≠ chr 123 ∧ c ≠ chr 116 ∧ c ≠ chr 102 ∧ c ≠ chr 110)
      as (? & ? & ? & ? & ? & ?).
    { destruct Hc as [Hc| ->]; [|done].
      destruct c as [[] [] [] [] [] [] [] []]; first [discriminate Hc|by repeat split]. }
    rewrite !decide_False by done.
    change (c :: l ++ rest) with ((c :: l) ++ rest). by rewrite parse_number_integral.
  - destruct (parse_print_string s rest) as (r & Hr' & Hp). cbn [print]. rewrite Hr'.
    rewrite decide_True by done. rewrite Hp. done.
  - cbn [print]. rewrite <- !app_assoc. cbn [app].
    change (bs "[") with [chr 91]. change (bs "]") with [chr 93]. cbn [app].
    rewrite decide_False, decide_True by done. cbn in Hn. destruct depth as [|depth]; [lia|].
    destruct l as [|v l]; [done|].
    destruct (print_head v) as (c & t & Hpv & Hsp & Hc93 & _); [by apply fold_and in Hd; inversion Hd|].
    assert (Hhead : ∃ t', join_bytes (bs ",") (print <$> v :: l) ++ chr 93 :: rest = c :: t').
    { cbn [fmap list_fmap]. rewrite Hpv. destruct (print <$> l); cbn; eauto. }
    destruct Hhead as (t' & Ht'). rewrite Ht'. cbn [skip_space]. rewrite Hsp.
    rewrite decide_False by done. rewrite <- Ht'.
    rewrite He; [done|done|by apply fold_and|cbn in *; lia|].
    assert (H : Forall (λ x, x <= depth)%nat (nesting <$> v :: l)) by (apply fold_max_le; lia).
    by apply Forall_fmap in H.
  - cbn [print]. rewrite <- !app_assoc. cbn [app].
    change (bs "{") with [chr 123]. change (bs "}") with [chr 125]. cbn [app].
    rewrite !decide_False, decide_True by done. cbn in Hn. destruct depth as [|depth]; [lia|].
    destruct l as [|[k v] l]; [done|].
    set (text := join_bytes _ _).
    assert (Hhead : ∃ t', text ++ chr 125 :: rest = dquote :: t').
    { unfold text. cbn [fmap list_fmap].
      match goal with |- context [join_bytes _ (_ :: ?x)] => destruct x end; cbn; eauto. }
    destruct Hhead as (t' & Ht'). rewrite Ht'. rewrite skip_space_cons by done. cbn match. rewrite decide_False by done. rewrite <- Ht'. unfold text.
    change (λ f : bytes * json, print_string f.1 ++ bs ":" ++ print f.2) with print_member.
    rewrite Hm; [done|done|by apply (fold_and (λ f : bytes * json, decimals f.2))|cbn in *; lia|].
    assert (H : Forall (λ x, x <= depth)%nat ((λ f : bytes * json, nesting f.2) <$> (k, v) :: l))
      by (apply fold_max_le; lia).
    by apply Forall_fmap in H.
Qed.

Lemma parse_print_fuel fuel : value_ok fuel ∧ elements_ok fuel ∧ members_ok fuel.
Proof.
  induction fuel as [|fuel (IHv & IHe & IHm)].
  - split_and!.
    + intros v depth rest _ Hw. destruct v; cbn in Hw; lia.
    + intros l depth rest Hne _ Hw. destruct l; [done|]. cbn in Hw. lia.
    + intros l depth rest Hne _ Hw. destruct l; [done|]. cbn in Hw. lia.
  - split_and!; [by apply value_step|by apply elements_step|by apply members_step].
Qed.

Lemma join_weight {A} (f : A → nat) (g : A → bytes) l :
  Forall (λ x, f x <= 2 * length (g x))%nat l →
  (sum_list ((λ x, S (f x)) <$> l) <= 2 * length (join_bytes (bs ",") (g <$> l)) + 1)%nat.
Proof.
  induction 1 as [|x l Hx _ IH]; [cbn; lia|]. destruct l as [|y l]; [cbn in *; lia|].
  change (join_bytes (bs ",") (g <$> x :: y :: l)) with
    (g x ++ bs "," ++ join_bytes (bs ",") (g <$> y :: l)).
  rewrite !length_app. change (length (bs ",")) with 1%nat.
  change (sum_list ((λ x, S (f x)) <$> x :: y :: l)) with
    (S (f x) + sum_list ((λ x, S (f x)) <$> y :: l))%nat. lia.
Qed.

Lemma weight_elem {A} (f : A → nat) l x :
  x ∈ l → (f x < S (sum_list ((λ x, S (f x)) <$> l)))%nat.
Proof.
  induction l as [|y l IH]; intros Hx; [by apply elem_of_nil in Hx|].
  apply elem_of_cons in Hx as [->|Hx]; cbn; [lia|]. specialize (IH Hx). lia.
Qed.

Lemma weight_print v : decimals v → (weight v <= 2 * length (print v))%nat.
Proof.
  remember (weight v) as n eqn:Hn. revert v Hn. induction (lt_wf n) as [n _ IH].
  intros v -> Hd. destruct v as [|[]|lit|s|l|l]; try (cbn; lia).
  - destruct (integral_head lit Hd) as (c & l & -> & _). cbn. lia.
  - change (weight (JArray l)) with (S (sum_list ((λ x, S (weight x)) <$> l))) in *.
    change (decimals (JArray l)) with (foldr and True (decimals <$> l)) in Hd.
    apply fold_and in Hd. rewrite Forall_forall in Hd.
    assert (Hl : Forall (λ x, weight x <= 2 * length (print x))%nat l).
    { apply Forall_forall. intros x Hx. eapply IH; [by apply weight_elem|done|by apply Hd]. }
    apply join_weight in Hl. change (print (JArray l)) with
      (bs "[" ++ join_bytes (bs ",") (print <$> l) ++ bs "]").
    rewrite !length_app. change (length (bs "[")) with 1%nat. change (length (bs "]")) with 1%nat. lia.
  - change (weight (JObject l)) with (S (sum_list ((λ f, S (weight f.2)) <$> l))) in *.
    change (decimals (JObject l)) with (foldr and True ((λ f, decimals f.2) <$> l)) in Hd.
    apply (fold_and (λ f : bytes * json, decimals f.2)) in Hd. rewrite Forall_forall in Hd.
    assert (Hl : Forall (λ f : bytes * json, weight f.2 <= 2 * length (print_member f))%nat l).
    { apply Forall_forall. intros f Hf. transitivity (2 * length (print f.2))%nat.
      - eapply IH; [|done|by apply Hd]. by apply (weight_elem (λ f : bytes * json, weight f.2)).
      - unfold print_member. rewrite !length_app. lia. }
    apply join_weight in Hl. change (print (JObject l)) with
      (bs "{" ++ join_bytes (bs ",") (print_member <$> l) ++ bs "}").
    rewrite !length_app. change (length (bs "{")) with 1%nat. change (length (bs "}")) with 1%nat. lia.
Qed.

(** The text of a value is parsed to the value with its strings made valid. *)
Lemma parse_print v :
  decimals v → (nesting v <= maxNestingDepth)%nat → parse (print v) = Some (normal v).
Proof.
  intros Hd Hn. unfold parse. pose proof (weight_print v Hd) as Hw.
  destruct (parse_print_fuel (S (3 * length (print v)))) as (Hv & _ & _).
  rewrite <- (app_nil_r (print v)) at 2. by rewrite Hv by first [done|lia].
Qed.

(** ** Decoding

    [Unmarshal] into a Go value changes it in place; a value of the wrong type
    is skipped and reported at the end. *)

Definition decoded (A : Type) : Type := A * option goerr.

Definition first_error (e e' : option goerr) : option goerr :=
  match e with Some _ => e | None => e' end.

Definition type_error : option goerr := Some (EText "json: cannot unmarshal value").

Definition decode_string (v : json) (old : string) : decoded string :=
  match v with
  | JString s => (sb s, None)
  | JNull => (old, None)
  | _ => (old, type_error)
  end.

(** [strconv.ParseInt(lit, 10, 64)] *)
Definition ParseInt64 (lit : bytes) : option Z :=
  let '(neg, l) := match lit with
                   | c :: l => if decide (c = chr 45) then (true, l) else (false, lit)
                   | [] => (false, [])
                   end in
  if decide (l = []) then None
  else if forallb digit l then
    let z := if neg then - dec_value l else dec_value l in
    if (- 2 ^ 63 <=? z) && (z <? 2 ^ 63) then Some z else None
  else None.

Lemma ParseInt64_Itoa z : - 2 ^ 63 <= z < 2 ^ 63 →
  integral (bs (Itoa z)) ∧ ParseInt64 (bs (Itoa z)) = Some z.
Proof.
  intros Hz. destruct (Z.leb_spec 0 z) as [Hpos|Hneg].
  - destruct (Itoa_decimal z Hpos) as [Hd Hv]. split; [by left|]. destruct Hd as (Hd & Hne & _).
    unfold ParseInt64. destruct (bs (Itoa z)) as [|c l] eqn:Hb; [done|].
    pose proof Hd as [Hc _]%andb_true_iff. rewrite decide_False by by intros ->.
    rewrite decide_False by done. rewrite Hd, Hv.
    destruct (Z.leb_spec (- 2 ^ 63) z); [|lia]. destruct (Z.ltb_spec z (2 ^ 63)); [done|lia].
  - destruct (Itoa_decimal (- z)) as [Hd Hv]; [lia|].
    assert (Hs : bs (Itoa z) = chr 45 :: bs (Itoa (- z))) by (by destruct z).
    rewrite Hs. split; [right; eauto|]. unfold ParseInt64. rewrite decide_True by done.
    destruct Hd as (Hd & Hne & _). rewrite decide_False by done. rewrite Hd, Hv, Z.opp_involutive.
    destruct (Z.leb_spec (- 2 ^ 63) z); [|lia]. destruct (Z.ltb_spec z (2 ^ 63)); [done|lia].
Qed.

Definition decode_int64 (v : json) (old : Z) : decoded Z :=
  match v with
  | JNumber lit => match ParseInt64 lit with Some z => (z, None) | None => (old, type_error) end
  | JNull => (old, None)
  | _ => (old, type_error)
  end.

(** A slice: its elements, and those beyond its length in the same array. *)
Definition slice_of (A : Type) : Type := list A * list A.

Fixpoint decode_elements {A} (f : json → A → decoded A) (zero : A) (vs : list json) (old : list A)
    : list A * list A * option goerr :=
  match vs with
  | [] => ([], old, None)
  | v :: vs =>
      let '(x, e) := f v (default zero (head old)) in
      let '(xs, hidden, e') := decode_elements f zero vs (tail old) in
      (x :: xs, hidden, first_error e e')
  end.

Definition decode_slice {A} (f : json → A → decoded A) (zero : A) (v : json) (old : slice_of A)
    : decoded (slice_of A) :=
  match v with
  | JArray [] | JNull => (([], []), None)
  | JArray vs =>
      let '(xs, hidden, e) := decode_elements f zero vs (old.1 ++ old.2) in ((xs, hidden), e)
  | _ => (old, type_error)
  end.

(** Key matching: exact, or up to case.  Two runes outside ASCII fold to ASCII
    letters: U+017F to [s] and U+212A to [k]. *)
Fixpoint fold_key (l : bytes) : bytes :=
  match l with
  | [] => []
  | a :: l1 =>
      match l1 with
      | [] => [lower_byte a]
      | b :: l2 =>
          if decide ([a; b] = [chr 197; chr 191]) then chr 115 :: fold_key l2
          else match l2 with
               | [] => lower_byte a :: fold_key l1
               | c :: l3 =>
                   if decide ([a; b; c] = [chr 226; chr 132; chr 170]) then chr 107 :: fold_key l3
                   else lower_byte a :: fold_key l1
               end
      end
  end.

(** The field a key selects among [names]. *)
Definition match_key (names : list string) (key : bytes) : option string :=
  match list_find (λ n, bs n = key) names with
  | Some (_, n) => Some n
  | None => snd <$> list_find (λ n, fold_key (bs n) = fold_key key) names
  end.

(** A struct: [set] decodes a value into the field of that name; keys of no
    field are skipped. *)
Fixpoint decode_members {A} (names : list string) (set : string → json → A → decoded A)
    (ms : list (bytes * json)) (old : A) : decoded A :=
  match ms with
  | [] => (old, None)
  | (key, v) :: ms =>
      let '(x, e) := match match_key names key with
                     | Some n => set n v old
                     | None => (old, None)
                     end in
      let '(x, e') := decode_members names set ms x in (x, first_error e e')
  end.

Definition decode_struct {A} (names : list string) (set : string → json → A → decoded A)
    (v : json) (old : A) : decoded A :=
  match v with
  | JObject ms => decode_members names set ms old
  | JNull => (old, None)
  | _ => (old, type_error)
  end.

(** A pointer: [null] clears it, anything else decodes into what it points to,
    new when it is nil. *)
Definition decode_pointer {A} (f : json → A → decoded A) (zero : A) (v : json) (old : option A)
    : decoded (option A) :=
  match v with
  | JNull => (None, None)
  | _ => let '(x, e) := f v (default zero old) in (Some x, e)
  end.

(** [json.Unmarshal(data, &x)] with [x] holding [zero]. *)
Definition Unmarshal {A} (decode : json → A → decoded A) (zero : A) (data : string) : A + goerr :=
  match parse (bs data) with
  | None => inr (EText "invalid JSON text")
  | Some v =>
      match decode v zero with
      | (x, None) => inl x
      | (_, Some e) => inr e
      end
  end.
