(* ===== verification/GoNetip.v ===== *)
(** * net/netip

    Addresses as numbers with their family, prefixes, the parsers of both, and
    membership.  The texts of parse errors are abbreviated. *)
From Stdlib Require Import Ascii.
From S2P Require Import Prelude.
From S2P Require Import GoStrings.
From S2P Require Import GoErrors.
From S2P Require Import GoEncoding.
From S2P Require Import GoJSON.
#[local] Open Scope Z_scope.

Inductive Addr :=
  | NoAddr                             (** the zero [netip.Addr] *)
  | Addr4 (a : Z)                      (** 32 bits *)
  | Addr6 (a : Z) (zone : string).     (** 128 bits *)

#[export] Instance Addr_eq_dec : EqDecision Addr.
Proof. solve_decision. Defined.

Record Prefix := MkPrefix { pfx_ip : Addr; pfx_bits : Z }.

Definition BitLen (a : Addr) : Z :=
  match a with NoAddr => 0 | Addr4 _ => 32 | Addr6 _ _ => 128 end.

(** Bytes, high byte first. *)
Definition bytes_value (l : bytes) : Z := foldl (λ acc c, acc * 256 + byte_val c) 0 l.

Definition AddrFromSlice (l : bytes) : option Addr :=
  if decide (length l = 4%nat) then Some (Addr4 (bytes_value l))
  else if decide (length l = 16%nat) then Some (Addr6 (bytes_value l) "")
  else None.

(** [Is4In6], [Unmap] *)
Definition Unmap (a : Addr) : Addr :=
  match a with
  | Addr6 v z => if Z.shiftr v 32 =? 65535 then Addr4 (Z.land v 4294967295) else a
  | _ => a
  end.

Definition prefix_IsValid (p : Prefix) : bool :=
  match pfx_ip p with
  | NoAddr => false
  | a => (0 <=? pfx_bits p) && (pfx_bits p <=? BitLen a)
  end.

(** The [n] high bits of 128. *)
Definition mask6 (n : Z) : Z := Z.shiftl (Z.ones n) (128 - n).

Definition prefix_Contains (p : Prefix) (ip : Addr) : bool :=
  prefix_IsValid p &&
  match pfx_ip p, ip with
  | Addr4 x, Addr4 y => Z.shiftr (Z.lxor y x) (32 - pfx_bits p) =? 0
  | Addr6 x _, Addr6 y z =>
      bool_decide (z = "") && (Z.land (Z.lxor y x) (mask6 (pfx_bits p)) =? 0)
  | _, _ => false
  end.

(** ** Parsing *)

(** A number in [base] digits; [None] when there is another character. *)
Fixpoint digits_value (base acc : Z) (l : bytes) : option Z :=
  match l with
  | [] => Some acc
  | c :: l =>
      d ← hex_nibble c;
      if d <? base then digits_value base (acc * base + d) l else None
  end.

(** One octet: up to 255, without leading zeros. *)
Definition parse_octet (l : bytes) : option Z :=
  match l with
  | [] => None
  | c :: l' =>
      if decide (c = "0"%char ∧ l' ≠ []) then None
      else v ← digits_value 10 0 l; if v <? 256 then Some v else None
  end.

Definition parseIPv4Fields (l : bytes) : option Z :=
  match parse_octet <$> split_on (chr 46) l with
  | [Some a; Some b; Some c; Some d] => Some (((a * 256 + b) * 256 + c) * 256 + d)
  | _ => None
  end.

(** The bytes after [::] move to the end. *)
Definition expand_ellipsis (before after : list Z) : option (list Z) :=
  let n := (8 - (length before + length after))%nat in
  if decide (n = O) then None else Some (before ++ replicate n 0 ++ after).

Definition group_value (groups : list Z) : Z := foldl (λ acc g, acc * 65536 + g) 0 groups.

(** The state of the loop: the groups before the ellipsis if there was one, and
    the groups since. *)
Definition groups_done (ellipsis : option (list Z)) (groups : list Z) : option (list Z) :=
  match ellipsis with
  | Some before => expand_ellipsis before groups
  | None => if decide (length groups = 8%nat) then Some groups else None
  end.

Definition hex_byte_p (c : ascii) : bool := bool_decide (is_Some (hex_nibble c)).

Fixpoint hex_span (l : bytes) : bytes * bytes :=
  match l with
  | [] => ([], [])
  | c :: l' => if hex_byte_p c then let '(a, b) := hex_span l' in (c :: a, b) else ([], l)
  end.

Fixpoint parse_groups (fuel : nat) (ellipsis : option (list Z)) (groups : list Z) (l : bytes)
    : option (list Z) :=
  let i := (length (default [] ellipsis) + length groups)%nat in
  match fuel with
  | O => None
  | S fuel =>
      if decide (8 <= i)%nat then None
      else
        let '(digits, rest) := hex_span l in
        if decide (digits = [] ∨ (4 < length digits)%nat) then None
        else
          match rest with
          | [] => v ← digits_value 16 0 digits; groups_done ellipsis (groups ++ [v])
          | c :: rest' =>
              if decide (c = chr 46) then
                if match ellipsis with
                   | None => negb (bool_decide (i = 6%nat))
                   | Some _ => bool_decide (6 < i)%nat
                   end then None
                else v ← parseIPv4Fields l;
                     groups_done ellipsis (groups ++ [Z.shiftr v 16; Z.land v 65535])
              else if decide (c ≠ chr 58) then None
              else
                v ← digits_value 16 0 digits;
                let groups := groups ++ [v] in
                match rest' with
                | [] => None
                | c :: rest'' =>
                    if decide (c = chr 58) then
                      match ellipsis with
                      | Some _ => None
                      | None =>
                          match rest'' with
                          | [] => groups_done (Some groups) []
                          | _ => parse_groups fuel (Some groups) [] rest''
                          end
                      end
                    else parse_groups fuel ellipsis groups rest'
                end
          end
  end.

Definition parseIPv6 (l : bytes) : option Addr :=
  let '(l, zone) := match cut_first (chr 37) l with
                    | Some (a, z) => (a, Some z)
                    | None => (l, None)
                    end in
  if decide (zone = Some []) then None
  else
    let zone := sb (default [] zone) in
    groups ← match strip_prefix (bs "::") l with
             | Some [] => Some (replicate 8 0)
             | Some rest => parse_groups (S (length l)) (Some []) [] rest
             | None => parse_groups (S (length l)) None [] l
             end;
    Some (Addr6 (group_value groups) zone).

(** The first of [.], [:] and [%] decides. *)
Fixpoint parse_addr_at (l rest : bytes) : option Addr :=
  match rest with
  | [] => None
  | c :: rest =>
      if decide (c = chr 46) then Addr4 <$> parseIPv4Fields l
      else if decide (c = chr 58) then parseIPv6 l
      else if decide (c = chr 37) then None
      else parse_addr_at l rest
  end.

Definition ParseAddr (s : string) : Addr + goerr :=
  match parse_addr_at (bs s) (bs s) with
  | Some a => inl a
  | None => inr (EText ("ParseAddr(" +:+ s +:+ "): unable to parse IP"))
  end.

Definition parse_bits (l : bytes) : option Z :=
  match l with
  | [] => None
  | c :: l' => if decide (c = "0"%char ∧ l' ≠ []) then None else digits_value 10 0 l
  end.

Definition ParsePrefix (s : string) : Prefix + goerr :=
  let bad (msg : string) := inr (EText ("netip.ParsePrefix(" +:+ s +:+ "): " +:+ msg)) in
  match cut_last (chr 47) (bs s) with
  | None => bad "no '/'"
  | Some (addr, bits) =>
      match ParseAddr (sb addr) with
      | inr e => bad "unable to parse IP"
      | inl NoAddr => bad "unable to parse IP"
      | inl ip =>
          if match ip with Addr6 _ z => negb (bool_decide (z = "")) | _ => false end then
            bad "IPv6 zones cannot be present in a prefix"
          else
            match parse_bits bits with
            | None => bad "bad bits after slash"
            | Some n =>
                if BitLen ip <? n then bad "prefix length out of range"
                else inl (MkPrefix ip n)
            end
      end
  end.

(** ** Properties *)

(** An address in the range of its family. *)
Definition addr_wf (a : Addr) : Prop :=
  match a with
  | NoAddr => False
  | Addr4 v => 0 <= v < 2 ^ 32
  | Addr6 v _ => 0 <= v < 2 ^ 128
  end.

Definition prefix_wf (p : Prefix) : Prop :=
  addr_wf (pfx_ip p) ∧ 0 <= pfx_bits p <= BitLen (pfx_ip p).

(** CIDR membership: same family, no zone, and the same leading bits. *)
Definition in_block (p : Prefix) (a : Addr) : Prop :=
  match pfx_ip p, a with
  | Addr4 x, Addr4 y => y / 2 ^ (32 - pfx_bits p) = x / 2 ^ (32 - pfx_bits p)
  | Addr6 x _, Addr6 y z => z = "" ∧ y / 2 ^ (128 - pfx_bits p) = x / 2 ^ (128 - pfx_bits p)
  | _, _ => False
  end.

Lemma shiftr_lxor_zero x y n :
  Z.shiftr (Z.lxor y x) n = 0 ↔ Z.shiftr y n = Z.shiftr x n.
Proof. rewrite Z.shiftr_lxor. split; [apply Z.lxor_eq|intros ->; apply Z.lxor_nilpotent]. Qed.

Lemma land_mask6_zero v n :
  0 <= v < 2 ^ 128 → 0 <= n <= 128 → Z.land v (mask6 n) = 0 ↔ Z.shiftr v (128 - n) = 0.
Proof.
  intros Hv Hn. unfold mask6. split; intros H; apply Z.bits_inj'; intros i Hi.
  - rewrite Z.bits_0, Z.shiftr_spec by lia.
    destruct (decide (i < n)) as [Hlt|Hge].
    + apply (f_equal (λ z, Z.testbit z (i + (128 - n)))) in H.
      rewrite Z.bits_0, Z.land_spec, Z.shiftl_spec in H by lia.
      rewrite Z.ones_spec_low in H by lia. by rewrite andb_true_r in H.
    + destruct (decide (v = 0)) as [->|Hnz]; [by rewrite Z.bits_0|].
      apply Z.bits_above_log2; [lia|]. apply Z.log2_lt_pow2; [lia|].
      eapply Z.lt_le_trans; [apply Hv|]. apply Z.pow_le_mono_r; lia.
  - rewrite Z.bits_0, Z.land_spec.
    destruct (decide (i < 128 - n)) as [Hlt|Hge].
    + rewrite Z.shiftl_spec_low by lia. apply andb_false_r.
    + apply (f_equal (λ z, Z.testbit z (i - (128 - n)))) in H.
      rewrite Z.bits_0, Z.shiftr_spec in H by lia.
      replace (i - (128 - n) + (128 - n)) with i in H by lia. by rewrite H.
Qed.

Lemma prefix_Contains_spec p a :
  prefix_wf p → addr_wf a → prefix_Contains p a = true ↔ in_block p a.
Proof.
  intros [Hx Hb] Ha. unfold prefix_Contains, in_block, prefix_IsValid.
  destruct p as [ip n]; cbn [pfx_ip pfx_bits] in *.
  destruct ip as [|x|x zx]; [done| |]; cbn [BitLen] in *;
    (destruct (0 <=? n) eqn:E1; [|apply Z.leb_gt in E1; lia]);
    match goal with |- context [n <=? ?k] =>
      destruct (n <=? k) eqn:E2; [|apply Z.leb_gt in E2; lia] end;
    cbn [andb]; destruct a as [|y|y z]; try done.
  - rewrite Z.eqb_eq, shiftr_lxor_zero, !Z.shiftr_div_pow2 by lia. done.
  - rewrite andb_true_iff, bool_decide_eq_true, Z.eqb_eq, land_mask6_zero.
    + by rewrite shiftr_lxor_zero, !Z.shiftr_div_pow2 by lia.
    + cbn in Hx, Ha. split; [apply Z.lxor_nonneg; lia|].
      destruct (decide (Z.lxor y x = 0)) as [->|Hnz]; [lia|].
      apply Z.log2_lt_pow2; [|].
      { assert (0 <= Z.lxor y x) by (apply Z.lxor_nonneg; lia). lia. }
      eapply Z.le_lt_trans; [apply Z.log2_lxor; lia|].
      apply Z.max_lub_lt; (destruct (decide (0 < y)), (decide (0 < x));
        first [apply Z.log2_lt_pow2; lia|
               replace y with 0 by lia; done|replace x with 0 by lia; done]).
    + lia.
Qed.

(** *** Addresses that parse are in range *)

Lemma hex_nibble_range c d : hex_nibble c = Some d → 0 <= d < 16.
Proof.
  unfold hex_nibble, between. intros H.
  repeat match type of H with context [if ?b then _ else _] => destruct b eqn:? end;
    try done; injection H as <-; rewrite andb_true_iff in *; lia.
Qed.

Lemma digits_value_range base acc l v k :
  0 < base → 0 <= acc < base ^ Z.of_nat k → digits_value base acc l = Some v →
  0 <= v < base ^ Z.of_nat (k + length l).
Proof.
  intros Hb. revert acc k. induction l as [|c l IH]; intros acc k Ha; cbn.
  - intros [= <-]. by rewrite Nat.add_0_r.
  - destruct (hex_nibble c) as [d|] eqn:Hd; cbn; [|done].
    apply hex_nibble_range in Hd. destruct (d <? base) eqn:E; [|done]. apply Z.ltb_lt in E.
    intros H. rewrite <- Nat.add_succ_comm. apply (IH (acc * base + d) (S k)); [|done].
    rewrite Nat2Z.inj_succ, Z.pow_succ_r by lia. nia.
Qed.

Lemma parse_octet_range l v : parse_octet l = Some v → 0 <= v < 256.
Proof.
  unfold parse_octet. destruct l as [|c l]; [done|]. case_decide; [done|].
  destruct (digits_value 10 0 (c :: l)) as [z|] eqn:Hd; cbn [mbind option_bind]; [|done].
  destruct (z <? 256) eqn:E; [|done]. intros [= ->]. apply Z.ltb_lt in E.
  apply (digits_value_range 10 0 _ _ 0) in Hd; lia.
Qed.

Lemma parseIPv4Fields_range l v : parseIPv4Fields l = Some v → 0 <= v < 2 ^ 32.
Proof.
  unfold parseIPv4Fields. intros H.
  destruct (parse_octet <$> split_on (chr 46) l) as [|[a|] [|[b|] [|[c|] [|[d|] [|? ?]]]]] eqn:E;
    try done. injection H as <-.
  assert (Hr : Forall (λ o, ∀ x, o = Some x → 0 <= x < 256) (parse_octet <$> split_on (chr 46) l)).
  { apply Forall_fmap, Forall_forall. intros x _ y. apply parse_octet_range. }
  rewrite E in Hr. repeat (apply Forall_cons in Hr as [?Hx Hr]).
  specialize (Hx _ eq_refl). specialize (Hx0 _ eq_refl). specialize (Hx1 _ eq_refl).
  specialize (Hx2 _ eq_refl). lia.
Qed.

Definition group_wf (g : Z) : Prop := 0 <= g < 65536.

Lemma group_value_range gs :
  Forall group_wf gs → 0 <= group_value gs < 65536 ^ Z.of_nat (length gs).
Proof.
  induction gs as [|g gs IH] using rev_ind; [done|]. intros [Hgs Hg]%Forall_app.
  apply Forall_cons in Hg as [Hg _]. unfold group_value in *. rewrite foldl_app. cbn.
  specialize (IH Hgs). rewrite length_app. cbn. rewrite Nat.add_1_r, Nat2Z.inj_succ, Z.pow_succ_r by lia.
  unfold group_wf in Hg. lia.
Qed.

Lemma groups_done_wf ell gs out :
  Forall group_wf (default [] ell) → Forall group_wf gs →
  (length (default [] ell) + length gs <= 8)%nat →
  groups_done ell gs = Some out → Forall group_wf out ∧ length out = 8%nat.
Proof.
  intros He Hg Hl. unfold groups_done, expand_ellipsis. destruct ell as [before|]; cbn in *.
  - case_decide; [done|]. intros [= <-]. split.
    + rewrite !Forall_app. split_and!; [done| |done]. apply Forall_replicate. done.
    + rewrite !length_app, length_replicate. lia.
  - case_decide; [|done]. intros [= <-]. done.
Qed.

Lemma parse_groups_wf fuel ell gs l out :
  Forall group_wf (default [] ell) → Forall group_wf gs →
  parse_groups fuel ell gs l = Some out → Forall group_wf out ∧ length out = 8%nat.
Proof.
  revert ell gs l. induction fuel as [|fuel IH]; intros ell gs l He Hg; cbn -[parseIPv4Fields Nat.leb]; [done|].
  case_decide as Hi; [done|]. destruct (hex_span l) as [digits rest]. case_decide as Hd; [done|].
  assert (Hv : ∀ v, digits_value 16 0 digits = Some v → group_wf v).
  { intros v Hv. apply (digits_value_range 16 0 _ _ 0) in Hv; [|lia|lia]. split; [lia|].
    eapply Z.lt_le_trans; [apply Hv|]. apply (Z.pow_le_mono_r 16 _ 4); [lia|].
    assert (¬ (4 < length digits)%nat) by tauto. lia. }
  assert (Hvs : ∀ v, digits_value 16 0 digits = Some v → Forall group_wf (gs ++ [v])).
  { intros v Hs. apply Forall_app. split; [done|]. constructor; [by apply Hv|done]. }
  destruct rest as [|c rest].
  - destruct (digits_value 16 0 digits) as [v|] eqn:Hdv; cbn; [|done].
    apply groups_done_wf; [done|by apply Hvs|rewrite length_app; cbn; lia].
  - case_decide.
    + destruct (match ell with Some _ => _ | None => _ end) eqn:Hroom; [done|].
      destruct (parseIPv4Fields l) as [v|] eqn:H4; cbn [mbind option_bind]; [|done].
      apply parseIPv4Fields_range in H4. apply groups_done_wf; [done| |].
      * apply Forall_app. split; [done|].
        assert (Hlo : group_wf (Z.land v 65535)).
        { change 65535 with (Z.ones 16). rewrite Z.land_ones by lia.
          unfold group_wf. pose proof (Z.mod_pos_bound v (2 ^ 16)). lia. }
        assert (Hhi : group_wf (Z.shiftr v 16)).
        { rewrite Z.shiftr_div_pow2 by lia. unfold group_wf. split; [apply Z.div_pos; lia|].
          apply Z.div_lt_upper_bound; lia. }
        constructor; [done|]. by constructor.
      * rewrite length_app. cbn. destruct ell; cbn in *.
        -- apply bool_decide_eq_false in Hroom. lia.
        -- apply negb_false_iff, bool_decide_eq_true in Hroom. lia.
    + case_decide; [done|].
      destruct (digits_value 16 0 digits) as [v|] eqn:Hdv; cbn; [|done]. specialize (Hvs v eq_refl).
      destruct rest as [|c2 rest]; [done|]. case_decide.
      * destruct ell; [done|]. destruct rest.
        -- apply (groups_done_wf (Some (gs ++ [v])) []); [done|constructor|]. cbn. rewrite length_app in *. cbn in *. lia.
        -- by apply IH.
      * by apply IH.
Qed.

Lemma parseIPv6_wf l a : parseIPv6 l = Some a → ∃ v z, a = Addr6 v z ∧ 0 <= v < 2 ^ 128.
Proof.
  unfold parseIPv6. destruct (match cut_first (chr 37) l with Some (a, z) => _ | None => _ end) as [l' zone].
  case_decide; [done|].
  match goal with |- context [mbind _ ?m] => set (gs := m) end.
  destruct gs as [g|] eqn:Hg; cbn [mbind option_bind]; [|done]. intros [= <-].
  assert (Hw : Forall group_wf g ∧ length g = 8%nat).
  { unfold gs in Hg. destruct (strip_prefix (bs "::") l') as [[|c r]|].
    - injection Hg as <-. split; [|done]. by apply (Forall_replicate _ 8 0).
    - by eapply (parse_groups_wf _ (Some []) []); eauto.
    - by eapply (parse_groups_wf _ None []); eauto. }
  eexists _, _. split; [done|]. destruct Hw as [Hw Hl]. apply group_value_range in Hw.
  rewrite Hl in Hw. done.
Qed.

Lemma ParseAddr_wf s a : ParseAddr s = inl a → addr_wf a.
Proof.
  unfold ParseAddr. destruct (parse_addr_at _ _) as [b|] eqn:Hp; [|done]. intros [= <-].
  revert Hp. generalize (bs s) at 2. intros rest. induction rest as [|c rest IH]; cbn -[parseIPv4Fields parseIPv6]; [done|].
  case_decide; [|case_decide; [|case_decide; [done|apply IH]]].
  - destruct (parseIPv4Fields _) as [v|] eqn:H4; [|done]. intros [= <-]. by apply parseIPv4Fields_range in H4.
  - intros (v & z & -> & Hv)%parseIPv6_wf. done.
Qed.

Lemma ParsePrefix_wf s p : ParsePrefix s = inl p → prefix_wf p.
Proof.
  unfold ParsePrefix. destruct (cut_last _ _) as [[a b]|]; [|done].
  destruct (ParseAddr (sb a)) as [ip|e] eqn:Ha; [|done]. apply ParseAddr_wf in Ha.
  assert (Hbits : ∀ n, parse_bits b = Some n → 0 <= n).
  { unfold parse_bits. destruct b as [|c b]; [done|]. case_decide; [done|]. intros n Hn.
    apply (digits_value_range 10 0 _ _ 0) in Hn; lia. }
  destruct ip as [|v|v z]; [done| |];
    repeat match goal with |- context [if ?b then _ else _] => destruct b eqn:? end; try done;
    destruct (parse_bits b) as [n|]; try done; specialize (Hbits n eq_refl);
    match goal with |- context [BitLen ?i <? n] => destruct (BitLen i <? n) eqn:E end; try done;
    apply Z.ltb_ge in E; intros [= <-]; (split; [done|cbn in *; lia]).
Qed.

Lemma bytes_value_range l : 0 <= bytes_value l < 256 ^ Z.of_nat (length l).
Proof.
  induction l as [|c l IH] using rev_ind; [done|]. unfold bytes_value in *. rewrite foldl_app. cbn.
  rewrite length_app. cbn. rewrite Nat.add_1_r, Nat2Z.inj_succ, Z.pow_succ_r by lia.
  pose proof (byte_val_range c). lia.
Qed.

Lemma AddrFromSlice_wf l a : AddrFromSlice l = Some a → addr_wf a.
Proof.
  unfold AddrFromSlice. pose proof (bytes_value_range l) as Hr.
  repeat case_decide; try done; intros [= <-]; rewrite H in Hr || rewrite H0 in Hr; done.
Qed.

Lemma Unmap_wf a : addr_wf a → addr_wf (Unmap a).
Proof.
  destruct a as [|v|v z]; [done|done|]. unfold Unmap. destruct (_ =? _); [|done]. intros _.
  unfold addr_wf. change 4294967295 with (Z.ones 32). rewrite Z.land_ones by lia.
  apply Z.mod_pos_bound. lia.
Qed.
