(* ===== verification/GoMail.v ===== *)
(** * net/textproto and net/mail

    Reading lines, header fields with their continuation lines, and messages
    from an [io.Reader].  A reader is the bytes it delivers and the error it
    then returns; [None] is [io.EOF]. *)
From Stdlib Require Import Ascii.
From S2P Require Import Prelude.
From S2P Require Import GoStrings.
From S2P Require Import GoErrors.
From S2P Require Import GoEncoding.
#[local] Open Scope Z_scope.

Record stream := MkStream { st_data : bytes; st_err : option goerr }.

(** A read: its value and the rest of the stream, or the error. *)
Definition reading (A : Type) : Type := (A * stream) + option goerr.

Definition LF : ascii := chr 10.
Definition CR : ascii := chr 13.

(** [io.ReadAll] *)
Definition ReadAll (s : stream) : bytes + goerr :=
  match st_err s with None => inl (st_data s) | Some e => inr e end.

(** ** Lines *)

(** A line with its end, and the rest. *)
Fixpoint break_line (l : bytes) : bytes * bytes :=
  match l with
  | [] => ([], [])
  | c :: l =>
      if decide (c = LF) then ([c], l)
      else let '(a, b) := break_line l in (c :: a, b)
  end.

(** The line without ["\n"] or ["\r\n"]. *)
Fixpoint chomp (l : bytes) : bytes :=
  match l with
  | [] => []
  | c :: l' =>
      if decide (l = [LF] ∨ l = [CR; LF]) then [] else c :: chomp l'
  end.

(** [readLineSlice]; [lim] bounds the length of the line. *)
Definition read_line (lim : option Z) (s : stream) : reading bytes :=
  match st_data s with
  | [] => inr (st_err s)
  | l =>
      let '(line, rest) := break_line l in
      let line := chomp line in
      match lim with
      | Some n => if n <? Z.of_nat (length line) then inr (Some (EText "message too large"))
                  else inl (line, MkStream rest (st_err s))
      | None => inl (line, MkStream rest (st_err s))
      end
  end.

Definition blank (c : ascii) : bool := bool_decide (c = chr 32) || bool_decide (c = chr 9).

Fixpoint skip_blank (l : bytes) : bytes :=
  match l with
  | [] => []
  | c :: l' => if blank c then skip_blank l' else l
  end.

(** [trim]: spaces and tabs at both ends. *)
Definition trim_blank (l : bytes) : bytes := reverse (skip_blank (reverse (skip_blank l))).

Definition starts_blank (l : bytes) : bool :=
  match l with c :: _ => blank c | [] => false end.

(** What is left of the limit. *)
Definition less (lim : option Z) (n : nat) : option Z :=
  match lim with Some z => Some (z - Z.of_nat n) | None => None end.

(** The continuation lines, after [buf]. *)
Fixpoint continuation_lines (fuel : nat) (lim : option Z) (buf : bytes) (s : stream)
    : reading bytes :=
  match fuel with
  | O => inl (buf, s)
  | S fuel =>
      if negb (starts_blank (st_data s)) then inl (buf, s)
      else
        let s := MkStream (skip_blank (st_data s)) (st_err s) in
        let buf := buf ++ [chr 32] in
        if match lim with Some z => z <=? Z.of_nat (length buf) | None => false end
        then inr (Some (EText "message too large"))
        else match read_line (less lim (length buf)) s with
             | inr _ => inl (buf, s)
             | inl (line, s) => continuation_lines fuel lim (buf ++ trim_blank line) s
             end
  end.

(** [readContinuedLineSlice]; [valid] checks the first line. *)
Definition read_continued (lim : option Z) (valid : bytes → option goerr) (s : stream)
    : reading bytes :=
  match read_line lim s with
  | inr e => inr e
  | inl ([], s) => inl ([], s)
  | inl (line, s) =>
      match valid line with
      | Some e => inr (Some e)
      | None =>
          let buf := trim_blank line in
          continuation_lines (length (st_data s)) (less lim (length buf)) buf s
      end
  end.

(** ** Header fields *)

(** RFC 7230 token characters. *)
Definition field_byte (c : ascii) : bool :=
  between 48 57 c || between 65 90 c || between 97 122 c || bool_decide (c ∈ bs "!#$%&'*+-.^_`|~").

Definition upper_byte (c : ascii) : ascii :=
  if between 97 122 c then chr (byte_val c - 32) else c.

Fixpoint canonical_bytes (upper : bool) (l : bytes) : bytes :=
  match l with
  | [] => []
  | c :: l =>
      (if upper then upper_byte c else lower_byte c)
        :: canonical_bytes (bool_decide (c = chr 45)) l
  end.

(** [textproto.CanonicalMIMEHeaderKey]: a name that is not a token is kept. *)
Definition CanonicalMIMEHeaderKey (s : bytes) : bytes :=
  if forallb field_byte s then canonical_bytes true s else s.

(** A [mail.Header] or [textproto.MIMEHeader], in the order of the fields. *)
Definition header : Type := list (string * string).

(** [Get] with a canonical key: the first value, or the empty string. *)
Fixpoint header_Get (h : header) (key : string) : string :=
  match h with
  | [] => ""
  | (k, v) :: h => if decide (k = key) then v else header_Get h key
  end.

Definition header_Del (h : header) (key : string) : header :=
  filter (λ f, f.1 ≠ key) h.

(** ** mail.ReadMessage *)

Fixpoint read_fields (fuel : nat) (s : stream) (h : header) : header * option (option goerr) * stream :=
  match fuel with
  | O => (h, None, s)
  | S fuel =>
      match read_continued None (λ _, None) s with
      | inr e => (h, Some e, s)
      | inl ([], s) => (h, None, s)
      | inl (kv, s) =>
          match cut_first (chr 58) kv with
          | None => (h, Some (Some (EText ("malformed header line: " +:+ sb kv))), s)
          | Some (k, v) =>
              let key := sb (CanonicalMIMEHeaderKey k) in
              read_fields fuel s
                (if decide (key = "") then h else h ++ [(key, sb (skip_blank v))])
          end
      end
  end.

(** The header and the body.  A message that ends inside its header is accepted
    when there is a field. *)
Definition ReadMessage (s : stream) : (header * stream) + goerr :=
  if starts_blank (st_data s) then
    match read_line None s with
    | inl (line, _) => inr (EText ("malformed initial line: " +:+ sb line))
    | inr _ => inr (EText "malformed initial line")
    end
  else
    match read_fields (S (length (st_data s))) s [] with
    | (h, None, s) => inl (h, s)
    | (h, Some (Some e), _) => inr e
    | (h, Some None, s) => if decide (h = []) then inr (EText "EOF") else inl (h, s)
    end.

(** ** textproto.ReadMIMEHeader, as package multipart calls it *)

(** [validHeaderValueByte] *)
Definition value_byte (c : ascii) : bool :=
  between 32 126 c || bool_decide (c = chr 9) || (128 <=? byte_val c).

Definition malformed (line : bytes) : option goerr :=
  Some (EText ("malformed MIME header line: " +:+ sb line)).

Definition mustHaveFieldNameColon (line : bytes) : option goerr :=
  if bool_decide (chr 58 ∈ line) then None
  else Some (EText "malformed MIME header: missing colon").

(** A token, or a token with spaces in it, which is not made canonical. *)
Definition mime_key (k : bytes) : option string :=
  match k with
  | [] => None
  | _ =>
      if forallb (λ c, field_byte c || bool_decide (c = chr 32)) k
      then Some (sb (CanonicalMIMEHeaderKey k)) else None
  end.

(** [mem] bytes and [n] fields are left. *)
Fixpoint read_mime_fields (fuel : nat) (mem n : Z) (s : stream) (h : header) : reading header :=
  match fuel with
  | O => inl (h, s)
  | S fuel =>
      match read_continued (Some mem) mustHaveFieldNameColon s with
      | inr e => inr e
      | inl ([], s) => inl (h, s)
      | inl (kv, s) =>
          match cut_first (chr 58) kv with
          | None => inr (malformed kv)
          | Some (k, v) =>
              match mime_key k with
              | None => inr (malformed kv)
              | Some key =>
                  if negb (forallb value_byte v) then inr (malformed kv)
                  else if n <=? 0 then inr (Some (EText "message too large"))
                  else
                    let value := skip_blank v in
                    let mem := if decide (key ∈ h.*1) then mem
                               else mem - Z.of_nat (String.length key) - 200 in
                    let mem := mem - Z.of_nat (length value) in
                    if mem <? 0 then inr (Some (EText "message too large"))
                    else read_mime_fields fuel mem (n - 1) s (h ++ [(key, sb value)])
              end
          end
      end
  end.

Definition maxMIMEHeaderSize : Z := 10485760.
Definition maxMIMEHeaders : Z := 10000.

Definition ReadMIMEHeader (s : stream) : reading header :=
  if starts_blank (st_data s) then
    inr (Some (EText "malformed MIME header initial line"))
  else read_mime_fields (S (length (st_data s))) (maxMIMEHeaderSize - 400) maxMIMEHeaders s [].
