(* ===== verification/GoMIME.v ===== *)
(** * mime, mime/quotedprintable and mime/multipart

    Media types with their parameters, encoded words in header fields, the
    quoted-printable decoder, and the reader of multipart bodies, over the
    readers of [GoMail].

    [multipart] and [quotedprintable] read through buffers of 4096 bytes; a
    line that does not fit is an error.  Boundaries are taken to be shorter than
    the buffer.  When a part that declares itself quoted-printable cannot be
    decoded, [unread_part] is how many of its bytes the drained decoder leaves
    before the next boundary; this depends on how reads were buffered. *)
From Stdlib Require Import Ascii.
From S2P Require Import Prelude.
From S2P Require Import GoStrings.
From S2P Require Import GoErrors.
From S2P Require Import GoEncoding.
From S2P Require Import GoJSON.
From S2P Require Import GoMail.
#[local] Open Scope Z_scope.

(** ** mime.ParseMediaType *)

Definition tspecial (c : ascii) : bool := bool_decide (c ∈ dquote :: bs "()<>@,;:\/[]?=").

(** RFC 2045 token characters. *)
Definition token_byte (c : ascii) : bool := between 33 126 c && negb (tspecial c).

Fixpoint span_bytes (p : ascii → bool) (l : bytes) : bytes * bytes :=
  match l with
  | [] => ([], [])
  | c :: l' =>
      if p c then let '(a, b) := span_bytes p l' in (c :: a, b) else ([], l)
  end.

Definition consumeToken (l : bytes) : bytes * bytes := span_bytes token_byte l.

(** A quoted string after its opening quote: its value and the rest. *)
Fixpoint quoted_value (l : bytes) : option (bytes * bytes) :=
  match l with
  | [] => None
  | c :: l' =>
      if decide (c = dquote) then Some ([], l')
      else if decide (c = CR ∨ c = LF) then None
      else
        match l' with
        | [] => None
        | d :: l'' =>
            if bool_decide (c = backslash) && tspecial d
            then '(v, rest) ← quoted_value l''; Some (d :: v, rest)
            else '(v, rest) ← quoted_value l'; Some (c :: v, rest)
        end
  end.

(** [None]: no value, and nothing consumed. *)
Definition consumeValue (l : bytes) : option (bytes * bytes) :=
  match l with
  | [] => None
  | c :: l' =>
      if decide (c = dquote) then quoted_value l'
      else match consumeToken l with ([], _) => None | r => Some r end
  end.

(** [None]: the key is empty and the rest is the whole input. *)
Definition consumeMediaParam `{UnicodeTables} (v : bytes) : option (string * string * bytes) :=
  match trim_left v with
  | c :: rest =>
      if decide (c ≠ chr 59) then None
      else
        match consumeToken (trim_left rest) with
        | ([], _) => None
        | (param, rest) =>
            match trim_left rest with
            | c :: rest =>
                if decide (c ≠ chr 61) then None
                else '(value, rest) ← consumeValue (trim_left rest);
                     Some (ToLower (sb param), sb value, rest)
            | [] => None
            end
        end
  | [] => None
  end.

Definition checkMediaTypeDisposition (s : bytes) : option goerr :=
  match consumeToken s with
  | ([], _) => Some (EText "mime: no media type")
  | (_, []) => None
  | (_, c :: rest) =>
      if decide (c ≠ chr 47) then Some (EText "mime: expected slash after first token")
      else match consumeToken rest with
           | ([], _) => Some (EText "mime: expected token after slash")
           | (_, []) => None
           | _ => Some (EText "mime: unexpected content after media subtype")
           end
  end.

Inductive media_error := ErrInvalidMediaParameter | duplicate_parameter.

(** Parameters, and the pieces of those whose name has a star, by base name. *)
Definition media_params : Type := gmap string string * gmap string (gmap string string).

(** Store a parameter; [None] when it is there with another value. *)
Definition put_param (m : gmap string string) (key value : string) : option (gmap string string) :=
  match m !! key with
  | Some v => if decide (v = value) then Some m else None
  | None => Some (<[key := value]> m)
  end.

Definition add_param (key value : string) (ps : media_params) : option media_params :=
  match cut_first (chr 42) (bs key) with
  | None => m ← put_param ps.1 key value; Some (m, ps.2)
  | Some (base, _) =>
      let base := sb base in
      m ← put_param (default ∅ (ps.2 !! base)) key value;
      Some (ps.1, <[base := m]> ps.2)
  end.

(** The loop over the parameters. *)
Fixpoint media_loop `{UnicodeTables} (fuel : nat) (v : bytes) (ps : media_params)
    : media_params + media_error :=
  match trim_left v, fuel with
  | [], _ => inl ps
  | _, O => inr ErrInvalidMediaParameter
  | v, S fuel =>
      match consumeMediaParam v with
      | None =>
          if decide (TrimSpace (sb v) = ";") then inl ps else inr ErrInvalidMediaParameter
      | Some (key, value, rest) =>
          match add_param key value ps with
          | None => inr duplicate_parameter
          | Some ps => media_loop fuel rest ps
          end
      end
  end.

(** [percentHexUnescape] *)
Fixpoint percent_unescape (l : bytes) : option bytes :=
  match l with
  | [] => Some []
  | c :: l' =>
      if decide (c = chr 37) then
        match l' with
        | a :: b :: l'' =>
            x ← hex_nibble a; y ← hex_nibble b; rest ← percent_unescape l'';
            Some (chr (x * 16 + y) :: rest)
        | _ => None
        end
      else rest ← percent_unescape l'; Some (c :: rest)
  end.

Definition quote1 : ascii := chr 39.

Definition decode2231Enc `{UnicodeTables} (v : string) : option string :=
  '(cs, rest) ← cut_first quote1 (bs v);
  '(_, text) ← cut_first quote1 rest;
  let charset := ToLower (sb cs) in
  if decide (charset = "us-ascii" ∨ charset = "utf-8")
  then sb <$> percent_unescape text else None.

(** The pieces [key*n] and [key*n*] from [n] on. *)
Fixpoint stitch `{UnicodeTables} (fuel : nat) (key : string) (n : nat)
    (pieces : gmap string string) : option string :=
  match fuel with
  | O => None
  | S fuel =>
      let part := key +:+ "*" +:+ Itoa (Z.of_nat n) in
      match pieces !! part with
      | Some v => Some (v +:+ default "" (stitch fuel key (S n) pieces))
      | None =>
          match pieces !! (part +:+ "*") with
          | None => None
          | Some v =>
              let decoded := match n with
                             | O => default "" (decode2231Enc v)
                             | _ => sb (default [] (percent_unescape (bs v)))
                             end in
              Some (decoded +:+ default "" (stitch fuel key (S n) pieces))
          end
      end
  end.

Definition stitched `{UnicodeTables} (key : string) (pieces : gmap string string)
    : option string :=
  match pieces !! (key +:+ "*") with
  | Some v => decode2231Enc v
  | None => stitch (S (size pieces)) key 0 pieces
  end.

(** The type, its parameters, and the error that comes with them. *)
Definition ParseMediaType `{UnicodeTables} (v : string)
    : string * gmap string string * option goerr :=
  let '(base, rest) := span_bytes (λ c, negb (bool_decide (c = chr 59))) (bs v) in
  let mediatype := TrimSpace (ToLower (sb base)) in
  match checkMediaTypeDisposition (bs mediatype) with
  | Some e => ("", ∅, Some e)
  | None =>
      match media_loop (length rest) rest (∅, ∅) with
      | inr ErrInvalidMediaParameter =>
          (mediatype, ∅, Some (EText "mime: invalid media parameter"))
      | inr duplicate_parameter => ("", ∅, Some (EText "mime: duplicate parameter name"))
      | inl (params, pieces) =>
          (mediatype,
           map_fold (λ key ps acc, match stitched key ps with
                                   | Some v => <[key := v]> acc
                                   | None => acc
                                   end) params pieces, None)
      end
  end.

(** ** mime.WordDecoder *)

Fixpoint q_decode (l : bytes) : option bytes :=
  match l with
  | [] => Some []
  | c :: l' =>
      if decide (c = chr 95) then rest ← q_decode l'; Some (chr 32 :: rest)
      else if decide (c = chr 61) then
        match l' with
        | a :: b :: l'' =>
            x ← hex_nibble a; y ← hex_nibble b; rest ← q_decode l'';
            Some (chr (x * 16 + y) :: rest)
        | _ => None
        end
      else if between 32 126 c || bool_decide (c ∈ [LF; CR; chr 9]) then
        rest ← q_decode l'; Some (c :: rest)
      else None
  end.

Definition word_decode (encoding : ascii) (text : bytes) : option bytes :=
  if decide (encoding = "B"%char ∨ encoding = "b"%char) then base64_decode text
  else if decide (encoding = "Q"%char ∨ encoding = "q"%char) then q_decode text
  else None.

Definition word_convert `{UnicodeTables} (charset content : bytes) : option bytes :=
  if EqualFold "utf-8" (sb charset) then Some content
  else if EqualFold "iso-8859-1" (sb charset) then
    Some (content ≫= λ c, encode_rune (byte_val c))
  else if EqualFold "us-ascii" (sb charset) then
    Some (content ≫= λ c, if byte_val c <? 128 then [c] else encode_rune 65533)
  else None.

(** What comes before the first occurrence of [p], and what comes after it. *)
Fixpoint cut_at (p l : bytes) : option (bytes * bytes) :=
  match strip_prefix p l with
  | Some rest => Some ([], rest)
  | None =>
      match l with
      | [] => None
      | c :: l => '(a, b) ← cut_at p l; Some (c :: a, b)
      end
  end.

(** The encoded word after ["=?"]: charset, content if it can be decoded, and
    the rest; [None] when there is no further encoded word. *)
Definition next_word (l : bytes) : option (bytes * option bytes * bytes) :=
  '(charset, rest) ← cut_at (bs "?") l;
  match rest with
  | enc :: q :: rest' =>
      if decide (length rest < 4)%nat then None
      else if decide (q ≠ "?"%char) then None
      else '(text, after) ← cut_at (bs "?=") rest'; Some (charset, word_decode enc text, after)
  | _ => None
  end.

Definition hasNonWhitespace (l : bytes) : bool :=
  existsb (λ c, negb (bool_decide (c ∈ [chr 32; chr 9; LF; CR]))) l.

(** The loop of [DecodeHeader]; [None] is an unknown charset. *)
Fixpoint decode_words `{UnicodeTables} (fuel : nat) (between_words : bool) (l : bytes)
    : option bytes :=
  match fuel with
  | O => Some l
  | S fuel =>
      match cut_at (bs "=?") l with
      | None => Some l
      | Some (before, rest) =>
          match next_word rest with
          | None => Some l
          | Some (_, None, _) =>
              out ← decode_words fuel false rest; Some (before ++ bs "=?" ++ out)
          | Some (charset, Some content, after) =>
              text ← word_convert charset content;
              out ← decode_words fuel true after;
              Some ((if negb between_words || hasNonWhitespace before then before else [])
                      ++ text ++ out)
          end
      end
  end.

Definition DecodeHeader `{UnicodeTables} (v : string) : string + goerr :=
  match decode_words (S (length (bs v))) false (bs v) with
  | Some l => inl (sb l)
  | None => inr (EText "mime: unhandled charset")
  end.

(** ** Buffered lines *)

(** [bufio.Reader.ReadSlice('\n')]: a whole line, or a last part and an
    error. *)
Definition ErrBufferFull : goerr := EText "bufio: buffer full".
Definition bufferSize : nat := 4096.

Definition read_slice (s : stream) : bytes * option (option goerr) * stream :=
  let '(line, rest) := break_line (st_data s) in
  if decide (bufferSize < length line)%nat then
    (take bufferSize line, Some (Some ErrBufferFull), MkStream (drop bufferSize line ++ rest) (st_err s))
  else if bool_decide (last line = Some LF) then (line, None, MkStream rest (st_err s))
  else if decide (length line = bufferSize) then
    (line, Some (Some ErrBufferFull), MkStream rest (st_err s))
  else (line, Some (st_err s), MkStream [] (st_err s)).

(** ** quotedprintable.Reader *)

Definition qp_white (c : ascii) : bool := bool_decide (c ∈ [LF; CR; chr 32; chr 9]).

(** The line without trailing white space, and that white space. *)
Definition qp_strip (l : bytes) : bytes * bytes :=
  let '(w, r) := span_bytes qp_white (reverse l) in (reverse r, reverse w).

(** One line as it is decoded, and the error after it. *)
Definition qp_line (whole : bytes) (err : option (option goerr))
    : bytes * option (option goerr) :=
  let '(line, stripped) := qp_strip whole in
  if bool_decide (last line = Some (chr 61)) then
    let line := removelast line in
    if bool_decide (strip_prefix [LF] stripped = None)
       && bool_decide (strip_prefix [CR; LF] stripped = None)
       && negb (bool_decide (stripped = []) && negb (bool_decide (line = []))
                && match err with Some None => true | _ => false end)
    then (line, Some (Some (EText "quotedprintable: invalid bytes after =")))
    else (line, err)
  else if bool_decide (last whole = Some LF) then
    (line ++ (if bool_decide (is_Some (strip_prefix (reverse [CR; LF]) (reverse whole)))
              then [CR; LF] else [LF]), err)
  else (line, err).

(** The bytes of one line; [None] is an invalid byte. *)
Fixpoint qp_bytes (l : bytes) : bytes * bool :=
  match l with
  | [] => ([], true)
  | c :: l' =>
      if decide (c = chr 61) then
        match l' with
        | a :: l1 =>
            match l1 with
            | b :: l'' =>
                match hex_nibble a, hex_nibble b with
                | Some x, Some y =>
                    let '(out, ok) := qp_bytes l'' in (chr (x * 16 + y) :: out, ok)
                | _, _ =>
                    if decide (a = CR ∨ a = LF) then ([], false)
                    else let '(out, ok) := qp_bytes l' in (c :: out, ok)
                end
            | [] =>
                if decide (a = CR ∨ a = LF) then ([], false)
                else let '(out, ok) := qp_bytes l' in (c :: out, ok)
            end
        | [] => ([], false)
        end
      else if bool_decide (c ∈ [chr 9; CR; LF]) || (128 <=? byte_val c) || between 32 126 c then
        let '(out, ok) := qp_bytes l' in (c :: out, ok)
      else ([], false)
  end.

Fixpoint qp_read (fuel : nat) (s : stream) : stream :=
  match fuel with
  | O => MkStream [] (st_err s)
  | S fuel =>
      let '(whole, err, rest) := read_slice s in
      let '(line, err) := qp_line whole err in
      let '(out, ok) := qp_bytes line in
      if negb ok then MkStream out (Some (EText "quotedprintable: invalid byte"))
      else match err with
           | Some e => MkStream out e
           | None => let r := qp_read fuel rest in MkStream (out ++ st_data r) (st_err r)
           end
  end.

(** [quotedprintable.NewReader(r)], read to its end. *)
Definition quotedprintable (s : stream) : stream := qp_read (S (length (st_data s))) s.

(** ** multipart.Reader *)

Class MIMEEnv := unread_part : bytes → nat.

Record mreader := MkMReader {
  mr_in : stream;
  mr_boundary : bytes;
  mr_crlf : bool;    (** [nl] is ["\r\n"], not ["\n"] *)
  mr_parts : nat;    (** [partsRead] *)
}.

Definition multipart_NewReader (s : stream) (boundary : string) : mreader :=
  MkMReader s (bs boundary) true 0.

Definition dashes : bytes := bs "--".
Definition mr_nl (r : mreader) : bytes := if mr_crlf r then [CR; LF] else [LF].
Definition dashBoundary (r : mreader) : bytes := dashes ++ mr_boundary r.

(** [isBoundaryDelimiterLine]: [Some] whether lines end in CRLF. *)
Definition delimiter_line (r : mreader) (line : bytes) : option bool :=
  rest ← strip_prefix (dashBoundary r) line;
  let rest := skip_blank rest in
  let crlf := if bool_decide (mr_parts r = O) && bool_decide (rest = [LF])
              then false else mr_crlf r in
  if decide (rest = (if crlf then [CR; LF] else [LF])) then Some crlf else None.

Definition isFinalBoundary (r : mreader) (line : bytes) : bool :=
  match strip_prefix (dashBoundary r ++ dashes) line with
  | None => false
  | Some rest =>
      let rest := skip_blank rest in
      bool_decide (rest = []) || bool_decide (rest = mr_nl r)
  end.

(** [matchAfterPrefix] on what follows the boundary. *)
Definition after_boundary (l : bytes) : bool :=
  match l with
  | [] => true
  | c :: l =>
      bool_decide (c ∈ [chr 32; chr 9; CR; LF])
      || (bool_decide (c = "-"%char) && bool_decide (head l = Some "-"%char))
  end.

(** The body up to a boundary line, and what is left from there; [skip] bytes
    belong to an occurrence that is no boundary. *)
Fixpoint scan_body (nlDash : bytes) (skip : nat) (l : bytes) : option (bytes * bytes) :=
  match skip with
  | O =>
      match strip_prefix nlDash l with
      | Some rest =>
          if after_boundary rest then Some ([], l)
          else match l with
               | c :: l' => '(a, b) ← scan_body nlDash (pred (length nlDash)) l'; Some (c :: a, b)
               | [] => None
               end
      | None =>
          match l with
          | [] => None
          | c :: l' => '(a, b) ← scan_body nlDash 0 l'; Some (c :: a, b)
          end
      end
  | S skip =>
      match l with
      | [] => None
      | c :: l' => '(a, b) ← scan_body nlDash skip l'; Some (c :: a, b)
      end
  end.

(** A body that no boundary ends: the beginning of one at its end is not
    delivered. *)
Fixpoint cut_tail (nlDash l : bytes) : bytes :=
  match l with
  | [] => []
  | c :: l' =>
      if bool_decide (is_Some (strip_prefix l nlDash))
         && negb (bool_decide (head nlDash ∈ (Some <$> l')))
      then [] else c :: cut_tail nlDash l'
  end.

Definition ErrUnexpectedEOF : goerr := EText "unexpected EOF".

(** The body of the current part, and the input after it. *)
Definition part_body (r : mreader) (s : stream) : stream * stream :=
  let nlDash := mr_nl r ++ dashBoundary r in
  let l := st_data s in
  let found :=
    match strip_prefix (dashBoundary r) l with
    | Some rest => if after_boundary rest then Some ([], l)
                   else scan_body nlDash (length (dashBoundary r)) l
    | None => scan_body nlDash 0 l
    end in
  match found with
  | Some (body, rest) => (MkStream body None, MkStream rest (st_err s))
  | None =>
      (MkStream (if bool_decide (is_Some (strip_prefix l (dashBoundary r))) then []
                 else cut_tail nlDash l) (Some (default ErrUnexpectedEOF (st_err s))),
       MkStream [] (st_err s))
  end.

Record mpart := MkPart { mp_header : header; mp_body : stream }.

Definition cte : string := "Content-Transfer-Encoding".

(** [newPart], with the input after the part.  A quoted-printable body is
    decoded and its encoding field removed. *)
Definition new_part `{UnicodeTables} `{MIMEEnv} (r : mreader) (s : stream) : reading mpart :=
  match ReadMIMEHeader s with
  | inr e => inr e
  | inl (h, s) =>
      let '(body, rest) := part_body r s in
      if EqualFold (header_Get h cte) "quoted-printable" then
        let decoded := quotedprintable body in
        let unread := match st_err decoded with
                      | None => []
                      | Some _ => drop (length (st_data body) - unread_part (st_data body))
                                    (st_data body)
                      end in
        inl (MkPart (header_Del h cte) decoded, MkStream (unread ++ st_data rest) (st_err rest))
      else inl (MkPart h body, rest)
  end.

(** [NextPart] after the current part has been drained; [expect] is
    [expectNewPart].  [None] when [fuel] lines were not enough. *)
Fixpoint next_part `{UnicodeTables} `{MIMEEnv} (fuel : nat) (expect : bool) (r : mreader)
    : option ((mpart * mreader) + option goerr) :=
  match fuel with
  | O => None
  | S fuel =>
      let '(line, err, s) := read_slice (mr_in r) in
      match err with
      | Some None => Some (if isFinalBoundary r line then inr None
                           else inr (Some (EText "multipart: NextPart: EOF")))
      | Some (Some e) => Some (inr (Some (EWrapf "multipart: NextPart" e)))
      | None =>
          match delimiter_line r line with
          | Some crlf =>
              let r := MkMReader s (mr_boundary r) crlf (S (mr_parts r)) in
              match new_part r s with
              | inr e => Some (inr e)
              | inl (p, s) => Some (inl (p, MkMReader s (mr_boundary r) crlf (mr_parts r)))
              end
          | None =>
              if isFinalBoundary r line then Some (inr None)
              else if expect then Some (inr (Some (EText "multipart: expecting a new Part")))
              else if decide (mr_parts r = O) then
                next_part fuel false (MkMReader s (mr_boundary r) (mr_crlf r) (mr_parts r))
              else if decide (line = mr_nl r) then
                next_part fuel true (MkMReader s (mr_boundary r) (mr_crlf r) (mr_parts r))
              else Some (inr (Some (EText "multipart: unexpected line in Next()")))
          end
      end
  end.

(** Each turn takes a line, so the bound is never reached and the default never
    used ([next_part_total]). *)
Definition NextPart `{UnicodeTables} `{MIMEEnv} (r : mreader) : (mpart * mreader) + option goerr :=
  default (inr (Some ErrUnexpectedEOF)) (next_part (S (length (st_data (mr_in r)))) false r).

(** [filepath.Base] *)
Definition filepath_Base (p : string) : string :=
  if decide (p = "") then "."
  else
    let l := reverse (span_bytes (λ c, bool_decide (c = chr 47)) (reverse (bs p))).2 in
    match cut_last (chr 47) l with
    | Some (_, b) => sb b
    | None => if decide (l = []) then "/" else sb l
    end.

(** [Part.FileName] *)
Definition part_FileName `{UnicodeTables} (p : mpart) : string :=
  let '(_, params, err) := ParseMediaType (header_Get (mp_header p) "Content-Disposition") in
  let params := match err with Some _ => ∅ | None => params end in
  let filename := default "" (params !! "filename") in
  if decide (filename = "") then "" else filepath_Base filename.
