(* ===== verification/Email.v ===== *)
(** * internal/email: the message model, provider results, trace headers

    [message.go], [submission.go], [trace_headers.go].  Attachment bytes are a
    [string] (a Go [[]byte]); the provider interface of [provider.go] is the
    class [Provider]. *)
From S2P Require Import Prelude.
From S2P Require Import GoStrings.
From S2P Require Import GoTime.
From S2P Require Import GoErrors.
#[local] Open Scope Z_scope.

Record Attachment := MkAttachment {
  Filename : string;
  ContentType : string;
  Data : string;
}.

Record Message := MkMessage {
  EnvelopeFrom : string;
  HeaderFrom : string;
  ReplyTo : list string;
  To : list string;
  Subject : string;
  TextBody : string;
  HTMLBody : string;
  Attachments : list Attachment;
}.

#[export] Instance Attachment_eq_dec : EqDecision Attachment.
Proof. solve_decision. Defined.
#[export] Instance Message_eq_dec : EqDecision Message.
Proof. solve_decision. Defined.

(** [email.Message{}] *)
Definition emptyMessage : Message := MkMessage "" "" [] [] "" "" "" [].

Definition set_ReplyTo (r : list string) (m : Message) : Message :=
  MkMessage (EnvelopeFrom m) (HeaderFrom m) r (To m) (Subject m) (TextBody m)
    (HTMLBody m) (Attachments m).

(** [SubmissionState] is an open string type with four known values. *)
Definition SubmissionState := string.
Definition SubmissionStateRunning : SubmissionState := "running".
Definition SubmissionStateSucceeded : SubmissionState := "succeeded".
Definition SubmissionStateFailed : SubmissionState := "failed".
Definition SubmissionStateCanceled : SubmissionState := "canceled".

Record SubmissionFailure := MkFailure {
  sf_Message : string;
  sf_Temporary : bool;
  sf_StatusCode : Z;
}.

Record SubmissionResult := MkResult {
  sr_OperationID : string;
  sr_OperationLocation : string;
  sr_RetryAfter : duration;
  sr_State : SubmissionState;
  sr_ProviderMessageID : string;
  sr_Failure : option SubmissionFailure;
}.

Record SubmissionStatus := MkStatus {
  ss_OperationID : string;
  ss_RetryAfter : duration;
  ss_State : SubmissionState;
  ss_ProviderMessageID : string;
  ss_Failure : option SubmissionFailure;
}.

(** ** provider.go

    A provider is reached over the network: a call returns a result or an
    error that depend on the world, here an index that numbers the calls. *)
Class Provider := {
  Submit : nat → Message → string → SubmissionResult + goerr;
  Poll : nat → string → SubmissionStatus + goerr;
}.

(** ** trace_headers.go *)

Definition TraceHeaderEnvelopeFrom : string := "X-SMTP-Relay-Envelope-From".
Definition TraceHeaderHeaderFrom : string := "X-SMTP-Relay-Header-From".

Record TraceHeader := MkTraceHeader { th_Name : string; th_Value : string }.

Definition SenderTraceHeaders (msg : Message) : list TraceHeader :=
  let value := TrimSpace (EnvelopeFrom msg) in
  let headers :=
    if decide (value = "") then [] else [MkTraceHeader TraceHeaderEnvelopeFrom value] in
  let value := TrimSpace (HeaderFrom msg) in
  if decide (value = "") then headers
  else headers ++ [MkTraceHeader TraceHeaderHeaderFrom value].

(** [nil] is [None]. *)
Definition SenderTraceHeaderMap (msg : Message) : option (gmap string string) :=
  match SenderTraceHeaders msg with
  | [] => None
  | headers =>
      Some (foldl (λ out h, <[th_Name h := th_Value h]> out) ∅ headers)
  end.

(** The header value for one of the two names: the trimmed address when it is
    not blank. *)
Definition nonblank (s : string) : option string :=
  if decide (TrimSpace s = "") then None else Some (TrimSpace s).

(** The map form carries exactly the two trimmed senders that are not blank,
    each under its own name, and nothing else. *)
Lemma SenderTraceHeaderMap_lookup msg name :
  default ∅ (SenderTraceHeaderMap msg) !! name =
  if decide (name = TraceHeaderEnvelopeFrom) then nonblank (EnvelopeFrom msg)
  else if decide (name = TraceHeaderHeaderFrom) then nonblank (HeaderFrom msg)
  else None.
Proof.
  unfold SenderTraceHeaderMap, SenderTraceHeaders, nonblank.
  assert (TraceHeaderEnvelopeFrom ≠ TraceHeaderHeaderFrom) by done.
  repeat case_decide; cbn; simplify_map_eq; try done.
Qed.
