(* ===== verification/SenderPolicy.v ===== *)
(** * internal/email/sender_policy.go: the sender-domain policy

    [mail.ParseAddress] and [regexp.Compile] are parameters: the first returns
    the [Address] field of the parsed address, the second a compiled pattern
    (its [MatchString] method). *)
From Stdlib Require Import Ascii.
From S2P Require Import Prelude.
From S2P Require Import GoStrings.
From S2P Require Import GoTime.
From S2P Require Import GoErrors.
From S2P Require Import Email.
#[local] Open Scope Z_scope.

Class MailRegexp := {
  mail_ParseAddress : string → string + goerr;
  regexp_Compile : string → (string → bool) + goerr;
}.

Definition SenderPolicyReasonNoOriginalSender : string := "no_original_sender".
Definition SenderPolicyReasonInvalidOriginalSender : string := "invalid_original_sender".
Definition SenderPolicyReasonDisallowedSenderDomain : string := "disallowed_sender_domain".

Definition SenderPolicyMode := string.
Definition SenderPolicyRewrite : SenderPolicyMode := "rewrite".
Definition SenderPolicyStrict : SenderPolicyMode := "strict".

Definition dot : ascii := chr 46.
Definition star : ascii := chr 42.
Definition colon : ascii := chr 58.
Definition hyphen : ascii := chr 45.
Definition at_sign : ascii := chr 64.

(** The three implementations of [senderDomainMatcher]. *)
Inductive senderDomainMatcher :=
  | exactDomainMatcher (domain : string)
  | regexDomainMatcher (MatchString : string → bool)
  | singleLabelGlobMatcher (suffix : string).

Record SenderPolicyOptions := {
  opt_Mode : SenderPolicyMode;
  opt_AllowedDomainPatterns : list string;
}.

Record SenderPolicy := MkPolicy {
  mode : SenderPolicyMode;
  matchers : list senderDomainMatcher;
}.

Record SenderPolicyResult := MkPolicyResult {
  pr_Message : Message;
  pr_OriginalSender : string;
  pr_EffectiveReplyTo : list string;
  pr_DecisionReason : string;
}.

Section policy.
Context `{UnicodeTables} `{MailRegexp}.

(** ** Compilation of the configured matchers *)

Definition label_byte (c : ascii) : bool :=
  between 97 122 c || between 48 57 c || Ascii.eqb c hyphen.

Definition validateDomainLabel (label : string) : unit + goerr :=
  if decide (label = "") then inr (EText "domain label cannot be empty")
  else if HasPrefix label "-" || HasSuffix label "-" then
    inr (EText ("domain label " +:+ Quote label +:+ " cannot start or end with '-'"))
  else if forallb label_byte (bs label) then inl tt
  else inr (EText ("domain label " +:+ Quote label +:+ " contains unsupported character")).

Fixpoint validateLabels (labels : list string) : unit + goerr :=
  match labels with
  | [] => inl tt
  | l :: rest =>
      match validateDomainLabel l with
      | inl _ => validateLabels rest
      | inr e => inr e
      end
  end.

Definition normalizeExactDomain (domain : string) : string + goerr :=
  let domain := ToLower (TrimSpace domain) in
  if decide (domain = "") then inr (EText "domain cannot be empty")
  else if ContainsByte domain star then inr (EText "exact domain cannot contain wildcard")
  else if ContainsByte domain colon then
    inr (EText "exact domain cannot contain matcher prefix syntax")
  else
    let labels := Split domain dot in
    if (length labels <? 2)%nat then inr (EText "domain must contain at least one dot")
    else match validateLabels labels with
         | inl _ => inl domain
         | inr e => inr e
         end.

Definition compileSingleLabelGlob (pattern : string) : string + goerr :=
  let pattern := ToLower (TrimSpace pattern) in
  if decide (pattern = "") then inr (EText "glob pattern cannot be empty")
  else if negb (HasPrefix pattern "*.") then inr (EText "glob pattern must start with *.")
  else if negb (CountByte pattern star =? 1) then
    inr (EText "glob pattern may contain only one wildcard")
  else
    let suffix := TrimPrefix pattern "*." in
    if decide (suffix = "") then inr (EText "glob pattern suffix cannot be empty")
    else match normalizeExactDomain suffix with
         | inl _ => inl suffix
         | inr e => inr e
         end.

(** [raw[n:]] *)
Definition drop_bytes (n : nat) (s : string) : string := sb (drop n (bs s)).

(** [nil, nil] for a blank entry is [inl None]. *)
Definition compileSenderDomainMatcher (raw : string) : option senderDomainMatcher + goerr :=
  let raw := TrimSpace raw in
  if decide (raw = "") then inl None
  else if HasPrefix (ToLower raw) "re:" then
    let expr := TrimSpace (drop_bytes 3 raw) in
    if decide (expr = "") then inr (EText "sender allowed domain regex cannot be empty")
    else match regexp_Compile ("(?i)^(?:" +:+ expr +:+ ")$") with
         | inl re => inl (Some (regexDomainMatcher re))
         | inr e => inr (EWrapf ("compile sender allowed domain regex " +:+ Quote raw) e)
         end
  else if HasPrefix (ToLower raw) "glob:" then
    match compileSingleLabelGlob (TrimSpace (drop_bytes 5 raw)) with
    | inl suffix => inl (Some (singleLabelGlobMatcher suffix))
    | inr e => inr (EWrapf ("compile sender allowed domain glob " +:+ Quote raw) e)
    end
  else match normalizeExactDomain raw with
       | inl domain => inl (Some (exactDomainMatcher domain))
       | inr e => inr (EWrapf ("compile sender allowed exact domain " +:+ Quote raw) e)
       end.

(** The loop over [opts.AllowedDomainPatterns]. *)
Fixpoint compileMatchers (patterns : list string) : list senderDomainMatcher + goerr :=
  match patterns with
  | [] => inl []
  | p :: rest =>
      match compileSenderDomainMatcher p with
      | inr e => inr e
      | inl o =>
          match compileMatchers rest with
          | inr e => inr e
          | inl ms => inl (option_list o ++ ms)
          end
      end
  end.

Definition NewSenderPolicy (opts : SenderPolicyOptions) : SenderPolicy + goerr :=
  let m := ToLower (TrimSpace (opt_Mode opts)) in
  if decide (m = SenderPolicyRewrite ∨ m = SenderPolicyStrict) then
    match compileMatchers (opt_AllowedDomainPatterns opts) with
    | inl ms => inl (MkPolicy m ms)
    | inr e => inr e
    end
  else inr (EText ("unsupported sender policy mode " +:+ Quote (opt_Mode opts))).

(** ** Matching *)

Definition glob_Match (suffix domain : string) : bool :=
  let domain := ToLower (TrimSpace domain) in
  if bool_decide (domain = "") || EqualFold domain suffix then false
  else
    let parts := Split domain dot in
    let suffixParts := Split suffix dot in
    if decide (length parts = length suffixParts + 1)%nat then
      bool_decide (Join (drop 1 parts) "." = suffix)
    else false.

Definition matcher_Match (m : senderDomainMatcher) (domain : string) : bool :=
  match m with
  | exactDomainMatcher d => EqualFold domain d
  | regexDomainMatcher re => re domain
  | singleLabelGlobMatcher suffix => glob_Match suffix domain
  end.

Definition allowedDomain (p : SenderPolicy) (domain : string) : bool :=
  match matchers p with
  | [] => true
  | ms => existsb (λ m, matcher_Match m domain) ms
  end.

(** ** The decision *)

Definition selectOriginalSender (msg : Message) : string :=
  match ReplyTo msg with
  | r :: _ => TrimSpace r
  | [] => TrimSpace (HeaderFrom msg)
  end.

(** [at <= 0] and [at == len-1] are the two refusals on [cut_last]. *)
Definition senderDomain (address : string) : option string :=
  match mail_ParseAddress (TrimSpace address) with
  | inr _ => None
  | inl parsed =>
      match cut_last at_sign (bs parsed) with
      | None => None
      | Some (local, after) =>
          if decide (local = [] ∨ after = []) then None
          else
            let domain := TrimSpace (sb after) in
            if decide (domain = "") then None else Some (ToLower domain)
      end
  end.

Definition applyPolicyDecision (result : SenderPolicyResult) (m : SenderPolicyMode)
    (reason : string) : SenderPolicyResult * option goerr :=
  let result := MkPolicyResult (set_ReplyTo [] (pr_Message result))
                  (pr_OriginalSender result) [] reason in
  (result, if decide (m = SenderPolicyStrict) then Some (SenderPolicyError reason) else None).

Definition ApplySenderPolicy (msg : Message) (policy : SenderPolicy)
    : SenderPolicyResult * option goerr :=
  let candidate := selectOriginalSender msg in
  let result := MkPolicyResult msg candidate [] "" in
  if decide (candidate = "") then
    applyPolicyDecision result (mode policy) SenderPolicyReasonNoOriginalSender
  else match senderDomain candidate with
       | None =>
           applyPolicyDecision result (mode policy) SenderPolicyReasonInvalidOriginalSender
       | Some domain =>
           if allowedDomain policy domain then
             (MkPolicyResult (set_ReplyTo [candidate] msg) candidate [candidate] "", None)
           else
             applyPolicyDecision result (mode policy)
               SenderPolicyReasonDisallowedSenderDomain
       end.
End policy.

(** ** Properties *)

Section properties.
Context `{UnicodeTables} `{MailRegexp}.

(** The original sender the policy lets through: it exists, it is an address
    with a domain, and the domain is allowed. *)
Definition acceptable_sender (policy : SenderPolicy) (c : string) : Prop :=
  c ≠ "" ∧ ∃ d, senderDomain c = Some d ∧ allowedDomain policy d = true.

(** C29. [ApplySenderPolicy] changes nothing of the message but [ReplyTo].  When
    the original sender (first Reply-To, else the From header) is acceptable,
    [ReplyTo] becomes exactly that sender and there is no error; otherwise
    [ReplyTo] is emptied with one of the three documented reasons, and the call
    fails with that reason exactly in strict mode. *)
Theorem ApplySenderPolicy_spec (msg : Message) (policy : SenderPolicy) :
  let '(res, err) := ApplySenderPolicy msg policy in
  let c := selectOriginalSender msg in
  pr_OriginalSender res = c ∧
  set_ReplyTo (ReplyTo msg) (pr_Message res) = msg ∧
  pr_EffectiveReplyTo res = ReplyTo (pr_Message res) ∧
  ((acceptable_sender policy c ∧ ReplyTo (pr_Message res) = [c] ∧
    pr_DecisionReason res = "" ∧ err = None) ∨
   (¬ acceptable_sender policy c ∧ ReplyTo (pr_Message res) = [] ∧
    pr_DecisionReason res ∈ [SenderPolicyReasonNoOriginalSender;
                             SenderPolicyReasonInvalidOriginalSender;
                             SenderPolicyReasonDisallowedSenderDomain] ∧
    err = if decide (mode policy = SenderPolicyStrict)
          then Some (SenderPolicyError (pr_DecisionReason res)) else None)).
Proof.
  unfold ApplySenderPolicy, applyPolicyDecision, acceptable_sender.
  set (c := selectOriginalSender msg).
  assert (Hsame : ∀ r, set_ReplyTo (ReplyTo msg) (set_ReplyTo r msg) = msg) by (by destruct msg).
  case_decide as Hc; [|destruct (senderDomain c) as [d|] eqn:Hd];
    [|destruct (allowedDomain policy d) eqn:Ha|]; cbn;
    (split; [done|]); (split; [by apply Hsame|]); (split; [done|]).
  - right. split; [by intros [? _]|]. split; [done|]. split; [set_solver|done].
  - left. split; [by eauto|done].
  - right. split; [intros (_ & d' & ? & ?); congruence|].
    split; [done|]. split; [set_solver|done].
  - right. split; [intros (_ & d' & ? & ?); congruence|].
    split; [done|]. split; [set_solver|done].
Qed.

(** *** The one-label wildcard *)

Lemma trim_with_incl encs n l c : c ∈ trim_with encs n l → c ∈ l.
Proof.
  destruct (trim_with_suffix encs n l) as [p Hp]. intros Hin. rewrite Hp. set_solver.
Qed.

Lemma isASCII_TrimSpace s : isASCII s = true → isASCII (TrimSpace s) = true.
Proof.
  unfold isASCII, TrimSpace, trim_right, trim_left.
  rewrite bs_sb, !forallb_forall. intros Hs c Hc. apply Hs, list_elem_of_In.
  apply list_elem_of_In, elem_of_reverse, trim_with_incl, elem_of_reverse, trim_with_incl in Hc.
  exact Hc.
Qed.

Lemma isASCII_ToLower s : isASCII s = true → isASCII (ToLower s) = true.
Proof. intros Hs. unfold ToLower. rewrite Hs. by apply isASCII_lower. Qed.

Lemma isASCII_app s t : isASCII (s +:+ t) = isASCII s && isASCII t.
Proof. unfold isASCII. by rewrite bs_app, forallb_app. Qed.

Lemma length_ascii_lower s : String.length (ascii_lower s) = String.length s.
Proof. rewrite <- !length_bs. unfold ascii_lower. by rewrite bs_sb, length_map. Qed.

Lemma EqualFold_length s t :
  isASCII s = true → isASCII t = true → EqualFold s t = true →
  String.length s = String.length t.
Proof.
  intros Hs Ht. unfold EqualFold. rewrite Hs, Ht. cbn. intros Hd%bool_decide_eq_true.
  by rewrite <- (length_ascii_lower s), Hd, length_ascii_lower.
Qed.

Lemma Split_label label suffix :
  dot ∉ bs label → Split (label +:+ "." +:+ suffix) dot = label :: Split suffix dot.
Proof.
  intros Hl. unfold Split. rewrite !bs_app. cbn [bs String.list_ascii_of_string app].
  rewrite split_on_app by done. cbn. by rewrite sb_bs.
Qed.

Lemma Split_first s h t :
  Split s dot = h :: t → t ≠ [] → dot ∉ bs h ∧ s = h +:+ "." +:+ Join t ".".
Proof.
  intros Hs Ht.
  assert (Hj : Join (h :: t) "." = s) by (rewrite <- Hs; apply Join_Split).
  split.
  - unfold Split in Hs. pose proof (split_on_notin dot (bs s)) as Hn.
    destruct (split_on dot (bs s)) as [|p ps]; [done|].
    cbn in Hs. injection Hs as <- <-. rewrite bs_sb. by inversion Hn.
  - rewrite <- Hj. unfold Join. destruct t as [|t1 t]; [done|].
    change (bs <$> h :: t1 :: t) with (bs h :: (bs <$> t1 :: t)).
    cbn [join_bytes fmap list_fmap]. rewrite !sb_app, sb_bs. done.
Qed.

(** [glob:*.suffix] matches a domain (ASCII, trimmed, any case) exactly when
    the domain is one dot-free label, a dot, and the suffix: deeper
    subdomains and the bare suffix do not match. *)
Lemma glob_Match_one_label (suffix domain : string) :
  isASCII domain = true →
  glob_Match suffix domain = true ↔
  ∃ label, dot ∉ bs label ∧ ToLower (TrimSpace domain) = label +:+ "." +:+ suffix.
Proof.
  intros Hd%isASCII_TrimSpace%isASCII_ToLower. unfold glob_Match.
  set (d := ToLower (TrimSpace domain)) in *.
  split.
  - destruct (bool_decide (d = "") || EqualFold d suffix); [done|].
    case_decide as Hlen; [|done]. intros Hj%bool_decide_eq_true.
    destruct (Split d dot) as [|h t] eqn:Hs; [cbn in Hlen; lia|].
    destruct (split_on_cons dot (bs suffix)) as (h' & t' & Hs').
    assert (t ≠ []). { intros ->. unfold Split in Hlen. rewrite Hs' in Hlen. cbn in Hlen. lia. }
    destruct (Split_first d h t) as [Hh Heq]; [done|done|].
    exists h. split; [done|]. cbn in Hj. rewrite drop_0 in Hj. by rewrite <- Hj.
  - intros (label & Hl & Heq). rewrite Heq in *.
    rewrite isASCII_app, (isASCII_app "." suffix), !andb_true_iff in Hd.
    destruct Hd as (Hl' & _ & Hsuf).
    destruct (bool_decide _ || EqualFold _ suffix) eqn:Hor.
    + apply orb_true_iff in Hor as [Hb%bool_decide_eq_true|Hf].
      * by destruct label.
      * apply EqualFold_length in Hf; [|by rewrite isASCII_app, (isASCII_app "." suffix), Hl', Hsuf|done].
        rewrite <- !length_bs, !bs_app, !length_app in Hf. cbn in Hf. lia.
    + rewrite (Split_label label suffix) by done. cbn [length].
      rewrite decide_True by lia. apply bool_decide_eq_true. cbn [drop].
      rewrite drop_0. apply (Join_Split suffix dot).
Qed.

(** *** Compiled matchers are well formed *)

(** A lower-case host name with at least two labels of letters, digits and
    inner hyphens. *)
Definition wf_label (l : string) : Prop :=
  l ≠ "" ∧ HasPrefix l "-" = false ∧ HasSuffix l "-" = false ∧
  forallb label_byte (bs l) = true.

Definition wf_domain (d : string) : Prop :=
  (2 ≤ length (Split d dot))%nat ∧ Forall wf_label (Split d dot).

Definition wf_matcher (m : senderDomainMatcher) : Prop :=
  match m with
  | exactDomainMatcher d => wf_domain d
  | singleLabelGlobMatcher suffix => wf_domain (ToLower (TrimSpace suffix))
  | regexDomainMatcher _ => True
  end.

Lemma validateLabels_wf ls : validateLabels ls = inl tt → Forall wf_label ls.
Proof.
  induction ls as [|l ls IH]; cbn; [constructor|].
  unfold validateDomainLabel. case_decide; [done|].
  destruct (HasPrefix l "-" || HasSuffix l "-") eqn:Hh; [done|].
  destruct (forallb label_byte (bs l)) eqn:Hb; [|done].
  apply orb_false_iff in Hh as [??]. intros Hr. constructor; [done|auto].
Qed.

Lemma normalizeExactDomain_wf raw d :
  normalizeExactDomain raw = inl d → d = ToLower (TrimSpace raw) ∧ wf_domain d.
Proof.
  unfold normalizeExactDomain. case_decide; [done|].
  destruct (ContainsByte _ star); [done|]. destruct (ContainsByte _ colon); [done|].
  destruct (length (Split _ dot) <? 2)%nat eqn:Hlen; [done|].
  destruct (validateLabels _) as [[]|e] eqn:Hv; [|done].
  intros [= <-]. split; [done|]. split; [by apply Nat.ltb_ge|by apply validateLabels_wf].
Qed.

Lemma compileSenderDomainMatcher_wf raw m :
  compileSenderDomainMatcher raw = inl (Some m) → wf_matcher m.
Proof.
  unfold compileSenderDomainMatcher. case_decide; [done|].
  destruct (HasPrefix _ "re:").
  { case_decide; [done|]. destruct (regexp_Compile _); [|done]. by intros [= <-]. }
  destruct (HasPrefix _ "glob:").
  - destruct (compileSingleLabelGlob _) as [suffix|] eqn:Hg; [|done]. intros [= <-].
    unfold compileSingleLabelGlob in Hg. case_decide; [done|].
    destruct (negb (HasPrefix _ _)); [done|]. destruct (negb (_ =? 1)); [done|].
    case_decide; [done|].
    destruct (normalizeExactDomain _) as [d|] eqn:Hn; [|done].
    injection Hg as <-. by apply normalizeExactDomain_wf in Hn as [-> ?].
  - destruct (normalizeExactDomain _) as [d|] eqn:Hn; [|done]. intros [= <-].
    by apply normalizeExactDomain_wf in Hn as [_ ?].
Qed.

Lemma compileMatchers_wf ps ms : compileMatchers ps = inl ms → Forall wf_matcher ms.
Proof.
  revert ms. induction ps as [|p ps IH]; cbn; intros ms; [by intros [= <-]|].
  destruct (compileSenderDomainMatcher p) as [o|] eqn:Hp; [|done].
  destruct (compileMatchers ps) as [ms'|]; [|done]. intros [= <-].
  apply Forall_app. split; [|auto].
  destruct o; cbn; [|constructor].
  constructor; [by eapply compileSenderDomainMatcher_wf|constructor].
Qed.

(** A policy that [NewSenderPolicy] builds has one of the two modes, and every
    exact or wildcard matcher in it holds a well-formed lower-case domain of
    at least two labels: a malformed entry fails startup instead of silently
    matching nothing. *)
Lemma NewSenderPolicy_wf (opts : SenderPolicyOptions) (p : SenderPolicy) :
  NewSenderPolicy opts = inl p →
  (mode p = SenderPolicyRewrite ∨ mode p = SenderPolicyStrict) ∧
  Forall wf_matcher (matchers p).
Proof.
  unfold NewSenderPolicy. case_decide; [|done].
  destruct (compileMatchers _) as [ms|] eqn:Hm; [|done].
  intros [= <-]. split; [done|]. by eapply compileMatchers_wf.
Qed.
End properties.

(** ** Witnesses *)

(** A toy address grammar (accept anything holding an at sign) and a regexp
    engine that refuses every pattern. *)
Definition demo_mail : MailRegexp := {|
  mail_ParseAddress := λ s, if ContainsByte s at_sign then inl s else inr (EText "no address");
  regexp_Compile := λ _, inr (EText "unsupported");
|}.

Lemma glob_Match_one_label_witness :
  isASCII "Mail.Example.com" = true ∧
  @glob_Match ascii_tables "example.com" "Mail.Example.com" = true.
Proof.
  split; [reflexivity|].
  apply (@glob_Match_one_label ascii_tables "example.com" "Mail.Example.com"); [reflexivity|].
  exists "mail". split; [vm_compute; set_solver|reflexivity].
Defined.

Definition demo_options : SenderPolicyOptions := {|
  opt_Mode := " Strict "; opt_AllowedDomainPatterns := ["Example.com"; " "; "GLOB:*.corp.example.com"];
|}.

Definition demo_policy : SenderPolicy :=
  MkPolicy "strict" [exactDomainMatcher "example.com"; singleLabelGlobMatcher "corp.example.com"].

Lemma NewSenderPolicy_wf_witness :
  @NewSenderPolicy ascii_tables demo_mail demo_options = inl demo_policy ∧
  Forall (@wf_matcher ascii_tables) (matchers demo_policy).
Proof.
  assert (E : @NewSenderPolicy ascii_tables demo_mail demo_options = inl demo_policy)
    by (vm_compute; reflexivity).
  split; [exact E|].
  exact (proj2 (@NewSenderPolicy_wf ascii_tables demo_mail demo_options demo_policy E)).
Defined.
