(* ===== verification/SMTPParser.v ===== *)
(** * internal/smtp/parser.go

    From the raw message of a DATA command and the envelope to an
    [email.Message].  [mail.ParseAddress] and [mail.ParseAddressList] are
    parameters; the rest of [net/mail] and [mime] that the parser uses is in
    [GoMail] and [GoMIME]. *)
From Stdlib Require Import Ascii.
From S2P Require Import Prelude.
From S2P Require Import GoStrings.
From S2P Require Import GoTime.
From S2P Require Import GoErrors.
From S2P Require Import GoEncoding.
From S2P Require Import GoMail.
From S2P Require Import GoMIME.
From S2P Require Import Email.
From S2P Require Import SenderPolicy.
#[local] Open Scope Z_scope.
#[local] Open Scope relay_scope.

(** The [Address] fields of the parsed list. *)
Class AddressList := mail_ParseAddressList : string → list string + goerr.

Section parser.
Context `{U : UnicodeTables} `{Rx : MailRegexp} `{AL : AddressList} `{ME : MIMEEnv}.

Definition normalizeAddresses (values : list string) : list string :=
  filter (λ s, s ≠ "") (TrimSpace <$> values).

Definition parseHeaderAddress (value : string) : string :=
  let value := TrimSpace value in
  if decide (value = "") then ""
  else match mail_ParseAddress value with inr _ => "" | inl addr => TrimSpace addr end.

Definition parseHeaderAddressList (value : string) : list string :=
  let value := TrimSpace value in
  if decide (value = "") then []
  else match mail_ParseAddressList value with
       | inr _ => []
       | inl addrs => filter (λ s, s ≠ "") (TrimSpace <$> addrs)
       end.

Definition decodeHeader (v : string) : string :=
  let v := TrimSpace v in
  if decide (v = "") then ""
  else match DecodeHeader v with inr _ => v | inl decoded => decoded end.

Definition decodeTransferEncoding (encoding : string) (data : bytes) : bytes + goerr :=
  let encoding := ToLower (TrimSpace encoding) in
  if decide (encoding ∈ [""; "7bit"; "8bit"; "binary"]) then inl data
  else if decide (encoding = "base64") then
    let cleaned := filter (λ c, c ≠ CR) (filter (λ c, c ≠ LF) data) in
    match base64_decode cleaned with
    | Some decoded => inl decoded
    | None => inr (EText "decode base64 mime part: illegal base64 data")
    end
  else if decide (encoding = "quoted-printable") then
    match ReadAll (quotedprintable (MkStream data None)) with
    | inl decoded => inl decoded
    | inr e => inr (EWrapf "decode quoted-printable mime part" e)
    end
  else inl data.

Definition is_multipart (mediaType : string) : bool := HasPrefix (ToLower mediaType) "multipart/".

(** The bodies of several parts of one type, one below the other. *)
Definition append_body (old new : string) : string :=
  if decide (old = "") then new else old +:+ sb [LF] +:+ new.

Definition with_text (m : Message) (text : string) : Message :=
  MkMessage (EnvelopeFrom m) (HeaderFrom m) (ReplyTo m) (To m) (Subject m) text (HTMLBody m)
    (Attachments m).
Definition with_html (m : Message) (html : string) : Message :=
  MkMessage (EnvelopeFrom m) (HeaderFrom m) (ReplyTo m) (To m) (Subject m) (TextBody m) html
    (Attachments m).
Definition with_attachment (m : Message) (a : Attachment) : Message :=
  MkMessage (EnvelopeFrom m) (HeaderFrom m) (ReplyTo m) (To m) (Subject m) (TextBody m)
    (HTMLBody m) (Attachments m ++ [a]).

(** The body of the loop for a part that is not multipart. *)
Definition parse_leaf (part : mpart) (mediaType : string) (out : Message) : Message + goerr :=
  match ReadAll (mp_body part) with
  | inr e => inr (EWrapf "read mime part body" e)
  | inl partBytes =>
      let* decoded := decodeTransferEncoding (header_Get (mp_header part) cte) partBytes in
      let decoded := sb decoded in
      let '(disposition, dispositionParams, _) :=
        ParseMediaType (header_Get (mp_header part) "Content-Disposition") in
      let filename := TrimSpace (part_FileName part) in
      let filename := if decide (filename = "")
                      then TrimSpace (default "" (dispositionParams !! "filename"))
                      else filename in
      if EqualFold disposition "attachment" || negb (bool_decide (filename = "")) then
        let mediaType := if decide (mediaType = "") then "application/octet-stream"
                         else mediaType in
        inl (with_attachment out (MkAttachment filename mediaType decoded))
      else if EqualFold mediaType "text/plain" then
        inl (with_text out (append_body (TextBody out) decoded))
      else if EqualFold mediaType "text/html" then
        inl (with_html out (append_body (HTMLBody out) decoded))
      else inl out
  end.

(** [None]: the loop was still running after [fuel] turns.  A turn reads one
    part; a nested multipart has its own turns. *)
Fixpoint parse_multipart (fuel : nat) (mr : mreader) (out : Message)
    : option (Message + goerr) :=
  match fuel with
  | O => None
  | S fuel =>
      match NextPart mr with
      | inr None => Some (inl out)
      | inr (Some e) => Some (inr (EWrapf "read mime part" e))
      | inl (part, mr) =>
          let '(mediaType, params, err) :=
            ParseMediaType (header_Get (mp_header part) "Content-Type") in
          let mediaType := match err with
                           | Some _ => "application/octet-stream"
                           | None => mediaType
                           end in
          if is_multipart mediaType then
            let boundary := default "" (params !! "boundary") in
            if decide (boundary = "") then parse_multipart fuel mr out
            else
              match parse_multipart fuel (multipart_NewReader (mp_body part) boundary) out with
              | Some (inl out) => parse_multipart fuel mr out
              | r => r
              end
          else
            match parse_leaf part mediaType out with
            | inl out => parse_multipart fuel mr out
            | inr e => Some (inr e)
            end
      end
  end.

(** Every part takes at least its boundary line from the input, so the bound is
    never reached and the default never used ([parseMultipart_terminates]). *)
Definition parseMultipart (mr : mreader) (out : Message) : Message + goerr :=
  default (inr (EText "still parsing"))
    (parse_multipart (S (length (st_data (mr_in mr)))) mr out).

(** The message before its body is read. *)
Definition parsed_headers (h : header) (envelopeFrom : string) (envelopeTo : list string)
    : Message :=
  MkMessage (TrimSpace envelopeFrom) (parseHeaderAddress (header_Get h "From"))
    (parseHeaderAddressList (header_Get h "Reply-To")) (normalizeAddresses envelopeTo)
    (decodeHeader (header_Get h "Subject")) "" "" [].

Definition ParseMessage (r : stream) (envelopeFrom : string) (envelopeTo : list string)
    : Message + goerr :=
  match ReadMessage r with
  | inr e => inr (EWrapf "read smtp message" e)
  | inl (h, body) =>
      let result := parsed_headers h envelopeFrom envelopeTo in
      let '(mediaType, params, err) := ParseMediaType (header_Get h "Content-Type") in
      let mediaType := match err with Some _ => "text/plain" | None => mediaType end in
      if is_multipart mediaType then
        let boundary := default "" (params !! "boundary") in
        if decide (boundary = "") then inr (EText "multipart message missing boundary")
        else parseMultipart (multipart_NewReader body boundary) result
      else
        match ReadAll body with
        | inr e => inr (EWrapf "read message body" e)
        | inl bodyBytes =>
            let* decodedBody := decodeTransferEncoding (header_Get h cte) bodyBytes in
            if EqualFold mediaType "text/html"
            then inl (with_html result (sb decodedBody))
            else inl (with_text result (sb decodedBody))
        end
  end.
End parser.
