(* ===== verification/SMTPParserProps.v ===== *)
(** * Reading a message comes to an end

    Every part of a multipart message takes its boundary line from the input, so
    the readers' bounds are never reached. *)
From Stdlib Require Import Ascii.
From S2P Require Import Prelude.
From S2P Require Import GoStrings.
From S2P Require Import GoErrors.
From S2P Require Import GoEncoding.
From S2P Require Import GoJSON.
From S2P Require Import GoMail.
From S2P Require Import GoMIME.
From S2P Require Import Email.
From S2P Require Import SenderPolicy.
From S2P Require Import SMTPParser.
#[local] Open Scope nat_scope.

(** What is left of a stream. *)
Definition left (s : stream) : nat := length (st_data s).

(** ** Lines *)

Lemma break_line_app l : l = (break_line l).1 ++ (break_line l).2.
Proof.
  induction l as [|c l IH]; [done|]. cbn. case_decide; [done|].
  destruct (break_line l) as [a b]; cbn in *. by rewrite IH at 1.
Qed.

Lemma break_line_length l : length (break_line l).1 + length (break_line l).2 = length l.
Proof. rewrite (break_line_app l) at 3. by rewrite length_app. Qed.

Lemma break_line_progress l : l ≠ [] → 0 < length (break_line l).1.
Proof. destruct l as [|c l]; [done|]. intros _. cbn. case_decide; cbn; [lia|]. destruct (break_line l); cbn; lia. Qed.

Lemma read_line_left lim s line s' : read_line lim s = inl (line, s') → left s' < left s.
Proof.
  unfold read_line, left. destruct (st_data s) as [|c l] eqn:E; [done|].
  pose proof (break_line_length (c :: l)) as Hl.
  pose proof (break_line_progress (c :: l) ltac:(done)) as Hp.
  destruct (break_line (c :: l)) as [a b]. cbn [fst snd] in *.
  destruct lim as [n|]; [destruct (n <? _)%Z; [done|]|]; intros [= <- <-]; cbn [st_data]; lia.
Qed.

Lemma skip_blank_length l : length (skip_blank l) <= length l.
Proof. induction l as [|c l IH]; cbn; [lia|]. destruct (blank c); cbn; lia. Qed.

Lemma continuation_left fuel lim buf s b s' :
  continuation_lines fuel lim buf s = inl (b, s') → left s' <= left s.
Proof.
  revert lim buf s. induction fuel as [|n IH]; intros lim buf s; cbn [continuation_lines].
  { by intros [= <- <-]. }
  destruct (negb _); [by intros [= <- <-]|].
  pose proof (skip_blank_length (st_data s)) as Hs.
  destruct (match lim with Some z => _ | None => false end); [done|].
  destruct (read_line _ _) as [[line s1]|e] eqn:Hr.
  - intros H%IH. apply read_line_left in Hr. unfold left in *. cbn in *. lia.
  - intros [= <- <-]. unfold left. cbn. lia.
Qed.

Lemma read_continued_left lim valid s b s' :
  read_continued lim valid s = inl (b, s') → left s' < left s.
Proof.
  unfold read_continued. destruct (read_line lim s) as [[line s1]|e] eqn:Hr; [|done].
  apply read_line_left in Hr. destruct line as [|c line]; [by intros [= <- <-]|].
  destruct (valid _); [done|]. intros H%continuation_left. lia.
Qed.

Lemma mime_fields_left fuel mem n s h h' s' :
  read_mime_fields fuel mem n s h = inl (h', s') → left s' <= left s.
Proof.
  revert mem n s h. induction fuel as [|fuel IH]; intros mem n s h; cbn [read_mime_fields].
  { by intros [= <- <-]. }
  destruct (read_continued _ _ s) as [[kv s1]|e] eqn:Hr; [|done].
  apply read_continued_left in Hr. destruct kv as [|c kv]; [intros [= <- <-]; lia|].
  repeat case_match; try done; intros Hf%IH; lia.
Qed.

Lemma ReadMIMEHeader_left s h s' : ReadMIMEHeader s = inl (h, s') → left s' <= left s.
Proof. unfold ReadMIMEHeader. destruct (starts_blank _); [done|]. apply mime_fields_left. Qed.

Lemma read_slice_length s :
  let '(line, err, s') := read_slice s in
  length line + left s' <= left s ∧ (err = None → left s' < left s).
Proof.
  unfold read_slice, left. pose proof (break_line_length (st_data s)) as Hl.
  destruct (break_line (st_data s)) as [line rest]. cbn [fst snd] in Hl.
  case_decide; cbn [st_data].
  { split; [|done]. rewrite length_take, length_app, length_drop. lia. }
  case_bool_decide as Hlast; cbn.
  { split; [lia|]. intros _. destruct line; [done|]. cbn in *. lia. }
  case_decide; (split; [cbn; lia|done]).
Qed.

(** ** Quoted-printable text *)

Lemma span_bytes_app p l : l = (span_bytes p l).1 ++ (span_bytes p l).2.
Proof.
  induction l as [|c l IH]; [done|]. cbn. destruct (p c); [|done].
  destruct (span_bytes p l); cbn in *. by rewrite IH at 1.
Qed.

Lemma qp_strip_app l : l = (qp_strip l).1 ++ (qp_strip l).2.
Proof.
  unfold qp_strip. pose proof (span_bytes_app qp_white (reverse l)) as H.
  destruct (span_bytes qp_white (reverse l)) as [w r]. cbn in *.
  apply (f_equal reverse) in H. by rewrite reverse_involutive, reverse_app in H.
Qed.

(** A line that ends in white space loses it. *)
Lemma qp_strip_white l n :
  n <= length l → forallb qp_white (take n (reverse l)) = true → n <= length (qp_strip l).2.
Proof.
  unfold qp_strip. intros Hn Hw. rewrite <- (length_reverse l) in Hn. revert n Hn Hw.
  induction (reverse l) as [|c r IH]; intros [|n] Hn Hw; cbn in *; try lia.
  apply andb_true_iff in Hw as [Hc Hw]. rewrite Hc.
  specialize (IH n ltac:(lia) Hw). destruct (span_bytes qp_white r) as [w r'].
  cbn [fst snd] in *. rewrite length_reverse in *. cbn. lia.
Qed.

Lemma removelast_length {A} (l : list A) : length (removelast l) <= length l.
Proof. induction l as [|a l IH]; cbn; [lia|]. destruct l; cbn in *; lia. Qed.

Lemma qp_line_length whole err : length (qp_line whole err).1 <= length whole.
Proof.
  unfold qp_line. pose proof (qp_strip_app whole) as Happ.
  pose proof (qp_strip_white whole) as Hw.
  destruct (qp_strip whole) as [line stripped]. cbn [fst snd] in *.
  apply (f_equal length) in Happ. rewrite length_app in Happ.
  pose proof (removelast_length line).
  case_bool_decide; [destruct (_ && _); cbn; lia|].
  case_bool_decide as Hlf; [|cbn; lia]. cbn [fst].
  assert (Hlast : ∃ r, reverse whole = LF :: r).
  { apply last_Some in Hlf as (l & ->). exists (reverse l). by rewrite reverse_app. }
  destruct Hlast as (r & Hr). rewrite Hr in Hw. rewrite length_app.
  case_bool_decide as Hcrlf; cbn.
  - destruct Hcrlf as (l & Hl). apply strip_prefix_Some in Hl. rewrite Hr in Hl.
    change (reverse [CR; LF]) with [LF; CR] in Hl. injection Hl as ->. specialize (Hw 2).
    apply (f_equal length) in Hr. rewrite length_reverse in Hr. cbn in Hr.
    specialize (Hw ltac:(lia) eq_refl). lia.
  - specialize (Hw 1). apply (f_equal length) in Hr. rewrite length_reverse in Hr. cbn in Hr.
    specialize (Hw ltac:(lia) eq_refl). lia.
Qed.

Lemma qp_bytes_length l : length (qp_bytes l).1 <= length l.
Proof.
  remember (length l) as n eqn:Hn. revert l Hn. induction (lt_wf n) as [n _ IH]. intros l ->.
  destruct l as [|c l]; [cbn; lia|]. cbn [qp_bytes].
  assert (Hrec : ∀ l', length l' < length (c :: l) → length (qp_bytes l').1 <= length l')
    by (intros l' Hl'; by apply (IH (length l'))).
  assert (Htail : length (qp_bytes l).1 <= length l) by (apply Hrec; cbn; lia).
  case_decide.
  - destruct l as [|a l1]; [cbn; lia|]. destruct l1 as [|b l2].
    + case_decide; [cbn; lia|]. destruct (qp_bytes [a]); cbn in *; lia.
    + assert (length (qp_bytes l2).1 <= length l2) by (apply Hrec; cbn; lia).
      destruct (hex_nibble a), (hex_nibble b);
        try (case_decide; [cbn; lia|destruct (qp_bytes (a :: b :: l2)); cbn in *; lia]).
      destruct (qp_bytes l2); cbn in *. lia.
  - destruct (_ || _); [destruct (qp_bytes l); cbn in *; lia|cbn; lia].
Qed.

Lemma qp_read_left fuel s : left (qp_read fuel s) <= left s.
Proof.
  revert s. induction fuel as [|n IH]; intros s; cbn [qp_read]; [unfold left; cbn; lia|].
  pose proof (read_slice_length s) as Hr. destruct (read_slice s) as [[whole err] rest].
  destruct Hr as [Hr _]. pose proof (qp_line_length whole err) as Hl.
  destruct (qp_line whole err) as [line err']. cbn [fst] in Hl.
  pose proof (qp_bytes_length line) as Hb. destruct (qp_bytes line) as [out ok]. cbn [fst] in Hb.
  destruct (negb ok); [unfold left in *; cbn; lia|].
  destruct err'; unfold left in *; cbn; [lia|]. specialize (IH rest). rewrite length_app. lia.
Qed.

(** ** Parts *)

Lemma scan_body_length nlDash skip l a b :
  scan_body nlDash skip l = Some (a, b) → length a + length b = length l.
Proof.
  revert skip a b. induction l as [|c l IH]; intros skip a b.
  - destruct skip; cbn; [|done]. destruct (strip_prefix nlDash []); [|done].
    case_match; [|done]. by intros [= <- <-].
  - assert (Hstep : ∀ k, ('(x, y) ← scan_body nlDash k l; Some (c :: x, y)) = Some (a, b) →
                         length a + length b = length (c :: l)).
    { intros k. destruct (scan_body nlDash k l) as [[x y]|] eqn:E; [|done].
      intros [= <- <-]. apply IH in E. cbn. lia. }
    destruct skip; cbn; [|apply Hstep]. destruct (strip_prefix nlDash (c :: l)); [|apply Hstep].
    case_match; [by intros [= <- <-]|apply Hstep].
Qed.

Lemma cut_tail_length nlDash l : length (cut_tail nlDash l) <= length l.
Proof. induction l as [|c l IH]; cbn; [lia|]. destruct (_ && _); cbn; lia. Qed.

Lemma part_body_left r s : left (part_body r s).1 + left (part_body r s).2 <= left s.
Proof.
  unfold part_body, left.
  assert (Hf : ∀ found, (∀ a b, found = Some (a, b) → length a + length b = length (st_data s)) →
    let p := match found with
      | Some (body, rest) => (MkStream body None, MkStream rest (st_err s))
      | None =>
          (MkStream (if bool_decide (is_Some (strip_prefix (st_data s) (dashBoundary r))) then []
                     else cut_tail (mr_nl r ++ dashBoundary r) (st_data s))
             (Some (default ErrUnexpectedEOF (st_err s))), MkStream [] (st_err s))
      end in
    length (st_data p.1) + length (st_data p.2) <= length (st_data s)).
  { intros [[a b]|] H; cbn [fst snd st_data length]; [rewrite (H a b eq_refl); lia|].
    case_bool_decide; cbn [length]; [lia|]. pose proof (cut_tail_length (mr_nl r ++ dashBoundary r) (st_data s)).
    lia. }
  apply Hf. intros a b. destruct (strip_prefix (dashBoundary r) (st_data s)) as [rest|];
    [destruct (after_boundary rest)|]; [|apply scan_body_length..].
  by intros [= <- <-].
Qed.

Section parts.
Context `{U : UnicodeTables} `{Rx : MailRegexp} `{AL : AddressList} `{ME : MIMEEnv}.

Lemma new_part_left r s p s' :
  new_part r s = inl (p, s') → left (mp_body p) <= left s ∧ left s' <= left s.
Proof.
  unfold new_part. destruct (ReadMIMEHeader s) as [[h s1]|e] eqn:Hh; [|done].
  apply ReadMIMEHeader_left in Hh. pose proof (part_body_left r s1) as Hb.
  destruct (part_body r s1) as [body rest]. cbn [fst snd] in Hb.
  destruct (EqualFold _ _); intros [= <- <-]; cbn [mp_body]; [|lia].
  pose proof (qp_read_left (S (length (st_data body))) body) as Hq.
  fold (quotedprintable body) in Hq. split; [lia|].
  unfold left in *. cbn [st_data]. rewrite length_app.
  destruct (st_err (quotedprintable body)); [rewrite length_drop|cbn]; lia.
Qed.

Lemma next_part_left fuel expect r p r' :
  next_part fuel expect r = Some (inl (p, r')) →
  left (mp_body p) < left (mr_in r) ∧ left (mr_in r') < left (mr_in r).
Proof.
  revert expect r. induction fuel as [|fuel IH]; intros expect r; cbn [next_part]; [done|].
  pose proof (read_slice_length (mr_in r)) as Hs.
  destruct (read_slice (mr_in r)) as [[line err] s]. destruct Hs as [_ Hs].
  destruct err as [[e|]|]; [done|by destruct (isFinalBoundary r line)|]. specialize (Hs eq_refl).
  destruct (delimiter_line r line) as [crlf|].
  - destruct (new_part _ s) as [[q s1]|e] eqn:Hn; [|done]. intros [= <- <-].
    apply new_part_left in Hn. cbn [mr_in]. lia.
  - destruct (isFinalBoundary r line); [done|]. destruct expect; [done|].
    case_decide; [intros Hk%IH; cbn in Hk; lia|].
    case_decide; [|done]. intros H'%IH. cbn in H'. lia.
Qed.

(** With a turn for every byte left the search for the next part answers, and
    the answer does not depend on the bound. *)
Lemma next_part_total n expect r :
  left (mr_in r) < n → ∃ a, ∀ m, left (mr_in r) < m → next_part m expect r = Some a.
Proof.
  revert expect r. induction n as [|n IH]; intros expect r Hn; [lia|].
  pose proof (read_slice_length (mr_in r)) as Hs.
  destruct (read_slice (mr_in r)) as [[line err] s] eqn:Hr. destruct Hs as [_ Hs].
  assert (Hstep : (∃ a, ∀ m, next_part (S m) expect r = Some a) ∨
    ∃ expect' r', left (mr_in r') < left (mr_in r) ∧
      ∀ m, next_part (S m) expect r = next_part m expect' r').
  { destruct err as [[e|]|];
      [left; eexists; intros m; cbn [next_part]; rewrite Hr; reflexivity..|].
    specialize (Hs eq_refl).
    destruct (delimiter_line r line) as [crlf|] eqn:Hd.
    { left. destruct (new_part (MkMReader s (mr_boundary r) crlf (S (mr_parts r))) s)
        as [[q s1]|e] eqn:Hq; eexists; intros m; cbn [next_part]; by rewrite Hr, Hd, Hq. }
    destruct (isFinalBoundary r line) eqn:Hf.
    { left. eexists. intros m. cbn [next_part]. by rewrite Hr, Hd, Hf. }
    destruct expect.
    { left. eexists. intros m. cbn [next_part]. by rewrite Hr, Hd, Hf. }
    destruct (decide (mr_parts r = 0)) as [H0|H0];
      [|destruct (decide (line = mr_nl r)) as [Hl|Hl]].
    3:{ left. eexists. intros m. cbn [next_part]. rewrite Hr, Hd, Hf.
        by rewrite !decide_False. }
    all: right; eexists _, (MkMReader s (mr_boundary r) (mr_crlf r) (mr_parts r));
      (split; [exact Hs|]); intros m; cbn [next_part]; rewrite Hr, Hd, Hf.
    - by rewrite decide_True.
    - by rewrite decide_False, decide_True. }
  destruct Hstep as [[a Ha]|(expect' & r' & Hlt & Heq)].
  - exists a. intros [|m] Hm; [lia|]. apply Ha.
  - destruct (IH expect' r' ltac:(lia)) as [a Ha]. exists a. intros [|m] Hm; [lia|].
    rewrite Heq. apply Ha. lia.
Qed.

Lemma NextPart_left r p r' :
  NextPart r = inl (p, r') →
  left (mp_body p) < left (mr_in r) ∧ left (mr_in r') < left (mr_in r).
Proof.
  unfold NextPart. destruct (next_part _ false r) as [a|] eqn:Hn; [|done].
  cbn. intros ->. by apply next_part_left in Hn.
Qed.

#[local] Ltac take_turn m Hp Ht mt :=
  intros [|m] ?; [lia|]; cbn [parse_multipart]; rewrite Hp, Ht; fold mt.

(** The loop over the parts ends, at whatever bound above the bytes left. *)
Lemma parse_multipart_total n mr out :
  left (mr_in mr) < n →
  ∃ r, ∀ m, left (mr_in mr) < m → parse_multipart m mr out = Some r.
Proof.
  revert mr out. induction n as [|n IH]; intros mr out Hn; [lia|].
  destruct (NextPart mr) as [[part mr']|[e|]] eqn:Hp.
  2,3: eexists; intros [|m] Hm; [lia|]; cbn [parse_multipart]; by rewrite Hp.
  destruct (NextPart_left _ _ _ Hp) as [Hb Hr].
  destruct (ParseMediaType (header_Get (mp_header part) "Content-Type"))
    as [[mediaType params] err] eqn:Ht.
  set (mt := match err with Some _ => "application/octet-stream" | None => mediaType end).
  assert (Hrest : ∀ o, ∃ r, ∀ m, left (mr_in mr) <= m → parse_multipart m mr' o = Some r).
  { intros o. destruct (IH mr' o ltac:(lia)) as [r Hx]. exists r. intros m Hm. apply Hx. lia. }
  destruct (is_multipart mt) eqn:Hm1; [destruct (decide (default "" (params !! "boundary") = ""))
    as [Hd|Hd]|].
  - destruct (Hrest out) as [r Hx]. exists r. take_turn m Hp Ht mt. rewrite Hm1, decide_True by done. apply Hx. lia.
  - set (inner := multipart_NewReader (mp_body part) (default "" (params !! "boundary"))).
    destruct (IH inner out ltac:(cbn; lia)) as [ri Hi]. cbn in Hi.
    destruct ri as [o|e].
    + destruct (Hrest o) as [r Hx]. exists r. take_turn m Hp Ht mt. rewrite Hm1, decide_False by done. fold inner.
      rewrite (Hi m) by lia. apply Hx. lia.
    + exists (inr e). take_turn m Hp Ht mt. rewrite Hm1, decide_False by done. fold inner.
      by rewrite (Hi m) by lia.
  - destruct (parse_leaf part mt out) as [o|e] eqn:Hl.
    + destruct (Hrest o) as [r Hx]. exists r. take_turn m Hp Ht mt. rewrite Hm1, Hl. apply Hx. lia.
    + exists (inr e). take_turn m Hp Ht mt. by rewrite Hm1, Hl.
Qed.
End parts.

(** A part with neither a content type nor a disposition, which RFC 2046 makes
    plain text, leaves no trace in the message: it is read, decoded and
    forgotten, and the message is accepted without it. *)
Lemma untyped_part_dropped `{U : UnicodeTables} `{Rx : MailRegexp} `{AL : AddressList}
    `{ME : MIMEEnv} (n : nat) (mr mr' : mreader) (part : mpart) (out : Message) (d d' : bytes) :
  NextPart mr = inl (part, mr') →
  header_Get (mp_header part) "Content-Type" = "" →
  header_Get (mp_header part) "Content-Disposition" = "" →
  ReadAll (mp_body part) = inl d →
  decodeTransferEncoding (header_Get (mp_header part) cte) d = inl d' →
  parse_multipart (S n) mr out = parse_multipart n mr' out.
Proof.
  intros Hn Hct Hcd Hd Hdec. cbn [parse_multipart]. rewrite Hn, Hct.
  unfold parse_leaf, part_FileName. rewrite Hcd, Hd, Hdec.
  assert (ParseMediaType "" = ("", ∅, Some (EText "mime: no media type"))) as -> by reflexivity.
  reflexivity.
Qed.

(** C18. Parsing comes to an end.  Running out of turns is [None], a value the loop
    never gives by itself: the loop over the parts of a multipart message, nested
    ones included, has an answer after at most as many turns as there are bytes
    left and one more, the same answer with every larger bound, and that answer
    is [parseMultipart]'s; the search for each boundary line has an answer in the
    same way.  So the code's unbounded loops stop on every input. *)
Theorem parseMultipart_terminates `{U : UnicodeTables} `{Rx : MailRegexp} `{AL : AddressList}
    `{ME : MIMEEnv} (mr : mreader) (out : Message) (n : nat) :
  length (st_data (mr_in mr)) < n →
  (∃ r, parse_multipart n mr out = Some r ∧ parseMultipart mr out = r) ∧
  ∀ expect, ∃ a, next_part n expect mr = Some a ∧
    next_part (S (length (st_data (mr_in mr)))) expect mr = Some a.
Proof.
  intros Hn. split.
  - destruct (parse_multipart_total n mr out Hn) as [r Hr]. exists r.
    unfold parseMultipart. rewrite !Hr by (unfold left; lia). done.
  - intros expect. destruct (next_part_total n expect mr Hn) as [a Ha]. exists a.
    split; apply Ha; unfold left; lia.
Qed.
