(* ===== verification/SpoolCommon.v ===== *)
(** * internal/spool: types.go and common.go

    The spool record, its states, last-error normalisation, and record
    identifiers (version 4 UUIDs in canonical lower-case form). *)
From Stdlib Require Import Ascii.
From S2P Require Import Prelude.
From S2P Require Import GoStrings.
From S2P Require Import GoTime.
From S2P Require Import GoErrors.
From S2P Require Import Email.
#[local] Open Scope Z_scope.

(** ** types.go *)

Definition State := string.
Definition StateQueued : State := "queued".
Definition StateWorking : State := "working".
Definition StateSubmitted : State := "submitted".
Definition StateSucceeded : State := "succeeded".
Definition StateDeadLetter : State := "dead-letter".

Definition allStates : list State :=
  [StateQueued; StateWorking; StateSubmitted; StateSucceeded; StateDeadLetter].

Record LastError := MkLastError {
  le_Message : string;
  le_Provider : string;
  le_Temporary : bool;
  le_Timestamp : time;
}.

(** [Record] *)
Record SpoolRecord := MkRecord {
  rec_ID : string;
  rec_Message : Message;
  rec_State : State;
  rec_Attempt : Z;
  rec_NextAttemptAt : time;
  rec_OperationID : string;
  rec_OperationLocation : string;
  rec_ProviderMessageID : string;
  rec_FirstSubmittedAt : time;
  rec_LastError : option LastError;
  rec_CreatedAt : time;
  rec_UpdatedAt : time;
}.

Record RecoveryResult := MkRecovery {
  rr_Requeued : list SpoolRecord;
  rr_Submitted : list SpoolRecord;
  rr_DeadLettered : list SpoolRecord;
  rr_OrphanedPayloads : list string;
}.

(** ** common.go *)

Definition isValidState (state : State) : bool :=
  existsb (λ candidate, bool_decide (state = candidate)) allStates.

Definition normalizeLastError (lastErr : option LastError) (fallback : time) : option LastError :=
  match lastErr with
  | None => None
  | Some e =>
      Some (MkLastError (TrimSpace (le_Message e)) (TrimSpace (le_Provider e)) (le_Temporary e)
              (if IsZero (le_Timestamp e)
               then if IsZero fallback then le_Timestamp e else fallback
               else le_Timestamp e))
  end.

(** *** Record identifiers *)

Definition set_byte (i : nat) (f : Z → Z) (b : bytes) : bytes :=
  alter (λ c, chr (f (byte_val c))) i b.

Definition slice (i j : nat) (b : bytes) : bytes := take (j - i) (drop i b).

Definition hex_Encode (b : bytes) : bytes := b ≫= hex_byte.

Definition dash : ascii := chr 45.

(** [rand] is what [rand.Read] put in the 16-byte buffer, or its error. *)
Definition newUUIDv4 (rand : bytes + goerr) : string + goerr :=
  match rand with
  | inr e => inr e
  | inl b =>
      let b := set_byte 6 (λ z, Z.lor (Z.land z 15) 64) b in
      let b := set_byte 8 (λ z, Z.lor (Z.land z 63) 128) b in
      inl (sb (hex_Encode (slice 0 4 b) ++ [dash] ++ hex_Encode (slice 4 6 b) ++ [dash]
               ++ hex_Encode (slice 6 8 b) ++ [dash] ++ hex_Encode (slice 8 10 b) ++ [dash]
               ++ hex_Encode (slice 10 16 b)))
  end.

Definition lower_hex (c : ascii) : bool := between 48 57 c || between 97 102 c.

(** The [switch i] of the validation loop. *)
Definition id_byte_ok (i : nat) (c : ascii) : bool :=
  match i with
  | 8 | 13 | 18 | 23 => Ascii.eqb c dash
  | 14 => Ascii.eqb c (chr 52)
  | 19 => existsb (Ascii.eqb c) [chr 56; chr 57; chr 97; chr 98]
  | _ => lower_hex c
  end%nat.

Fixpoint id_bytes_ok (i : nat) (l : bytes) : bool :=
  match l with
  | [] => true
  | c :: l' => id_byte_ok i c && id_bytes_ok (S i) l'
  end.

Section validate.
Context `{UnicodeTables}.

Definition not_canonical (id : string) : goerr :=
  EText ("record id " +:+ Quote id +:+ " must be a canonical lowercase UUID").

Definition validateCanonicalRecordID (id : string) : unit + goerr :=
  if decide (id = "") then inr (EText "record id cannot be empty")
  else if decide (TrimSpace id ≠ id) then
    inr (EText ("record id " +:+ Quote id +:+ " must not have surrounding whitespace"))
  else if decide (String.length id ≠ 36%nat) then inr (not_canonical id)
  else if id_bytes_ok 0 (bs id) then inl tt
  else inr (not_canonical id).
End validate.

(** ** Properties *)

(** The shape of a canonical version 4 UUID. *)
Definition canonical_id (id : string) : Prop :=
  length (bs id) = 36%nat ∧ ∀ i c, bs id !! i = Some c → id_byte_ok i c = true.

Lemma id_bytes_ok_spec i l :
  id_bytes_ok i l = true ↔ ∀ j c, l !! j = Some c → id_byte_ok (i + j) c = true.
Proof.
  revert i. induction l as [|a l IH]; intros i; cbn; [split; [done|done]|].
  rewrite andb_true_iff, IH. split.
  - intros [Ha Hl] [|j] c Hj; cbn in Hj.
    + injection Hj as <-. by rewrite Nat.add_0_r.
    + rewrite Nat.add_succ_r. by apply Hl.
  - intros Hl. split.
    + specialize (Hl 0%nat a eq_refl). by rewrite Nat.add_0_r in Hl.
    + intros j c Hj. specialize (Hl (S j) c Hj). by rewrite Nat.add_succ_r in Hl.
Qed.

Lemma id_byte_ok_graphic i c : id_byte_ok i c = true → graphic c = true.
Proof.
  intros H. assert (Ho : Ascii.eqb c dash || lower_hex c = true).
  { unfold id_byte_ok in H.
    repeat (destruct i as [|i]; [
      first [ rewrite H; by rewrite ?orb_true_r
            | apply Ascii.eqb_eq in H as ->; reflexivity
            | destruct c as [[] [] [] [] [] [] [] []]; first [discriminate H|reflexivity] ] |]).
    rewrite H. apply orb_true_r. }
  clear H. destruct c as [[] [] [] [] [] [] [] []]; first [discriminate Ho|reflexivity].
Qed.

Lemma canonical_id_graphic id : canonical_id id → forallb graphic (bs id) = true.
Proof.
  intros [_ H]. apply forallb_forall. intros c Hc%list_elem_of_In.
  apply list_elem_of_lookup in Hc as [i Hi]. by eapply id_byte_ok_graphic, H.
Qed.

Lemma canonical_id_trim id : canonical_id id → TrimSpace id = id.
Proof. intros H. by apply TrimSpace_graphic, canonical_id_graphic. Qed.

Section properties.
Context `{UnicodeTables}.

(** The guard accepts exactly the canonical version 4 UUIDs. *)
Lemma validate_canonical id : validateCanonicalRecordID id = inl tt ↔ canonical_id id.
Proof.
  unfold validateCanonicalRecordID. split.
  - case_decide; [done|]. case_decide; [done|]. case_decide as Hlen; [done|].
    destruct (id_bytes_ok 0 (bs id)) eqn:Hok; [|done]. intros _.
    split; [rewrite length_bs; lia|]. by apply (id_bytes_ok_spec 0).
  - intros Hc. pose proof (canonical_id_trim _ Hc) as Ht. destruct Hc as [Hlen Hok].
    rewrite decide_False; [|by intros ->]. rewrite decide_False; [|intros Hn; by destruct Hn].
    rewrite length_bs in Hlen. rewrite decide_False by lia.
    apply (id_bytes_ok_spec 0) in Hok. by rewrite Hok.
Qed.

End properties.

Lemma hex_byte_lower c : Forall (λ x, lower_hex x = true) (hex_byte c).
Proof. destruct c as [[] [] [] [] [] [] [] []]; repeat constructor. Qed.

Lemma hex_byte_version c :
  ∃ d, hex_byte (chr (Z.lor (Z.land (byte_val c) 15) 64)) = [chr 52; d] ∧ lower_hex d = true.
Proof. destruct c as [[] [] [] [] [] [] [] []]; eexists; split; reflexivity. Qed.

Lemma hex_byte_variant c :
  ∃ v d, hex_byte (chr (Z.lor (Z.land (byte_val c) 63) 128)) = [v; d] ∧
         existsb (Ascii.eqb v) [chr 56; chr 57; chr 97; chr 98] = true ∧ lower_hex d = true.
Proof. destruct c as [[] [] [] [] [] [] [] []]; do 2 eexists; split_and!; reflexivity. Qed.

(** Every identifier [newUUIDv4] makes from a full 16-byte random buffer passes
    the canonical-identifier guard, so no generated record is refused by the
    record or payload store. *)
Theorem newUUIDv4_canonical (b : bytes) :
  length b = 16%nat →
  ∃ id, newUUIDv4 (inl b) = inl id ∧ ∀ `{UnicodeTables}, validateCanonicalRecordID id = inl tt.
Proof.
  intros Hb. eexists. split; [reflexivity|]. intros U. apply validate_canonical.
  do 16 (destruct b as [|? b]; [discriminate Hb|]). destruct b; [|discriminate Hb].
  unfold canonical_id. rewrite bs_sb. cbn -[hex_byte Z.lor Z.land].
  match goal with |- context [chr (Z.lor (Z.land (byte_val ?c) 15) 64)] =>
    destruct (hex_byte_version c) as (d6 & -> & Hd6) end.
  match goal with |- context [chr (Z.lor (Z.land (byte_val ?c) 63) 128)] =>
    destruct (hex_byte_variant c) as (v8 & d8 & -> & Hv8 & Hd8) end.
  repeat match goal with |- context [hex_byte ?c] =>
    let H := fresh "H" in
    pose proof (hex_byte_lower c) as H;
    destruct (hex_byte c) as [|? [|? [|]]] eqn:? in *; try discriminate;
    rewrite !Forall_cons in H; destruct H as (? & ? & _) end.
  split; [done|]. apply (id_bytes_ok_spec 0). cbn -[lower_hex Ascii.eqb existsb chr].
  repeat match goal with H : lower_hex ?c = true |- _ => rewrite H; clear H end.
  rewrite Hv8. reflexivity.
Qed.

Definition demo_random : bytes := bs "0123456789abcdef".

Lemma newUUIDv4_canonical_witness :
  ∃ id, newUUIDv4 (inl demo_random) = inl id ∧
        @validateCanonicalRecordID ascii_tables id = inl tt.
Proof.
  destruct (newUUIDv4_canonical demo_random eq_refl) as (id & H & Hv).
  exists id. split; [exact H|]. exact (Hv ascii_tables).
Defined.

(** ** Lifecycle of a record

    The transitions the spool is meant to allow.  [queued -> working] is a
    claim, [working -> queued] a retry, a requeue or startup recovery,
    [submitted -> submitted] a reschedule; [succeeded] and [dead-letter] are
    terminal. *)
Inductive transition : State → State → Prop :=
  | tr_claim : transition StateQueued StateWorking
  | tr_retry : transition StateWorking StateQueued
  | tr_submitted : transition StateWorking StateSubmitted
  | tr_working_succeeded : transition StateWorking StateSucceeded
  | tr_working_dead : transition StateWorking StateDeadLetter
  | tr_reschedule : transition StateSubmitted StateSubmitted
  | tr_submitted_succeeded : transition StateSubmitted StateSucceeded
  | tr_submitted_dead : transition StateSubmitted StateDeadLetter
  (** startup recovery, on a record it has just requeued *)
  | tr_recovered_dead : transition StateQueued StateDeadLetter.

#[export] Hint Constructors transition : relay.

Definition terminal (s : State) : Prop := s = StateSucceeded ∨ s = StateDeadLetter.

Lemma transition_terminal s t : terminal s → ¬ transition s t.
Proof. intros [-> | ->] Ht; inversion Ht. Qed.

Lemma rtc_transition_terminal s t : terminal s → rtc transition s t → t = s.
Proof. intros Hs Ht. inversion Ht; subst; [done|]. by edestruct transition_terminal. Qed.
