(* ===== verification/Records.v ===== *)
(** * internal/spool/sqlite_record_store.go and schema.go

    The SQLite-backed record metadata store.  The table maps record identifiers
    to rows; transactions are written for any contents, since opening the
    database runs them on the whole file ([Schema]).  The store uses one pooled connection
    ([SetMaxOpenConns(1)]), so the state is what that connection sees, the
    contents at [BEGIN] when a transaction is open, and whether the [*sql.Conn]
    handle in use is still open.  What lies outside the repository is a
    parameter: whether the n-th call into the driver fails, whether giving a
    connection back to the pool rolls an open transaction back, and what the
    n-th reading of the clock is. *)
From Stdlib Require Import Ascii.
From S2P Require Import Prelude.
From S2P Require Import GoStrings.
From S2P Require Import GoTime.
From S2P Require Import GoErrors.
From S2P Require Import Email.
From S2P Require Import SpoolCommon.
#[local] Open Scope Z_scope.
#[local] Open Scope relay_scope.

(** ** The table *)

(** One row of [records] without its primary key; [None] is SQL [NULL]. *)
Record row := MkRow {
  r_state : string;
  r_attempt : Z;
  r_next_attempt_at_ms : Z;
  r_operation_id : option string;
  r_operation_location : option string;
  r_provider_message_id : option string;
  r_first_submitted_at_ms : option Z;
  r_last_error_message : option string;
  r_last_error_provider : option string;
  r_last_error_temporary : option Z;
  r_last_error_timestamp_ms : option Z;
  r_created_at_ms : Z;
  r_updated_at_ms : Z;
}.

Definition blank : ascii := chr 32.

(** SQLite's [id = trim(id)]: [trim] strips spaces only. *)
Definition sql_trimmed (id : string) : bool :=
  bool_decide (head (bs id) ≠ Some blank) && bool_decide (last (bs id) ≠ Some blank).

(** SQLite's [length(id) > 0]: characters before the first NUL. *)
Definition sql_nonempty (id : string) : bool :=
  match bs id with [] => false | c :: _ => negb (Ascii.eqb c (chr 0)) end.

Definition null_or (P : Z → bool) (v : option Z) : bool :=
  match v with None => true | Some z => P z end.

(** The [CHECK] constraints of [recordsTableSchema]. *)
Definition row_check (id : string) (r : row) : bool :=
  sql_nonempty id && sql_trimmed id &&
  existsb (λ s, bool_decide (r_state r = s))
    ["queued"; "working"; "submitted"; "succeeded"; "dead-letter"] &&
  (0 <=? r_attempt r) &&
  (0 <? r_next_attempt_at_ms r) &&
  null_or (λ z, 0 <? z) (r_first_submitted_at_ms r) &&
  null_or (λ z, (z =? 0) || (z =? 1)) (r_last_error_temporary r) &&
  null_or (λ z, 0 <? z) (r_last_error_timestamp_ms r) &&
  (0 <? r_created_at_ms r) &&
  ((0 <? r_updated_at_ms r) && (r_created_at_ms r <=? r_updated_at_ms r)) &&
  ((bool_decide (r_last_error_message r = None) && bool_decide (r_last_error_provider r = None)
    && bool_decide (r_last_error_temporary r = None)
    && bool_decide (r_last_error_timestamp_ms r = None))
   || bool_decide (is_Some (r_last_error_timestamp_ms r))).

(** ** The connection *)

(** [T] is what the database holds: the rows of [records] for the operations
    on records, the whole file when a store is opened. *)
Record database (T : Type) := MkDB {
  db_cur : T;
  db_txn : option T;
  db_conn : bool;
  db_calls : nat;
  db_ticks : nat;
}.
Arguments MkDB {T} _ _ _ _ _.
Arguments db_cur {T} _.
Arguments db_txn {T} _.
Arguments db_conn {T} _.
Arguments db_calls {T} _.
Arguments db_ticks {T} _.

Abbreviation dbstate := (database (gmap string row)).

(** What survives a crash, and what another process would read: the last
    committed contents. *)
Definition durable {T} (s : database T) : T := default (db_cur s) (db_txn s).

(** [drv_fault n]: the n-th call into the driver reports an error; [drv_lands n]:
    its statement has taken effect all the same.  [drv_resets]: the pool rolls
    back what a returned connection has left open. *)
Class RecordEnv := {
  drv_fault : nat → option goerr;
  drv_lands : nat → bool;
  drv_resets : bool;
  clock : nat → time;
}.

Definition set_cur {T} (t : T) (s : database T) : database T :=
  MkDB t (db_txn s) (db_conn s) (db_calls s) (db_ticks s).
Definition set_txn {T} (o : option T) (s : database T) : database T :=
  MkDB (db_cur s) o (db_conn s) (db_calls s) (db_ticks s).
Definition set_conn {T} (b : bool) (s : database T) : database T :=
  MkDB (db_cur s) (db_txn s) b (db_calls s) (db_ticks s).

(** Back to the contents at [BEGIN]. *)
Definition undo {T} (s : database T) : database T :=
  match db_txn s with
  | Some t => set_txn None (set_cur t s)
  | None => s
  end.

Abbreviation DBOf T := (io goerr (database T)).
Abbreviation DB := (io goerr dbstate).

(** ** Rows and records *)

Record recordMetadata := MkMeta {
  m_ID : string;
  m_State : State;
  m_Attempt : Z;
  m_NextAttemptAt : time;
  m_OperationID : string;
  m_OperationLocation : string;
  m_ProviderMessageID : string;
  m_FirstSubmittedAt : time;
  m_LastError : option LastError;
  m_CreatedAt : time;
  m_UpdatedAt : time;
}.

Definition toRecord (m : recordMetadata) : SpoolRecord :=
  MkRecord (m_ID m) emptyMessage (m_State m) (m_Attempt m) (m_NextAttemptAt m)
    (m_OperationID m) (m_OperationLocation m) (m_ProviderMessageID m) (m_FirstSubmittedAt m)
    (normalizeLastError (m_LastError m) zeroTime) (m_CreatedAt m) (m_UpdatedAt m).

Record recordRecoverySnapshot := MkSnapshot {
  sn_requeued : list recordMetadata;
  sn_submitted : list recordMetadata;
  sn_validIDs : gset string;
}.

Definition timeToMillis (ts : time) : Z := if IsZero ts then 0 else UnixMilli ts.
Definition millisToTime (v : Z) : time := ofUnixMilli v.

Definition nullIfEmpty (value : string) : option string :=
  let value := TrimSpace value in if decide (value = "") then None else Some value.

Definition nullIfZeroTime (ts : time) : option Z :=
  if IsZero ts then None else Some (UnixMilli ts).

Definition lastErrorMessage (lastErr : option LastError) : option string :=
  match lastErr with None => None | Some e => nullIfEmpty (le_Message e) end.

Definition lastErrorProvider (lastErr : option LastError) : option string :=
  match lastErr with None => None | Some e => nullIfEmpty (le_Provider e) end.

Definition lastErrorTemporary (lastErr : option LastError) : option Z :=
  match lastErr with None => None | Some e => Some (if le_Temporary e then 1 else 0) end.

Definition lastErrorTimestamp (lastErr : option LastError) : option Z :=
  match lastErr with None => None | Some e => nullIfZeroTime (le_Timestamp e) end.

(** The values bound to the columns by [insertRecord] and [updateRecord]. *)
Definition rowOf (rec : SpoolRecord) : row :=
  MkRow (rec_State rec) (rec_Attempt rec) (timeToMillis (rec_NextAttemptAt rec))
    (nullIfEmpty (rec_OperationID rec)) (nullIfEmpty (rec_OperationLocation rec))
    (nullIfEmpty (rec_ProviderMessageID rec)) (nullIfZeroTime (rec_FirstSubmittedAt rec))
    (lastErrorMessage (rec_LastError rec)) (lastErrorProvider (rec_LastError rec))
    (lastErrorTemporary (rec_LastError rec)) (lastErrorTimestamp (rec_LastError rec))
    (timeToMillis (rec_CreatedAt rec)) (timeToMillis (rec_UpdatedAt rec)).

Section scan.
Context `{UnicodeTables}.

Definition bad_row (e : goerr) : recordMetadata + goerr :=
  inr (wrapStoreError "validate spool metadata" e).

Definition bad_col (id what : string) (v : Z) : recordMetadata + goerr :=
  bad_row (EText ("spool record " +:+ Quote id +:+ " has " +:+ what +:+ " " +:+ Itoa v)).

Definition is_null {A} (v : option A) : bool :=
  match v with None => true | Some _ => false end.

(** The [LastError] part of [scanMetadata]. *)
Definition scanLastError (id : string) (r : row) : option LastError + goerr :=
  if is_null (r_last_error_message r) && is_null (r_last_error_provider r)
     && is_null (r_last_error_temporary r) && is_null (r_last_error_timestamp_ms r)
  then inl None
  else if negb (null_or (λ z, (z =? 0) || (z =? 1)) (r_last_error_temporary r)) then
    inr (wrapStoreError "validate spool metadata"
           (EText ("spool record " +:+ Quote id +:+ " has invalid last_error_temporary "
                   +:+ Itoa (default 0 (r_last_error_temporary r)))))
  else match r_last_error_timestamp_ms r with
       | Some ts =>
           if ts <=? 0 then
             inr (wrapStoreError "validate spool metadata"
                    (EText ("spool record " +:+ Quote id
                            +:+ " has incomplete last error timestamp state")))
           else
             inl (Some (MkLastError (TrimSpace (default "" (r_last_error_message r)))
                          (TrimSpace (default "" (r_last_error_provider r)))
                          (negb (default 0 (r_last_error_temporary r) =? 0))
                          (millisToTime ts)))
       | None =>
           inr (wrapStoreError "validate spool metadata"
                  (EText ("spool record " +:+ Quote id
                          +:+ " has incomplete last error timestamp state")))
       end.

Definition scanMetadata (id : string) (r : row) : recordMetadata + goerr :=
  match validateCanonicalRecordID id with
  | inr e => bad_row e
  | inl _ =>
    if negb (isValidState (r_state r)) then
      bad_row (EText ("spool record " +:+ Quote id +:+ " has invalid state "
                      +:+ Quote (r_state r)))
    else if r_attempt r <? 0 then bad_col id "negative attempt" (r_attempt r)
    else if r_next_attempt_at_ms r <=? 0 then
      bad_col id "invalid next_attempt_at_ms" (r_next_attempt_at_ms r)
    else if r_created_at_ms r <=? 0 then
      bad_col id "invalid created_at_ms" (r_created_at_ms r)
    else if r_updated_at_ms r <=? 0 then
      bad_col id "invalid updated_at_ms" (r_updated_at_ms r)
    else if negb (null_or (λ z, 0 <? z) (r_first_submitted_at_ms r)) then
      bad_col id "invalid first_submitted_at_ms" (default 0 (r_first_submitted_at_ms r))
    else if time_Before (millisToTime (r_updated_at_ms r)) (millisToTime (r_created_at_ms r))
    then bad_row (EText ("spool record " +:+ Quote id +:+ " has updated_at before created_at"))
    else match scanLastError id r with
         | inr e => inr e
         | inl lastErr =>
             inl (MkMeta id (r_state r) (r_attempt r) (millisToTime (r_next_attempt_at_ms r))
                    (TrimSpace (default "" (r_operation_id r)))
                    (TrimSpace (default "" (r_operation_location r)))
                    (TrimSpace (default "" (r_provider_message_id r)))
                    (match r_first_submitted_at_ms r with
                     | Some v => millisToTime v
                     | None => zeroTime
                     end)
                    lastErr (millisToTime (r_created_at_ms r)) (millisToTime (r_updated_at_ms r)))
         end
  end.
End scan.

(** ** SQL statements on the table *)

(** [ORDER BY next_attempt_at_ms ASC, created_at_ms ASC, id ASC] *)
Definition created_le (x y : string * row) : Prop :=
  r_created_at_ms x.2 < r_created_at_ms y.2 ∨
  (r_created_at_ms x.2 = r_created_at_ms y.2 ∧ (x.1 ≤ y.1)%string).

Definition ready_le (x y : string * row) : Prop :=
  r_next_attempt_at_ms x.2 < r_next_attempt_at_ms y.2 ∨
  (r_next_attempt_at_ms x.2 = r_next_attempt_at_ms y.2 ∧ created_le x y).

#[export] Instance created_le_dec : RelDecision created_le.
Proof. intros x y. unfold created_le. apply _. Defined.
#[export] Instance ready_le_dec : RelDecision ready_le.
Proof. intros x y. unfold ready_le. apply _. Defined.

Definition due (st : State) (now : Z) (x : string * row) : Prop :=
  r_state x.2 = st ∧ r_next_attempt_at_ms x.2 <= now.
#[export] Instance due_dec st now x : Decision (due st now x).
Proof. unfold due. apply _. Defined.

Definition in_state (st : State) (x : string * row) : Prop := r_state x.2 = st.
#[export] Instance in_state_dec st x : Decision (in_state st x).
Proof. unfold in_state. apply _. Defined.

(** [SELECT ... WHERE state = ? AND next_attempt_at_ms <= ? ORDER BY ...] *)
Definition select_ready (st : State) (now : Z) (t : gmap string row) : list (string * row) :=
  merge_sort ready_le (filter (due st now) (map_to_list t)).

(** [SELECT ... WHERE state = ? ORDER BY created_at_ms ASC, id ASC] *)
Definition select_state (st : State) (t : gmap string row) : list (string * row) :=
  merge_sort created_le (filter (in_state st) (map_to_list t)).

(** ** The store *)

Section store.
Context `{UnicodeTables} `{RecordEnv}.

Section connection.
Context {T : Type}.

(** [s.now().UTC()] *)
Definition now : DBOf T time := λ s,
  (MkDB (db_cur s) (db_txn s) (db_conn s) (db_calls s) (S (db_ticks s)),
   inl (clock (db_ticks s))).

(** One call into the driver. *)
Definition drv : DBOf T unit := λ s,
  (MkDB (db_cur s) (db_txn s) (db_conn s) (S (db_calls s)) (db_ticks s),
   match drv_fault (db_calls s) with Some e => inr e | None => inl tt end).

(** [if err := m(); err != nil { return wrapStoreError(op, err) }] *)
Definition wrapped {A} (op : string) (m : DBOf T A) : DBOf T A :=
  try m (λ r, match r with
              | inl a => ret a
              | inr e => fail (wrapStoreError op e)
              end).

Definition ErrConnDone : goerr := EText "sql: connection is already closed".

(** [conn.ExecContext]: a statement on the handle.  A call that reports an error
    may have run its statement. *)
Definition conn_Exec {A} (stmt : DBOf T A) : DBOf T A :=
  let! s := get in
  if db_conn s then
    try drv (λ r,
      match r with
      | inl _ => stmt
      | inr e => (if drv_lands (db_calls s) then ignore stmt else ret tt) ;;! fail e
      end)
  else fail ErrConnDone.

Definition stmt_BEGIN_IMMEDIATE : DBOf T unit :=
  let! s := get in
  match db_txn s with
  | Some _ => fail (EText "cannot start a transaction within a transaction")
  | None => modify (set_txn (Some (db_cur s)))
  end.

Definition stmt_COMMIT : DBOf T unit :=
  let! s := get in
  match db_txn s with
  | Some _ => modify (set_txn None)
  | None => fail (EText "cannot commit - no transaction is active")
  end.

Definition stmt_ROLLBACK : DBOf T unit :=
  let! s := get in
  match db_txn s with
  | Some _ => modify undo
  | None => fail (EText "cannot rollback - no transaction is active")
  end.

(** [conn.Close]: the handle is done whatever happens; the connection goes
    back to the pool. *)
Definition conn_Close : DBOf T unit :=
  let! s := get in
  if db_conn s then
    modify (λ s, set_conn false (if drv_resets then undo s else s)) ;;! drv
  else fail ErrConnDone.

(** [s.db.Conn(ctx)] *)
Definition db_Conn : DBOf T unit := drv ;;! modify (set_conn true).

Definition beginImmediate : DBOf T unit :=
  wrapped "acquire sqlite connection" db_Conn ;;!
  try (conn_Exec stmt_BEGIN_IMMEDIATE) (λ r,
    match r with
    | inl _ => ret tt
    | inr e =>
        ignore conn_Close ;;!
        fail (wrapStoreError "begin immediate sqlite transaction" e)
    end).

Definition finishImmediate (committed : bool) : DBOf T unit :=
  if committed then ignore conn_Close
  else ignore (conn_Exec stmt_ROLLBACK) ;;! ignore conn_Close.

Definition commitImmediate : DBOf T unit :=
  try (conn_Exec stmt_COMMIT) (λ r,
    match r with
    | inr e =>
        ignore conn_Close ;;! fail (wrapStoreError "commit sqlite transaction" e)
    | inl _ => wrapped "close sqlite connection" conn_Close
    end).

(** The frame of every writing operation: [beginImmediate], the deferred
    [finishImmediate] with the [committed] flag the body leaves behind. *)
Definition immediate {A} (body : DBOf T (A * bool)) : DBOf T A :=
  beginImmediate ;;!
  try body (λ r,
    match r with
    | inl (a, committed) => finishImmediate committed ;;! ret a
    | inr e => finishImmediate false ;;! fail e
    end).
End connection.

(** *** Statements *)

(** [INSERT INTO records ... VALUES ...] *)
Definition stmt_INSERT (id : string) (r : row) : DB unit :=
  let! s := get in
  match db_cur s !! id with
  | Some _ => fail (EText "UNIQUE constraint failed: records.id")
  | None =>
      if row_check id r then modify (set_cur (<[id := r]> (db_cur s)))
      else fail (EText "CHECK constraint failed: records")
  end.

(** [UPDATE records SET ... WHERE id = ? AND state = ?]; the number of rows
    affected. *)
Definition stmt_UPDATE (id : string) (st : State) (f : row → row) : DB Z :=
  let! s := get in
  match db_cur s !! id with
  | Some r =>
      if decide (r_state r = st) then
        if row_check id (f r) then
          modify (set_cur (<[id := f r]> (db_cur s))) ;;! ret 1
        else fail (EText "CHECK constraint failed: records")
      else ret 0
  | None => ret 0
  end.

(** [LIMIT 1] through [queryOneMetadata]: the query, [rows.Next], the scan. *)
Definition queryOneMetadata (q : gmap string row → list (string * row))
    : DB (option recordMetadata) :=
  wrapped "query spool metadata" drv ;;!
  wrapped "iterate spool metadata" drv ;;!
  let! s := get in
  match q (db_cur s) with
  | [] => ret None
  | (id, r) :: _ =>
      let! meta := lift (scanMetadata id r) in
      ret (Some meta)
  end.

Fixpoint scan_rows (rows : list (string * row)) : DB (list recordMetadata) :=
  wrapped "iterate spool metadata" drv ;;!
  match rows with
  | [] => ret []
  | (id, r) :: rest =>
      let! meta := lift (scanMetadata id r) in
      let! out := scan_rows rest in
      ret (meta :: out)
  end.

Definition queryAllMetadata (q : gmap string row → list (string * row))
    : DB (list recordMetadata) :=
  wrapped "query spool metadata" drv ;;!
  let! s := get in
  scan_rows (q (db_cur s)).

Fixpoint scan_ids (ids : list string) : DB (gset string) :=
  wrapped "iterate spool ids" drv ;;!
  match ids with
  | [] => ret ∅
  | id :: rest =>
      match validateCanonicalRecordID id with
      | inr e => fail (wrapStoreError "validate spool ids" e)
      | inl _ =>
          let! out := scan_ids rest in
          ret ({[id]} ∪ out)
      end
  end.

Definition queryAllIDs : DB (gset string) :=
  wrapped "query spool ids" drv ;;!
  let! s := get in
  scan_ids (map_to_list (db_cur s)).*1.

(** *** Operations *)

Definition insertRecord (rec : SpoolRecord) : DB unit :=
  match validateCanonicalRecordID (rec_ID rec) with
  | inr e => fail e
  | inl _ =>
      immediate (
        wrapped ("insert record " +:+ Quote (rec_ID rec))
          (conn_Exec (stmt_INSERT (rec_ID rec) (rowOf rec))) ;;!
        commitImmediate ;;!
        ret (tt, true))
  end.

Definition set_claimed (updated_ms : Z) (r : row) : row :=
  MkRow StateWorking (r_attempt r) (r_next_attempt_at_ms r) (r_operation_id r)
    (r_operation_location r) (r_provider_message_id r) (r_first_submitted_at_ms r)
    (r_last_error_message r) (r_last_error_provider r) (r_last_error_temporary r)
    (r_last_error_timestamp_ms r) (r_created_at_ms r) updated_ms.

Definition claimReadyMetadata (t : time) : DB (option recordMetadata) :=
  immediate (
    let! o := queryOneMetadata (select_ready StateQueued (timeToMillis t)) in
    match o with
    | None => ret (None, false)
    | Some m =>
        let! updatedAt := now in
        let m := MkMeta (m_ID m) StateWorking (m_Attempt m) (m_NextAttemptAt m)
                   (m_OperationID m) (m_OperationLocation m) (m_ProviderMessageID m)
                   (m_FirstSubmittedAt m) (m_LastError m) (m_CreatedAt m) updatedAt in
        let! rows := wrapped ("claim record " +:+ Quote (m_ID m))
          (conn_Exec (stmt_UPDATE (m_ID m) StateQueued (set_claimed (timeToMillis updatedAt)))) in
        wrapped ("read claim result for " +:+ Quote (m_ID m)) drv ;;!
        if rows =? 1 then commitImmediate ;;! ret (Some m, true)
        else fail (EText ("spool record " +:+ Quote (m_ID m) +:+ " was not claimable"))
    end).

Definition nextSubmittedReady (t : time) : DB (option SpoolRecord) :=
  let! o := queryOneMetadata (select_ready StateSubmitted (timeToMillis t)) in
  ret (toRecord <$> o).

(** The groups of [SELECT state, COUNT( * ) FROM records GROUP BY state]. *)
Definition group_counts (t : gmap string row) : list (string * Z) :=
  let states := (λ x : string * row, r_state x.2) <$> map_to_list t in
  (λ st, (st, Z.of_nat (length (filter (λ s, s = st) states)))) <$> remove_dups states.

Fixpoint scan_counts (groups : list (string * Z)) (counts : gmap string Z)
    : DB (gmap string Z) :=
  wrapped "iterate spool state counts" drv ;;!
  match groups with
  | [] => ret counts
  | (st, n) :: rest =>
      if isValidState st then scan_counts rest (<[st := n]> counts)
      else fail (wrapStoreError "validate spool state counts"
                   (EText ("invalid spool state " +:+ Quote st +:+ " in counts query")))
  end.

Definition stateCounts : DB (gmap string Z) :=
  wrapped "query spool state counts" drv ;;!
  let! s := get in
  scan_counts (group_counts (db_cur s)) ∅.

Definition updateRecord (currentState : State) (updated : SpoolRecord) : DB unit :=
  match validateCanonicalRecordID (rec_ID updated) with
  | inr e => fail e
  | inl _ =>
      if negb (isValidState currentState) || negb (isValidState (rec_State updated)) then
        fail (EText ("invalid state transition " +:+ Quote currentState +:+ " -> "
                     +:+ Quote (rec_State updated)))
      else
        immediate (
          let! rows := wrapped ("update record " +:+ Quote (rec_ID updated))
            (conn_Exec (stmt_UPDATE (rec_ID updated) currentState (λ _, rowOf updated))) in
          wrapped ("read update result for " +:+ Quote (rec_ID updated)) drv ;;!
          if rows =? 1 then commitImmediate ;;! ret (tt, true)
          else fail (EText ("spool record " +:+ Quote (rec_ID updated)
                            +:+ " not found in state " +:+ Quote currentState)))
  end.

(** The outcome guards of the mark operations. *)
Definition wrong_state (what : string) (st : State) : goerr :=
  EText ("mark " +:+ what +:+ " state, got " +:+ Quote st).

Definition markSubmitted (rec : SpoolRecord) (result : SubmissionResult)
    (nextAttemptAt : time) : DB SpoolRecord :=
  if decide (rec_State rec ≠ StateWorking) then
    fail (wrong_state ("submitted requires " +:+ Quote StateWorking) (rec_State rec))
  else
    let! t := now in
    let updated :=
      MkRecord (rec_ID rec) (rec_Message rec) StateSubmitted (wrap64 (rec_Attempt rec + 1))
        nextAttemptAt (TrimSpace (sr_OperationID result))
        (TrimSpace (sr_OperationLocation result)) (TrimSpace (sr_ProviderMessageID result))
        (if IsZero (rec_FirstSubmittedAt rec) then t else rec_FirstSubmittedAt rec)
        None (rec_CreatedAt rec) t in
    updateRecord (rec_State rec) updated ;;! ret updated.

Definition markRetry (rec : SpoolRecord) (nextAttemptAt : time) (lastErr : option LastError)
    : DB SpoolRecord :=
  let! t1 := now in
  let lastErr := normalizeLastError lastErr t1 in
  let! t2 := now in
  if decide (rec_State rec = StateWorking) then
    let updated :=
      MkRecord (rec_ID rec) (rec_Message rec) StateQueued (wrap64 (rec_Attempt rec + 1))
        nextAttemptAt "" "" "" zeroTime lastErr (rec_CreatedAt rec) t2 in
    updateRecord (rec_State rec) updated ;;! ret updated
  else if decide (rec_State rec = StateSubmitted) then
    let updated :=
      MkRecord (rec_ID rec) (rec_Message rec) StateSubmitted (rec_Attempt rec) nextAttemptAt
        (rec_OperationID rec) (rec_OperationLocation rec) (rec_ProviderMessageID rec)
        (rec_FirstSubmittedAt rec) lastErr (rec_CreatedAt rec) t2 in
    updateRecord (rec_State rec) updated ;;! ret updated
  else fail (wrong_state ("retry requires " +:+ Quote StateWorking +:+ " or "
                          +:+ Quote StateSubmitted) (rec_State rec)).

Definition markSucceeded (rec : SpoolRecord) : DB SpoolRecord :=
  let! t := now in
  let updated attempt :=
    MkRecord (rec_ID rec) (rec_Message rec) StateSucceeded attempt (rec_NextAttemptAt rec)
      (rec_OperationID rec) (rec_OperationLocation rec) (rec_ProviderMessageID rec)
      (rec_FirstSubmittedAt rec) None (rec_CreatedAt rec) t in
  if decide (rec_State rec = StateWorking) then
    let updated := updated (wrap64 (rec_Attempt rec + 1)) in
    updateRecord (rec_State rec) updated ;;! ret updated
  else if decide (rec_State rec = StateSubmitted) then
    let updated := updated (rec_Attempt rec) in
    updateRecord (rec_State rec) updated ;;! ret updated
  else fail (wrong_state ("succeeded requires " +:+ Quote StateWorking +:+ " or "
                          +:+ Quote StateSubmitted) (rec_State rec)).

Definition markDeadLetter (rec : SpoolRecord) (lastErr : option LastError) : DB SpoolRecord :=
  let! t1 := now in
  let lastErr := normalizeLastError lastErr t1 in
  let! t2 := now in
  if decide (rec_State rec = StateWorking) then
    let updated :=
      MkRecord (rec_ID rec) (rec_Message rec) StateDeadLetter (wrap64 (rec_Attempt rec + 1))
        (rec_NextAttemptAt rec) "" "" "" zeroTime lastErr (rec_CreatedAt rec) t2 in
    updateRecord (rec_State rec) updated ;;! ret updated
  else if decide (rec_State rec = StateSubmitted) then
    let updated :=
      MkRecord (rec_ID rec) (rec_Message rec) StateDeadLetter (rec_Attempt rec)
        (rec_NextAttemptAt rec) (rec_OperationID rec) (rec_OperationLocation rec)
        (rec_ProviderMessageID rec) (rec_FirstSubmittedAt rec) lastErr (rec_CreatedAt rec) t2 in
    updateRecord (rec_State rec) updated ;;! ret updated
  else fail (wrong_state ("dead-letter requires " +:+ Quote StateWorking +:+ " or "
                          +:+ Quote StateSubmitted) (rec_State rec)).

Definition requeueClaimedRecord (m : recordMetadata) : DB unit :=
  let rec := toRecord m in
  let! t := now in
  let updated :=
    MkRecord (rec_ID rec) (rec_Message rec) StateQueued (rec_Attempt rec)
      (rec_NextAttemptAt rec) (rec_OperationID rec) (rec_OperationLocation rec)
      (rec_ProviderMessageID rec) (rec_FirstSubmittedAt rec) (rec_LastError rec)
      (rec_CreatedAt rec) t in
  wrapped ("requeue claimed record " +:+ Quote (m_ID m)) (updateRecord (m_State m) updated).

Definition set_requeued (next_ms updated_ms : Z) (r : row) : row :=
  MkRow StateQueued (r_attempt r) next_ms None None None None (r_last_error_message r)
    (r_last_error_provider r) (r_last_error_temporary r) (r_last_error_timestamp_ms r)
    (r_created_at_ms r) updated_ms.

(** The loop over the stale working records. *)
Fixpoint requeue_working (t : time) (working : list recordMetadata)
    : DB (list recordMetadata) :=
  match working with
  | [] => ret []
  | m :: rest =>
      let! updatedAt := now in
      let requeued := MkMeta (m_ID m) StateQueued (m_Attempt m) t "" "" "" zeroTime
                        (m_LastError m) (m_CreatedAt m) updatedAt in
      wrapped ("requeue stale working record " +:+ Quote (m_ID m))
        (conn_Exec (stmt_UPDATE (m_ID m) StateWorking
           (set_requeued (timeToMillis t) (timeToMillis updatedAt)))) ;;!
      let! out := requeue_working t rest in
      ret (requeued :: out)
  end.

Definition recoverMetadata (t : time) : DB recordRecoverySnapshot :=
  immediate (
    let! working := queryAllMetadata (select_state StateWorking) in
    let! submitted := queryAllMetadata (select_state StateSubmitted) in
    let! validIDs := queryAllIDs in
    let! requeued := requeue_working t working in
    commitImmediate ;;!
    ret (MkSnapshot requeued submitted validIDs, true)).

Definition spoolProviderName : string := "spool".

Definition deadLetterCorruptRecord (m : recordMetadata) (cause : goerr) : DB SpoolRecord :=
  let! t := now in
  let lastErr := Some (MkLastError (err_Error cause) spoolProviderName false t) in
  let updated :=
    if decide (m_State m ≠ StateSubmitted) then
      MkMeta (m_ID m) StateDeadLetter (m_Attempt m) (m_NextAttemptAt m) "" "" "" zeroTime
        lastErr (m_CreatedAt m) t
    else
      MkMeta (m_ID m) StateDeadLetter (m_Attempt m) (m_NextAttemptAt m) (m_OperationID m)
        (m_OperationLocation m) (m_ProviderMessageID m) (m_FirstSubmittedAt m)
        lastErr (m_CreatedAt m) t in
  let rec := toRecord updated in
  updateRecord (m_State m) rec ;;! ret rec.
End store.

(** The operations are opaque to [cbn]: proofs use their lemmas. *)
#[global] Arguments beginImmediate : simpl never.
#[global] Arguments finishImmediate : simpl never.
#[global] Arguments commitImmediate : simpl never.
#[global] Arguments conn_Close : simpl never.
#[global] Arguments conn_Exec : simpl never.
#[global] Arguments immediate : simpl never.
#[global] Arguments queryOneMetadata : simpl never.
#[global] Arguments queryAllMetadata : simpl never.
#[global] Arguments queryAllIDs : simpl never.
#[global] Arguments insertRecord : simpl never.
#[global] Arguments updateRecord : simpl never.
#[global] Arguments claimReadyMetadata : simpl never.
#[global] Arguments nextSubmittedReady : simpl never.
#[global] Arguments recoverMetadata : simpl never.
#[global] Arguments stateCounts : simpl never.
#[global] Arguments markSubmitted : simpl never.
#[global] Arguments markRetry : simpl never.
#[global] Arguments markSucceeded : simpl never.
#[global] Arguments markDeadLetter : simpl never.
#[global] Arguments requeueClaimedRecord : simpl never.
#[global] Arguments deadLetterCorruptRecord : simpl never.
#[global] Arguments nullIfEmpty : simpl never.
#[global] Arguments nullIfZeroTime : simpl never.
#[global] Arguments timeToMillis : simpl never.
#[global] Arguments millisToTime : simpl never.
#[global] Arguments scanMetadata : simpl never.
#[global] Arguments validateCanonicalRecordID : simpl never.
#[global] Arguments isValidState : simpl never.
