(* ===== verification/Schema.v ===== *)
(** * Opening the database: schema.go and the schema part of
    sqlite_record_store.go

    [newSQLiteRecordStore] applies the pragmas, reads [user_version] and then
    creates the schema, validates it or refuses the file.  The database file is
    its [user_version], its [sqlite_master] objects and the rows of [records].

    The statements of the source are interpreted on that state with SQLite's
    documented rules: [IF NOT EXISTS] makes an existing object no error, names
    are matched without regard to case, and [sqlite_master.sql] keeps the text
    of the statement with the words before the object's name replaced by
    [CREATE TABLE] or [CREATE INDEX] and single spaces, and without the final
    semicolon.  [user_version] is part of the transaction. *)
From Stdlib Require Import Ascii.
From S2P Require Import Prelude.
From S2P Require Import GoStrings.
From S2P Require Import GoTime.
From S2P Require Import GoErrors.
From S2P Require Import SpoolCommon.
From S2P Require Import Records.
#[local] Open Scope Z_scope.
#[local] Open Scope relay_scope.

(** ** schema.go *)

Definition spoolSchemaVersion : Z := 1.
Definition recordsTableName : string := "records".
Definition recordsReadyIndexName : string := "idx_records_ready".
Definition recordsOpIndexName : string := "idx_records_operation_id".

Definition recordsTableSchema : string :=
"
CREATE TABLE IF NOT EXISTS records (
	id TEXT NOT NULL PRIMARY KEY CHECK(length(id) > 0) CHECK(id = trim(id)),
	state TEXT NOT NULL CHECK(state IN ('queued', 'working', 'submitted', 'succeeded', 'dead-letter')),
	attempt INTEGER NOT NULL CHECK(attempt >= 0),
	next_attempt_at_ms INTEGER NOT NULL CHECK(next_attempt_at_ms > 0),
	operation_id TEXT,
	operation_location TEXT,
	provider_message_id TEXT,
	first_submitted_at_ms INTEGER CHECK(first_submitted_at_ms IS NULL OR first_submitted_at_ms > 0),
	last_error_message TEXT,
	last_error_provider TEXT,
	last_error_temporary INTEGER CHECK(last_error_temporary IS NULL OR last_error_temporary IN (0, 1)),
	last_error_timestamp_ms INTEGER CHECK(last_error_timestamp_ms IS NULL OR last_error_timestamp_ms > 0),
	created_at_ms INTEGER NOT NULL CHECK(created_at_ms > 0),
	updated_at_ms INTEGER NOT NULL CHECK(updated_at_ms > 0 AND updated_at_ms >= created_at_ms),
	CHECK(
		(last_error_message IS NULL AND last_error_provider IS NULL AND last_error_temporary IS NULL AND last_error_timestamp_ms IS NULL)
		OR last_error_timestamp_ms IS NOT NULL
	)
);
".

Definition recordsReadyIndexSchema : string :=
"
CREATE INDEX IF NOT EXISTS idx_records_ready
ON records(state, next_attempt_at_ms, created_at_ms, id);
".

Definition recordsOperationIndexSchema : string :=
"
CREATE INDEX IF NOT EXISTS idx_records_operation_id
ON records(operation_id);
".


(** ** The database file *)

Inductive objtype := TypeTable | TypeIndex | TypeView | TypeTrigger.
#[export] Instance objtype_eq_dec : EqDecision objtype.
Proof. solve_decision. Defined.

(** A row of [sqlite_master] with the columns of the table it describes;
    [None] is SQL [NULL]. *)
Record dbobject := MkObject {
  o_type : objtype;
  o_name : string;
  o_sql : option string;
  o_columns : list string;
}.

(** [f_rows]: the rows of the table [records]. *)
Record dbfile := MkFile {
  f_version : Z;
  f_master : list dbobject;
  f_rows : gmap string row;
}.

(** What SQLite makes of a file that does not exist yet. *)
Definition newfile : dbfile := MkFile 0 [] ∅.

(** ** The data definition statements *)

Definition is_ident (c : ascii) : bool :=
  between 97 122 c || between 65 90 c || between 48 57 c || Ascii.eqb c (chr 95).

Fixpoint span_ident (l : bytes) : bytes * bytes :=
  match l with
  | [] => ([], [])
  | c :: l' =>
      if is_ident c then let '(w, rest) := span_ident l' in (c :: w, rest) else ([], l)
  end.

(** The next word, lower case, and what follows it. *)
Definition word (l : bytes) : string * bytes :=
  let '(w, rest) := span_ident (trim_left l) in (ascii_lower (sb w), rest).

Fixpoint expect (ws : list string) (l : bytes) : option bytes :=
  match ws with
  | [] => Some l
  | w :: ws =>
      let '(w', rest) := word l in if decide (w = w') then expect ws rest else None
  end.

(** The text up to the semicolon that ends the statement. *)
Definition unterminated (l : bytes) : bytes :=
  match reverse (trim_right l) with
  | c :: l' => if Ascii.eqb c (chr 59) then trim_right (reverse l') else trim_right l
  | [] => []
  end.

(** The parts of a parenthesised list, split at the commas outside inner
    parentheses and string literals. *)
Fixpoint list_parts (quoted : bool) (depth : nat) (cur : bytes) (l : bytes) : list bytes :=
  match l with
  | [] => [reverse cur]
  | c :: l =>
      if Ascii.eqb c (chr 39) then list_parts (negb quoted) depth (c :: cur) l
      else if quoted then list_parts quoted depth (c :: cur) l
      else if Ascii.eqb c (chr 40) then list_parts quoted (S depth) (c :: cur) l
      else if Ascii.eqb c (chr 41) then
        match depth with
        | O => [reverse cur]
        | S d => list_parts quoted d (c :: cur) l
        end
      else if Ascii.eqb c (chr 44) && (depth =? 0)%nat then
        reverse cur :: list_parts quoted depth [] l
      else list_parts quoted depth (c :: cur) l
  end.

Definition constraint_words : list string :=
  ["constraint"; "primary"; "unique"; "check"; "foreign"].

(** A part of a table definition that starts with a constraint keyword is not
    a column. *)
Definition column_of (part : bytes) : list string :=
  if decide ((word part).1 ∈ constraint_words) then []
  else [sb (span_ident (trim_left part)).1].

Definition columns_of (l : bytes) : list string :=
  match trim_left l with
  | c :: l => if Ascii.eqb c (chr 40) then list_parts false 0 [] l ≫= column_of else []
  | [] => []
  end.

Inductive ddl :=
| CreateTable (name sql : string) (columns : list string)
| CreateIndex (name table sql : string).

(** [CREATE TABLE IF NOT EXISTS name (...)] and
    [CREATE INDEX IF NOT EXISTS name ON table(...)] *)
Definition parse_ddl (stmt : string) : option ddl :=
  let l := unterminated (bs stmt) in
  match expect ["create"; "table"; "if"; "not"; "exists"] l with
  | Some rest =>
      let '(name, body) := span_ident (trim_left rest) in
      Some (CreateTable (sb name) ("CREATE TABLE " +:+ sb (trim_left rest)) (columns_of body))
  | None =>
      rest ← expect ["create"; "index"; "if"; "not"; "exists"] l;
      let '(name, body) := span_ident (trim_left rest) in
      body ← expect ["on"] body;
      let '(table, _) := span_ident (trim_left body) in
      Some (CreateIndex (sb name) (sb table) ("CREATE INDEX " +:+ sb (trim_left rest)))
  end.

Definition called (ty : objtype) (name : string) (o : dbobject) : Prop :=
  o_type o = ty ∧ ascii_lower (o_name o) = ascii_lower name.
#[export] Instance called_dec ty name o : Decision (called ty name o).
Proof. unfold called. apply _. Defined.

Definition has (ty : objtype) (name : string) (f : dbfile) : bool :=
  bool_decide (Exists (called ty name) (f_master f)).

Definition add_object (o : dbobject) (f : dbfile) : dbfile :=
  MkFile (f_version f) (f_master f ++ [o]) (f_rows f).

Definition run_ddl (d : ddl) (f : dbfile) : dbfile + goerr :=
  match d with
  | CreateTable name sql columns =>
      if has TypeTable name f || has TypeView name f then inl f
      else if has TypeIndex name f then
        inr (EText ("there is already an index named " +:+ name))
      else
        let f := add_object (MkObject TypeTable name (Some sql) columns) f in
        inl (MkFile (f_version f) (f_master f)
               (if decide (ascii_lower name = recordsTableName) then ∅ else f_rows f))
  | CreateIndex name table sql =>
      if has TypeView table f then inr (EText "views may not be indexed")
      else if negb (has TypeTable table f) then
        inr (EText ("no such table: main." +:+ table))
      else if has TypeTable name f || has TypeView name f then
        inr (EText ("there is already a table named " +:+ name))
      else if has TypeIndex name f then inl f
      else inl (add_object (MkObject TypeIndex name (Some sql) []) f)
  end.

Definition run_stmt (stmt : string) (f : dbfile) : dbfile + goerr :=
  match parse_ddl stmt with
  | Some d => run_ddl d f
  | None => inr (EText "syntax error")
  end.

(** ** sqlite_master queries *)

(** [WHERE type = ? AND name = ?]: the comparison is exact. *)
Definition select_object (ty : objtype) (name : string) (f : dbfile) : list dbobject :=
  filter (λ o, o_type o = ty ∧ o_name o = name) (f_master f).

(** [PRAGMA table_info(table)] finds the table without regard to case. *)
Definition table_info (table : string) (f : dbfile) : list string :=
  match filter (called TypeTable table) (f_master f) with
  | o :: _ => o_columns o
  | [] => []
  end.

(** ** sqlite_record_store.go *)

Definition sqliteBusyTimeoutMS : Z := 5000.
Definition sqliteJournalModeWAL : string := "WAL".

Section schema.
Context `{U : UnicodeTables} `{Env : RecordEnv}.

Abbreviation FileDB := (io goerr (database dbfile)).

Definition normalizeSQL (sqlText : string) : string :=
  ToLower (Join (Fields sqlText) " ").

(** [ExecContext] of a statement that changes the file. *)
Definition stmt_on_file (run : dbfile → dbfile + goerr) : FileDB unit :=
  let! s := get in
  match run (db_cur s) with
  | inl f => modify (set_cur f)
  | inr e => fail e
  end.

Definition pragmas : list string :=
  ["PRAGMA journal_mode=" +:+ sqliteJournalModeWAL +:+ ";";
   "PRAGMA synchronous=FULL;";
   "PRAGMA foreign_keys=ON;";
   "PRAGMA busy_timeout=" +:+ Itoa sqliteBusyTimeoutMS +:+ ";"].

(** The pragmas set up the connection and change none of the contents. *)
Fixpoint apply_pragmas (ps : list string) : FileDB unit :=
  match ps with
  | [] => ret tt
  | pragma :: ps =>
      wrapped ("apply sqlite pragma " +:+ Quote pragma) drv ;;! apply_pragmas ps
  end.

Definition applyPragmas : FileDB unit := apply_pragmas pragmas.

Definition userVersion : FileDB Z :=
  wrapped "query sqlite user_version" drv ;;!
  let! s := get in
  ret (f_version (db_cur s)).

Definition tableExists (name : string) : FileDB bool :=
  wrapped ("query sqlite table " +:+ Quote name) drv ;;!
  let! s := get in
  ret (length (select_object TypeTable name (db_cur s)) =? 1)%nat.

(** The loop of [loadTableColumns]: [rows.Next] and the scan of one row. *)
Fixpoint scan_columns (table : string) (rows : list string) : FileDB (list string) :=
  wrapped ("iterate sqlite table info for " +:+ Quote table) drv ;;!
  match rows with
  | [] => ret []
  | name :: rows =>
      let! columns := scan_columns table rows in
      ret (name :: columns)
  end.

Definition loadTableColumns (table : string) : FileDB (list string) :=
  wrapped ("query sqlite table info for " +:+ Quote table) drv ;;!
  let! s := get in
  scan_columns table (table_info table (db_cur s)).

Definition ErrNoRows : goerr := EText "sql: no rows in result set".

(** [SELECT sql FROM sqlite_master WHERE type = ? AND name = ?] scanned into a
    [sql.NullString]; without a row the error of [Scan] is [ErrNoRows]. *)
Definition query_sql (ty : objtype) (name : string) : FileDB (option dbobject) :=
  drv ;;!
  let! s := get in
  ret (head (select_object ty name (db_cur s))).

(** [!sqlText.Valid || strings.TrimSpace(sqlText.String) == ""] *)
Definition valid_sql (what name : string) (sqlText : option string) : FileDB string :=
  let missing := EText ("sqlite " +:+ what +:+ " " +:+ Quote name +:+ " has no schema SQL") in
  match sqlText with
  | None => fail missing
  | Some t => if decide (TrimSpace t = "") then fail missing else ret t
  end.

Definition tableSQL (table : string) : FileDB string :=
  let op := "query sqlite sql for table " +:+ Quote table in
  let! row := wrapped op (query_sql TypeTable table) in
  match row with
  | None => fail (wrapStoreError op ErrNoRows)
  | Some o => valid_sql "table" table (o_sql o)
  end.

Definition indexSQL (index : string) : FileDB string :=
  let! row := wrapped ("query sqlite sql for index " +:+ Quote index)
                (query_sql TypeIndex index) in
  match row with
  | None => fail (EText ("sqlite index " +:+ Quote index +:+ " has no schema SQL"))
  | Some o => valid_sql "index" index (o_sql o)
  end.

Definition expectedColumns : list string :=
  ["id"; "state"; "attempt"; "next_attempt_at_ms"; "operation_id"; "operation_location";
   "provider_message_id"; "first_submitted_at_ms"; "last_error_message";
   "last_error_provider"; "last_error_temporary"; "last_error_timestamp_ms";
   "created_at_ms"; "updated_at_ms"].

Definition requiredSnippets : list string :=
  normalizeSQL <$>
  ["create table records";
   "id text not null primary key";
   "check(length(id) > 0)";
   "check(id = trim(id))";
   "state text not null check(state in ('queued', 'working', 'submitted', 'succeeded', 'dead-letter'))";
   "attempt integer not null check(attempt >= 0)";
   "next_attempt_at_ms integer not null check(next_attempt_at_ms > 0)";
   "provider_message_id text";
   "first_submitted_at_ms integer check(first_submitted_at_ms is null or first_submitted_at_ms > 0)";
   "created_at_ms integer not null check(created_at_ms > 0)";
   "updated_at_ms integer not null check(updated_at_ms > 0 and updated_at_ms >= created_at_ms)";
   "last_error_temporary integer check(last_error_temporary is null or last_error_temporary in (0, 1))";
   "last_error_timestamp_ms integer check(last_error_timestamp_ms is null or last_error_timestamp_ms > 0)"].

Definition requiredIndexes : list (string * string) :=
  [(recordsReadyIndexName,
    normalizeSQL "create index idx_records_ready on records(state, next_attempt_at_ms, created_at_ms, id)");
   (recordsOpIndexName,
    normalizeSQL "create index idx_records_operation_id on records(operation_id)")].

(** [root] is the store's; [order] is the order in which the map of required
    indexes is ranged over. *)
Context (root : string) (order : list (string * string) → list (string * string)).

Definition restart : string := "; delete the spool directory and restart".

Definition unsupported {A} (why : string) : FileDB A :=
  fail (EText ("unsupported local spool schema in " +:+ root +:+ ": " +:+ why +:+ restart)).

Fixpoint check_columns (i : nat) (expected columns : list string) : FileDB unit :=
  match expected, columns with
  | e :: expected, c :: columns =>
      if decide (c = e) then check_columns (S i) expected columns
      else unsupported ("unexpected column " +:+ Itoa (Z.of_nat i) +:+ " in "
             +:+ Quote recordsTableName +:+ " (got " +:+ Quote c +:+ ", want " +:+ Quote e +:+ ")")
  | _, _ => ret tt
  end.

Definition mismatch (name : string) : FileDB unit :=
  unsupported (Quote name +:+ " does not match the expected v1 definition").

Fixpoint check_indexes (required : list (string * string)) : FileDB unit :=
  match required with
  | [] => ret tt
  | (indexName, expectedSQL) :: required =>
      try (indexSQL indexName) (λ r,
        match r with
        | inr _ => unsupported ("missing or invalid " +:+ Quote indexName +:+ " index")
        | inl sqlText =>
            if Contains (normalizeSQL sqlText) expectedSQL then check_indexes required
            else mismatch indexName
        end)
  end.

Definition validateCurrentSchema : FileDB unit :=
  let! exists_ := tableExists recordsTableName in
  if negb exists_ then
    fail (EText ("spool schema version " +:+ Itoa spoolSchemaVersion +:+ " is missing "
                 +:+ Quote recordsTableName +:+ " table in " +:+ root +:+ restart))
  else
    let! columns := loadTableColumns recordsTableName in
    if negb (length columns =? length expectedColumns)%nat then
      unsupported ("expected " +:+ Itoa (Z.of_nat (length expectedColumns)) +:+ " columns in "
        +:+ Quote recordsTableName +:+ ", found " +:+ Itoa (Z.of_nat (length columns)))
    else
      check_columns 0 expectedColumns columns ;;!
      let! sqlText := tableSQL recordsTableName in
      if forallb (Contains (normalizeSQL sqlText)) requiredSnippets then
        check_indexes (order requiredIndexes)
      else mismatch recordsTableName.

Definition set_version (v : Z) (f : dbfile) : dbfile + goerr :=
  inl (MkFile v (f_master f) (f_rows f)).

Definition bootstrapSchema : FileDB unit :=
  immediate (
    wrapped "create current spool schema"
      (conn_Exec (stmt_on_file (run_stmt recordsTableSchema))) ;;!
    wrapped "create spool index"
      (conn_Exec (stmt_on_file (run_stmt recordsReadyIndexSchema))) ;;!
    wrapped "create spool index"
      (conn_Exec (stmt_on_file (run_stmt recordsOperationIndexSchema))) ;;!
    wrapped "set sqlite user_version"
      (conn_Exec (stmt_on_file (set_version spoolSchemaVersion))) ;;!
    commitImmediate ;;!
    ret (tt, true)).

Definition schema_init : FileDB unit :=
  applyPragmas ;;!
  let! version := userVersion in
  if version =? 0 then
    let! exists_ := tableExists recordsTableName in
    if (exists_ : bool) then
      fail (EText ("unsupported local spool schema in " +:+ root
                   +:+ ": delete the spool directory and restart"))
    else bootstrapSchema
  else if version =? spoolSchemaVersion then validateCurrentSchema
  else fail (EText ("unsupported spool schema version " +:+ Itoa version)).

(** [s.db.Close()]: the connection goes, and with it what was not committed. *)
Definition db_Close : FileDB unit := modify undo ;;! drv.
End schema.
