(* ===== verification/RecordsProps.v ===== *)
(** * Properties of the record store

    Three layers: a relational one (what any operation, failed or not, can do
    to the committed table), a functional one (what a successful operation
    did), and the codec between records and rows. *)
From Stdlib Require Import Ascii.
From S2P Require Import Prelude.
From S2P Require Import GoStrings.
From S2P Require Import GoTime.
From S2P Require Import GoErrors.
From S2P Require Import Email.
From S2P Require Import SpoolCommon.
From S2P Require Import Records.
#[local] Open Scope Z_scope.
#[local] Open Scope relay_scope.

(** ** What any run does to the committed table *)

Section relational.
Context `{U : UnicodeTables} `{Env : RecordEnv}.
(** A preorder on table contents. *)
Context (T : relation (gmap string row)) `{!PreOrder T}.

(** Inside a transaction the visible contents are reachable from the contents
    at [BEGIN]. *)
Definition txn_ok (s : dbstate) : Prop := ∀ t, db_txn s = Some t → T t (db_cur s).

Definition durable_rel (s s' : dbstate) : Prop :=
  txn_ok s → txn_ok s' ∧ T (durable s) (durable s').

#[global] Instance durable_rel_preorder : PreOrder durable_rel.
Proof.
  split.
  - intros s Hs. split; [done|reflexivity].
  - intros s1 s2 s3 H12 H23 Ha. destruct (H12 Ha) as [Hb ?].
    destruct (H23 Hb) as [Hc ?]. split; [done|]. by etrans.
Qed.

Lemma durable_rel_same s s' :
  db_cur s' = db_cur s → db_txn s' = db_txn s → durable_rel s s'.
Proof.
  intros Hc Ht Hs. unfold txn_ok, durable in *. rewrite Hc, Ht.
  split; [done|reflexivity].
Qed.

Lemma durable_rel_undo s : durable_rel s (undo s).
Proof.
  unfold undo. destruct (db_txn s) as [t|] eqn:Ht; [|by apply durable_rel_same].
  intros Hs. split; [done|]. unfold durable. rewrite Ht. cbn. reflexivity.
Qed.

Lemma keeps_drv : keeps durable_rel drv.
Proof. intros s. by apply durable_rel_same. Qed.
Lemma keeps_now : keeps durable_rel now.
Proof. intros s. by apply durable_rel_same. Qed.
#[local] Hint Resolve keeps_drv keeps_now : goeff.

Lemma keeps_wrapped {A} op (m : DB A) : keeps durable_rel m → keeps durable_rel (wrapped op m).
Proof. intros Hm. apply keeps_try; [apply _|done|]. intros [?|?]; auto with goeff. Qed.

(** A step that depends on the state it starts in. *)
Lemma keeps_get_bind {A} (k : dbstate → DB A) :
  (∀ s, durable_rel s (fst (k s s))) → keeps durable_rel (let! s := get in k s).
Proof. intros Hk s. apply Hk. Qed.

Lemma keeps_conn_Exec {A} (m : DB A) : keeps durable_rel m → keeps durable_rel (conn_Exec m).
Proof.
  intros Hm. apply keeps_get_bind. intros s. destruct (db_conn s); [|apply (keeps_fail durable_rel)].
  apply (keeps_try durable_rel drv); [auto with goeff|]. intros [u|e]; [exact Hm|].
  apply keeps_bind; [apply _| |auto with goeff]. destruct (drv_lands _); auto with goeff.
Qed.

Lemma keeps_BEGIN : keeps durable_rel stmt_BEGIN_IMMEDIATE.
Proof.
  apply keeps_get_bind. intros s. destruct (db_txn s) as [t|] eqn:Ht; cbn.
  - reflexivity.
  - intros _. split.
    + intros t. cbn. intros [= <-]. reflexivity.
    + unfold durable. rewrite Ht. reflexivity.
Qed.

Lemma keeps_COMMIT : keeps durable_rel stmt_COMMIT.
Proof.
  apply keeps_get_bind. intros s. destruct (db_txn s) as [t|] eqn:Ht; cbn; [|reflexivity].
  intros Hs. split; [done|]. unfold durable. rewrite Ht. by apply Hs.
Qed.

Lemma keeps_ROLLBACK : keeps durable_rel stmt_ROLLBACK.
Proof.
  apply keeps_get_bind. intros s. destruct (db_txn s) as [t|] eqn:Ht; cbn; [|reflexivity].
  apply durable_rel_undo.
Qed.

Lemma keeps_conn_Close : keeps durable_rel conn_Close.
Proof.
  apply keeps_get_bind. intros s. destruct (db_conn s); [|reflexivity].
  cbn. trans (if drv_resets then undo s else s).
  - destruct drv_resets; [apply durable_rel_undo|reflexivity].
  - by apply durable_rel_same.
Qed.
#[local] Hint Resolve keeps_wrapped keeps_conn_Exec keeps_BEGIN keeps_COMMIT
  keeps_ROLLBACK keeps_conn_Close : goeff.

Lemma keeps_set_conn b : keeps durable_rel (modify (set_conn b) : DB unit).
Proof. intros s. by apply durable_rel_same. Qed.
#[local] Hint Resolve keeps_set_conn : goeff.

Lemma keeps_beginImmediate : keeps durable_rel beginImmediate.
Proof.
  apply keeps_bind; [apply _| |intros _].
  - apply keeps_wrapped, keeps_bind; auto with goeff; apply _.
  - apply keeps_try; [apply _|auto with goeff|]. intros [?|?]; [auto with goeff|].
    apply keeps_bind; auto with goeff; apply _.
Qed.

Lemma keeps_finishImmediate c : keeps durable_rel (finishImmediate c).
Proof. destruct c; [|apply keeps_bind; [apply _|..]]; auto with goeff. Qed.

Lemma keeps_commitImmediate : keeps durable_rel commitImmediate.
Proof.
  apply keeps_try; [apply _|auto with goeff|]. intros [?|?]; [auto with goeff|].
  apply keeps_bind; auto with goeff; apply _.
Qed.

Lemma keeps_immediate {A} (body : DB (A * bool)) :
  keeps durable_rel body → keeps durable_rel (immediate body).
Proof.
  intros Hb. apply keeps_bind; [apply _|apply keeps_beginImmediate|intros _].
  apply keeps_try; [apply _|done|]. intros [[a c]|e];
    (apply keeps_bind; [apply _|apply keeps_finishImmediate|auto with goeff]).
Qed.

(** A statement that replaces the visible contents by [T]-later ones. *)
Lemma durable_rel_set_cur s t : T (db_cur s) t → durable_rel s (set_cur t s).
Proof.
  intros HT Hs. split.
  - intros t0 Ht0. cbn in *. trans (db_cur s); auto.
  - unfold durable. cbn. destruct (db_txn s); cbn; [reflexivity|done].
Qed.

Lemma keeps_INSERT id r :
  (∀ t, t !! id = None → row_check id r = true → T t (<[id := r]> t)) →
  keeps durable_rel (stmt_INSERT id r).
Proof.
  intros HT. apply keeps_get_bind. intros s.
  destruct (db_cur s !! id) eqn:Hl; [reflexivity|].
  destruct (row_check id r) eqn:Hc; [|reflexivity].
  apply durable_rel_set_cur. by apply HT.
Qed.

Lemma keeps_UPDATE id st f :
  (∀ t r, t !! id = Some r → r_state r = st → row_check id (f r) = true →
          T t (<[id := f r]> t)) →
  keeps durable_rel (stmt_UPDATE id st f).
Proof.
  intros HT. apply keeps_get_bind. intros s.
  destruct (db_cur s !! id) as [r|] eqn:Hl; [|reflexivity].
  case_decide; [|reflexivity]. destruct (row_check id (f r)) eqn:Hc; [|reflexivity].
  apply durable_rel_set_cur. by apply HT.
Qed.

Lemma keeps_queryOne q : keeps durable_rel (queryOneMetadata q).
Proof.
  do 2 (apply keeps_bind; [apply _|auto with goeff|intros _]).
  apply keeps_get_bind. intros s. destruct (q (db_cur s)) as [|[id r] ?]; [reflexivity|].
  cbn. destruct (scanMetadata id r); cbn; reflexivity.
Qed.

Lemma keeps_scan_rows rows : keeps durable_rel (scan_rows rows).
Proof.
  induction rows as [|[id r] rows IH]; cbn;
    (apply keeps_bind; [apply _|auto with goeff|intros _]); [auto with goeff|].
  apply keeps_bind; [apply _|auto with goeff|intros m].
  apply keeps_bind; [apply _|done|auto with goeff].
Qed.

Lemma keeps_queryAll q : keeps durable_rel (queryAllMetadata q).
Proof.
  apply keeps_bind; [apply _|auto with goeff|intros _].
  apply keeps_get_bind. intros s. apply keeps_scan_rows.
Qed.

Lemma keeps_scan_ids ids : keeps durable_rel (scan_ids ids).
Proof.
  induction ids as [|id ids IH]; cbn;
    (apply keeps_bind; [apply _|auto with goeff|intros _]); [auto with goeff|].
  destruct (validateCanonicalRecordID id); [|auto with goeff].
  apply keeps_bind; [apply _|done|auto with goeff].
Qed.

Lemma keeps_queryAllIDs : keeps durable_rel queryAllIDs.
Proof.
  apply keeps_bind; [apply _|auto with goeff|intros _].
  apply keeps_get_bind. intros s. apply keeps_scan_ids.
Qed.
#[local] Hint Resolve keeps_queryOne keeps_queryAll keeps_queryAllIDs
  keeps_commitImmediate : goeff.

(** *** The operations, each under what its statement does to one row *)

Lemma keeps_insertRecord rec :
  (∀ t, canonical_id (rec_ID rec) → t !! rec_ID rec = None →
        row_check (rec_ID rec) (rowOf rec) = true → T t (<[rec_ID rec := rowOf rec]> t)) →
  keeps durable_rel (insertRecord rec).
Proof.
  intros HT. unfold insertRecord.
  destruct (validateCanonicalRecordID (rec_ID rec)) as [[]|] eqn:Hv; [|auto with goeff].
  apply validate_canonical in Hv. apply keeps_immediate.
  apply keeps_bind; [apply _| |intros _].
  - apply keeps_wrapped, keeps_conn_Exec, keeps_INSERT. auto.
  - apply keeps_bind; [apply _|..]; auto with goeff.
Qed.

Lemma keeps_updateRecord st upd :
  (∀ t r, t !! rec_ID upd = Some r → r_state r = st →
          row_check (rec_ID upd) (rowOf upd) = true → T t (<[rec_ID upd := rowOf upd]> t)) →
  keeps durable_rel (updateRecord st upd).
Proof.
  intros HT. unfold updateRecord.
  destruct (validateCanonicalRecordID (rec_ID upd)) as [[]|] eqn:Hv; [|auto with goeff].
  destruct (negb _ || negb _); [auto with goeff|]. apply keeps_immediate.
  apply keeps_bind; [apply _| |intros rows].
  - apply keeps_wrapped, keeps_conn_Exec, keeps_UPDATE. auto.
  - apply keeps_bind; [apply _|auto with goeff|intros _].
    destruct (rows =? 1); [|auto with goeff].
    apply keeps_bind; [apply _|..]; auto with goeff.
Qed.

Lemma keeps_claimReadyMetadata t0 :
  (∀ t id r ms, t !! id = Some r → r_state r = StateQueued →
                row_check id (set_claimed ms r) = true → T t (<[id := set_claimed ms r]> t)) →
  keeps durable_rel (claimReadyMetadata t0).
Proof.
  intros HT. apply keeps_immediate. apply keeps_bind; [apply _|auto with goeff|].
  intros [m|]; [|auto with goeff]. apply keeps_bind; [apply _|auto with goeff|intros u].
  apply keeps_bind; [apply _| |intros rows].
  - apply keeps_wrapped, keeps_conn_Exec, keeps_UPDATE. intros; by apply HT.
  - apply keeps_bind; [apply _|auto with goeff|intros _].
    destruct (rows =? 1); [|auto with goeff].
    apply keeps_bind; [apply _|..]; auto with goeff.
Qed.

Lemma keeps_recoverMetadata t0 :
  (∀ t id r n ms, t !! id = Some r → r_state r = StateWorking →
      row_check id (set_requeued n ms r) = true → T t (<[id := set_requeued n ms r]> t)) →
  keeps durable_rel (recoverMetadata t0).
Proof.
  intros HT. apply keeps_immediate.
  apply keeps_bind; [apply _|auto with goeff|intros working].
  apply keeps_bind; [apply _|auto with goeff|intros submitted].
  apply keeps_bind; [apply _|auto with goeff|intros ids].
  apply keeps_bind; [apply _| |intros rq].
  - induction working as [|m ms IH]; cbn; [auto with goeff|].
    apply keeps_bind; [apply _|auto with goeff|intros u].
    apply keeps_bind; [apply _| |intros _].
    + apply keeps_wrapped, keeps_conn_Exec, keeps_UPDATE. intros; by apply HT.
    + apply keeps_bind; [apply _|done|auto with goeff].
  - apply keeps_bind; [apply _|..]; auto with goeff.
Qed.
End relational.

(** ** What a successful run did *)

(** Execute a straight-line run step by step, splitting on every outcome. *)
Ltac run_all :=
  repeat (unfold bind, try, ret, fail, get, modify, lift, ignore, wrapped, drv, now in *; cbn in *;
          match goal with
          | H : context [match ?x with _ => _ end] |- _ =>
              lazymatch x with
              | context [match _ with _ => _ end] => fail
              | _ => destruct x eqn:?
              end; simplify_eq; cbn in *; try done
          end).

Lemma durable_idle {T} (s : database T) : db_txn s = None → durable s = db_cur s.
Proof. unfold durable. by intros ->. Qed.

Section frames.
Context `{Env : RecordEnv} {T : Type}.

Lemma wrapped_ok {A} op (m : DBOf T A) s s' a :
  wrapped op m s = (s', inl a) → m s = (s', inl a).
Proof. unfold wrapped, try. by destruct (m s) as [s1 [x|e]]. Qed.

(** The parts of the state that driver calls leave alone. *)
Definition same_db (s s' : database T) : Prop :=
  db_cur s' = db_cur s ∧ db_txn s' = db_txn s ∧ db_conn s' = db_conn s.

#[global] Instance same_db_preorder : PreOrder same_db.
Proof. split; [done|]. intros s1 s2 s3 (?&?&?) (?&?&?). repeat split; congruence. Qed.

Lemma same_durable (s s' : database T) : same_db s s' → durable s' = durable s.
Proof. intros (Hc & Ht & _). unfold durable. by rewrite Hc, Ht. Qed.

Lemma drv_same : keeps same_db drv.
Proof. done. Qed.
Lemma now_same : keeps same_db now.
Proof. done. Qed.
#[local] Hint Resolve drv_same now_same : goeff.

Lemma wrapped_same {A} op (m : DBOf T A) : keeps same_db m → keeps same_db (wrapped op m).
Proof. intros Hm. apply keeps_try; [apply _|done|]. intros [?|?]; auto with goeff. Qed.
#[local] Hint Resolve wrapped_same : goeff.

(** A statement on an open handle: it has run with its own outcome, or the
    driver reports an error and it has run or not. *)
Lemma conn_Exec_cases {A} (stmt : DBOf T A) s s' r :
  conn_Exec stmt s = (s', r) →
  ∃ s0 s1 r1, same_db s s0 ∧ stmt s0 = (s1, r1) ∧
    ((s' = s1 ∧ r = r1) ∨ ((s' = s1 ∨ s' = s0) ∧ ∃ e, r = inr e)).
Proof.
  unfold conn_Exec. unfold bind at 1, get. destruct (db_conn s) eqn:Ho.
  2:{ intros [= <- <-]. exists s, (stmt s).1, (stmt s).2. split; [done|].
      split; [by destruct (stmt s)|]. right. eauto. }
  unfold try, drv, bind, ignore, fail, ret. set (s0 := MkDB _ _ _ _ _). intros H.
  exists s0. destruct (stmt s0) as [s1 r1] eqn:Hr. exists s1, r1. split; [done|]. split; [done|].
  destruct (drv_fault _) as [e|]; [|rewrite Hr in H; injection H as <- <-; by left].
  right. destruct (drv_lands _); [rewrite Hr in H|]; cbn in H; injection H as <- <-; eauto.
Qed.

(** A transaction that has just begun from [s]. *)
Definition begun (s s1 : database T) : Prop :=
  db_txn s = None ∧ db_cur s1 = db_cur s ∧ db_txn s1 = Some (db_cur s) ∧ db_conn s1 = true.

Lemma beginImmediate_ok s s1 : beginImmediate s = (s1, inl tt) → begun s s1.
Proof.
  unfold beginImmediate, db_Conn, conn_Exec, stmt_BEGIN_IMMEDIATE, conn_Close. intros Hb.
  run_all; repeat split; done.
Qed.

(** Opening and closing a transaction frame never changes what is committed. *)
Definition same_durable_rel (s s' : database T) : Prop := durable s' = durable s.

#[global] Instance same_durable_preorder : PreOrder same_durable_rel.
Proof. split; [done|]. unfold same_durable_rel. intros ???; congruence. Qed.

Lemma keeps_same_durable {A} (m : DBOf T A) : keeps same_db m → keeps same_durable_rel m.
Proof. intros Hm s. apply same_durable, Hm. Qed.

Lemma undo_durable (s : database T) : durable (undo s) = durable s.
Proof. unfold undo, durable. by destruct (db_txn s) eqn:E; [|rewrite E]. Qed.

Lemma conn_Exec_frame {A} (m : DBOf T A) :
  keeps same_durable_rel m → keeps same_durable_rel (conn_Exec m).
Proof.
  intros Hm s. unfold conn_Exec. unfold bind at 1, get. destruct (db_conn s); [|done].
  apply (keeps_try same_durable_rel drv); [apply keeps_same_durable, drv_same|].
  intros [u|e]; [exact Hm|].
  apply keeps_bind; [apply _| |auto with goeff]. destruct (drv_lands _); auto with goeff.
Qed.

Lemma BEGIN_frame : keeps same_durable_rel stmt_BEGIN_IMMEDIATE.
Proof.
  intros s. unfold same_durable_rel, durable. cbn.
  destruct (db_txn s) eqn:E; cbn; by rewrite ?E.
Qed.

Lemma ROLLBACK_frame : keeps same_durable_rel stmt_ROLLBACK.
Proof.
  intros s. unfold same_durable_rel. cbn. destruct (db_txn s) eqn:E; [|done].
  apply undo_durable.
Qed.

Lemma conn_Close_frame : keeps same_durable_rel conn_Close.
Proof.
  intros s. unfold same_durable_rel, conn_Close. cbn. destruct (db_conn s); [|done]. cbn.
  destruct drv_resets; [|done]. rewrite <- (undo_durable s). done.
Qed.
#[local] Hint Resolve conn_Exec_frame BEGIN_frame ROLLBACK_frame conn_Close_frame : goeff.

Lemma beginImmediate_frame : keeps same_durable_rel beginImmediate.
Proof.
  apply keeps_bind; [apply _| |intros _].
  - apply keeps_try; [apply _| |intros [?|?]; auto with goeff].
    apply keeps_bind; [apply _|apply keeps_same_durable, drv_same|done].
  - apply keeps_try; [apply _|auto with goeff|]. intros [?|?]; [auto with goeff|].
    apply keeps_bind; auto with goeff; apply _.
Qed.

Lemma finishImmediate_frame c : keeps same_durable_rel (finishImmediate c : DBOf T unit).
Proof. destruct c; [|apply keeps_bind; [apply _|..]]; auto with goeff. Qed.

(** A [finishImmediate] after a successful commit finds the handle closed. *)
Lemma finishImmediate_closed c (s : database T) : db_conn s = false → fst (finishImmediate c s) = s.
Proof.
  intros Hc. unfold finishImmediate, conn_Close, conn_Exec.
  destruct c; cbn; rewrite Hc; cbn; [done|]. by rewrite Hc.
Qed.

(** A commit that returned without error: what the connection saw is what is
    committed, and nothing is left open. *)
Lemma commitImmediate_ok (s s' : database T) :
  commitImmediate s = (s', inl tt) →
  is_Some (db_txn s) ∧ db_cur s' = db_cur s ∧ db_txn s' = None ∧ db_conn s' = false.
Proof.
  unfold commitImmediate, conn_Exec, stmt_COMMIT, conn_Close, undo. intros Hb.
  run_all; repeat split; eauto.
Qed.

Lemma wrapped_frame {A} op (m : DBOf T A) :
  keeps same_durable_rel m → keeps same_durable_rel (wrapped op m).
Proof. intros Hm. apply keeps_try; [apply _|done|]. intros [?|?]; auto with goeff. Qed.

Lemma exec_COMMIT (s s1 : database T) r :
  conn_Exec stmt_COMMIT s = (s1, r) →
  match r with
  | inl _ => db_cur s1 = db_cur s ∧ db_txn s1 = None
  | inr _ => durable s1 = durable s ∨ durable s1 = db_cur s
  end.
Proof.
  intros (s0 & s2 & r1 & Hs & Hr & Hcase)%conn_Exec_cases. destruct Hs as (Hc & Ht & Ho).
  assert (Hs2 : (∃ e, r1 = inr e ∧ s2 = s0) ∨ (r1 = inl tt ∧ s2 = set_txn None s0)).
  { unfold stmt_COMMIT in Hr. run_all; eauto. }
  assert (Hd : durable s0 = durable s) by (unfold durable; by rewrite Hc, Ht).
  destruct Hcase as [[-> ->]|[Hs1 [e ->]]].
  - destruct Hs2 as [(e & -> & ->)|[-> ->]]; [by left|done].
  - destruct Hs1 as [->| ->]; [|by left]. destruct Hs2 as [(e' & -> & ->)|[-> ->]]; [by left|by right].
Qed.

(** However a commit ends, the committed contents are the old ones or the ones
    the connection saw. *)
Lemma commitImmediate_durable (s : database T) :
  durable (fst (commitImmediate s)) = durable s ∨
  durable (fst (commitImmediate s)) = db_cur s.
Proof.
  unfold commitImmediate, try.
  destruct (conn_Exec stmt_COMMIT s) as [s1 r] eqn:Hx. apply exec_COMMIT in Hx.
  destruct r as [u|e].
  - right. pose proof (wrapped_frame "close sqlite connection" conn_Close conn_Close_frame s1) as Hf.
    unfold same_durable_rel in Hf. rewrite Hf. unfold durable. by destruct Hx as [-> ->].
  - assert (Hf : same_durable_rel s1 (fst ((ignore conn_Close ;;!
        fail (wrapStoreError "commit sqlite transaction" e) : DBOf T unit) s1))).
    { apply (keeps_bind same_durable_rel (ignore conn_Close)); auto with goeff. }
    unfold same_durable_rel in Hf. rewrite Hf. exact Hx.
Qed.

Lemma immediate_ok {A} (body : DBOf T (A * bool)) s s' a :
  immediate body s = (s', inl a) →
  ∃ s1 s2 c, begun s s1 ∧ body s1 = (s2, inl (a, c)) ∧ s' = fst (finishImmediate c s2).
Proof.
  unfold immediate. intros Hi. bind_step Hi. destruct v. apply beginImmediate_ok in Hrun.
  unfold try in Hi. destruct (body s0) as [s2 [[x c]|e]] eqn:Hb.
  - exists s0, s2, c. split; [done|]. unfold bind in Hi.
    destruct (finishImmediate c s2) as [s3 [[]|?]]; cbn in Hi; [|done].
    by injection Hi as <- <-.
  - unfold bind in Hi. by destruct (finishImmediate false s2) as [s3 [[]|?]].
Qed.

(** However the frame ends, the committed contents are those its body left. *)
Lemma immediate_durable {A} (body : DBOf T (A * bool)) s :
  durable (fst (immediate body s)) = durable s ∨
  ∃ s1, begun s s1 ∧ durable (fst (immediate body s)) = durable (fst (body s1)).
Proof.
  destruct (immediate body s) as [s' r] eqn:Hi. unfold immediate, bind in Hi.
  pose proof (beginImmediate_frame s) as Hf. unfold same_durable_rel in Hf.
  destruct (beginImmediate s) as [s1 [[]|e]] eqn:Hb; cbn in *; [|left; by injection Hi as <- <-].
  right. exists s1. split; [by apply beginImmediate_ok|].
  unfold try in Hi. destruct (body s1) as [s2 [[a c]|e]]; cbn.
  - pose proof (finishImmediate_frame c s2) as H2. unfold same_durable_rel in H2.
    destruct (finishImmediate c s2) as [s3 [[]|?]]; cbn in *; by simplify_eq.
  - pose proof (finishImmediate_frame false s2) as H2. unfold same_durable_rel in H2.
    destruct (finishImmediate false s2) as [s3 [[]|?]]; cbn in *; by simplify_eq.
Qed.
End frames.

#[export] Hint Resolve drv_same now_same wrapped_same : goeff.

Section functional.
Context `{U : UnicodeTables} `{Env : RecordEnv}.

Lemma queryOne_same q : keeps same_db (queryOneMetadata q).
Proof.
  do 2 (apply keeps_bind; [apply _|auto with goeff|intros _]).
  intros s. cbn. destruct (q (db_cur s)) as [|[id r] ?]; [reflexivity|].
  cbn. unfold bind, lift. destruct (scanMetadata id r); reflexivity.
Qed.

(** *** updateRecord *)

Lemma exec_UPDATE_ok id st f s s' n :
  conn_Exec (stmt_UPDATE id st f) s = (s', inl n) →
  db_txn s' = db_txn s ∧ db_conn s' = db_conn s ∧
  ((n = 0 ∧ db_cur s' = db_cur s ∧ ¬ (∃ r, db_cur s !! id = Some r ∧ r_state r = st)) ∨
   (n = 1 ∧ ∃ r, db_cur s !! id = Some r ∧ r_state r = st ∧ row_check id (f r) = true ∧
                 db_cur s' = <[id := f r]> (db_cur s))).
Proof.
  unfold conn_Exec, stmt_UPDATE. intros Hr. run_all.
  - split; [done|]. split; [done|]. right. split; [done|].
    eexists. split_and!; [done|done| |done]. done.
  - split; [done|]. split; [done|]. left. split_and!; [done|done|].
    intros (r' & ? & ?). congruence.
  - split; [done|]. split; [done|]. left. split_and!; [done|done|].
    by intros (r' & ? & ?).
Qed.

Lemma exec_UPDATE_cur id st f s :
  let s' := fst (conn_Exec (stmt_UPDATE id st f) s) in
  db_txn s' = db_txn s ∧
  (db_cur s' = db_cur s ∨
   ∃ r, db_cur s !! id = Some r ∧ r_state r = st ∧ row_check id (f r) = true ∧
        db_cur s' = <[id := f r]> (db_cur s)).
Proof.
  destruct (conn_Exec (stmt_UPDATE id st f) s) as [s' r] eqn:Hr.
  apply conn_Exec_cases in Hr as (s0 & s1 & r1 & (Hc & Ht & _) & Hr & Hcase). cbn.
  assert (Hs : s' = s0 ∨ s' = s1) by intuition. clear Hcase.
  destruct Hs as [->| ->]; [auto|]. rewrite <- Hc, <- Ht.
  unfold stmt_UPDATE in Hr. run_all; (split; [done|]); eauto 10.
Qed.

Lemma drv_ok (s s' : dbstate) : drv s = (s', inl tt) → same_db s s'.
Proof. intros Hd. pose proof (drv_same s) as Hs. by rewrite Hd in Hs. Qed.

(** A write that returned without error is committed: the row was there in the
    expected state, it is replaced by the new values, every other row is as
    before, and no transaction is left open. *)
Lemma updateRecord_ok st upd s s' :
  updateRecord st upd s = (s', inl tt) →
  canonical_id (rec_ID upd) ∧ db_txn s = None ∧ db_txn s' = None ∧
  row_check (rec_ID upd) (rowOf upd) = true ∧
  (∃ r, durable s !! rec_ID upd = Some r ∧ r_state r = st) ∧
  durable s' = <[rec_ID upd := rowOf upd]> (durable s).
Proof.
  unfold updateRecord.
  destruct (validateCanonicalRecordID (rec_ID upd)) as [[]|] eqn:Hv; [|done].
  apply validate_canonical in Hv. destruct (negb _ || negb _); [done|].
  intros (s1 & s2 & c & (Hn & Hc1 & Ht1 & Ho1) & Hb & ->)%immediate_ok.
  bind_step Hb. apply wrapped_ok, exec_UPDATE_ok in Hrun as (Ht & Ho & Hrun).
  bind_step Hb. destruct v0. apply wrapped_ok, drv_ok in Hrun0 as (Hc3 & Ht3 & Ho3).
  destruct Hrun as [(-> & _)|(-> & r & Hl & Hst & Hck & Hcur)]; [done|]. cbn in Hb.
  bind_step Hb. destruct v. apply commitImmediate_ok in Hrun as (_ & Hc4 & Ht4 & Ho4).
  injection Hb as -> <-. rewrite finishImmediate_closed by done.
  unfold durable. rewrite Hn, Ht4. cbn. rewrite Hc4, Hc3, Hcur, Hc1.
  split_and!; [done|done|done|done| |done]. rewrite Hc1 in Hl. eauto.
Qed.

(** Whatever happens in between, the committed table is the old one or the old
    one with this single row, found in the expected state, replaced. *)
Lemma updateRecord_atomic st upd s :
  durable (fst (updateRecord st upd s)) = durable s ∨
  (row_check (rec_ID upd) (rowOf upd) = true ∧
   (∃ r, durable s !! rec_ID upd = Some r ∧ r_state r = st) ∧
   durable (fst (updateRecord st upd s)) = <[rec_ID upd := rowOf upd]> (durable s)).
Proof.
  unfold updateRecord.
  destruct (validateCanonicalRecordID (rec_ID upd)) as [[]|] eqn:Hv; [|by left].
  destruct (negb _ || negb _); [by left|].
  set (body := bind _ _).
  destruct (immediate_durable body s) as [->|(s1 & (Hn & Hc1 & Ht1 & Ho1) & ->)]; [by left|].
  assert (Hd : durable s = db_cur s) by (unfold durable; by rewrite Hn).
  pose (P := λ x : gmap string row, x = durable s ∨
    (row_check (rec_ID upd) (rowOf upd) = true ∧
     (∃ r, durable s !! rec_ID upd = Some r ∧ r_state r = st) ∧
     x = <[rec_ID upd := rowOf upd]> (durable s))).
  change (P (durable (fst (body s1)))).
  unfold body, bind at 1, wrapped, try.
  pose proof (exec_UPDATE_cur (rec_ID upd) st (λ _, rowOf upd) s1) as Hx.
  pose proof (exec_UPDATE_ok (rec_ID upd) st (λ _, rowOf upd) s1) as Hk.
  destruct (conn_Exec _ s1) as [s2 [n|e]]; cbn in Hx; destruct Hx as [Ht2 Hc2].
  2:{ left. cbn. unfold durable. by rewrite Ht2, Ht1, Hn. }
  assert (Hd2 : durable s2 = durable s) by (unfold durable; by rewrite Ht2, Ht1, Hn).
  cbn -[commitImmediate]. unfold bind at 1.
  destruct (drv_fault (db_calls s2)); cbn -[commitImmediate]; [by left|].
  destruct (n =? 1) eqn:Hn1; [|by left].
  apply Z.eqb_eq in Hn1 as ->.
  destruct (Hk _ _ eq_refl) as (_ & _ & [(? & _)|(_ & r & Hl & Hst & Hck & Hcur)]); [done|].
  set (s3 := MkDB _ _ _ _ _). unfold bind at 1.
  pose proof (commitImmediate_durable s3) as Hcm.
  assert (Heq : durable (commitImmediate s3).1 = durable s ∨
                durable (commitImmediate s3).1 = <[rec_ID upd := rowOf upd]> (durable s)).
  { destruct Hcm as [-> | ->]; [left; exact Hd2|right]. cbn. by rewrite Hcur, Hc1, Hd. }
  assert (Hr : ∃ r, durable s !! rec_ID upd = Some r ∧ r_state r = st)
    by (exists r; rewrite Hd, <- Hc1; done).
  destruct (commitImmediate s3) as [s4 [[]|e]]; cbn in Heq |- *;
    (destruct Heq as [->|Heq]; [by left|right]);
    (split; [exact Hck|split; [exact Hr|exact Heq]]).
Qed.

(** *** insertRecord *)

Lemma exec_INSERT id r s :
  let s' := fst (conn_Exec (stmt_INSERT id r) s) in
  db_txn s' = db_txn s ∧
  match snd (conn_Exec (stmt_INSERT id r) s) with
  | inl _ => db_cur s !! id = None ∧ row_check id r = true ∧
             db_cur s' = <[id := r]> (db_cur s)
  | inr _ => True
  end.
Proof.
  destruct (conn_Exec (stmt_INSERT id r) s) as [s' o] eqn:Hr. cbn.
  apply conn_Exec_cases in Hr as (s0 & s1 & r1 & (Hc & Ht & _) & Hr & Hcase).
  rewrite <- Hc, <- Ht.
  assert (Hs : db_txn s1 = db_txn s0 ∧
    match r1 with
    | inl _ => db_cur s0 !! id = None ∧ row_check id r = true ∧ db_cur s1 = <[id := r]> (db_cur s0)
    | inr _ => True
    end) by (unfold stmt_INSERT in Hr; run_all).
  destruct Hcase as [[-> ->]|[[->| ->] [e ->]]]; [exact Hs|by destruct Hs|done].
Qed.

Lemma insertRecord_ok rec s s' :
  insertRecord rec s = (s', inl tt) →
  canonical_id (rec_ID rec) ∧ db_txn s = None ∧ db_txn s' = None ∧
  row_check (rec_ID rec) (rowOf rec) = true ∧
  durable s !! rec_ID rec = None ∧
  durable s' = <[rec_ID rec := rowOf rec]> (durable s).
Proof.
  unfold insertRecord.
  destruct (validateCanonicalRecordID (rec_ID rec)) as [[]|] eqn:Hv; [|done].
  apply validate_canonical in Hv.
  intros (s1 & s2 & c & (Hn & Hc1 & Ht1 & Ho1) & Hb & ->)%immediate_ok.
  bind_step Hb. apply wrapped_ok in Hrun.
  pose proof (exec_INSERT (rec_ID rec) (rowOf rec) s1) as Hx. rewrite Hrun in Hx.
  cbn in Hx. destruct Hx as (Ht & Hl & Hck & Hcur).
  bind_step Hb. destruct v0. apply commitImmediate_ok in Hrun0 as (_ & Hc4 & Ht4 & Ho4).
  injection Hb as -> <-. rewrite finishImmediate_closed by done.
  unfold durable. rewrite Hn, Ht4. cbn. rewrite Hc4, Hcur, <- Hc1. done.
Qed.

Lemma insertRecord_atomic rec s :
  durable (fst (insertRecord rec s)) = durable s ∨
  (durable s !! rec_ID rec = None ∧
   durable (fst (insertRecord rec s)) = <[rec_ID rec := rowOf rec]> (durable s)).
Proof.
  unfold insertRecord.
  destruct (validateCanonicalRecordID (rec_ID rec)) as [[]|] eqn:Hv; [|by left].
  set (body := bind _ _).
  destruct (immediate_durable body s) as [->|(s1 & (Hn & Hc1 & Ht1 & Ho1) & ->)]; [by left|].
  assert (Hd : durable s = db_cur s) by (unfold durable; by rewrite Hn).
  pose (P := λ x : gmap string row, x = durable s ∨
    (durable s !! rec_ID rec = None ∧ x = <[rec_ID rec := rowOf rec]> (durable s))).
  change (P (durable (fst (body s1)))). unfold body, bind at 1, wrapped, try.
  pose proof (exec_INSERT (rec_ID rec) (rowOf rec) s1) as Hx.
  destruct (conn_Exec _ s1) as [s2 [[]|e]]; cbn in Hx; destruct Hx as [Ht2 Hc2].
  2:{ left. cbn. unfold durable. by rewrite Ht2, Ht1, Hn. }
  destruct Hc2 as (Hl & _ & Hcur). cbn -[commitImmediate]. unfold bind at 1.
  assert (Hd2 : durable s2 = durable s) by (unfold durable; by rewrite Ht2, Ht1, Hn).
  assert (Heq : P (durable (commitImmediate s2).1)).
  { destruct (commitImmediate_durable s2) as [-> | ->]; [left; exact Hd2|right].
    rewrite Hcur, Hd, <- Hc1. done. }
  destruct (commitImmediate s2) as [s4 [[]|e]]; exact Heq.
Qed.
End functional.

(** ** The order of the ready index *)

#[export] Instance created_le_trans : Transitive created_le.
Proof.
  intros [i1 r1] [i2 r2] [i3 r3]. unfold created_le. cbn.
  intros [?|[? ?]] [?|[? ?]]; [left; lia|left; lia|left; lia|right].
  split; [lia|]. by etrans.
Qed.

#[export] Instance created_le_total : Total created_le.
Proof.
  intros [i1 r1] [i2 r2]. unfold created_le. cbn.
  destruct (Z.lt_trichotomy (r_created_at_ms r1) (r_created_at_ms r2)) as [?|[?|?]];
    [by left; left| |by right; left].
  destruct (total String.le i1 i2); [left|right]; by right.
Qed.

#[export] Instance ready_le_trans : Transitive ready_le.
Proof.
  intros x y z. unfold ready_le.
  intros [?|[? ?]] [?|[? ?]]; [left; lia|left; lia|left; lia|right].
  split; [lia|]. by etrans.
Qed.

#[export] Instance ready_le_total : Total ready_le.
Proof.
  intros x y. unfold ready_le.
  destruct (Z.lt_trichotomy (r_next_attempt_at_ms x.2) (r_next_attempt_at_ms y.2)) as [?|[?|?]];
    [by left; left| |by right; left].
  destruct (total created_le x y); [left|right]; by right.
Qed.

Lemma elem_select_ready st t0 t id r :
  (id, r) ∈ select_ready st t0 t ↔ t !! id = Some r ∧ due st t0 (id, r).
Proof.
  unfold select_ready. rewrite merge_sort_Permutation, list_elem_of_filter.
  rewrite elem_of_map_to_list. tauto.
Qed.

Lemma elem_select_state st t id r :
  (id, r) ∈ select_state st t ↔ t !! id = Some r ∧ r_state r = st.
Proof.
  unfold select_state. rewrite merge_sort_Permutation, list_elem_of_filter.
  rewrite elem_of_map_to_list. unfold in_state. cbn. tauto.
Qed.

(** The first row of the ready query: present, due, and first in scheduling
    order among all due rows. *)
Definition first_ready (st : State) (t0 : Z) (t : gmap string row) (id : string) (r : row) : Prop :=
  t !! id = Some r ∧ due st t0 (id, r) ∧
  ∀ id' r', t !! id' = Some r' → due st t0 (id', r') → ready_le (id, r) (id', r').

Lemma select_ready_head st t0 t id r rest :
  select_ready st t0 t = (id, r) :: rest → first_ready st t0 t id r.
Proof.
  intros Hs.
  destruct (elem_select_ready st t0 t id r) as [He _].
  rewrite Hs in He. destruct He as [Hl Hd]; [set_solver|].
  split; [done|]. split; [done|]. intros id' r' Hl' Hd'.
  assert (Hin : (id', r') ∈ select_ready st t0 t) by (by apply elem_select_ready).
  pose proof (StronglySorted_merge_sort ready_le (filter (due st t0) (map_to_list t))) as Hss.
  fold (select_ready st t0 t) in Hss. rewrite Hs in Hss, Hin.
  apply StronglySorted_inv in Hss as [_ Hf]. rewrite Forall_forall in Hf.
  apply elem_of_cons in Hin as [[= -> ->]|Hin]; [|by apply Hf].
  destruct (total ready_le (id, r) (id, r)); done.
Qed.

Lemma select_ready_nil st t0 t :
  select_ready st t0 t = [] → ∀ id r, t !! id = Some r → ¬ due st t0 (id, r).
Proof.
  intros Hs id r Hl Hd.
  assert (Hin : (id, r) ∈ select_ready st t0 t) by (by apply elem_select_ready).
  rewrite Hs in Hin. set_solver.
Qed.
