(* ===== verification/SchemaProps.v ===== *)
(** * Properties of the schema

    What [validateCurrentSchema] accepts, what [bootstrapSchema] writes, that
    opening a database is atomic, and that a database opened once opens
    again. *)
From Stdlib Require Import Ascii.
From S2P Require Import Prelude.
From S2P Require Import GoStrings.
From S2P Require Import GoTime.
From S2P Require Import GoErrors.
From S2P Require Import SpoolCommon.
From S2P Require Import Records.
From S2P Require Import RecordsProps.
From S2P Require Import Schema.
#[local] Open Scope Z_scope.
#[local] Open Scope relay_scope.

(** ** The schema the code relies on *)

(** The text [sqlite_master] has for an object, when there is one. *)
Definition stored_sql (ty : objtype) (name : string) (f : dbfile) : option string :=
  o ← head (select_object ty name f);
  t ← o_sql o;
  if decide (TrimSpace t = "") then None else Some t.

Section schema.
Context `{U : UnicodeTables} `{Env : RecordEnv}.

Definition sql_has (ty : objtype) (name : string) (snippets : list string) (f : dbfile) : Prop :=
  ∃ t, stored_sql ty name f = Some t ∧
       forallb (Contains (normalizeSQL t)) snippets = true.

(** Version 1 of the schema: one table [records] with the columns in order,
    whose definition has the constraints, and the two indexes. *)
Definition schema_v1 (f : dbfile) : Prop :=
  length (select_object TypeTable recordsTableName f) = 1%nat ∧
  table_info recordsTableName f = expectedColumns ∧
  sql_has TypeTable recordsTableName requiredSnippets f ∧
  Forall (λ x : string * string, sql_has TypeIndex x.1 [x.2] f) requiredIndexes.

(** A table [records] is there: [tableExists]. *)
Definition has_records (f : dbfile) : Prop :=
  length (select_object TypeTable recordsTableName f) = 1%nat.

(** The files [init] refuses: a [records] table that no version accounts for, a
    version 1 whose schema is not that of version 1, any other version. *)
Definition refused (f : dbfile) : Prop :=
  f_version f = 0 ∧ has_records f ∨
  f_version f = spoolSchemaVersion ∧ ¬ schema_v1 f ∨
  f_version f ∉ [0; spoolSchemaVersion].

(** No object has one of the names the store uses. *)
Definition unclaimed (f : dbfile) : Prop :=
  Forall (λ o, ascii_lower (o_name o) ∉
            [recordsTableName; recordsReadyIndexName; recordsOpIndexName]) (f_master f).

(** The text SQLite keeps of a statement. *)
Definition ddl_sql (stmt : string) : string :=
  match parse_ddl stmt with
  | Some (CreateTable _ sql _) | Some (CreateIndex _ _ sql) => sql
  | None => ""
  end.

(** The objects of version 1. *)
Definition v1_objects : list dbobject :=
  [MkObject TypeTable recordsTableName (Some (ddl_sql recordsTableSchema)) expectedColumns;
   MkObject TypeIndex recordsReadyIndexName (Some (ddl_sql recordsReadyIndexSchema)) [];
   MkObject TypeIndex recordsOpIndexName (Some (ddl_sql recordsOperationIndexSchema)) []].

Definition bootstrapped (f : dbfile) : dbfile :=
  MkFile spoolSchemaVersion (f_master f ++ v1_objects) ∅.

Definition store_names : list string :=
  [recordsTableName; recordsReadyIndexName; recordsOpIndexName].

Lemma filter_none {A} (P : A → Prop) `{!∀ x, Decision (P x)} (l : list A) :
  Forall (λ x, ¬ P x) l → filter P l = [].
Proof. induction 1 as [|x l Hx _ IH]; [done|]. by rewrite filter_cons_False. Qed.

(** A claim of one of the store's names is none of an unclaimed file. *)
Lemma none_called (P : dbobject → Prop) `{!∀ o, Decision (P o)} name f :
  unclaimed f → name ∈ store_names →
  (∀ o, P o → ascii_lower (o_name o) = ascii_lower name) → filter P (f_master f) = [].
Proof.
  intros Hf Hn HP. apply filter_none. eapply Forall_impl; [exact Hf|].
  intros o Ho Hp. apply Ho. rewrite (HP o Hp). clear -Hn. unfold store_names in Hn.
  repeat (apply elem_of_cons in Hn as [->|Hn]; [by apply (bool_decide_eq_true_1 _)|]).
  by apply not_elem_of_nil in Hn.
Qed.

Lemma has_snoc ty name v ms o rs :
  has ty name (MkFile v (ms ++ [o]) rs) =
  has ty name (MkFile v ms rs) || bool_decide (called ty name o).
Proof.
  unfold has. cbn. rewrite <- bool_decide_or. apply bool_decide_ext.
  rewrite Exists_app, Exists_cons, Exists_nil. tauto.
Qed.

Lemma has_unclaimed ty name v ms rs :
  unclaimed (MkFile v ms rs) → name ∈ store_names → has ty name (MkFile v ms rs) = false.
Proof.
  intros Hf Hn. apply bool_decide_eq_false. intros (o & Ho & Hc)%Exists_exists.
  assert (o ∈ filter (called ty name) ms) as Hin by by apply list_elem_of_filter.
  rewrite (none_called (called ty name) name _ Hf Hn) in Hin by by intros ? [].
  by apply not_elem_of_nil in Hin.
Qed.

(** What [bootstrapSchema] makes of a file. *)
Definition bootstrap_file (f : dbfile) : dbfile + goerr :=
  let* f := run_stmt recordsTableSchema f in
  let* f := run_stmt recordsReadyIndexSchema f in
  let* f := run_stmt recordsOperationIndexSchema f in
  set_version spoolSchemaVersion f.

(** What [init] may do to a file. *)
Definition opened (f f' : dbfile) : Prop :=
  f' = f ∨ f_version f = 0 ∧ ¬ has_records f ∧ bootstrap_file f = inl f'.

(** What a successful [init] has done. *)
Definition accepted (f f' : dbfile) : Prop :=
  f_version f = spoolSchemaVersion ∧ schema_v1 f ∧ f' = f ∨
  f_version f = 0 ∧ ¬ has_records f ∧ bootstrap_file f = inl f'.

Lemma bootstrap_version f f' : bootstrap_file f = inl f' → f_version f' = spoolSchemaVersion.
Proof. unfold bootstrap_file. intros H. repeat rbind_step H. by injection H as <-. Qed.

Lemma accepted_not_refused f f' : accepted f f' → ¬ refused f.
Proof.
  intros [(Hv & Hs & _)|(Hv & Hr & _)] [[Hv' Hr']|[[Hv' Hs']|Hn]]; try done;
    solve [by rewrite Hv in Hv'|apply Hn; rewrite Hv; set_solver].
Qed.

Lemma opened_refused f f' : opened f f' → refused f → f' = f.
Proof.
  intros [?|(Hv & Hr & _)]; [done|]. intros [[_ ?]|[[Hv' _]|Hn]]; [done|by rewrite Hv in Hv'|].
  exfalso. apply Hn. rewrite Hv. set_solver.
Qed.

Lemma parse_table :
  parse_ddl recordsTableSchema =
  Some (CreateTable recordsTableName (ddl_sql recordsTableSchema) expectedColumns).
Proof. vm_compute. reflexivity. Qed.

Lemma parse_ready :
  parse_ddl recordsReadyIndexSchema =
  Some (CreateIndex recordsReadyIndexName recordsTableName (ddl_sql recordsReadyIndexSchema)).
Proof. vm_compute. reflexivity. Qed.

Lemma parse_operation :
  parse_ddl recordsOperationIndexSchema =
  Some (CreateIndex recordsOpIndexName recordsTableName (ddl_sql recordsOperationIndexSchema)).
Proof. vm_compute. reflexivity. Qed.

Ltac eval_called :=
  repeat match goal with
  | |- context [bool_decide (called ?a ?b ?c)] =>
      let x := eval vm_compute in (bool_decide (called a b c)) in
      change (bool_decide (called a b c)) with x
  end; cbn [orb negb rbind f_version f_master f_rows].

Lemma bootstrap_unclaimed f : unclaimed f → bootstrap_file f = inl (bootstrapped f).
Proof.
  intros Hf. destruct f as [v ms rs].
  assert (Hn : ∀ ty n v rs, n ∈ store_names → has ty n (MkFile v ms rs) = false).
  { intros ty n v' rs'. by apply has_unclaimed. }
  unfold bootstrap_file, run_stmt. rewrite parse_table, parse_ready, parse_operation.
  unfold run_ddl, bootstrapped, v1_objects, add_object.
  generalize (ddl_sql recordsTableSchema) (ddl_sql recordsReadyIndexSchema)
    (ddl_sql recordsOperationIndexSchema). intros t1 t2 t3.
  assert (recordsTableName ∈ store_names ∧ recordsReadyIndexName ∈ store_names ∧
          recordsOpIndexName ∈ store_names) as (H1 & H2 & H3).
  { split_and!; by apply (bool_decide_eq_true_1 _). }
  rewrite !Hn by done. eval_called.
  do 2 (rewrite ?has_snoc, !Hn by done; eval_called).
  unfold set_version. cbn. by rewrite <- !app_assoc.
Qed.

Lemma select_bootstrapped ty name f :
  unclaimed f → name ∈ store_names →
  select_object ty name (bootstrapped f) =
  filter (λ o, o_type o = ty ∧ o_name o = name) v1_objects.
Proof.
  intros Hf Hn. unfold select_object, bootstrapped. cbn [f_master].
  rewrite filter_app, (none_called _ name f Hf Hn); [done|]. by intros o [_ ->].
Qed.

(** What [bootstrapSchema] writes is what [validateCurrentSchema] looks for. *)
Lemma bootstrapped_v1 f : unclaimed f → schema_v1 (bootstrapped f).
Proof.
  intros Hf.
  assert (recordsTableName ∈ store_names ∧ recordsReadyIndexName ∈ store_names ∧
          recordsOpIndexName ∈ store_names) as (H1 & H2 & H3).
  { split_and!; by apply (bool_decide_eq_true_1 _). }
  unfold schema_v1, sql_has, stored_sql. split_and!.
  - by rewrite select_bootstrapped.
  - unfold table_info, bootstrapped. cbn [f_master].
    by rewrite filter_app, (none_called _ recordsTableName f Hf H1) by by intros o [].
  - rewrite select_bootstrapped by done. eexists. split; vm_compute; reflexivity.
  - unfold requiredIndexes. rewrite !Forall_cons, Forall_nil. cbn [fst snd].
    rewrite !select_bootstrapped by done.
    split_and!; [eexists; split; vm_compute; reflexivity..|done].
Qed.

(** ** Reading the schema *)

Abbreviation FileDB := (io goerr (database dbfile)).

Definition calm : Prop := ∀ n, drv_fault n = None.

(** [inspects m p]: [m] changes nothing; when it returns a value the contents
    determine it as [p] says; and when no driver call fails it returns it. *)
Definition inspects {A} (m : FileDB A) (p : dbfile → option A) : Prop := ∀ s,
  same_db s (m s).1 ∧
  (∀ a, (m s).2 = inl a → p (db_cur s) = Some a) ∧
  (calm → ∀ a, p (db_cur s) = Some a → (m s).2 = inl a).

Lemma inspects_ret {A} (a : A) : inspects (ret a) (λ _, Some a).
Proof. intros s. cbn. split; [reflexivity|]. split; congruence. Qed.

Lemma inspects_fail {A} e : inspects (fail e : FileDB A) (λ _, None).
Proof. intros s. cbn. split; [reflexivity|]. split; congruence. Qed.

Lemma inspects_bind {A B} (m : FileDB A) (k : A → FileDB B) p q :
  inspects m p → (∀ a, inspects (k a) (q a)) →
  inspects (bind m k) (λ f, a ← p f; q a f).
Proof.
  intros Hm Hk s. destruct (Hm s) as (Hs & H1 & H2). unfold bind.
  destruct (m s) as [s1 [a|e]]; cbn [fst snd] in *.
  - pose proof Hs as (Hc & _). rewrite (H1 a eq_refl). cbn.
    destruct (Hk a s1) as (Hs' & K1 & K2). rewrite Hc in K1, K2.
    split; [by etrans|]. by split.
  - split; [done|]. split; [done|]. intros Hcalm b.
    destruct (p (db_cur s)) as [a|] eqn:E; [|done]. by specialize (H2 Hcalm a eq_refl).
Qed.

Lemma inspects_drv op : inspects (wrapped op drv) (λ _, Some tt).
Proof.
  intros s. unfold wrapped, try, drv. cbn.
  split; [by destruct (drv_fault _)|]. split; [by intros []|].
  intros Hcalm []. by rewrite Hcalm.
Qed.

Lemma inspects_get {A} (k : database dbfile → FileDB A) p :
  (∀ s0, inspects (k s0) (p (db_cur s0))) → inspects (bind get k) (λ f, p f f).
Proof. intros Hk s. apply Hk. Qed.

Lemma inspects_if {A} (b : bool) (m1 m2 : FileDB A) p1 p2 :
  inspects m1 p1 → inspects m2 p2 →
  inspects (if b then m1 else m2) (λ f, if b then p1 f else p2 f).
Proof. by destruct b. Qed.

Lemma inspects_ext {A} (m : FileDB A) p q :
  (∀ f, p f = q f) → inspects m p → inspects m q.
Proof. intros He Hm s. rewrite <- He. apply Hm. Qed.

(** A query and what follows it. *)
Lemma inspects_query {A} op (m : FileDB A) p :
  inspects m p → inspects (wrapped op drv ;;! m) p.
Proof.
  intros Hm. apply (inspects_bind _ (λ _, m) (λ _, Some tt) (λ _, p)).
  - apply inspects_drv.
  - intros ?. exact Hm.
Qed.

Lemma inspects_read {A} (g : dbfile → A) :
  inspects (let! s := get in ret (g (db_cur s))) (λ f, Some (g f)).
Proof. apply (inspects_get _ (λ f _, Some (g f))). intros. apply inspects_ret. Qed.

Lemma inspects_userVersion : inspects userVersion (λ f, Some (f_version f)).
Proof. apply inspects_query, inspects_read. Qed.

Lemma inspects_pragmas ps : inspects (apply_pragmas ps) (λ _, Some tt).
Proof. induction ps as [|p ps IH]; [apply inspects_ret|by apply inspects_query]. Qed.

Lemma inspects_tableExists name :
  inspects (tableExists name)
    (λ f, Some (length (select_object TypeTable name f) =? 1)%nat).
Proof.
  apply inspects_query.
  apply (inspects_read (λ f, length (select_object TypeTable name f) =? 1)%nat).
Qed.

Lemma inspects_scan_columns table rows : inspects (scan_columns table rows) (λ _, Some rows).
Proof.
  induction rows as [|c rows IH]; apply inspects_query; [apply inspects_ret|].
  eapply inspects_ext; [|apply inspects_bind; [exact IH|intros cs; apply inspects_ret]]. done.
Qed.

Lemma inspects_loadTableColumns table :
  inspects (loadTableColumns table) (λ f, Some (table_info table f)).
Proof.
  apply inspects_query. apply (inspects_get _ (λ f _, Some (table_info table f))).
  intros. apply inspects_scan_columns.
Qed.

Lemma inspects_query_sql op ty name :
  inspects (wrapped op (query_sql ty name)) (λ f, Some (head (select_object ty name f))).
Proof.
  intros s. unfold query_sql, wrapped, try, bind, drv. cbn.
  destruct (drv_fault (db_calls s)) eqn:E; cbn.
  - split; [done|]. split; [done|]. intros Hcalm. by rewrite Hcalm in E.
  - split; [done|]. split; [by intros a [= <-]|by intros _ a [= <-]].
Qed.

Lemma inspects_valid_sql what name o :
  inspects (valid_sql what name o)
    (λ _, t ← o; if decide (TrimSpace t = "") then None else Some t).
Proof.
  destruct o as [t|]; cbn; [|apply inspects_fail].
  case_decide; [apply inspects_fail|apply inspects_ret].
Qed.

Lemma inspects_sql ty what name op (e : goerr) :
  inspects (let! row := wrapped op (query_sql ty name) in
            match row with
            | None => fail e
            | Some o => valid_sql what name (o_sql o)
            end) (stored_sql ty name).
Proof.
  apply (inspects_ext _ (λ f, row ← Some (head (select_object ty name f)); o ← row;
    t ← o_sql o; if decide (TrimSpace t = "") then None else Some t)); [done|].
  apply inspects_bind with
    (q := λ row _, o ← row; t ← o_sql o; if decide (TrimSpace t = "") then None else Some t).
  - apply inspects_query_sql.
  - intros [o|]; [apply inspects_valid_sql|apply inspects_fail].
Qed.

Lemma inspects_tableSQL table : inspects (tableSQL table) (stored_sql TypeTable table).
Proof. apply inspects_sql. Qed.
Lemma inspects_indexSQL index : inspects (indexSQL index) (stored_sql TypeIndex index).
Proof. apply inspects_sql. Qed.

Context (root : string) (order : list (string * string) → list (string * string)).

Definition pass (P : Prop) `{!Decision P} : option unit := if decide P then Some tt else None.

Lemma inspects_check_columns i expected columns :
  length columns = length expected →
  inspects (check_columns root i expected columns) (λ _, pass (columns = expected)).
Proof.
  revert i columns. induction expected as [|e expected IH]; intros i [|c columns]; try done.
  { intros _. apply inspects_ret. }
  intros [= Hl]. cbn. unfold pass. case_decide as Hc; subst.
  - eapply inspects_ext; [|by apply IH]. intros ?. unfold pass.
    repeat case_decide; naive_solver.
  - rewrite decide_False by congruence. apply inspects_fail.
Qed.

Definition sql_hasb (ty : objtype) (name : string) (snippets : list string) (f : dbfile) : bool :=
  match stored_sql ty name f with
  | Some t => forallb (Contains (normalizeSQL t)) snippets
  | None => false
  end.

Lemma sql_hasb_spec ty name snippets f :
  sql_hasb ty name snippets f = true ↔ sql_has ty name snippets f.
Proof.
  unfold sql_hasb, sql_has. destruct (stored_sql ty name f); [naive_solver|].
  split; [done|]. by intros (t & ? & _).
Qed.

Lemma inspects_check_indexes required :
  inspects (check_indexes root required)
    (λ f, if forallb (λ x, sql_hasb TypeIndex x.1 [x.2] f) required then Some tt else None).
Proof.
  induction required as [|[n e] required IH]; [apply inspects_ret|].
  intros s. cbn. unfold sql_hasb at 1 3, try.
  destruct (inspects_indexSQL n s) as (Hs & H1 & H2).
  destruct (indexSQL n s) as [s1 [t|e']]; cbn [fst snd] in *.
  - rewrite (H1 t eq_refl). cbn. rewrite andb_true_r. destruct Hs as (Hc & ? & ?).
    destruct (Contains (normalizeSQL t) e); [|done].
    destruct (IH s1) as ((?&?&?) & K1 & K2). rewrite Hc in K1, K2. cbn.
    split; [|done]. repeat split; congruence.
  - split; [done|]. split; [done|]. intros Hcalm a.
    destruct (stored_sql TypeIndex n (db_cur s)) as [t|] eqn:E; [|done].
    by specialize (H2 Hcalm t eq_refl).
Qed.

Definition schema_v1b (f : dbfile) : bool :=
  (length (select_object TypeTable recordsTableName f) =? 1)%nat &&
  bool_decide (table_info recordsTableName f = expectedColumns) &&
  sql_hasb TypeTable recordsTableName requiredSnippets f &&
  forallb (λ x, sql_hasb TypeIndex x.1 [x.2] f) (order requiredIndexes).

(** The part of the validation after the columns are loaded. *)
Definition after_columns (cols : list string) : FileDB unit :=
  if negb (length cols =? length expectedColumns)%nat then
    unsupported root ("expected " +:+ Itoa (Z.of_nat (length expectedColumns)) +:+ " columns in "
      +:+ Quote recordsTableName +:+ ", found " +:+ Itoa (Z.of_nat (length cols)))
  else
    check_columns root 0 expectedColumns cols ;;!
    let! sqlText := tableSQL recordsTableName in
    if forallb (Contains (normalizeSQL sqlText)) requiredSnippets then
      check_indexes root (order requiredIndexes)
    else mismatch root recordsTableName.

Lemma inspects_after_columns cols :
  inspects (after_columns cols)
    (λ f, if bool_decide (cols = expectedColumns) &&
             sql_hasb TypeTable recordsTableName requiredSnippets f &&
             forallb (λ x, sql_hasb TypeIndex x.1 [x.2] f) (order requiredIndexes)
          then Some tt else None).
Proof.
  unfold after_columns. destruct (Nat.eqb_spec (length cols) (length expectedColumns)) as [Hl|Hl].
  - eapply inspects_ext; [|apply inspects_bind; [by apply inspects_check_columns|]].
    2:{ intros u. apply inspects_bind; [apply inspects_tableSQL|]. intros t.
        apply inspects_if; [apply inspects_check_indexes|apply inspects_fail]. }
    intros f. unfold pass, sql_hasb. cbn -[expectedColumns requiredSnippets requiredIndexes].
    case_decide as Hc; [rewrite (bool_decide_eq_true_2 _ Hc)|by rewrite (bool_decide_eq_false_2 _ Hc)].
    cbn -[expectedColumns requiredSnippets requiredIndexes].
    destruct (stored_sql _ _ f); [|done]. cbn -[requiredSnippets requiredIndexes].
    by destruct (forallb _ requiredSnippets).
  - rewrite bool_decide_eq_false_2 by congruence. apply inspects_fail.
Qed.

Lemma inspects_validate :
  inspects (validateCurrentSchema root order)
    (λ f, if schema_v1b f then Some tt else None).
Proof.
  eapply inspects_ext; [|apply inspects_bind; [apply inspects_tableExists|]].
  2:{ intros b. apply inspects_if; [apply inspects_fail|].
      apply inspects_bind; [apply inspects_loadTableColumns|].
      intros cols. apply (inspects_after_columns cols). }
  intros f. unfold schema_v1b. cbn -[expectedColumns requiredSnippets requiredIndexes].
  by destruct (_ =? 1)%nat.
Qed.

Hypothesis order_perm : ∀ l, order l ≡ₚ l.

Lemma schema_v1b_spec f : schema_v1b f = true ↔ schema_v1 f.
Proof.
  unfold schema_v1b, schema_v1.
  assert (forallb (λ x, sql_hasb TypeIndex x.1 [x.2] f) (order requiredIndexes) = true ↔
          Forall (λ x : string * string, sql_has TypeIndex x.1 [x.2] f) requiredIndexes) as Hi.
  { rewrite forallb_forall, <- List.Forall_forall, (order_perm requiredIndexes).
    apply Forall_iff. intros x. apply sql_hasb_spec. }
  rewrite !andb_true_iff, Nat.eqb_eq, bool_decide_eq_true, sql_hasb_spec, Hi. tauto.
Qed.

(** ** bootstrapSchema *)

Lemma exec_file run s :
  let '(s', r) := conn_Exec (stmt_on_file run) s in
  db_txn s' = db_txn s ∧ db_conn s' = db_conn s ∧
  match r with
  | inl _ => run (db_cur s) = inl (db_cur s')
  | inr _ => True
  end.
Proof.
  destruct (conn_Exec (stmt_on_file run) s) as [s' r] eqn:Hr.
  apply conn_Exec_cases in Hr as (s0 & s1 & r1 & (Hc & Ht & Ho) & Hr & Hcase).
  rewrite <- Hc, <- Ht, <- Ho.
  assert (Hs : db_txn s1 = db_txn s0 ∧ db_conn s1 = db_conn s0 ∧
    match r1 with inl _ => run (db_cur s0) = inl (db_cur s1) | inr _ => True end)
    by (unfold stmt_on_file in Hr; run_all).
  destruct Hcase as [[-> ->]|[[->| ->] [e ->]]]; [exact Hs|by destruct Hs as (? & ? & _)|done].
Qed.

(** A statement in a transaction: it fails and nothing else happens, or it has
    run and the transaction goes on. *)
Lemma exec_file_then {A} op run (k : FileDB A) s t0 :
  db_txn s = Some t0 →
  let r := (wrapped op (conn_Exec (stmt_on_file run)) ;;! k) s in
  (durable r.1 = t0 ∧ ∃ e, r.2 = inr e) ∨
  ∃ s1, run (db_cur s) = inl (db_cur s1) ∧ db_txn s1 = Some t0 ∧ r = k s1.
Proof.
  intros Ht. unfold bind, wrapped, try. pose proof (exec_file run s) as Hx.
  destruct (conn_Exec (stmt_on_file run) s) as [s1 [[]|e]]; destruct Hx as (Ht1 & Ho & Hr); cbn.
  - right. exists s1. by rewrite Ht1.
  - left. unfold durable. rewrite Ht1, Ht. split; [done|by eexists].
Qed.

(** The body of [bootstrapSchema]. *)
Definition bootstrap_body : FileDB (unit * bool) :=
  wrapped "create current spool schema"
    (conn_Exec (stmt_on_file (run_stmt recordsTableSchema))) ;;!
  wrapped "create spool index"
    (conn_Exec (stmt_on_file (run_stmt recordsReadyIndexSchema))) ;;!
  wrapped "create spool index"
    (conn_Exec (stmt_on_file (run_stmt recordsOperationIndexSchema))) ;;!
  wrapped "set sqlite user_version"
    (conn_Exec (stmt_on_file (set_version spoolSchemaVersion))) ;;!
  commitImmediate ;;!
  ret (tt, true).

Ltac exec_step Ht s1 H Ht1 :=
  lazymatch goal with
  | |- context [bind (wrapped ?op (conn_Exec (stmt_on_file ?run))) (λ _, ?k) ?s] =>
      destruct (exec_file_then op run k s _ Ht) as [?|(s1 & H & Ht1 & ->)]; [by left|]
  end.

(** The body up to the commit. *)
Lemma bootstrap_body_run s t0 :
  db_txn s = Some t0 →
  (durable (bootstrap_body s).1 = t0 ∧ ∃ e, (bootstrap_body s).2 = inr e) ∨
  ∃ s1, bootstrap_file (db_cur s) = inl (db_cur s1) ∧ db_txn s1 = Some t0 ∧
        bootstrap_body s = (commitImmediate ;;! ret (tt, true)) s1.
Proof.
  intros Ht. unfold bootstrap_file, bootstrap_body.
  exec_step Ht s1 H1 Ht1.
  exec_step Ht1 s2 H2 Ht2.
  exec_step Ht2 s3 H3 Ht3.
  exec_step Ht3 s4 H4 Ht4.
  right. exists s4. split; [|split; [exact Ht4|reflexivity]]. rewrite H1. cbn -[run_stmt]. rewrite H2. cbn -[run_stmt].
  rewrite H3. exact H4.
Qed.

(** Whatever fails on the way, the file is the old one or has the whole
    schema. *)
Lemma bootstrapSchema_atomic s :
  durable (bootstrapSchema s).1 = durable s ∨
  bootstrap_file (durable s) = inl (durable (bootstrapSchema s).1).
Proof.
  change bootstrapSchema with (immediate bootstrap_body).
  destruct (immediate_durable bootstrap_body s) as [->|(s1 & (Hn & Hc1 & Ht1 & Ho1) & ->)];
    [by left|].
  assert (durable s = db_cur s) as -> by (unfold durable; by rewrite Hn).
  destruct (bootstrap_body_run s1 _ Ht1) as [[-> _]|(s2 & Hb & Ht2 & ->)]; [by left|].
  rewrite Hc1 in Hb. rewrite Hb.
  assert (((commitImmediate ;;! ret (tt, true)) s2).1 = (commitImmediate s2).1) as ->.
  { unfold bind. by destruct (commitImmediate s2) as [s3 [[]|e]]. }
  destruct (commitImmediate_durable s2) as [-> | ->]; [left|by right].
  unfold durable. by rewrite Ht2.
Qed.

Lemma bootstrapSchema_ok s s' :
  bootstrapSchema s = (s', inl tt) →
  db_txn s' = None ∧ bootstrap_file (durable s) = inl (durable s').
Proof.
  change bootstrapSchema with (immediate bootstrap_body).
  intros (s1 & s2 & c & (Hn & Hc1 & Ht1 & Ho1) & Hb & ->)%immediate_ok.
  destruct (bootstrap_body_run s1 _ Ht1) as [[_ [e He]]|(s3 & Hf & Ht3 & Heq)];
    [by rewrite Hb in He|].
  rewrite Hb in Heq. symmetry in Heq. bind_step Heq. destruct v.
  apply commitImmediate_ok in Hrun as (_ & Hc4 & Ht4 & Ho4). injection Heq as -> <-.
  rewrite finishImmediate_closed by done. split; [done|].
  unfold durable. rewrite Hn, Ht4. cbn. by rewrite <- Hc1, Hc4.
Qed.

(** ** init *)

Lemma inspects_keeps {A} (m : FileDB A) p s : inspects m p → same_db s (m s).1.
Proof. intros Hm. apply Hm. Qed.

(** Step over a part that only reads. *)
Lemma inspects_step {A B} (m : FileDB A) p (k : A → FileDB B) s :
  inspects m p →
  (same_db s (bind m k s).1 ∧ ∃ e, (bind m k s).2 = inr e) ∨
  ∃ s1 a, same_db s s1 ∧ p (db_cur s) = Some a ∧ bind m k s = k a s1.
Proof.
  intros Hm. destruct (Hm s) as (Hs & H1 & _). unfold bind.
  destruct (m s) as [s1 [a|e]]; cbn [fst snd] in *; [right|left; eauto].
  exists s1, a. auto.
Qed.

Ltac inspect_step lem s1 v Hs Hp :=
  lazymatch goal with
  | |- context [bind ?m ?k ?s] =>
      destruct (inspects_step m _ k s lem) as [[? ?]|(s1 & v & Hs & Hp & ->)]
  end.

(** The run of [init] up to the decision on the version. *)
Lemma schema_init_run s :
  (same_db s (schema_init root order s).1 ∧ ∃ e, (schema_init root order s).2 = inr e) ∨
  ∃ s1, same_db s s1 ∧
    ((f_version (db_cur s) = spoolSchemaVersion ∧
      schema_init root order s = validateCurrentSchema root order s1) ∨
     (f_version (db_cur s) = 0 ∧
      ¬ has_records (db_cur s) ∧
      schema_init root order s = bootstrapSchema s1)).
Proof.
  unfold schema_init.
  inspect_step (inspects_pragmas pragmas) s1 u Hs1 Hp; [by left|].
  inspect_step inspects_userVersion s2 v Hs2 Hv; [left; split; [by etrans|done]|].
  injection Hv as <-.
  assert (H12 : same_db s s2) by by etrans. assert (Hc : db_cur s1 = db_cur s) by apply Hs1.
  rewrite Hc. destruct (Z.eqb_spec (f_version (db_cur s)) 0) as [Hv|Hv].
  - inspect_step (inspects_tableExists recordsTableName) s3 b Hs3 Hb;
      [left; split; [by etrans|done]|].
    injection Hb as <-.
    assert (Hc2 : db_cur s2 = db_cur s) by apply H12. rewrite Hc2.
    destruct (Nat.eqb_spec (length (select_object TypeTable recordsTableName (db_cur s))) 1).
    + left. cbn. split; [by etrans|by eexists].
    + right. exists s3. split; [by etrans|]. by right.
  - destruct (Z.eqb_spec (f_version (db_cur s)) spoolSchemaVersion).
    + right. exists s2. split; [done|]. by left.
    + left. cbn. split; [done|by eexists].
Qed.

(** Opening is atomic: whatever call fails, the file is the old one or has the
    whole schema. *)
Lemma schema_init_atomic s :
  db_txn s = None → opened (durable s) (durable (schema_init root order s).1).
Proof.
  intros Hn. destruct (schema_init_run s) as [[Hs _]|(s1 & Hs & [[_ ->]|(Hv & Hr & ->)])].
  - left. by apply same_durable.
  - left. rewrite <- (same_durable _ _ Hs). apply same_durable, inspects_validate.
  - rewrite <- (same_durable _ _ Hs).
    destruct (bootstrapSchema_atomic s1) as [->|Hb]; [by left|]. right.
    rewrite (same_durable _ _ Hs) in Hb |- *. by rewrite durable_idle in Hb |- *.
Qed.

(** A success: the schema is version 1 and was there, or the schema statements
    have been run on a file of version 0 without a [records] table. *)
Lemma schema_init_accepts s s' :
  schema_init root order s = (s', inl tt) → db_txn s = None →
  db_txn s' = None ∧ accepted (durable s) (durable s').
Proof.
  intros Hi Hn. pose proof (durable_idle s Hn) as Hd.
  destruct (schema_init_run s) as [[_ [e He]]|(s1 & Hs & [[Hv Heq]|(Hv & Hr & Heq)])];
    [by rewrite Hi in He|..]; rewrite Hi in Heq; symmetry in Heq; rewrite <- Hd in Hv.
  - destruct (inspects_validate s1) as (Hs2 & Hok & _). rewrite Heq in Hs2, Hok.
    cbn [fst snd] in *. specialize (Hok tt eq_refl).
    destruct (schema_v1b (db_cur s1)) eqn:Hb; [|done]. apply schema_v1b_spec in Hb.
    assert (same_db s s') as Hss by by etrans.
    split; [by destruct Hss as (_ & -> & _)|]. left. rewrite (same_durable _ _ Hss).
    destruct Hs as (Hc & _). by rewrite Hc, <- Hd in Hb.
  - apply bootstrapSchema_ok in Heq as [Hn' Hb]. split; [done|]. right.
    rewrite (same_durable _ _ Hs) in Hb. by rewrite <- Hd in Hr.
Qed.

(** On a file that does not use the store's names, too. *)
Lemma accepted_v1 f f' :
  accepted f f' → (f_version f = 0 → unclaimed f) →
  f_version f' = spoolSchemaVersion ∧ schema_v1 f' ∧
  f' = if f_version f =? 0 then bootstrapped f else f.
Proof.
  intros [(Hv & Hs & ->)|(Hv & _ & Hb)] Hu; rewrite Hv; [done|]. specialize (Hu Hv).
  rewrite bootstrap_unclaimed in Hb by done. injection Hb as <-.
  split; [done|]. split; [by apply bootstrapped_v1|done].
Qed.

(** A file of version 1 is opened, unchanged, when no driver call fails. *)
Lemma schema_init_v1 s :
  calm → db_txn s = None → f_version (durable s) = spoolSchemaVersion → schema_v1 (durable s) →
  (schema_init root order s).2 = inl tt ∧ durable (schema_init root order s).1 = durable s.
Proof.
  intros Hcalm Hn Hv Hok. split.
  2:{ destruct (schema_init_atomic s Hn) as [->|[Hv0 _]]; [done|]. by rewrite Hv in Hv0. }
  pose proof (durable_idle s Hn) as Hd. rewrite Hd in Hv, Hok. unfold schema_init. unfold bind at 1.
  destruct (inspects_pragmas pragmas s) as (Hs1 & _ & H1). specialize (H1 Hcalm tt eq_refl).
  unfold applyPragmas. destruct (apply_pragmas pragmas s) as [s1 r1]. cbn in Hs1, H1. subst r1.
  unfold bind at 1. destruct (inspects_userVersion s1) as (Hs2 & _ & H2).
  specialize (H2 Hcalm _ eq_refl). destruct (userVersion s1) as [s2 r2]. cbn in Hs2, H2. subst r2.
  assert (Hs : same_db s s2) by by etrans. destruct Hs1 as (Hc1 & _). rewrite Hc1, Hv. cbn [Z.eqb].
  change (spoolSchemaVersion =? 0) with false. change (spoolSchemaVersion =? 1) with true.
  rewrite Z.eqb_refl. destruct (inspects_validate s2) as (Hs3 & _ & H3).
  pose proof Hs as (Hc & _). rewrite Hc in H3. apply schema_v1b_spec in Hok. rewrite Hok in H3.
  by rewrite (H3 Hcalm tt eq_refl).
Qed.
End schema.

Section theorems.
Context `{U : UnicodeTables}.

(** C15. The validation that runs against the database accepts exactly the files
    that have version 1 of the schema: one table [records] with the fourteen
    columns in order and the constraints in its text, and both indexes.  It
    changes nothing, what it accepts has the schema whatever order the indexes
    are looked up in, and it accepts every such file unless a driver call
    fails. *)
Theorem validateCurrentSchema_equiv {Env : RecordEnv} (root : string)
    (order : list (string * string) → list (string * string)) (s : database dbfile) :
  (∀ l, order l ≡ₚ l) →
  same_db s (validateCurrentSchema root order s).1 ∧
  ((validateCurrentSchema root order s).2 = inl tt → schema_v1 (db_cur s)) ∧
  (calm → schema_v1 (db_cur s) → (validateCurrentSchema root order s).2 = inl tt).
Proof.
  intros Hp. destruct (inspects_validate root order s) as (Hs & H1 & H2).
  split; [exact Hs|]. rewrite <- (schema_v1b_spec order Hp (db_cur s)). split.
  - intros Hr. specialize (H1 tt Hr). by destruct (schema_v1b order (db_cur s)).
  - intros Hc Hb. apply (H2 Hc). by rewrite Hb.
Qed.

(** C16. A database opened once opens again: after [init] has succeeded on a file,
    new or in use, every later [init] on that file succeeds without changing it,
    unless a driver call fails, and in any case leaves it as it is. *)
Theorem schema_init_restart {Env Env' : RecordEnv} (root root' : string)
    (order order' : list (string * string) → list (string * string))
    (s s' t : database dbfile) :
  (∀ l, order l ≡ₚ l) → (∀ l, order' l ≡ₚ l) →
  schema_init (Env := Env) root order s = (s', inl tt) → db_txn s = None →
  (f_version (durable s) = 0 → unclaimed (durable s)) →
  db_txn t = None → durable t = durable s' →
  durable (schema_init (Env := Env') root' order' t).1 = durable s' ∧
  (calm (Env := Env') → (schema_init (Env := Env') root' order' t).2 = inl tt).
Proof.
  intros Hp Hp' Hi Hn Hu Ht Hd.
  destruct (schema_init_accepts root order Hp s s' Hi Hn) as (_ & Ha).
  destruct (accepted_v1 _ _ Ha Hu) as (Hv & Hok & _).
  rewrite <- Hd in Hv, Hok. split.
  - rewrite <- Hd. destruct (schema_init_atomic root' order' t Ht) as [->|[Hv0 _]]; [done|].
    by rewrite Hv in Hv0.
  - intros Hc. by apply schema_init_v1.
Qed.
End theorems.
