(* ===== verification/RecordsSpec.v ===== *)
(** * The record store's operations, specified

    Claiming and recovery on metadata, and the codec between records and
    rows. *)
From Stdlib Require Import Ascii.
From S2P Require Import Prelude.
From S2P Require Import GoStrings.
From S2P Require Import GoTime.
From S2P Require Import GoErrors.
From S2P Require Import Email.
From S2P Require Import SpoolCommon.
From S2P Require Import Records.
From S2P Require Import RecordsProps.
#[local] Open Scope Z_scope.
#[local] Open Scope relay_scope.

Section claim.
Context `{U : UnicodeTables} `{Env : RecordEnv}.

Lemma now_ok (s s' : dbstate) t :
  now s = (s', inl t) → same_db s s' ∧ t = clock (db_ticks s).
Proof. by intros [= <- <-]. Qed.

Lemma queryOne_ok q s s' o :
  queryOneMetadata q s = (s', inl o) →
  same_db s s' ∧
  match o with
  | None => q (db_cur s) = []
  | Some m => ∃ id r rest, q (db_cur s) = (id, r) :: rest ∧ scanMetadata id r = inl m
  end.
Proof.
  unfold queryOneMetadata. intros Hq.
  bind_step Hq. destruct v. apply wrapped_ok, drv_ok in Hrun as (Hc1 & Ht1 & Ho1).
  bind_step Hq. destruct v. apply wrapped_ok, drv_ok in Hrun as (Hc2 & Ht2 & Ho2).
  bind_step Hq. injection Hrun as <- <-.
  assert (Hsame : same_db s s1) by (repeat split; congruence).
  rewrite <- Hc1, <- Hc2. destruct (q (db_cur s1)) as [|[id r] rest].
  - injection Hq as <- <-. done.
  - unfold bind, lift in Hq. destruct (scanMetadata id r) as [m|] eqn:Hm; [|done].
    injection Hq as <- <-. split; [done|]. eauto.
Qed.

Lemma scanMetadata_id id r m :
  scanMetadata id r = inl m → m_ID m = id ∧ m_State m = r_state r ∧ canonical_id id.
Proof.
  unfold scanMetadata. destruct (validateCanonicalRecordID id) as [[]|] eqn:Hv; [|done].
  apply validate_canonical in Hv. intros Hs.
  repeat (match type of Hs with (if ?b then _ else _) = _ => destruct b; [done|] end).
  destruct (scanLastError id r); [|done]. by injection Hs as <-.
Qed.

(** The metadata a claim hands out: the scanned row, now [working]. *)
Definition claimed (m : recordMetadata) (updatedAt : time) : recordMetadata :=
  MkMeta (m_ID m) StateWorking (m_Attempt m) (m_NextAttemptAt m) (m_OperationID m)
    (m_OperationLocation m) (m_ProviderMessageID m) (m_FirstSubmittedAt m)
    (m_LastError m) (m_CreatedAt m) updatedAt.

(** What a successful claim has done. *)
Definition claim_post (t : time) (s s' : dbstate) (o : option recordMetadata) : Prop :=
  match o with
  | None =>
      durable s' = durable s ∧
      ∀ id r, durable s !! id = Some r → ¬ due StateQueued (timeToMillis t) (id, r)
  | Some m =>
      ∃ r m0 k, first_ready StateQueued (timeToMillis t) (durable s) (m_ID m) r ∧
        scanMetadata (m_ID m) r = inl m0 ∧ m = claimed m0 (clock k) ∧
        durable s' = <[m_ID m := set_claimed (timeToMillis (clock k)) r]> (durable s) ∧
        db_txn s' = None
  end.

Lemma claimReadyMetadata_run t s s' o :
  claimReadyMetadata t s = (s', inl o) → claim_post t s s' o.
Proof.
  unfold claim_post. intros Hrun. destruct (immediate_ok _ _ _ _ Hrun)
    as (s1 & s2 & c & (Hn & Hc1 & Ht1 & Ho1) & Hb & ->).
  assert (Hd : durable s = db_cur s) by (unfold durable; by rewrite Hn).
  bind_inv Hb as om s3 Hq. apply queryOne_ok in Hq as [(Hc3 & Ht3 & Ho3) Hq].
  rewrite Hc1, <- Hd in Hq. destruct om as [m|].
  2:{ injection Hb as -> <- <-. split; [|by apply select_ready_nil].
      pose proof (finishImmediate_frame false s2) as Hf. unfold same_durable_rel in Hf.
      rewrite Hf. unfold durable at 1. by rewrite Ht3, Ht1, Hd. }
  destruct Hq as (id & r & rest & Hsel & Hscan).
  destruct (scanMetadata_id _ _ _ Hscan) as (Hid & Hst & Hcan). subst id.
  bind_inv Hb as u s4 Hnow. apply now_ok in Hnow as [(Hc4 & Ht4 & Ho4) ->]. cbn in Hb.
  bind_inv Hb as rows s5 Hu. apply wrapped_ok, exec_UPDATE_ok in Hu as (Ht5 & Ho5 & Hu).
  bind_inv Hb as [] s6 Hr. apply wrapped_ok, drv_ok in Hr as (Hc6 & Ht6 & Ho6).
  destruct Hu as [(-> & _)|(-> & r' & Hl & Hqd & Hck & Hcur)]; [done|]. cbn in Hb.
  bind_inv Hb as [] s7 Hcm. apply commitImmediate_ok in Hcm as (_ & Hc7 & Ht7 & Ho7).
  injection Hb as -> <- <-. rewrite finishImmediate_closed by done. cbn.
  pose proof (select_ready_head _ _ _ _ _ _ Hsel) as Hfirst.
  assert (r' = r) as ->.
  { destruct Hfirst as [Hfl _]. rewrite Hc4, Hc3, Hc1, <- Hd in Hl. congruence. }
  exists r, m, (db_ticks s3). split_and!; [done|done|done| |done].
  unfold durable at 1. rewrite Ht7. cbn.
  by rewrite Hc7, Hc6, Hcur, Hc4, Hc3, Hc1, Hd.
Qed.

(** A claim that returns a record returns the first due queued row in scheduling
    order (next attempt, creation, identifier), and has committed exactly one
    change: that row is now [working]. A claim that returns nothing has
    changed nothing, and no queued row is due. *)
Theorem claimReadyMetadata_ok (t : time) (s s' : dbstate) (o : option recordMetadata) :
  claimReadyMetadata t s = (s', inl o) →
  match o with
  | None =>
      durable s' = durable s ∧
      ∀ id r, durable s !! id = Some r → ¬ due StateQueued (timeToMillis t) (id, r)
  | Some m =>
      ∃ r m0 k, first_ready StateQueued (timeToMillis t) (durable s) (m_ID m) r ∧
        scanMetadata (m_ID m) r = inl m0 ∧ m = claimed m0 (clock k) ∧
        durable s' = <[m_ID m := set_claimed (timeToMillis (clock k)) r]> (durable s) ∧
        db_txn s' = None
  end.
Proof. apply claimReadyMetadata_run. Qed.

Lemma nextSubmittedReady_ok t s s' o :
  nextSubmittedReady t s = (s', inl o) →
  same_db s s' ∧
  match o with
  | None => ∀ id r, db_cur s !! id = Some r → ¬ due StateSubmitted (timeToMillis t) (id, r)
  | Some rec => ∃ id r m, first_ready StateSubmitted (timeToMillis t) (db_cur s) id r ∧
                  scanMetadata id r = inl m ∧ rec = toRecord m
  end.
Proof.
  unfold nextSubmittedReady. intros Hq. bind_inv Hq as om s1 Hrun.
  apply queryOne_ok in Hrun as [Hs Hom]. injection Hq as <- <-. split; [done|].
  destruct om as [m|]; cbn.
  - destruct Hom as (id & r & rest & Hsel & Hscan). exists id, r, m.
    split; [by eapply select_ready_head|done].
  - by apply select_ready_nil.
Qed.
End claim.

(** ** The row codec *)

Section codec.
Context `{U : UnicodeTables}.

(** The records the store is given: what [Enqueue] and the mark operations
    build. *)
Record wf_record (rec : SpoolRecord) : Prop := {
  wf_id : canonical_id (rec_ID rec);
  wf_state : isValidState (rec_State rec) = true;
  wf_attempt : 0 <= rec_Attempt rec;
  wf_next : ms_range (rec_NextAttemptAt rec);
  wf_created : ms_range (rec_CreatedAt rec);
  wf_updated : ms_range (rec_UpdatedAt rec);
  wf_order : rec_CreatedAt rec / Millisecond <= rec_UpdatedAt rec / Millisecond;
  wf_first : rec_FirstSubmittedAt rec = zeroTime ∨ ms_range (rec_FirstSubmittedAt rec);
  wf_lasterr : ∀ e, rec_LastError rec = Some e → ms_range (le_Timestamp e);
}.

(** What is read back: the same record, its texts trimmed and its times cut to
    the millisecond. *)
Definition metaOf (rec : SpoolRecord) : recordMetadata :=
  MkMeta (rec_ID rec) (rec_State rec) (rec_Attempt rec) (trunc_ms (rec_NextAttemptAt rec))
    (TrimSpace (rec_OperationID rec)) (TrimSpace (rec_OperationLocation rec))
    (TrimSpace (rec_ProviderMessageID rec))
    (if IsZero (rec_FirstSubmittedAt rec) then zeroTime else trunc_ms (rec_FirstSubmittedAt rec))
    ((λ e, MkLastError (TrimSpace (le_Message e)) (TrimSpace (le_Provider e)) (le_Temporary e)
             (trunc_ms (le_Timestamp e))) <$> rec_LastError rec)
    (trunc_ms (rec_CreatedAt rec)) (trunc_ms (rec_UpdatedAt rec)).

Lemma default_nullIfEmpty v : TrimSpace (default "" (nullIfEmpty v)) = TrimSpace v.
Proof.
  unfold nullIfEmpty. case_decide as Hv; cbn.
  - rewrite Hv. reflexivity.
  - apply TrimSpace_idem.
Qed.

Lemma timeToMillis_range t : ms_range t → timeToMillis t = t / Millisecond.
Proof.
  intros Ht. unfold timeToMillis. rewrite ms_range_not_zero by done. by apply UnixMilli_range.
Qed.

Lemma nullIfZeroTime_range t : ms_range t → nullIfZeroTime t = Some (t / Millisecond).
Proof.
  intros Ht. unfold nullIfZeroTime. rewrite ms_range_not_zero by done. by rewrite UnixMilli_range.
Qed.

Lemma millis_pos t : ms_range t → (t / Millisecond <=? 0) = false.
Proof. intros [? _]. apply Z.leb_gt. lia. Qed.

Lemma scanLastError_rowOf rec :
  wf_record rec → scanLastError (rec_ID rec) (rowOf rec) = inl (m_LastError (metaOf rec)).
Proof.
  intros Hw. unfold scanLastError. cbn.
  destruct (rec_LastError rec) as [e|] eqn:He; cbn; [|done].
  pose proof (wf_lasterr _ Hw e He) as Hts.
  rewrite (nullIfZeroTime_range _ Hts), !andb_false_r. cbn.
  rewrite (millis_pos _ Hts), !default_nullIfEmpty.
  by destruct (le_Temporary e).
Qed.

(** Storing a well-formed record and reading the row back yields the record, with
    texts trimmed and times cut to the millisecond; nothing else is lost, the
    last error included. *)
Lemma scan_rowOf (rec : SpoolRecord) :
  wf_record rec → scanMetadata (rec_ID rec) (rowOf rec) = inl (metaOf rec).
Proof.
  intros Hw. unfold scanMetadata.
  rewrite (proj2 (validate_canonical (rec_ID rec)) (wf_id _ Hw)).
  change (r_state (rowOf rec)) with (rec_State rec).
  change (r_attempt (rowOf rec)) with (rec_Attempt rec).
  rewrite (wf_state _ Hw). cbn [negb].
  rewrite (proj2 (Z.ltb_ge (rec_Attempt rec) 0) (wf_attempt _ Hw)).
  rewrite (scanLastError_rowOf _ Hw). unfold rowOf, metaOf. cbn.
  rewrite !timeToMillis_range by (apply Hw).
  rewrite !millis_pos by (apply Hw). rewrite !default_nullIfEmpty.
  assert (Hb : time_Before (millisToTime (rec_UpdatedAt rec / Millisecond))
                 (millisToTime (rec_CreatedAt rec / Millisecond)) = false).
  { apply Z.ltb_ge. unfold millisToTime, ofUnixMilli, Millisecond.
    pose proof (wf_order _ Hw). unfold Millisecond in *. lia. }
  destruct (wf_first _ Hw) as [Hz|Hr].
  - rewrite Hz. change (nullIfZeroTime zeroTime) with (@None Z). cbn. by rewrite Hb.
  - rewrite (nullIfZeroTime_range _ Hr). cbn.
    rewrite (ms_range_not_zero _ Hr), Hb.
    pose proof (millis_pos _ Hr) as Hp. apply Z.leb_gt in Hp. apply Z.ltb_lt in Hp.
    by rewrite Hp.
Qed.

(** *** The schema and the scanner agree *)

Lemma last_error_cols r :
  ((bool_decide (r_last_error_message r = None) && bool_decide (r_last_error_provider r = None)
    && bool_decide (r_last_error_temporary r = None)
    && bool_decide (r_last_error_timestamp_ms r = None))
   || bool_decide (is_Some (r_last_error_timestamp_ms r))) = true →
  null_or (λ z, (z =? 0) || (z =? 1)) (r_last_error_temporary r) = true →
  null_or (λ z, 0 <? z) (r_last_error_timestamp_ms r) = true →
  ∀ id, ∃ o, scanLastError id r = inl o.
Proof.
  intros Hor Htmp Hts id. unfold scanLastError. rewrite Htmp. cbn [negb].
  destruct (r_last_error_timestamp_ms r) as [ts|]; cbn in *.
  - rewrite !andb_false_r. apply Z.ltb_lt in Hts.
    rewrite (proj2 (Z.leb_gt ts 0) Hts). eauto.
  - destruct (r_last_error_message r), (r_last_error_provider r), (r_last_error_temporary r);
      cbn in *; try discriminate Hor; eauto.
Qed.

(** Every row the schema's [CHECK] constraints admit under a canonical
    identifier passes the store's own validation on the way out. *)
Lemma row_check_scans id r :
  canonical_id id → row_check id r = true → ∃ m, scanMetadata id r = inl m.
Proof.
  intros Hid Hck. unfold row_check in Hck. rewrite !andb_true_iff in Hck.
  destruct Hck as [[[[[[[[[[_ _] Hst] Hat] Hnx] Hfs] Htmp] Hts] Hcr] [Hup Hle]] Hor].
  unfold scanMetadata. rewrite (proj2 (validate_canonical id) Hid).
  change (isValidState (r_state r)) with
    (existsb (λ s, bool_decide (r_state r = s))
       ["queued"; "working"; "submitted"; "succeeded"; "dead-letter"]).
  rewrite Hst. cbn [negb].
  apply Z.leb_le in Hat, Hle. apply Z.ltb_lt in Hnx, Hcr, Hup.
  rewrite (proj2 (Z.ltb_ge _ _) Hat), (proj2 (Z.leb_gt _ _) Hnx),
    (proj2 (Z.leb_gt _ _) Hcr), (proj2 (Z.leb_gt _ _) Hup), Hfs. cbn [negb].
  assert (time_Before (millisToTime (r_updated_at_ms r)) (millisToTime (r_created_at_ms r))
          = false) as ->.
  { apply Z.ltb_ge. unfold millisToTime, ofUnixMilli, Millisecond. lia. }
  destruct (last_error_cols r Hor Htmp Hts id) as [o ->]. eauto.
Qed.

Lemma canonical_sql id : canonical_id id → sql_nonempty id = true ∧ sql_trimmed id = true.
Proof.
  intros Hc. pose proof (canonical_id_graphic _ Hc) as Hg. destruct Hc as [Hlen _].
  rewrite forallb_forall in Hg.
  assert (Hne : ∀ c, c ∈ bs id → c ≠ blank ∧ Ascii.eqb c (chr 0) = false).
  { intros c Hc%list_elem_of_In%Hg. by destruct c as [[] [] [] [] [] [] [] []]. }
  unfold sql_nonempty, sql_trimmed. destruct (bs id) as [|c l] eqn:E; [done|]. split.
  - destruct (Hne c) as [_ ->]; [set_solver|done].
  - apply andb_true_iff. split; apply bool_decide_eq_true; cbn.
    + intros [= ->]. destruct (Hne blank) as [? _]; [set_solver|done].
    + intros Hl. change (last (c :: l) = Some blank) in Hl.
      apply last_Some_elem_of in Hl. by destruct (Hne blank Hl) as [? _].
Qed.

(** A well-formed record's row satisfies the schema. *)
Lemma wf_record_row_check rec : wf_record rec → row_check (rec_ID rec) (rowOf rec) = true.
Proof.
  intros Hw. destruct (canonical_sql _ (wf_id _ Hw)) as [Hn Ht].
  unfold row_check, rowOf. rewrite Hn, Ht. cbn [r_state r_attempt r_next_attempt_at_ms
    r_first_submitted_at_ms r_last_error_temporary r_last_error_timestamp_ms r_created_at_ms
    r_updated_at_ms r_last_error_message r_last_error_provider andb].
  rewrite !timeToMillis_range by apply Hw.
  change (existsb (λ s, bool_decide (rec_State rec = s))
            ["queued"; "working"; "submitted"; "succeeded"; "dead-letter"])
    with (isValidState (rec_State rec)).
  rewrite (wf_state _ Hw). pose proof (wf_attempt _ Hw). pose proof (wf_order _ Hw).
  pose proof (wf_next _ Hw) as [? _]. pose proof (wf_created _ Hw) as [? _].
  pose proof (wf_updated _ Hw) as [? _].
  rewrite (proj2 (Z.leb_le _ _)), !(proj2 (Z.ltb_lt _ _)), (proj2 (Z.leb_le _ _)) by lia.
  assert (null_or (λ z, 0 <? z) (nullIfZeroTime (rec_FirstSubmittedAt rec)) = true) as ->.
  { destruct (wf_first _ Hw) as [-> |Hr]; [done|].
    rewrite nullIfZeroTime_range by done. apply Z.ltb_lt, Hr. }
  destruct (rec_LastError rec) as [e|] eqn:He; cbn; [|done].
  pose proof (wf_lasterr _ Hw e He) as Hts. rewrite (nullIfZeroTime_range _ Hts). cbn.
  destruct Hts as [Hts _]. rewrite (proj2 (Z.ltb_lt _ _)) by lia.
  rewrite !andb_false_r. by destruct (le_Temporary e).
Qed.
End codec.

(** ** Startup recovery of the metadata *)

Section recover.
Context `{U : UnicodeTables} `{Env : RecordEnv}.

Lemma NoDup_select_state st t : NoDup (select_state st t).*1.
Proof.
  unfold select_state. rewrite merge_sort_Permutation.
  apply (sublist_NoDup _ (map_to_list t).*1); [apply NoDup_fst_map_to_list|].
  apply fmap_sublist, sublist_filter.
Qed.

Definition scans_to (x : string * row) (m : recordMetadata) : Prop :=
  scanMetadata x.1 x.2 = inl m.

Lemma scan_rows_ok rows s s' ms :
  scan_rows rows s = (s', inl ms) → same_db s s' ∧ Forall2 scans_to rows ms.
Proof.
  revert s s' ms. induction rows as [|[id r] rows IH]; intros s s' ms; cbn; intros Hr;
    bind_inv Hr as [] s1 Hd; apply wrapped_ok, drv_ok in Hd.
  - injection Hr as <- <-. split; [done|constructor].
  - bind_inv Hr as m s2 Hm. injection Hm as <- Hm.
    bind_inv Hr as out s3 Ho. apply IH in Ho as [Hs Hf]. injection Hr as <- <-.
    split; [by etrans|by constructor].
Qed.

Lemma queryAll_ok q s s' ms :
  queryAllMetadata q s = (s', inl ms) → same_db s s' ∧ Forall2 scans_to (q (db_cur s)) ms.
Proof.
  unfold queryAllMetadata. intros Hr. bind_inv Hr as [] s1 Hd.
  apply wrapped_ok, drv_ok in Hd. bind_inv Hr as x s2 Hg. injection Hg as <- <-.
  destruct Hd as (Hc & Ht & Ho). apply scan_rows_ok in Hr as [Hs Hf]. rewrite Hc in Hf.
  split; [|done]. destruct Hs as (?&?&?). repeat split; congruence.
Qed.

Lemma scan_ids_ok ids s s' out :
  scan_ids ids s = (s', inl out) → same_db s s' ∧ out = list_to_set ids.
Proof.
  revert s s' out. induction ids as [|id ids IH]; intros s s' out; cbn; intros Hr;
    bind_inv Hr as [] s1 Hd; apply wrapped_ok, drv_ok in Hd.
  - by injection Hr as <- <-.
  - destruct (validateCanonicalRecordID id); [|done].
    bind_inv Hr as o s2 Ho. apply IH in Ho as [Hs ->]. injection Hr as <- <-.
    split; [by etrans|done].
Qed.

Lemma queryAllIDs_ok s s' out :
  queryAllIDs s = (s', inl out) → same_db s s' ∧ out = dom (db_cur s).
Proof.
  unfold queryAllIDs. intros Hr. bind_inv Hr as [] s1 Hd.
  apply wrapped_ok, drv_ok in Hd. bind_inv Hr as x s2 Hg. injection Hg as <- <-.
  apply scan_ids_ok in Hr as [Hs ->]. destruct Hd as (Hc & Ht & Ho).
  split; [destruct Hs as (?&?&?); repeat split; congruence|].
  rewrite Hc. apply set_eq. intros i.
  rewrite elem_of_list_to_set, list_elem_of_fmap, elem_of_dom. split.
  - intros ([j r] & -> & Hin%elem_of_map_to_list). by exists r.
  - intros [r Hr']. exists (i, r). split; [done|]. by apply elem_of_map_to_list.
Qed.

(** What recovery makes of a record that was left [working]. *)
Definition requeued_meta (t : time) (m : recordMetadata) : Prop :=
  m_State m = StateQueued ∧ m_NextAttemptAt m = t ∧ m_OperationID m = "" ∧
  m_OperationLocation m = "" ∧ m_ProviderMessageID m = "" ∧ m_FirstSubmittedAt m = zeroTime.

Definition requeued_row (t : time) (r r' : row) : Prop :=
  ∃ k, r' = set_requeued (timeToMillis t) (timeToMillis (clock k)) r.

Lemma requeue_working_ok t ms s s' out :
  NoDup (m_ID <$> ms) →
  requeue_working t ms s = (s', inl out) →
  db_txn s' = db_txn s ∧ db_conn s' = db_conn s ∧
  m_ID <$> out = m_ID <$> ms ∧ Forall (requeued_meta t) out ∧
  ∀ id, match db_cur s !! id with
        | Some r =>
            if decide (id ∈ m_ID <$> ms ∧ r_state r = StateWorking)
            then ∃ r', db_cur s' !! id = Some r' ∧ requeued_row t r r'
            else db_cur s' !! id = Some r
        | None => db_cur s' !! id = None
        end.
Proof.
  revert s s' out. induction ms as [|m ms IH]; intros s s' out Hnd; cbn [requeue_working fmap list_fmap] in *; intros Hr.
  - injection Hr as <- <-. split_and!; [done|done|done|constructor|].
    intros id. destruct (db_cur s !! id); [|done].
    rewrite decide_False; [done|]. intros [Hin _]. set_solver.
  - apply NoDup_cons in Hnd as [Hm Hnd].
    bind_inv Hr as u s1 Hn. apply now_ok in Hn as [(Hc1 & Ht1 & Ho1) ->].
    bind_inv Hr as n s2 Hu. apply wrapped_ok, exec_UPDATE_ok in Hu as (Ht2 & Ho2 & Hu).
    bind_inv Hr as o s3 Hrest. injection Hr as <- <-.
    apply IH in Hrest as (Ht3 & Ho3 & Hids & Hall & Hcur); [|done].
    split; [congruence|]. split; [congruence|]. cbn. split; [by f_equal|].
    split; [constructor; [done|done]|].
    intros id. specialize (Hcur id). rewrite <- Hc1.
    destruct (decide (id = m_ID m)) as [-> |Hne].
    + destruct Hu as [(-> & Hc2 & Hno)|(-> & r & Hl & Hst & _ & Hc2)]; rewrite Hc2 in Hcur.
      * destruct (db_cur s1 !! m_ID m) as [r|] eqn:Hl; [|done].
        rewrite decide_False in Hcur by tauto. rewrite decide_False; [done|].
        intros [_ Hst]. apply Hno. eauto.
      * rewrite lookup_insert_eq in Hcur. rewrite Hl.
        rewrite decide_False in Hcur by tauto. rewrite decide_True by set_solver.
        eexists. split; [exact Hcur|]. by eexists.
    + assert (Hc2 : db_cur s2 !! id = db_cur s1 !! id).
      { destruct Hu as [(_ & -> & _)|(_ & r & _ & _ & _ & ->)]; [done|].
        by rewrite lookup_insert_ne. }
      rewrite Hc2 in Hcur. destruct (db_cur s1 !! id) as [r|]; [|done].
      destruct (decide (id ∈ m_ID <$> ms ∧ r_state r = StateWorking)) as [[Hi Hw]|Hno].
      * rewrite decide_True; [done|]. split; [set_solver|done].
      * rewrite decide_False; [done|]. set_solver.
Qed.

Lemma scans_to_ids rows ms : Forall2 scans_to rows ms → m_ID <$> ms = rows.*1.
Proof.
  induction 1 as [|[id r] m rows ms Hx _ IH]; [done|]. cbn. f_equal; [|done].
  by apply scanMetadata_id in Hx as [? _].
Qed.

Lemma scans_to_canonical rows ms :
  Forall2 scans_to rows ms → Forall canonical_id (m_ID <$> ms).
Proof.
  induction 1 as [|[id r] m rows ms Hx _ IH]; cbn; constructor; [|done].
  by apply scanMetadata_id in Hx as (-> & _ & ?).
Qed.

(** What a successful recovery has done. *)
Definition recover_post (t : time) (s s' : dbstate) (sn : recordRecoverySnapshot) : Prop :=
  db_txn s' = None ∧
  m_ID <$> sn_requeued sn = (select_state StateWorking (durable s)).*1 ∧
  Forall (requeued_meta t) (sn_requeued sn) ∧
  Forall canonical_id (m_ID <$> sn_requeued sn) ∧
  Forall2 scans_to (select_state StateSubmitted (durable s)) (sn_submitted sn) ∧
  sn_validIDs sn = dom (durable s) ∧
  ∀ id, match durable s !! id with
        | Some r =>
            if decide (r_state r = StateWorking)
            then ∃ r', durable s' !! id = Some r' ∧ requeued_row t r r'
            else durable s' !! id = Some r
        | None => durable s' !! id = None
        end.

Lemma recoverMetadata_run t s s' sn :
  recoverMetadata t s = (s', inl sn) → recover_post t s s' sn.
Proof.
  unfold recover_post. intros (s1 & s2 & c & (Hn & Hc1 & Ht1 & Ho1) & Hb & ->)%immediate_ok.
  assert (Hd : durable s = db_cur s) by (unfold durable; by rewrite Hn).
  bind_inv Hb as wk s3 Hq1. apply queryAll_ok in Hq1 as [(Hc3 & Ht3 & Ho3) Hwk].
  bind_inv Hb as sub s4 Hq2. apply queryAll_ok in Hq2 as [(Hc4 & Ht4 & Ho4) Hsub].
  bind_inv Hb as ids s5 Hq3. apply queryAllIDs_ok in Hq3 as [(Hc5 & Ht5 & Ho5) Hids].
  bind_inv Hb as rq s6 Hrq.
  rewrite Hc1, <- Hd in Hwk. rewrite Hc3, Hc1, <- Hd in Hsub.
  rewrite Hc4, Hc3, Hc1, <- Hd in Hids.
  pose proof (scans_to_ids _ _ Hwk) as Hwids.
  apply requeue_working_ok in Hrq as (Ht6 & Ho6 & Hrids & Hall & Hcur);
    [|rewrite Hwids; apply NoDup_select_state].
  bind_inv Hb as [] s7 Hcm. apply commitImmediate_ok in Hcm as (_ & Hc7 & Ht7 & Ho7).
  injection Hb as -> <- <-. rewrite finishImmediate_closed by done. cbn.
  split; [done|]. split; [congruence|]. split; [done|].
  split; [rewrite Hrids; exact (scans_to_canonical _ _ Hwk)|]. do 2 (split; [done|]).
  intros id. specialize (Hcur id). rewrite Hc5, Hc4, Hc3, Hc1, <- Hd in Hcur.
  assert (Hd7 : durable s2 = db_cur s6) by (unfold durable; by rewrite Ht7).
  rewrite Hd7. destruct (durable s !! id) as [r|] eqn:Hl; [|done].
  destruct (decide (r_state r = StateWorking)) as [Hw|Hw].
  - rewrite decide_True in Hcur; [done|]. split; [|done]. rewrite Hwids.
    apply list_elem_of_fmap. exists (id, r). split; [done|]. by apply elem_select_state.
  - rewrite decide_False in Hcur; [done|]. tauto.
Qed.

(** Startup recovery commits one transaction in which every row left [working]
    becomes [queued], due at the recovery time and without provider metadata,
    and every other row is untouched; it reports exactly the requeued rows and
    the submitted rows, each in creation order, and the set of all record
    identifiers. *)
Theorem recoverMetadata_ok (t : time) (s s' : dbstate) (sn : recordRecoverySnapshot) :
  recoverMetadata t s = (s', inl sn) →
  db_txn s' = None ∧
  m_ID <$> sn_requeued sn = (select_state StateWorking (durable s)).*1 ∧
  Forall (requeued_meta t) (sn_requeued sn) ∧
  Forall canonical_id (m_ID <$> sn_requeued sn) ∧
  Forall2 scans_to (select_state StateSubmitted (durable s)) (sn_submitted sn) ∧
  sn_validIDs sn = dom (durable s) ∧
  ∀ id, match durable s !! id with
        | Some r =>
            if decide (r_state r = StateWorking)
            then ∃ r', durable s' !! id = Some r' ∧ requeued_row t r r'
            else durable s' !! id = Some r
        | None => durable s' !! id = None
        end.
Proof. apply recoverMetadata_run. Qed.
End recover.
