(* ===== verification/RecordsInv.v ===== *)
(** * Invariants of the record store

    [RowSteps T] is the interface between one-row changes and whole-table
    relations: a relation that admits the insertion of a queued row and the
    lifecycle transitions of a row is kept by every operation of the store,
    whatever the driver does.  Two relations implement it: [evolves] (records
    move along the lifecycle and are never deleted) and [stays_ok] (every row
    satisfies the schema under a canonical identifier). *)
From Stdlib Require Import Ascii.
From S2P Require Import Prelude.
From S2P Require Import GoStrings.
From S2P Require Import GoTime.
From S2P Require Import GoErrors.
From S2P Require Import Email.
From S2P Require Import SpoolCommon.
From S2P Require Import Records.
From S2P Require Import RecordsProps.
From S2P Require Import RecordsSpec.
#[local] Open Scope Z_scope.
#[local] Open Scope relay_scope.

Class RowSteps (T : relation (gmap string row)) := {
  rs_preorder :: PreOrder T;
  rs_insert : ∀ t id r,
    canonical_id id → t !! id = None → r_state r = StateQueued → row_check id r = true →
    T t (<[id := r]> t);
  rs_update : ∀ t id r r',
    t !! id = Some r → transition (r_state r) (r_state r') → row_check id r' = true →
    T t (<[id := r']> t);
}.

Section steps.
Context `{U : UnicodeTables} `{Env : RecordEnv}.
Context (T : relation (gmap string row)) `{!RowSteps T}.

Abbreviation Keeps m := (keeps (durable_rel T) m).

#[local] Hint Resolve keeps_drv keeps_now keeps_wrapped keeps_queryOne : goeff.

Lemma insertRecord_keeps rec : rec_State rec = StateQueued → Keeps (insertRecord rec).
Proof.
  intros Hq. apply keeps_insertRecord; [apply _|]. intros t Hc Hn Hck.
  by apply rs_insert.
Qed.

Lemma updateRecord_keeps st upd : transition st (rec_State upd) → Keeps (updateRecord st upd).
Proof.
  intros Ht. apply keeps_updateRecord; [apply _|]. intros t r Hl <- Hck.
  by eapply rs_update.
Qed.

Lemma claimReadyMetadata_keeps t : Keeps (claimReadyMetadata t).
Proof.
  apply keeps_claimReadyMetadata; [apply _|]. intros tb id r ms Hl Hq Hck.
  eapply rs_update; [done| |done]. rewrite Hq. constructor.
Qed.

Lemma recoverMetadata_keeps t : Keeps (recoverMetadata t).
Proof.
  apply keeps_recoverMetadata; [apply _|]. intros tb id r n ms Hl Hq Hck.
  eapply rs_update; [done| |done]. rewrite Hq. constructor.
Qed.

Lemma nextSubmittedReady_keeps t : Keeps (nextSubmittedReady t).
Proof. apply keeps_bind; auto with goeff. Qed.

Lemma scan_counts_keeps gs c : Keeps (scan_counts gs c).
Proof.
  revert c. induction gs as [|[st n] gs IH]; intros c; cbn [scan_counts];
    (apply keeps_bind; [apply _|auto with goeff|intros _]); [auto with goeff|].
  destruct (isValidState st); auto with goeff.
Qed.

Lemma stateCounts_keeps : Keeps stateCounts.
Proof.
  apply keeps_bind; [apply _|auto with goeff|intros _].
  apply keeps_bind; [apply _|auto with goeff|intros s]. apply scan_counts_keeps.
Qed.

(** The update of a mark operation, after its clock readings. *)
Lemma mark_keeps st upd (x : SpoolRecord) :
  transition st (rec_State upd) → Keeps (updateRecord st upd ;;! ret x).
Proof. intros Ht. apply keeps_bind; auto using updateRecord_keeps with goeff. Qed.

Ltac clocks := repeat (apply keeps_bind; [apply _|apply keeps_now; apply _|intros ?]).

Lemma markSubmitted_keeps rec res next : Keeps (markSubmitted rec res next).
Proof.
  unfold markSubmitted. case_decide as Hst; [auto with goeff|].
  clocks. apply mark_keeps. rewrite Hst. constructor.
Qed.

Lemma markRetry_keeps rec next le : Keeps (markRetry rec next le).
Proof.
  unfold markRetry. clocks. case_decide as Hw.
  - apply mark_keeps. rewrite Hw. constructor.
  - case_decide as Hs; [|auto with goeff]. apply mark_keeps. rewrite Hs. constructor.
Qed.

Lemma markSucceeded_keeps rec : Keeps (markSucceeded rec).
Proof.
  unfold markSucceeded. clocks. case_decide as Hw.
  - apply mark_keeps. rewrite Hw. constructor.
  - case_decide as Hs; [|auto with goeff]. apply mark_keeps. rewrite Hs. constructor.
Qed.

Lemma markDeadLetter_keeps rec le : Keeps (markDeadLetter rec le).
Proof.
  unfold markDeadLetter. clocks. case_decide as Hw.
  - apply mark_keeps. rewrite Hw. constructor.
  - case_decide as Hs; [|auto with goeff]. apply mark_keeps. rewrite Hs. constructor.
Qed.

Lemma requeueClaimedRecord_keeps m :
  m_State m = StateWorking → Keeps (requeueClaimedRecord m).
Proof.
  intros Hw. unfold requeueClaimedRecord. clocks. apply keeps_wrapped; [apply _|].
  apply updateRecord_keeps. rewrite Hw. constructor.
Qed.

Lemma deadLetterCorruptRecord_keeps m cause :
  m_State m ∈ [StateQueued; StateWorking; StateSubmitted] →
  Keeps (deadLetterCorruptRecord m cause).
Proof.
  intros Hm. unfold deadLetterCorruptRecord. clocks. apply mark_keeps.
  rewrite !elem_of_cons in Hm.
  destruct Hm as [Hm|[Hm|[Hm|Hm]]]; [..|set_solver]; rewrite Hm; constructor.
Qed.
End steps.

(** ** Records move along the lifecycle *)

Definition row_evolves (o o' : option row) : Prop :=
  match o, o' with
  | Some r, Some r' => rtc transition (r_state r) (r_state r')
  | None, Some r' => rtc transition StateQueued (r_state r')
  | None, None => True
  | Some _, None => False
  end.

(** Rows are never deleted, new rows start [queued], and each row's state moves
    along lifecycle transitions. *)
Definition evolves (t t' : gmap string row) : Prop := ∀ id, row_evolves (t !! id) (t' !! id).

#[export] Instance evolves_preorder : PreOrder evolves.
Proof.
  split.
  - intros t id. destruct (t !! id); cbn; [reflexivity|done].
  - intros t1 t2 t3 H12 H23 id. specialize (H12 id). specialize (H23 id).
    destruct (t1 !! id), (t2 !! id), (t3 !! id); cbn in *; try done; by etrans.
Qed.

Lemma evolves_insert t id r :
  row_evolves (t !! id) (Some r) → evolves t (<[id := r]> t).
Proof.
  intros Hr id'. destruct (decide (id' = id)) as [->|Hne].
  - by rewrite lookup_insert_eq.
  - rewrite lookup_insert_ne by done. destruct (t !! id'); cbn; [reflexivity|done].
Qed.

#[export] Instance evolves_steps : RowSteps evolves.
Proof.
  split; [apply _|..].
  - intros t id r _ Hn Hq _. apply evolves_insert. rewrite Hn. cbn. by rewrite Hq.
  - intros t id r r' Hl Ht _. apply evolves_insert. rewrite Hl. cbn. by apply rtc_once.
Qed.

(** A terminal row stays as terminal as it is. *)
Lemma evolves_terminal t t' id r :
  evolves t t' → t !! id = Some r → terminal (r_state r) →
  ∃ r', t' !! id = Some r' ∧ r_state r' = r_state r.
Proof.
  intros He Hl Ht. specialize (He id). rewrite Hl in He.
  destruct (t' !! id) as [r'|]; cbn in He; [|done].
  exists r'. split; [done|]. by apply rtc_transition_terminal in He.
Qed.

(** ** Rows satisfy the schema *)

Definition table_ok (t : gmap string row) : Prop :=
  map_Forall (λ id r, canonical_id id ∧ row_check id r = true) t.

Definition stays_ok (t t' : gmap string row) : Prop := table_ok t → table_ok t'.

#[export] Instance stays_ok_steps : RowSteps stays_ok.
Proof.
  split.
  - split; [by intros t Hok|]. intros t1 t2 t3 H12 H23 Hok. by apply H23, H12.
  - intros t id r Hc _ _ Hck Hok. by apply map_Forall_insert_2.
  - intros t id r r' Hl _ Hck Hok. apply map_Forall_insert_2; [|done].
    split; [|done]. by destruct (Hok id r Hl).
Qed.

(** In a table that satisfies the schema every row can be read back. *)
Lemma table_ok_scans `{U : UnicodeTables} t id r :
  table_ok t → t !! id = Some r → ∃ m, scanMetadata id r = inl m.
Proof. intros Hok Hl. destruct (Hok id r Hl). by apply row_check_scans. Qed.

(** ** A transaction left open

    [commitImmediate] closes the handle before [finishImmediate] can roll back,
    and a rollback on a closed handle does nothing, so after a [COMMIT] that
    failed without effect only the pool's reset can end the transaction. *)

Section wedged.
Context `{U : UnicodeTables} `{Env : RecordEnv}.
Hypothesis Hreset : drv_resets = false.

(** With a transaction open, [m] fails and leaves it open. *)
Definition rejects {A} (m : DB A) : Prop :=
  ∀ s, is_Some (db_txn s) → (∃ e, snd (m s) = inr e) ∧ db_txn (fst (m s)) = db_txn s.

Lemma rejects_fail {A} e : rejects (fail e : DB A).
Proof. intros s _. split; [by eexists|done]. Qed.

Lemma rejects_bind {A B} (m : DB A) (k : A → DB B) : rejects m → rejects (bind m k).
Proof.
  intros Hm s Hs. destruct (Hm s Hs) as [[e He] Hd]. unfold bind.
  destruct (m s) as [s1 [a|e1]]; [done|]. split; [by eexists|exact Hd].
Qed.

Lemma rejects_wrapped {A} op (m : DB A) : rejects m → rejects (wrapped op m).
Proof.
  intros Hm s Hs. destruct (Hm s Hs) as [[e He] Hd]. unfold wrapped, try.
  destruct (m s) as [s1 [a|e1]]; [done|]. split; [by eexists|exact Hd].
Qed.

Lemma rejects_now {A} (k : time → DB A) : (∀ t, rejects (k t)) → rejects (let! t := now in k t).
Proof. intros Hk s Hs. exact (Hk _ (MkDB (db_cur s) (db_txn s) (db_conn s) (db_calls s) (S (db_ticks s))) Hs). Qed.

Lemma conn_Close_txn (s : dbstate) : db_txn (fst (conn_Close s)) = db_txn s.
Proof. unfold conn_Close. cbn. destruct (db_conn s); [|done]. cbn. by rewrite Hreset. Qed.

Lemma exec_BEGIN_rejects : rejects (conn_Exec stmt_BEGIN_IMMEDIATE).
Proof.
  intros s [t Ht]. destruct (conn_Exec stmt_BEGIN_IMMEDIATE s) as [s' r] eqn:Hr.
  apply conn_Exec_cases in Hr as (s0 & s1 & r1 & (_ & Ht0 & _) & Hr & Hcase).
  unfold stmt_BEGIN_IMMEDIATE, bind, get in Hr. rewrite Ht0, Ht in Hr. injection Hr as <- <-.
  destruct Hcase as [[-> ->]|[[->| ->] [e ->]]]; cbn; eauto.
Qed.

Lemma beginImmediate_rejects : rejects beginImmediate.
Proof.
  intros s Hs. unfold beginImmediate, wrapped, try, db_Conn, bind, drv. cbn.
  destruct (drv_fault (db_calls s)); cbn; [by eauto|].
  set (s0 := set_conn true _). destruct (exec_BEGIN_rejects s0 Hs) as [[e He] Hd].
  destruct (conn_Exec stmt_BEGIN_IMMEDIATE s0) as [s1 [?|e1]]; [done|]. cbn in *.
  split; [by eexists|]. by rewrite conn_Close_txn.
Qed.

Lemma immediate_rejects {A} (body : DB (A * bool)) : rejects (immediate body).
Proof. apply rejects_bind, beginImmediate_rejects. Qed.

Lemma insertRecord_rejects rec : rejects (insertRecord rec).
Proof.
  unfold insertRecord. destruct (validateCanonicalRecordID _);
    [apply immediate_rejects|apply rejects_fail].
Qed.

Lemma updateRecord_rejects st rec : rejects (updateRecord st rec).
Proof.
  unfold updateRecord. destruct (validateCanonicalRecordID _); [|apply rejects_fail].
  destruct (negb _ || negb _); [apply rejects_fail|apply immediate_rejects].
Qed.

(** The clock readings, then the update or a refusal. *)
#[local] Ltac rejects_mark :=
  repeat (apply rejects_now; intros ?); repeat case_decide;
  first [apply rejects_fail|apply rejects_bind, updateRecord_rejects].

Lemma markSubmitted_rejects rec res next : rejects (markSubmitted rec res next).
Proof. unfold markSubmitted. case_decide; [apply rejects_fail|]. rejects_mark. Qed.
Lemma markRetry_rejects rec next le : rejects (markRetry rec next le).
Proof. unfold markRetry. rejects_mark. Qed.
Lemma markSucceeded_rejects rec : rejects (markSucceeded rec).
Proof. unfold markSucceeded. rejects_mark. Qed.
Lemma markDeadLetter_rejects rec le : rejects (markDeadLetter rec le).
Proof. unfold markDeadLetter. rejects_mark. Qed.

Lemma scan_counts_same gs c : keeps same_db (scan_counts gs c).
Proof.
  revert c. induction gs as [|[st n] gs IH]; intros c; cbn [scan_counts];
    (apply keeps_bind; [apply _|auto with goeff|intros _]); [auto with goeff|].
  destruct (isValidState st); auto with goeff.
Qed.

Lemma stateCounts_same : keeps same_db stateCounts.
Proof.
  apply keeps_bind; [apply _|auto with goeff|intros _].
  apply keeps_bind; [apply _|auto with goeff|intros s]. apply scan_counts_same.
Qed.

(** The insert whose [COMMIT] fails without effect: the transaction it began is
    still open when it returns. *)
Lemma insertRecord_commit_fails rec s e :
  canonical_id (rec_ID rec) → db_txn s = None → db_cur s !! rec_ID rec = None →
  row_check (rec_ID rec) (rowOf rec) = true →
  (∀ k, (k < 3)%nat → drv_fault (k + db_calls s) = None) →
  drv_fault (3 + db_calls s) = Some e → drv_lands (3 + db_calls s) = false →
  ∃ s', insertRecord rec s = (s', inr (wrapStoreError "commit sqlite transaction" e)) ∧
        db_txn s' = Some (durable s).
Proof.
  intros Hid Hn Hl Hck Hf He Hlands. cbn in He, Hlands.
  pose proof (Hf 0%nat ltac:(lia)) as H0. pose proof (Hf 1%nat ltac:(lia)) as H1.
  pose proof (Hf 2%nat ltac:(lia)) as H2. cbn in H0, H1, H2.
  unfold insertRecord. apply validate_canonical in Hid. rewrite Hid.
  unfold immediate, beginImmediate, db_Conn, commitImmediate, finishImmediate, conn_Exec, conn_Close.
  unfold wrapped, try, bind, ignore, ret, fail, get, modify, drv. cbn.
  rewrite H0. cbn. rewrite H1. unfold stmt_BEGIN_IMMEDIATE, bind, get, modify. cbn.
  rewrite Hn. cbn. rewrite H2. unfold stmt_INSERT, bind, get, modify. cbn.
  rewrite Hl, Hck. cbn. rewrite He, Hlands. cbn. rewrite Hreset. cbn.
  eexists. split; [reflexivity|]. cbn. by rewrite (durable_idle s Hn).
Qed.
End wedged.
