(* ===== verification/SpoolStore.v ===== *)
(** * internal/spool/spool_store.go and store.go

    The hybrid store: record metadata in SQLite, payloads on the filesystem.
    The payload store is used through the interface [Payloads], whose laws
    [PayloadLaws] are what the theorems here rely on. *)
From S2P Require Import Prelude.
From S2P Require Import GoStrings.
From S2P Require Import GoTime.
From S2P Require Import GoErrors.
From S2P Require Import Email.
From S2P Require Import SpoolCommon.
From S2P Require Import Records.
From S2P Require Import RecordsProps.
From S2P Require Import RecordsSpec.
From S2P Require Import RecordsInv.
#[local] Open Scope Z_scope.
#[local] Open Scope relay_scope.

(** ** The payload store's interface *)

(** The methods of [PayloadStore] that [SpoolStore] calls. *)
Class Payloads := {
  pstate : Type;
  Save : string → Message → io goerr pstate unit;
  Load : string → io goerr pstate Message;
  Remove : string → io goerr pstate unit;
  QuarantineOrphans : gset string → io goerr pstate (list string);
}.

(** What a client sees of the payloads: [payload s id] is the message that can
    be read back under [id], [stored m] the form in which [m] is read back. *)
Class PayloadView (P : Payloads) := {
  payload : pstate → string → option Message;
  stored : Message → Message;
}.

(** What the methods promise; the payload of an identifier is filed under its
    trimmed form. *)
Class PayloadLaws (P : Payloads) {V : PayloadView P} : Prop := {
  Save_ok : ∀ id m s s', Save id m s = (s', inl tt) → payload s' (TrimSpace id) = Some (stored m);
  Save_frame : ∀ id m s id', id' ≠ TrimSpace id →
    payload (fst (Save id m s)) id' = payload s id';
  Save_keeps : ∀ id m s m0, payload s (TrimSpace id) = Some m0 →
    payload (fst (Save id m s)) (TrimSpace id) = Some m0 ∧ ∃ e, snd (Save id m s) = inr e;
  Load_ok : ∀ id s s' m, Load id s = (s', inl m) → payload s (TrimSpace id) = Some m;
  Load_errors : ∀ id s s' e, Load id s = (s', inr e) → AsRecordCorruptionError e = None;
  Load_frame : ∀ id s id', payload (fst (Load id s)) id' = payload s id';
  Load_corrupt : ∀ id s s' e x,
    Load id s = (s', inr e) → AsPayloadCorruptionError e = Some x →
    payload s (TrimSpace id) = None;
  Remove_frame : ∀ id s id', id' ≠ TrimSpace id → payload (fst (Remove id s)) id' = payload s id';
  Quarantine_frame : ∀ ids s id, id ∈ ids → payload (fst (QuarantineOrphans ids s)) id = payload s id;
}.

(** ** The store's state and operations *)

(** What [rand.Read] puts in the buffer of the n-th generated identifier. *)
Class IDSource := rand_Read : nat → bytes + goerr.

Section spool.
Context `{U : UnicodeTables} `{Env : RecordEnv} `{Rnd : IDSource} `{P : Payloads}.

(** [SpoolStore]: [records], [payloads], and how many identifiers were drawn. *)
Record spool := MkSpool { sp_records : dbstate; sp_payloads : pstate; sp_ids : nat }.

Definition SP := io goerr spool.

Definition records {A} (m : DB A) : SP A := λ s,
  match m (sp_records s) with (d, r) => (MkSpool d (sp_payloads s) (sp_ids s), r) end.

Definition payloads {A} (m : io goerr pstate A) : SP A := λ s,
  match m (sp_payloads s) with (p, r) => (MkSpool (sp_records s) p (sp_ids s), r) end.

Definition newID : SP string := λ s,
  (MkSpool (sp_records s) (sp_payloads s) (S (sp_ids s)), newUUIDv4 (rand_Read (sp_ids s))).

Definition wrapS {A} (op : string) (m : SP A) : SP A :=
  try m (λ r, match r with
              | inl a => ret a
              | inr e => fail (wrapStoreError op e)
              end).

Definition with_Message (rec : SpoolRecord) (msg : Message) : SpoolRecord :=
  MkRecord (rec_ID rec) msg (rec_State rec) (rec_Attempt rec) (rec_NextAttemptAt rec)
    (rec_OperationID rec) (rec_OperationLocation rec) (rec_ProviderMessageID rec)
    (rec_FirstSubmittedAt rec) (rec_LastError rec) (rec_CreatedAt rec) (rec_UpdatedAt rec).

Definition new_record (id : string) (msg : Message) (t : time) : SpoolRecord :=
  MkRecord id msg StateQueued 0 t "" "" "" zeroTime None t t.

(** [ctx] is [ctx.Err()] at the call; cancellation later in the call shows as
    a driver fault. *)
Definition Enqueue (ctx : option goerr) (msg : Message) : SP SpoolRecord :=
  match ctx with
  | Some e => fail e
  | None =>
      let! t := records now in
      let! id := wrapS "generate record id" newID in
      wrapS ("save payload " +:+ Quote id) (payloads (Save id msg)) ;;!
      let rec := new_record id msg t in
      try (records (insertRecord rec)) (λ r,
        match r with
        | inl _ => ret rec
        | inr e => ignore (payloads (Remove id)) ;;! fail e
        end)
  end.

Definition classifyPayloadLoadError (recordID : string) (e : goerr) : goerr :=
  match AsPayloadCorruptionError e with
  | Some _ => newRecordCorruptionError recordID e
  | None => wrapStoreError ("load payload " +:+ Quote recordID) e
  end.

(** One turn of [ClaimReady]'s loop: [inl] is a return, [inr] a [continue]. *)
Definition claim_turn (t : time) : SP (option SpoolRecord + unit) :=
  let! o := records (claimReadyMetadata t) in
  match o with
  | None => ret (inl None)
  | Some meta =>
      try (payloads (Load (m_ID meta))) (λ r,
        match r with
        | inl msg => ret (inl (Some (with_Message (toRecord meta) msg)))
        | inr e =>
            let classified := classifyPayloadLoadError (m_ID meta) e in
            match AsRecordCorruptionError classified with
            | Some (rid, cause) =>
                records (deadLetterCorruptRecord meta (RecordCorruptionError rid cause)) ;;!
                ret (inr tt)
            | None =>
                records (requeueClaimedRecord meta) ;;!
                fail classified
            end
        end)
  end.

Fixpoint claim_loop (fuel : nat) (t : time) : SP (option SpoolRecord) :=
  match fuel with
  | O => fail (EText "claim loop: out of fuel")
  | S fuel =>
      let! r := claim_turn t in
      match r with
      | inl o => ret o
      | inr _ => claim_loop fuel t
      end
  end.

(** Every turn that continues has moved one record out of [queued], so one
    turn more than there are records is enough. *)
Definition ClaimReady (ctx : option goerr) (t : time) : SP (option SpoolRecord) :=
  match ctx with
  | Some e => fail e
  | None =>
      let! s := get in
      claim_loop (S (size (db_cur (sp_records s)))) t
  end.

Definition NextSubmittedReady (t : time) : SP (option SpoolRecord) :=
  records (nextSubmittedReady t).
Definition MarkSubmitted (rec : SpoolRecord) (result : SubmissionResult) (next : time)
    : SP SpoolRecord := records (markSubmitted rec result next).
Definition MarkRetry (rec : SpoolRecord) (next : time) (lastErr : option LastError)
    : SP SpoolRecord := records (markRetry rec next lastErr).
Definition MarkSucceeded (rec : SpoolRecord) : SP SpoolRecord := records (markSucceeded rec).
Definition MarkDeadLetter (rec : SpoolRecord) (lastErr : option LastError) : SP SpoolRecord :=
  records (markDeadLetter rec lastErr).
Definition StateCounts : SP (gmap string Z) := records stateCounts.

(** The two loops of [Recover] ([what] is "requeued" or "submitted"): the
    records whose payload loads, and the ones dead-lettered. *)
Fixpoint recover_load (what : string) (metas : list recordMetadata)
    : SP (list SpoolRecord * list SpoolRecord) :=
  match metas with
  | [] => ret ([], [])
  | meta :: rest =>
      try (payloads (Load (m_ID meta))) (λ r,
        match r with
        | inl msg =>
            let! out := recover_load what rest in
            ret (with_Message (toRecord meta) msg :: out.1, out.2)
        | inr e =>
            let classified := classifyPayloadLoadError (m_ID meta) e in
            match AsRecordCorruptionError classified with
            | Some (rid, cause) =>
                let! dead := records
                  (deadLetterCorruptRecord meta (RecordCorruptionError rid cause)) in
                let! out := recover_load what rest in
                ret (out.1, dead :: out.2)
            | None =>
                fail (wrapStoreError ("load " +:+ what +:+ " payload " +:+ Quote (m_ID meta)
                                      +:+ " during recovery") classified)
            end
        end)
  end.

Definition Recover (ctx : option goerr) (t : time) : SP RecoveryResult :=
  match ctx with
  | Some e => fail e
  | None =>
      let! snapshot := records (recoverMetadata t) in
      let! requeued := recover_load "requeued" (sn_requeued snapshot) in
      let! submitted := recover_load "submitted" (sn_submitted snapshot) in
      let! orphans := wrapS "quarantine orphan payloads"
                        (payloads (QuarantineOrphans (sn_validIDs snapshot))) in
      ret (MkRecovery requeued.1 submitted.1 (requeued.2 ++ submitted.2) orphans)
  end.
End spool.

#[global] Arguments spool {P}.
#[global] Arguments SP {P} A.

(** ** store.go: the contract used by relay and worker code *)

Class Store := {
  sstate : Type;
  store_Enqueue : option goerr → Message → io goerr sstate SpoolRecord;
  store_ClaimReady : option goerr → time → io goerr sstate (option SpoolRecord);
  store_NextSubmittedReady : time → io goerr sstate (option SpoolRecord);
  store_MarkSubmitted : SpoolRecord → SubmissionResult → time → io goerr sstate SpoolRecord;
  store_MarkRetry : SpoolRecord → time → option LastError → io goerr sstate SpoolRecord;
  store_MarkSucceeded : SpoolRecord → io goerr sstate SpoolRecord;
  store_MarkDeadLetter : SpoolRecord → option LastError → io goerr sstate SpoolRecord;
  store_Recover : option goerr → time → io goerr sstate RecoveryResult;
}.

(** [var _ Store = ( *SpoolStore)(nil)] *)
Definition SpoolStore `{UnicodeTables} `{RecordEnv} `{IDSource} `{Payloads} : Store := {|
  sstate := spool;
  store_Enqueue := Enqueue;
  store_ClaimReady := ClaimReady;
  store_NextSubmittedReady := NextSubmittedReady;
  store_MarkSubmitted := MarkSubmitted;
  store_MarkRetry := MarkRetry;
  store_MarkSucceeded := MarkSucceeded;
  store_MarkDeadLetter := MarkDeadLetter;
  store_Recover := Recover;
|}.

(** What a client may rely on.  [ledger s] is the committed state and attempt
    count of every record. *)
Abbreviation ledger_t := (gmap string (State * Z)).

(** One record's entry replaced. *)
Definition ledger_put (l : ledger_t) (id : string) (x : State * Z) (l' : ledger_t) : Prop :=
  is_Some (l !! id) ∧ l' = <[id := x]> l.

(** What claiming may do to other records: dead-letter a queued one; a claim
    that fails may also have left one [working]. *)
Definition claim_step (o o' : option (State * Z)) : Prop :=
  o' = o ∨ ∃ a, o = Some (StateQueued, a) ∧
               (o' = Some (StateDeadLetter, a) ∨ o' = Some (StateWorking, a)).

(** The ledger entry each mark operation writes for [rec]. *)
Definition submitted_entry (rec : SpoolRecord) : State * Z :=
  (StateSubmitted, wrap64 (rec_Attempt rec + 1)).
Definition final_entry (st_working : State) (st : State) (rec : SpoolRecord) : State * Z :=
  if decide (rec_State rec = StateWorking) then (st_working, wrap64 (rec_Attempt rec + 1))
  else (st, rec_Attempt rec).
Definition retry_entry := final_entry StateQueued StateSubmitted.
Definition succeeded_entry := final_entry StateSucceeded StateSucceeded.
Definition dead_entry := final_entry StateDeadLetter StateDeadLetter.

(** Every run of [m] either leaves the ledger alone or writes entry [x] for
    record [id]; a successful one does write it, and a write needs a [settled]
    store. *)
Definition writes {S : Store} {A} (ledger : sstate → ledger_t) (settled : sstate → Prop)
    (m : io goerr sstate A) (id : string) (x : State * Z) : Prop :=
  ∀ s, (ledger (fst (m s)) = ledger s ∧ ∃ e, snd (m s) = inr e) ∨
       (settled s ∧ ledger_put (ledger s) id x (ledger (fst (m s)))).

(** The record a claim hands out for the committed record [r]: now [working],
    with its message. *)
Definition claimed_record (r : SpoolRecord) (msg : Message) (updatedAt : time) : SpoolRecord :=
  MkRecord (rec_ID r) msg StateWorking (rec_Attempt r) (rec_NextAttemptAt r)
    (rec_OperationID r) (rec_OperationLocation r) (rec_ProviderMessageID r)
    (rec_FirstSubmittedAt r) (rec_LastError r) (rec_CreatedAt r) updatedAt.

(** The record may be attempted at [t], at the millisecond the table keeps. *)
Definition due_by (t : time) (r : SpoolRecord) : Prop :=
  rec_NextAttemptAt r / Millisecond <= timeToMillis t.

Class StoreLaws (S : Store) := {
  ledger : sstate → ledger_t;
  (** the committed record under an identifier, without its message, and the
      message that can be read back *)
  committed : sstate → string → option SpoolRecord;
  mail : sstate → string → option Message;
  (** no transaction is left open on the connection *)
  settled : sstate → Prop;
  enqueue_ok : ∀ ctx msg s s' rec, store_Enqueue ctx msg s = (s', inl rec) →
    rec_Message rec = msg ∧ ledger s !! rec_ID rec = None ∧
    ledger s' = <[rec_ID rec := (StateQueued, 0)]> (ledger s);
  enqueue_any : ∀ ctx msg s, ledger s ⊆ ledger (fst (store_Enqueue ctx msg s));
  committed_ledger : ∀ s id r, committed s id = Some r →
    rec_ID r = id ∧ ledger s !! id = Some (rec_State r, rec_Attempt r);
  claim_some : ∀ ctx t s s' rec, store_ClaimReady ctx t s = (s', inl (Some rec)) →
    ∃ r, committed s (rec_ID rec) = Some r ∧ rec_State r = StateQueued ∧ due_by t r ∧
      mail s (rec_ID rec) = Some (rec_Message rec) ∧
      rec = claimed_record r (rec_Message rec) (rec_UpdatedAt rec) ∧
      ledger s' !! rec_ID rec = Some (StateWorking, rec_Attempt rec);
  claim_any : ∀ ctx t s id,
    claim_step (ledger s !! id) (ledger (fst (store_ClaimReady ctx t s)) !! id);
  next_submitted_some : ∀ t s s' rec,
    store_NextSubmittedReady t s = (s', inl (Some rec)) →
    rec_State rec = StateSubmitted ∧ due_by t rec ∧
    (settled s' → committed s (rec_ID rec) = Some rec);
  next_submitted_any : ∀ t s, ledger (fst (store_NextSubmittedReady t s)) = ledger s;
  mark_submitted_writes : ∀ rec result next,
    rec_State rec = StateWorking →
    writes ledger settled (store_MarkSubmitted rec result next) (rec_ID rec) (submitted_entry rec);
  mark_retry_writes : ∀ rec next lastErr,
    rec_State rec ∈ [StateWorking; StateSubmitted] →
    writes ledger settled (store_MarkRetry rec next lastErr) (rec_ID rec) (retry_entry rec);
  mark_succeeded_writes : ∀ rec,
    rec_State rec ∈ [StateWorking; StateSubmitted] →
    writes ledger settled (store_MarkSucceeded rec) (rec_ID rec) (succeeded_entry rec);
  mark_dead_writes : ∀ rec lastErr,
    rec_State rec ∈ [StateWorking; StateSubmitted] →
    writes ledger settled (store_MarkDeadLetter rec lastErr) (rec_ID rec) (dead_entry rec);
}.
