(* ===== verification/SpoolStoreProps.v ===== *)
(** * Properties of the spool store

    Acceptance is durable ([Enqueue]), claiming hands out the first due record
    whose payload can be read and dead-letters the corrupt ones on the way,
    its loop terminates, recovery classifies every interrupted record, and any
    sequence of operations moves records along the lifecycle only. *)
From S2P Require Import Prelude.
From S2P Require Import GoStrings.
From S2P Require Import GoTime.
From S2P Require Import GoErrors.
From S2P Require Import Email.
From S2P Require Import SpoolCommon.
From S2P Require Import Records.
From S2P Require Import RecordsProps.
From S2P Require Import RecordsSpec.
From S2P Require Import RecordsInv.
From S2P Require Import SpoolStore.
#[local] Open Scope Z_scope.
#[local] Open Scope relay_scope.

Section props.
Context `{U : UnicodeTables} `{Env : RecordEnv} `{Rnd : IDSource}.
Context {P : Payloads} {V : PayloadView P} {L : PayloadLaws P}.

(** The committed table and the readable payloads of a spool. *)
Definition table (s : spool) : gmap string row := durable (sp_records s).
Definition readable (s : spool) : string → option Message := payload (sp_payloads s).

Lemma records_run {A} (m : DB A) s s' r :
  records m s = (s', r) →
  m (sp_records s) = (sp_records s', r) ∧ sp_payloads s' = sp_payloads s.
Proof. unfold records. destruct (m (sp_records s)) as [d x]. by intros [= <- <-]. Qed.

Lemma payloads_run {A} (m : io goerr pstate A) s s' r :
  payloads m s = (s', r) →
  m (sp_payloads s) = (sp_payloads s', r) ∧ sp_records s' = sp_records s.
Proof. unfold payloads. destruct (m (sp_payloads s)) as [d x]. by intros [= <- <-]. Qed.

Lemma wrapS_ok {A} op (m : SP A) s s' a : wrapS op m s = (s', inl a) → m s = (s', inl a).
Proof. unfold wrapS, try. destruct (m s) as [s1 [x|e]]; [by intros [= <- <-]|done]. Qed.

(** ** Enqueue *)

(** A successful [Enqueue]: a payload saved under a fresh identifier, then its
    row. *)
Lemma Enqueue_run ctx msg s s' rec :
  Enqueue ctx msg s = (s', inl rec) →
  ctx = None ∧ rec = new_record (rec_ID rec) msg (clock (db_ticks (sp_records s))) ∧
  canonical_id (rec_ID rec) ∧ table s !! rec_ID rec = None ∧
  table s' = <[rec_ID rec := rowOf rec]> (table s) ∧ db_txn (sp_records s') = None ∧
  Save (rec_ID rec) msg (sp_payloads s) = (sp_payloads s', inl tt).
Proof.
  unfold Enqueue. destruct ctx; [done|]. intros Hr.
  bind_inv Hr as t s1 Ht. apply records_run in Ht as [Ht Hp1]. injection Ht as Hd1 Ht.
  bind_inv Hr as id s2 Hi. apply wrapS_ok in Hi. injection Hi as Hs2 Hid.
  bind_inv Hr as [] s3 Hs. apply wrapS_ok, payloads_run in Hs as [Hs Hd3].
  unfold try in Hr. destruct (records (insertRecord _) s3) as [s4 [[]|e]] eqn:Hins; [|done].
  apply records_run in Hins as [Hins Hp4]. cbn in Hr. injection Hr as <- <-.
  apply insertRecord_ok in Hins as (Hc & Hn & Hn' & _ & Hl & Hd).
  assert (E3 : durable (sp_records s3) = table s) by (rewrite Hd3, <- Hs2; cbn; by rewrite <- Hd1).
  assert (E2 : sp_payloads s2 = sp_payloads s) by (by rewrite <- Hs2).
  change (rec_ID (new_record id msg t)) with id in *.
  unfold table in *. rewrite Hp4, <- E3, <- E2.
  split; [done|]. split; [by rewrite <- Ht|]. by do 4 (split; [done|]).
Qed.

(** C1. When [Enqueue] reports success the message is durable: a record with a fresh
    canonical identifier is committed in state [queued], due immediately, with
    no attempt made; its payload can be read back; no transaction is left open
    and no other record or payload changed. *)
Theorem Enqueue_ok (ctx : option goerr) (msg : Message) (s s' : spool) (rec : SpoolRecord) :
  Enqueue ctx msg s = (s', inl rec) →
  ctx = None ∧ rec = new_record (rec_ID rec) msg (clock (db_ticks (sp_records s))) ∧
  canonical_id (rec_ID rec) ∧ table s !! rec_ID rec = None ∧
  table s' = <[rec_ID rec := rowOf rec]> (table s) ∧ db_txn (sp_records s') = None ∧
  readable s' (rec_ID rec) = Some (stored msg) ∧
  ∀ id, id ≠ rec_ID rec → readable s' id = readable s id.
Proof.
  intros (-> & Hrec & Hc & Hn & Ht & Hx & Hs)%Enqueue_run. do 6 (split; [done|]).
  unfold readable. rewrite <- (canonical_id_trim _ Hc). split; [by eapply Save_ok|].
  intros id' Hne. pose proof (Save_frame (rec_ID rec) msg (sp_payloads s) id' Hne) as Hf.
  by rewrite Hs in Hf.
Qed.

(** [Enqueue] step by step, whatever the outcome: nothing, or a payload under
    a fresh identifier, then possibly its row. *)
Lemma Enqueue_cases ctx msg s s' r :
  Enqueue ctx msg s = (s', r) →
  (∀ id m, readable s id = Some m → readable s' id = Some m) ∧
  (table s' = table s ∨
   ∃ rec, rec_State rec = StateQueued ∧ table s !! rec_ID rec = None ∧
          table s' = <[rec_ID rec := rowOf rec]> (table s)).
Proof.
  unfold Enqueue. destruct ctx; [intros [= <- <-]; eauto|].
  unfold bind at 1, records, now. cbn -[newID]. unfold bind at 1, wrapS at 1, try at 1, newID.
  destruct (newUUIDv4 (rand_Read _)) as [id|e]; cbn; [|intros [= <- <-]; eauto].
  unfold bind at 1, wrapS, try, payloads at 1. cbn.
  pose proof (Save_frame id msg (sp_payloads s)) as Hf.
  pose proof (Save_keeps id msg (sp_payloads s)) as Hk.
  destruct (Save id msg (sp_payloads s)) as [p [[]|e]] eqn:Hs; cbn in *.
  2:{ intros [= <- <-]. split; [|by left]. intros id' m Hm. unfold readable in *. cbn.
      destruct (decide (id' = TrimSpace id)) as [-> |Hne]; [by apply Hk|by rewrite Hf]. }
  assert (Hnew : ∀ id' m, readable s id' = Some m → id' ≠ TrimSpace id).
  { intros id' m Hm ->. destruct (Hk m Hm) as [_ [e He]]. done. }
  match goal with |- context [insertRecord ?rec ?d] =>
    pose proof (insertRecord_atomic rec d) as Ha; set (rec0 := rec) in *; set (d0 := d) in *;
    assert (Hd0 : durable d0 = table s) by done;
    destruct (insertRecord rec0 d0) as [d1 [[]|e]] eqn:Hi end; cbn in Ha |- *.
  - intros [= <- <-]. split; [intros id' m Hm; unfold readable; cbn; rewrite Hf; eauto|].
    unfold table. cbn. destruct Ha as [->|[Hn ->]]; [by left|right].
    exists rec0. split; [done|]. split; [exact Hn|done].
  - unfold bind, ignore, payloads. cbn. pose proof (Remove_frame id p) as Hrm.
    destruct (Remove id p) as [p' r']; cbn in *. intros [= <- <-]. split.
    { intros id' m Hm. unfold readable in *. cbn. rewrite Hrm, Hf; eauto. }
    unfold table. cbn. destruct Ha as [->|[Hn ->]]; [by left|right].
    exists rec0. split; [done|]. split; [exact Hn|done].
Qed.

(** C27. Whatever happens during [Enqueue], driver and filesystem faults included,
    every record already committed keeps its row, every payload already
    readable stays readable, and at most one new record, in state [queued],
    appears. *)
Theorem Enqueue_preserves (ctx : option goerr) (msg : Message) (s s' : spool)
    (r : SpoolRecord + goerr) :
  Enqueue ctx msg s = (s', r) →
  (∀ id m, readable s id = Some m → readable s' id = Some m) ∧
  (∀ id x, table s !! id = Some x → table s' !! id = Some x) ∧
  ∃ id, ∀ id' x, table s' !! id' = Some x → table s !! id' = None →
        id' = id ∧ r_state x = StateQueued.
Proof.
  intros [Hp Ht]%Enqueue_cases. split; [done|].
  destruct Ht as [Ht|(rec & Hq & Hn & Ht)]; rewrite Ht.
  - split; [done|]. exists "". intros id' x Hx Hn. congruence.
  - split.
    + intros id x Hx. rewrite lookup_insert_ne; [done|]. congruence.
    + exists (rec_ID rec). intros id' x Hx Hn'.
      destruct (decide (id' = rec_ID rec)) as [-> |Hne].
      * rewrite lookup_insert_eq in Hx. injection Hx as <-. by rewrite <- Hq.
      * rewrite lookup_insert_ne in Hx by done. congruence.
Qed.
(** ** ClaimReady *)

Lemma classify_corrupt id e x :
  AsRecordCorruptionError (classifyPayloadLoadError id e) = Some x →
  AsRecordCorruptionError e = None → is_Some (AsPayloadCorruptionError e).
Proof.
  unfold classifyPayloadLoadError. destruct (AsPayloadCorruptionError e); [done|].
  unfold wrapStoreError. destruct (AsStoreError e) as [p|]; [congruence|].
  unfold AsRecordCorruptionError. cbn. congruence.
Qed.

Lemma deadLetterCorruptRecord_ok m cause s s' rec :
  deadLetterCorruptRecord m cause s = (s', inl rec) →
  db_txn s' = None ∧ rec_ID rec = m_ID m ∧ rec_State rec = StateDeadLetter ∧
  (∃ r, durable s !! m_ID m = Some r ∧ r_state r = m_State m) ∧
  ∃ r', r_state r' = StateDeadLetter ∧ durable s' = <[m_ID m := r']> (durable s).
Proof.
  unfold deadLetterCorruptRecord. intros Hr.
  bind_inv Hr as t s1 Hn. apply now_ok in Hn as [Hs ->].
  bind_inv Hr as [] s2 Hu. injection Hr as <- <-.
  apply updateRecord_ok in Hu as (_ & _ & Hn & _ & Hl & Hd).
  rewrite (same_durable _ _ Hs) in *.
  assert (Hid : ∀ u, rec_ID (toRecord u) = m_ID u) by done.
  split; [done|]. destruct (decide (m_State m ≠ StateSubmitted));
    (split; [done|]; split; [done|]; split; [done|]; eexists; split; [|done]; done).
Qed.

(** What one claimed row's removal from the queue does. *)
Definition queue_due (t : time) (s : spool) (id : string) (r : row) : Prop :=
  table s !! id = Some r ∧ due StateQueued (timeToMillis t) (id, r).

(** The result of a turn: a record handed out, nothing due, or a corrupt
    record dead-lettered. *)
Lemma claim_turn_ok t s s' r :
  claim_turn t s = (s', inl r) →
  (∀ id, readable s' id = readable s id) ∧ db_txn (sp_records s) = None ∧
  match r with
  | inl None => table s' = table s ∧ ∀ id x, ¬ queue_due t s id x
  | inl (Some rec) => ∃ x x' m0,
      first_ready StateQueued (timeToMillis t) (table s) (rec_ID rec) x ∧
      scanMetadata (rec_ID rec) x = inl m0 ∧
      readable s (rec_ID rec) = Some (rec_Message rec) ∧
      rec = with_Message (toRecord (claimed m0 (rec_UpdatedAt rec))) (rec_Message rec) ∧
      x' = set_claimed (timeToMillis (rec_UpdatedAt rec)) x ∧
      table s' = <[rec_ID rec := x']> (table s) ∧ db_txn (sp_records s') = None
  | inr _ => ∃ id x x',
      first_ready StateQueued (timeToMillis t) (table s) id x ∧ readable s id = None ∧
      r_state x' = StateDeadLetter ∧ table s' = <[id := x']> (table s) ∧
      db_txn (sp_records s') = None
  end.
Proof.
  intros Hr. unfold claim_turn in Hr.
  bind_inv Hr as o s1 Hc. apply records_run in Hc as [Hc Hp1].
  assert (Hn : db_txn (sp_records s) = None).
  { by destruct (immediate_ok _ _ _ _ Hc) as (? & ? & ? & (Hn & _) & _). }
  apply claimReadyMetadata_run in Hc. unfold claim_post in Hc. fold (table s) (table s1) in Hc.
  destruct o as [m|].
  2:{ injection Hr as <- <-. unfold readable. rewrite Hp1. split; [done|]. split; [done|].
      destruct Hc as [Ht Hnone]. split; [done|]. intros id x [Hl Hd]. by eapply Hnone. }
  destruct Hc as (x & m0 & k & Hf & Hsc & -> & Ht1 & Hn1).
  destruct (scanMetadata_id _ _ _ Hsc) as (Hid & Hst & Hcan). cbn [m_ID claimed] in *.
  apply canonical_id_trim in Hcan.
  unfold try in Hr. destruct (payloads (Load _) s1) as [s2 [msg|e]] eqn:Hl;
    apply payloads_run in Hl as [Hl Hr2].
  - injection Hr as <- <-. cbn.
    pose proof (Load_frame (m_ID m0) (sp_payloads s1)) as Hfr. rewrite Hl in Hfr. cbn in Hfr.
    unfold readable in *. rewrite Hp1 in *.
    split; [done|]. split; [done|]. exists x. do 2 eexists.
    split; [done|]. split; [done|].
    split; [rewrite <- Hcan; by eapply Load_ok|]. split; [done|].
    split; [done|]. split; [by unfold table in *; rewrite Hr2|]. by rewrite Hr2.
  - pose proof (Load_frame (m_ID m0) (sp_payloads s1)) as Hfr. rewrite Hl in Hfr. cbn in Hfr.
    destruct (AsRecordCorruptionError _) as [[rid cause]|] eqn:Has.
    2:{ bind_inv Hr as [] s3 Hq. done. }
    bind_inv Hr as dead s3 Hdead. injection Hr as <- <-.
    apply records_run in Hdead as [Hdead Hp3].
    apply deadLetterCorruptRecord_ok in Hdead as (Hn3 & _ & _ & _ & x' & Hx' & Ht3).
    cbn [m_ID claimed] in Ht3. rewrite Hr2 in Ht3. fold (table s1) in Ht3.
    rewrite Ht1, insert_insert_eq in Ht3.
    destruct (classify_corrupt _ _ _ Has (Load_errors _ _ _ _ Hl)) as [y Hy].
    unfold readable in *. rewrite Hp3, Hp1 in *. split; [done|]. split; [done|].
    exists (m_ID m0), x, x'. split; [done|]. split; [rewrite <- Hcan; by eapply Load_corrupt|]. done.
Qed.

(** [dead] are the records a claim dead-lettered: they were due, their payload
    was unreadable, and they are [dead-letter] now. *)
Definition dead_lettered (t : time) (s s' : spool) (dead : gset string) : Prop :=
  ∀ id, id ∈ dead → ∃ x x', queue_due t s id x ∧ readable s id = None ∧
    table s' !! id = Some x' ∧ r_state x' = StateDeadLetter.

(** The first due record of [s] outside [dead], handed out as [rec]. *)
Definition handed_out (t : time) (s s' : spool) (dead : gset string) (rec : SpoolRecord) : Prop :=
  rec_ID rec ∉ dead ∧
  ∃ x m0, queue_due t s (rec_ID rec) x ∧
    (∀ id' x', queue_due t s id' x' → id' ∉ dead → ready_le (rec_ID rec, x) (id', x')) ∧
    scanMetadata (rec_ID rec) x = inl m0 ∧
    readable s (rec_ID rec) = Some (rec_Message rec) ∧
    rec = with_Message (toRecord (claimed m0 (rec_UpdatedAt rec))) (rec_Message rec) ∧
    table s' !! rec_ID rec = Some (set_claimed (timeToMillis (rec_UpdatedAt rec)) x).

Definition claim_result (t : time) (s s' : spool) (dead : gset string) (o : option SpoolRecord)
    : Prop :=
  (∀ id, readable s' id = readable s id) ∧ dead_lettered t s s' dead ∧
  match o with
  | Some rec => handed_out t s s' dead rec
  | None => ∀ id x, queue_due t s id x → id ∈ dead
  end ∧
  ∀ id, id ∉ dead → Some id ≠ (rec_ID <$> o) → table s' !! id = table s !! id.

Lemma dead_not_due t s id x : r_state x = StateDeadLetter → ¬ queue_due t s id x.
Proof. intros Hx (_ & Hq & _). cbn in Hq. rewrite Hx in Hq. done. Qed.

Lemma claim_result_skip t s s1 s' id x x' dead o :
  first_ready StateQueued (timeToMillis t) (table s) id x → readable s id = None →
  r_state x' = StateDeadLetter → table s1 = <[id := x']> (table s) →
  (∀ i, readable s1 i = readable s i) →
  claim_result t s1 s' dead o → claim_result t s s' ({[id]} ∪ dead) o.
Proof.
  intros (Hl & Hd & _) Hun Hx' Ht1 Hr1 (Hr & Hdead & Ho & Hfr).
  assert (Hdue : ∀ i y, i ≠ id → queue_due t s1 i y ↔ queue_due t s i y).
  { intros i y Hne. unfold queue_due. by rewrite Ht1, lookup_insert_ne. }
  assert (Hnot : ∀ y, ¬ queue_due t s1 id y).
  { intros y Hy. eapply dead_not_due; [|exact Hy].
    destruct Hy as [Hy _]. rewrite Ht1, lookup_insert_eq in Hy. by injection Hy as <-. }
  assert (Hid : id ∉ dead). { intros Hin. destruct (Hdead id Hin) as (y & _ & Hy & _). by eapply Hnot. }
  assert (Ho' : match o with Some rec => rec_ID rec ≠ id | None => True end).
  { destruct o as [rec|]; [|done]. intros <-. destruct Ho as (_ & y & _ & Hy & _).
    by eapply Hnot. }
  split; [intros i; by rewrite Hr, Hr1|]. split; [|split].
  - intros i [->%elem_of_singleton|Hin]%elem_of_union.
    + exists x, x'. split; [done|]. split; [done|]. split; [|done].
      rewrite Hfr, Ht1, lookup_insert_eq; [done|done|].
      destruct o; cbn; congruence.
    + assert (i ≠ id) by congruence.
      destruct (Hdead i Hin) as (y & y' & Hq & Hru & Hl' & Hs).
      exists y, y'. rewrite <- Hr1. by rewrite <- Hdue.
  - destruct o as [rec|].
    + destruct Ho as (Hnd & y & m0 & Hq & Hmin & Hsc & Hrd & Hrec & Hl').
      split; [set_solver|]. exists y, m0. rewrite <- Hdue, <- Hr1 by done.
      split; [done|]. split; [|done]. intros i z Hz Hi. apply Hmin; [|set_solver].
      apply Hdue; [set_solver|done].
    + intros i y Hy. destruct (decide (i = id)) as [-> |Hne]; [set_solver|].
      apply elem_of_union_r, (Ho i y), Hdue; done.
  - intros i Hi Hne. rewrite Hfr by set_solver. rewrite Ht1, lookup_insert_ne by set_solver. done.
Qed.

Lemma claim_loop_ok n t s s' o :
  claim_loop n t s = (s', inl o) → ∃ dead, claim_result t s s' dead o.
Proof.
  revert s. induction n as [|n IH]; intros s Hr; [done|]. cbn in Hr.
  bind_inv Hr as r s1 Ht. apply claim_turn_ok in Ht as (Hrd & Hn & Ht).
  destruct r as [[rec|]|[]].
  - injection Hr as <- <-. destruct Ht as (x & x' & m0 & Hf & Hsc & Hm & Hrec & -> & Ht1 & _).
    destruct Hf as (Hl & Hd & Hmin). exists ∅.
    split; [done|]. split; [by intros id Hid%not_elem_of_empty|]. split; cbn.
    + split; [set_solver|]. exists x, m0. split; [done|]. split; [|].
      * intros id' x' [Hl' Hd'] _. by apply Hmin.
      * do 3 (split; [done|]). by rewrite Ht1, lookup_insert_eq.
    + intros id _ Hne. rewrite Ht1, lookup_insert_ne; congruence.
  - injection Hr as <- <-. destruct Ht as [Ht Hnone]. exists ∅.
    split; [done|]. split; [by intros id Hid%not_elem_of_empty|]. split; cbn.
    + intros id x Hx. by destruct (Hnone id x).
    + intros id _ _. by rewrite Ht.
  - destruct Ht as (id & x & x' & Hf & Hu & Hx' & Ht1 & _).
    destruct (IH s1 Hr) as [dead Hdead]. exists ({[id]} ∪ dead).
    by eapply claim_result_skip.
Qed.

(** C3. [ClaimReady], when it does not fail, has looked at the due queued records in
    scheduling order.  Those whose payload is corrupt are now dead letters; the
    first readable one is returned with its message and is now [working], its
    metadata otherwise as stored; when it returns nothing, no due record is
    left.  Every other record, and every payload, is untouched. *)
Theorem ClaimReady_ok (ctx : option goerr) (t : time) (s s' : spool) (o : option SpoolRecord) :
  ClaimReady ctx t s = (s', inl o) → ∃ dead, claim_result t s s' dead o.
Proof. unfold ClaimReady. destruct ctx; [done|]. apply claim_loop_ok. Qed.

(** *** Termination *)

Definition queued_ids (s : spool) : gset string :=
  dom (filter (λ x, r_state x.2 = StateQueued) (table s)).

(** A turn that continues takes one record out of the queue. *)
Lemma claim_turn_continues t s s' :
  claim_turn t s = (s', inl (inr tt)) →
  (size (queued_ids s') < size (queued_ids s))%nat.
Proof.
  intros Hr. apply claim_turn_ok in Hr as (_ & _ & id & x & x' & (Hl & (Hq & _) & _) & _ & Hx' & Ht & _).
  apply subset_size. unfold queued_ids. rewrite Ht. split.
  - intros i. rewrite !elem_of_dom. intros [y [Hy Hs]%map_lookup_filter_Some].
    exists y. apply map_lookup_filter_Some. cbn in *.
    destruct (decide (i = id)) as [-> |Hne].
    + rewrite lookup_insert_eq in Hy. injection Hy as <-. rewrite Hx' in Hs. done.
    + by rewrite lookup_insert_ne in Hy.
  - intros Hsub. assert (Hin : id ∈ dom (filter (λ x, r_state x.2 = StateQueued) (table s))).
    { apply elem_of_dom. exists x. by apply map_lookup_filter_Some. }
    apply Hsub, elem_of_dom in Hin as [y [Hy Hs]%map_lookup_filter_Some]. cbn in *.
    rewrite lookup_insert_eq in Hy. injection Hy as <-. rewrite Hx' in Hs. done.
Qed.

(** The unbounded [for] loop, as a big-step relation: turns that continue, then
    one that returns or fails. *)
Inductive claims (t : time) : spool → spool * (option SpoolRecord + goerr) → Prop :=
  | claims_return s s' o : claim_turn t s = (s', inl (inl o)) → claims t s (s', inl o)
  | claims_fail s s' e : claim_turn t s = (s', inr e) → claims t s (s', inr e)
  | claims_continue s s1 r :
      claim_turn t s = (s1, inl (inr tt)) → claims t s1 r → claims t s r.

Lemma claim_loop_claims n t s :
  (size (queued_ids s) < n)%nat → claims t s (claim_loop n t s).
Proof.
  revert s. induction n as [|n IH]; intros s Hs; [lia|]. cbn. unfold bind.
  destruct (claim_turn t s) as [s1 [[o|[]]|e]] eqn:Ht.
  - by apply claims_return.
  - eapply claims_continue; [done|]. apply claim_turn_continues in Ht. apply IH. lia.
  - by apply claims_fail.
Qed.

Lemma claim_turn_begins t s s' r :
  claim_turn t s = (s', inl r) → db_txn (sp_records s) = None.
Proof. by intros (_ & ? & _)%claim_turn_ok. Qed.

(** C25. The loop of [ClaimReady] terminates from every state: it stops after finitely
    many turns that dead-letter a corrupt record, with the outcome the bounded
    loop computes. *)
Theorem ClaimReady_terminates (t : time) (s : spool) : claims t s (ClaimReady None t s).
Proof.
  unfold ClaimReady, bind, get. cbn -[claim_loop].
  destruct (db_txn (sp_records s)) as [t0|] eqn:Hn.
  - cbn. unfold bind. destruct (claim_turn t s) as [s1 [r|e]] eqn:Ht; [|by apply claims_fail].
    apply claim_turn_begins in Ht. congruence.
  - apply claim_loop_claims. unfold queued_ids, table, durable. rewrite Hn. cbn.
    rewrite size_dom. apply Nat.lt_succ_r. apply map_size_filter.
Qed.

(** ** Recover *)

(** What recovery does with one interrupted record: kept and reported with its
    message, or, when its payload is corrupt, dead-lettered and reported. *)
Definition recovered (s s' : spool) (good dead : list SpoolRecord) (m : recordMetadata) : Prop :=
  (∃ msg, readable s (m_ID m) = Some msg ∧ with_Message (toRecord m) msg ∈ good ∧
          table s' !! m_ID m = table s !! m_ID m) ∨
  (readable s (m_ID m) = None ∧
   (∃ d, d ∈ dead ∧ rec_ID d = m_ID m ∧ rec_State d = StateDeadLetter) ∧
   ∃ r', table s' !! m_ID m = Some r' ∧ r_state r' = StateDeadLetter).

Lemma recover_load_ok what ms s s' out :
  NoDup (m_ID <$> ms) → Forall canonical_id (m_ID <$> ms) →
  recover_load what ms s = (s', inl out) →
  (∀ id, readable s' id = readable s id) ∧
  Forall (recovered s s' out.1 out.2) ms ∧
  ∀ id, id ∉ m_ID <$> ms → table s' !! id = table s !! id.
Proof.
  revert s s' out. induction ms as [|m ms IH]; intros s s' out Hnd Hcan Hr; cbn in Hr.
  { injection Hr as <- <-. split; [done|]. split; [constructor|done]. }
  cbn in Hnd. apply NoDup_cons in Hnd as [Hm Hnd]. unfold try in Hr.
  cbn in Hcan. apply Forall_cons in Hcan as [Hid%canonical_id_trim Hcan].
  destruct (payloads (Load (m_ID m)) s) as [s1 [msg|e]] eqn:Hl;
    apply payloads_run in Hl as [Hl Hr1];
    pose proof (Load_frame (m_ID m) (sp_payloads s)) as Hfr; rewrite Hl in Hfr; cbn in Hfr;
    fold (readable s1) (readable s) in Hfr.
  - bind_inv Hr as [good dead] s2 Hrest. cbn in Hr. injection Hr as <- <-.
    apply IH in Hrest as (Hrd & Hall & Hout); [|done..].
    assert (Ht1 : table s1 = table s) by (unfold table; by rewrite Hr1).
    split; [intros id; by rewrite Hrd, Hfr|]. cbn [fst snd] in *. split.
    + constructor.
      * left. exists msg. split; [rewrite <- Hid; by eapply Load_ok|]. split; [set_solver|].
        by rewrite Hout, Ht1.
      * eapply Forall_impl; [exact Hall|]. intros m' [(msg' & H1 & H2 & H3)|(H1 & H2 & H3)].
        -- left. exists msg'. rewrite <- Hfr, <- Ht1. split; [done|]. split; [set_solver|done].
        -- right. rewrite <- Hfr. done.
    + intros id Hin. rewrite <- Ht1. apply Hout. cbn in Hin. set_solver.
  - destruct (AsRecordCorruptionError _) as [[rid cause]|] eqn:Has; [|done].
    bind_inv Hr as d s2 Hdead. apply records_run in Hdead as [Hdead Hp2].
    bind_inv Hr as [good dead] s3 Hrest. cbn in Hr. injection Hr as <- <-.
    apply IH in Hrest as (Hrd & Hall & Hout); [|done..].
    apply deadLetterCorruptRecord_ok in Hdead as (_ & Hdid & Hdst & _ & r' & Hr' & Ht2).
    destruct (classify_corrupt _ _ _ Has (Load_errors _ _ _ _ Hl)) as [y Hy].
    rewrite Hr1 in Ht2. fold (table s) (table s2) in Ht2.
    assert (Hrd2 : ∀ id, readable s2 id = readable s id).
    { intros id. unfold readable in *. by rewrite Hp2. }
    split; [intros id; by rewrite Hrd, Hrd2|]. cbn [fst snd] in *. split.
    + constructor.
      * right. split; [rewrite <- Hid; by eapply Load_corrupt|].
        split; [exists d; split; [set_solver|done]|].
        exists r'. rewrite Hout by done. by rewrite Ht2, lookup_insert_eq.
      * rewrite Forall_forall in Hall |- *. intros m' Hm'.
        assert (Hne : m_ID m ≠ m_ID m').
        { intros Heq. apply Hm. rewrite Heq. apply list_elem_of_fmap. eauto. }
        destruct (Hall m' Hm') as [(msg' & H1 & H2 & H3)|(H1 & (d' & H2 & H2') & H3)].
        -- left. exists msg'. rewrite <- Hrd2. split; [done|]. split; [done|].
           by rewrite H3, Ht2, lookup_insert_ne.
        -- right. rewrite <- Hrd2. split; [done|]. split; [|done].
           exists d'. split; [set_solver|done].
    + intros id Hin. cbn in Hin. rewrite Hout by set_solver.
      rewrite Ht2, lookup_insert_ne by set_solver. done.
Qed.

(** What startup recovery guarantees for a record, by the state it was in. *)
Definition recovery_of (t : time) (s s' : spool) (res : RecoveryResult) (id : string) (r : row)
    : Prop :=
  let dead := readable s id = None ∧
    (∃ d, d ∈ rr_DeadLettered res ∧ rec_ID d = id ∧ rec_State d = StateDeadLetter) ∧
    ∃ r', table s' !! id = Some r' ∧ r_state r' = StateDeadLetter in
  if decide (r_state r = StateWorking) then
    dead ∨
    ∃ rec r', rec ∈ rr_Requeued res ∧ rec_ID rec = id ∧ rec_State rec = StateQueued ∧
      readable s id = Some (rec_Message rec) ∧
      table s' !! id = Some r' ∧ requeued_row t r r'
  else if decide (r_state r = StateSubmitted) then
    dead ∨
    ∃ rec, rec ∈ rr_Submitted res ∧ rec_ID rec = id ∧ rec_State rec = StateSubmitted ∧
      readable s id = Some (rec_Message rec) ∧ table s' !! id = Some r
  else table s' !! id = Some r.

Lemma Forall2_elem {A B} (R : A → B → Prop) l k x :
  Forall2 R l k → x ∈ l → ∃ y, y ∈ k ∧ R x y.
Proof.
  induction 1 as [|a b l k Hab _ IH]; intros Hx; [by apply elem_of_nil in Hx|].
  apply elem_of_cons in Hx as [-> |Hx]; [exists b; split; [set_solver|done]|].
  destruct (IH Hx) as (y & Hy & HR). exists y. split; [set_solver|done].
Qed.

Lemma fmap_elem_meta id (ms : list recordMetadata) ids :
  m_ID <$> ms = ids → id ∈ ids → ∃ m, m ∈ ms ∧ m_ID m = id.
Proof. intros <- (m & -> & Hm)%list_elem_of_fmap. eauto. Qed.

Lemma elem_state_ids st (t : gmap string row) id :
  id ∈ (select_state st t).*1 ↔ ∃ r, t !! id = Some r ∧ r_state r = st.
Proof.
  rewrite list_elem_of_fmap. split.
  - intros ([j r] & -> & Hin%elem_select_state). by exists r.
  - intros (r & Hr). exists (id, r). split; [done|]. by apply elem_select_state.
Qed.

(** The parts of a successful recovery: the metadata snapshot with the table it
    committed, the two passes over the payloads, and the quarantine. *)
Lemma Recover_steps ctx t s s' res :
  Recover ctx t s = (s', inl res) →
  ∃ sn s1 s2 s3 dead1 dead2,
    (∀ id, readable s1 id = readable s id) ∧ (∀ id, readable s2 id = readable s id) ∧
    (∀ id, id ∈ dom (table s) → readable s' id = readable s id) ∧
    m_ID <$> sn_requeued sn = (select_state StateWorking (table s)).*1 ∧
    Forall (requeued_meta t) (sn_requeued sn) ∧
    Forall2 scans_to (select_state StateSubmitted (table s)) (sn_submitted sn) ∧
    (∀ id, match table s !! id with
           | Some r => if decide (r_state r = StateWorking)
                       then ∃ r', table s1 !! id = Some r' ∧ requeued_row t r r'
                       else table s1 !! id = Some r
           | None => table s1 !! id = None
           end) ∧
    Forall (recovered s1 s2 (rr_Requeued res) dead1) (sn_requeued sn) ∧
    Forall (recovered s2 s3 (rr_Submitted res) dead2) (sn_submitted sn) ∧
    (∀ id, id ∉ (select_state StateWorking (table s)).*1 → table s2 !! id = table s1 !! id) ∧
    (∀ id, id ∉ (select_state StateSubmitted (table s)).*1 → table s3 !! id = table s2 !! id) ∧
    rr_DeadLettered res = dead1 ++ dead2 ∧ table s' = table s3.
Proof.
  unfold Recover. destruct ctx; [done|]. intros Hr.
  bind_inv Hr as sn s1 Hsn. apply records_run in Hsn as [Hsn Hp1].
  apply recoverMetadata_run in Hsn as (_ & Hwid & Hwm & Hcan & Hsub & Hval & Htab).
  fold (table s) (table s1) in *.
  assert (Hrd1 : ∀ id, readable s1 id = readable s id) by (intros; unfold readable; by rewrite Hp1).
  pose proof (scans_to_ids _ _ Hsub) as Hsid.
  bind_inv Hr as [good1 dead1] s2 H1.
  apply recover_load_ok in H1 as (Hrd2 & Hall1 & Hout1); [|rewrite Hwid; apply NoDup_select_state|done].
  bind_inv Hr as [good2 dead2] s3 H2.
  apply recover_load_ok in H2 as (Hrd3 & Hall2 & Hout2);
    [|rewrite Hsid; apply NoDup_select_state|exact (scans_to_canonical _ _ Hsub)].
  bind_inv Hr as orph s4 Hq. injection Hr as <- <-. cbn [fst snd] in *.
  apply wrapS_ok, payloads_run in Hq as [Hq Hr4]. rewrite Hwid, Hsid in *.
  exists sn, s1, s2, s3, dead1, dead2. split; [done|].
  split; [intros id; by rewrite Hrd2|]. split; [|by unfold table; rewrite Hr4].
  intros id Hid. pose proof (Quarantine_frame (sn_validIDs sn) (sp_payloads s3) id) as Hqf.
  rewrite Hq in Hqf. cbn in Hqf. fold (readable s4) (readable s3) in Hqf.
  rewrite Hqf, Hrd3, Hrd2, Hrd1; [done|]. by rewrite Hval.
Qed.

(** C4. Startup recovery accounts for every record.  A record left [working] is
    [queued] again, due at the recovery time, without provider metadata, and
    reported with its message; a [submitted] one is reported and untouched;
    when the payload of either is corrupt the record is a dead letter and
    reported as such; every other record is untouched; and the payload of
    every record stays as readable as it was. *)
Theorem Recover_ok (ctx : option goerr) (t : time) (s s' : spool) (res : RecoveryResult) :
  Recover ctx t s = (s', inl res) →
  (∀ id r, table s !! id = Some r →
     recovery_of t s s' res id r ∧ readable s' id = readable s id) ∧
  (∀ id, table s !! id = None → table s' !! id = None).
Proof.
  intros (sn & s1 & s2 & s3 & dead1 & dead2 & Hrd1 & Hrd2 & Hrd' & Hwid & Hwm & Hsub & Htab
          & Hall1 & Hall2 & Hout1 & Hout2 & Hdead & Ht')%Recover_steps.
  rewrite Forall_forall in Hall1, Hall2, Hwm. split.
  2:{ intros id Hl. pose proof (Htab id) as Hid. rewrite Hl in Hid.
      rewrite Ht', Hout2, Hout1; [done|..]; intros (r' & Hl' & _)%elem_state_ids; congruence. }
  intros id r Hl. split; [|apply Hrd'; by apply elem_of_dom].
  pose proof (Htab id) as Hid. rewrite Hl in Hid.
  assert (Hex : ∀ st, r_state r ≠ st → id ∉ (select_state st (table s)).*1).
  { intros st Hst (r' & Hl' & Hs)%elem_state_ids. congruence. }
  unfold recovery_of. rewrite Ht', Hdead.
  destruct (decide (r_state r = StateWorking)) as [Hw|Hw].
  - assert (Hi : id ∈ (select_state StateWorking (table s)).*1) by (apply elem_state_ids; eauto).
    destruct (fmap_elem_meta id _ _ Hwid Hi) as (m & Hm & <-).
    rewrite Hout2 by (apply Hex; by rewrite Hw). destruct (Hwm m Hm) as (Hq1 & _).
    destruct (Hall1 m Hm) as [(msg & Ha & Hb & Hc)|(Ha & (d & Hb & Hb') & Hc)]; rewrite <- Hrd1.
    + right. rewrite Hc. destruct Hid as (r' & Hr' & Hrq). eexists _, r'. by split; [exact Hb|].
    + left. split; [done|]. split; [|done]. exists d. split; [set_solver|done].
  - destruct (decide (r_state r = StateSubmitted)) as [Hs|Hs].
    + assert (Hi : (id, r) ∈ select_state StateSubmitted (table s)) by (by apply elem_select_state).
      destruct (Forall2_elem _ _ _ _ Hsub Hi) as (m & Hm & Hsc).
      apply scanMetadata_id in Hsc as (Hmid & Hmst & _). cbn in Hmid, Hmst. subst id.
      destruct (Hall2 m Hm) as [(msg & Ha & Hb & Hc)|(Ha & (d & Hb & Hb') & Hc)]; rewrite <- Hrd2.
      * right. eexists. split; [exact Hb|]. cbn. rewrite Hmst, Hc, Hout1 by (by apply Hex). done.
      * left. split; [done|]. split; [|done]. exists d. split; [set_solver|done].
    + rewrite Hout2, Hout1 by (by apply Hex). done.
Qed.

End props.
