(* ===== verification/SpoolLife.v ===== *)
(** * The life of a spool

    Any sequence of [Store] operations and crashes, under any driver and
    filesystem faults: the committed table only moves along the record
    lifecycle and keeps satisfying the schema.  The last part runs an [Enqueue]
    whose [COMMIT] fails, and what follows it until the process restarts. *)
From S2P Require Import Prelude.
From S2P Require Import GoStrings.
From S2P Require Import GoTime.
From S2P Require Import GoErrors.
From S2P Require Import Email.
From S2P Require Import SpoolCommon.
From S2P Require Import Records.
From S2P Require Import RecordsProps.
From S2P Require Import RecordsSpec.
From S2P Require Import RecordsInv.
From S2P Require Import SpoolStore.
From S2P Require Import SpoolStoreProps.
#[local] Open Scope Z_scope.
#[local] Open Scope relay_scope.

(** The methods of the [Store] interface, [StateCounts], and a crash followed by
    reopening the database. *)
Inductive spool_op :=
  | OpEnqueue (ctx : option goerr) (msg : Message)
  | OpClaimReady (ctx : option goerr) (t : time)
  | OpNextSubmittedReady (t : time)
  | OpMarkSubmitted (rec : SpoolRecord) (result : SubmissionResult) (next : time)
  | OpMarkRetry (rec : SpoolRecord) (next : time) (lastErr : option LastError)
  | OpMarkSucceeded (rec : SpoolRecord)
  | OpMarkDeadLetter (rec : SpoolRecord) (lastErr : option LastError)
  | OpRecover (ctx : option goerr) (t : time)
  | OpStateCounts
  | OpCrash.

Section life.
Context `{U : UnicodeTables} `{Env : RecordEnv} `{Rnd : IDSource} {P : Payloads}.

(** The committed contents are all that is left. *)
Definition crash (s : spool) : spool :=
  MkSpool (MkDB (durable (sp_records s)) None false (db_calls (sp_records s))
             (db_ticks (sp_records s))) (sp_payloads s) (sp_ids s).

Definition run_op (o : spool_op) (s : spool) : spool :=
  match o with
  | OpEnqueue ctx msg => fst (Enqueue ctx msg s)
  | OpClaimReady ctx t => fst (ClaimReady ctx t s)
  | OpNextSubmittedReady t => fst (NextSubmittedReady t s)
  | OpMarkSubmitted rec result next => fst (MarkSubmitted rec result next s)
  | OpMarkRetry rec next lastErr => fst (MarkRetry rec next lastErr s)
  | OpMarkSucceeded rec => fst (MarkSucceeded rec s)
  | OpMarkDeadLetter rec lastErr => fst (MarkDeadLetter rec lastErr s)
  | OpRecover ctx t => fst (Recover ctx t s)
  | OpStateCounts => fst (StateCounts s)
  | OpCrash => crash s
  end.

Fixpoint run_ops (ops : list spool_op) (s : spool) : spool :=
  match ops with
  | [] => s
  | o :: ops => run_ops ops (run_op o s)
  end.

Section steps.
Context (T : relation (gmap string row)) `{!RowSteps T}.

Definition spool_rel (s s' : spool) : Prop :=
  durable_rel T (sp_records s) (sp_records s').

#[local] Instance spool_rel_preorder : PreOrder spool_rel.
Proof.
  split; [intros s; unfold spool_rel; reflexivity|].
  intros s1 s2 s3 H12 H23. unfold spool_rel in *. by etrans.
Qed.

Lemma records_keeps {A} (m : DB A) :
  keeps (durable_rel T) m → keeps spool_rel (records m).
Proof.
  intros Hm s. specialize (Hm (sp_records s)). unfold records, spool_rel.
  by destruct (m (sp_records s)).
Qed.

Lemma payloads_keeps {A} (m : io goerr pstate A) : keeps spool_rel (payloads m).
Proof. intros s. unfold payloads, spool_rel. destruct (m _). cbn. reflexivity. Qed.

Lemma newID_keeps : keeps spool_rel newID.
Proof. intros s. unfold spool_rel. cbn. reflexivity. Qed.

Lemma wrapS_keeps {A} op (m : SP A) : keeps spool_rel m → keeps spool_rel (wrapS op m).
Proof. intros Hm. apply keeps_try; [apply _|done|]. intros [?|?]; auto with goeff. Qed.

#[local] Hint Resolve payloads_keeps newID_keeps wrapS_keeps : goeff.

Lemma Enqueue_keeps ctx msg : keeps spool_rel (Enqueue ctx msg).
Proof.
  unfold Enqueue. destruct ctx; [auto with goeff|].
  apply keeps_bind; [apply _|by apply records_keeps, keeps_now, _|intros t].
  apply keeps_bind; [apply _|auto with goeff|intros id].
  apply keeps_bind; [apply _|auto with goeff|intros _].
  apply keeps_try; [apply _|by apply records_keeps, insertRecord_keeps|].
  intros [?|?]; [auto with goeff|]. apply keeps_bind; auto with goeff; apply _.
Qed.

Lemma claim_turn_keeps t : keeps spool_rel (claim_turn t).
Proof.
  apply keeps_bind_ok; [apply _|by apply records_keeps, claimReadyMetadata_keeps|].
  intros s s1 [m|] Hc; [|reflexivity].
  apply records_run in Hc as [Hc _]. apply claimReadyMetadata_run in Hc.
  assert (Hw : m_State m = StateWorking).
  { by destruct Hc as (x & m0 & k & _ & _ & -> & _). }
  clear Hc. revert s1. apply keeps_try; [apply _|auto with goeff|].
  intros [msg|e]; [auto with goeff|].
  cbv beta iota zeta. destruct (AsRecordCorruptionError _) as [[rid cause]|];
    (apply keeps_bind; [apply _| |auto with goeff]).
  - apply records_keeps, deadLetterCorruptRecord_keeps; [apply _|]. rewrite Hw. set_solver.
  - by apply records_keeps, requeueClaimedRecord_keeps.
Qed.

Lemma claim_loop_keeps n t : keeps spool_rel (claim_loop n t).
Proof.
  induction n as [|n IH]; cbn; [auto with goeff|].
  apply keeps_bind; [apply _|apply claim_turn_keeps|]. intros [o|[]]; auto with goeff.
Qed.

Lemma ClaimReady_keeps ctx t : keeps spool_rel (ClaimReady ctx t).
Proof.
  unfold ClaimReady. destruct ctx; [auto with goeff|].
  apply keeps_bind; [apply _|auto with goeff|]. intros s. apply claim_loop_keeps.
Qed.

Lemma recover_load_keeps what ms :
  Forall (λ m, m_State m ∈ [StateQueued; StateWorking; StateSubmitted]) ms →
  keeps spool_rel (recover_load what ms).
Proof.
  induction 1 as [|m ms Hm _ IH]; cbn; [auto with goeff|].
  apply keeps_try; [apply _|auto with goeff|]. intros [msg|e].
  - apply keeps_bind; auto with goeff; apply _.
  - cbv beta iota zeta.
    destruct (AsRecordCorruptionError _) as [[rid cause]|]; [|auto with goeff].
    apply keeps_bind; [apply _| |intros d].
    + by apply records_keeps, deadLetterCorruptRecord_keeps.
    + apply keeps_bind; auto with goeff; apply _.
Qed.

Lemma Recover_keeps ctx t : keeps spool_rel (Recover ctx t).
Proof.
  unfold Recover. destruct ctx; [auto with goeff|].
  apply keeps_bind_ok; [apply _|by apply records_keeps, recoverMetadata_keeps|].
  intros s s1 sn Hsn. apply records_run in Hsn as [Hsn _].
  apply recoverMetadata_run in Hsn as (_ & _ & Hw & _ & Hsub & _).
  assert (Hs : Forall (λ m, m_State m ∈ [StateQueued; StateWorking; StateSubmitted])
                 (sn_submitted sn)).
  { apply Forall_forall. intros m Hm. apply list_elem_of_lookup in Hm as [i Hi].
    destruct (Forall2_lookup_r _ _ _ _ _ Hsub Hi) as ([id r] & Hl & Hsc).
    apply list_elem_of_lookup_2, elem_select_state in Hl as [_ Hst].
    apply scanMetadata_id in Hsc as (_ & -> & _). cbn. rewrite Hst. set_solver. }
  clear Hsub. revert s1. apply keeps_bind; [apply _| |intros good].
  { apply recover_load_keeps. eapply Forall_impl; [exact Hw|].
    intros m [-> _]. set_solver. }
  apply keeps_bind; [apply _|by apply recover_load_keeps|intros sub].
  apply keeps_bind; auto with goeff; apply _.
Qed.

Lemma crash_keeps s : spool_rel s (crash s).
Proof. intros _. split; [done|]. unfold crash, durable. cbn. reflexivity. Qed.

Lemma run_op_keeps o s : spool_rel s (run_op o s).
Proof.
  destruct o; cbn.
  - apply Enqueue_keeps.
  - apply ClaimReady_keeps.
  - by apply records_keeps, nextSubmittedReady_keeps.
  - by apply records_keeps, markSubmitted_keeps.
  - by apply records_keeps, markRetry_keeps.
  - by apply records_keeps, markSucceeded_keeps.
  - by apply records_keeps, markDeadLetter_keeps.
  - apply Recover_keeps.
  - by apply records_keeps, stateCounts_keeps.
  - apply crash_keeps.
Qed.

Lemma run_ops_keeps ops s : spool_rel s (run_ops ops s).
Proof.
  revert s. induction ops as [|o ops IH]; intros s; cbn; [reflexivity|].
  etrans; [apply run_op_keeps|apply IH].
Qed.

Lemma run_ops_rel ops s :
  db_txn (sp_records s) = None → T (table s) (table (run_ops ops s)).
Proof.
  intros Hn. apply (run_ops_keeps ops s). intros t Ht. congruence.
Qed.
End steps.

(** C2. Over any sequence of store operations and crashes, whatever faults the driver
    and the filesystem produce: no record is ever deleted, every record's
    state moves along lifecycle transitions only, new records enter as
    [queued], and a record that reached [succeeded] or [dead-letter] stays
    there. *)
Theorem spool_lifecycle (ops : list spool_op) (s : spool) :
  db_txn (sp_records s) = None →
  evolves (table s) (table (run_ops ops s)) ∧
  ∀ id r, table s !! id = Some r → terminal (r_state r) →
    ∃ r', table (run_ops ops s) !! id = Some r' ∧ r_state r' = r_state r.
Proof.
  intros Hn. pose proof (run_ops_rel evolves ops s Hn) as He. split; [done|].
  intros id r. by apply evolves_terminal.
Qed.

(** C28. Starting from a table that satisfies the schema under canonical identifiers
    (an empty one does), after any sequence of operations and crashes every
    committed row does, so every record can be read back. *)
Theorem spool_table_ok (ops : list spool_op) (s : spool) :
  db_txn (sp_records s) = None → table_ok (table s) →
  table_ok (table (run_ops ops s)) ∧
  ∀ id r, table (run_ops ops s) !! id = Some r → ∃ m, scanMetadata id r = inl m.
Proof.
  intros Hn Hok. pose proof (run_ops_rel stays_ok ops s Hn Hok) as Hok'. split; [done|].
  intros id r. by apply table_ok_scans.
Qed.

(** ** One failed commit *)

Section wedged.
Hypothesis Hreset : drv_resets = false.

(** A transaction is open on the pooled connection, and stays open. *)
Definition stuck (s : spool) : Prop := is_Some (db_txn (sp_records s)).
Definition held (s s' : spool) : Prop :=
  stuck s → db_txn (sp_records s') = db_txn (sp_records s).

#[local] Instance held_preorder : PreOrder held.
Proof.
  split; [by intros s|]. intros s1 s2 s3 H12 H23 Hs. rewrite H23; [by apply H12|].
  unfold stuck. by rewrite H12.
Qed.

(** [rejects], for the spool. *)
Definition refuses {A} (m : SP A) : Prop :=
  ∀ s, stuck s → (∃ e, snd (m s) = inr e) ∧ held s (fst (m s)).

Lemma refuses_held {A} (m : SP A) : refuses m → keeps held m.
Proof. intros Hm s Hs. by apply (Hm s Hs). Qed.

Lemma refuses_fail {A} e : refuses (fail e : SP A).
Proof. intros s _. split; [by eexists|done]. Qed.

Lemma refuses_records {A} (m : DB A) : rejects m → refuses (records m).
Proof.
  intros Hm s Hs. destruct (Hm (sp_records s) Hs) as [[e He] Hd]. unfold records.
  destruct (m (sp_records s)) as [d r]. cbn in *. split; [by eexists|]. by intros _.
Qed.

Lemma held_records {A} (m : DB A) : keeps same_db m → keeps held (records m).
Proof.
  intros Hm s _. specialize (Hm (sp_records s)). unfold records.
  destruct (m (sp_records s)). by destruct Hm as (_ & Ht & _).
Qed.

Lemma held_payloads {A} (m : io goerr pstate A) : keeps held (payloads m).
Proof. intros s _. unfold payloads. by destruct (m _). Qed.

Lemma held_newID : keeps held newID.
Proof. by intros s _. Qed.

Lemma held_wrapS {A} op (m : SP A) : keeps held m → keeps held (wrapS op m).
Proof. intros Hm. apply keeps_try; [apply _|done|]. intros [?|?]; auto with goeff. Qed.

(** The step that fails may come first, or after one that leaves the
    transaction alone. *)
Lemma refuses_bind {A B} (m : SP A) (k : A → SP B) : refuses m → refuses (bind m k).
Proof.
  intros Hm s Hs. destruct (Hm s Hs) as [[e He] Hd]. unfold bind.
  destruct (m s) as [s1 [a|e1]]; [done|]. split; [by eexists|exact Hd].
Qed.

Lemma refuses_after {A B} (m : SP A) (k : A → SP B) :
  keeps held m → (∀ a, refuses (k a)) → refuses (bind m k).
Proof.
  intros Hm Hk s Hs. specialize (Hm s Hs). unfold bind.
  destruct (m s) as [s1 [a|e]]; cbn in Hm |- *; [|split; [by eexists|by intros _]].
  assert (Hs1 : stuck s1) by (unfold stuck; by rewrite Hm).
  destruct (Hk a s1 Hs1) as [He Hh]. split; [done|]. intros _. by rewrite (Hh Hs1).
Qed.

Lemma refuses_try {A B} (m : SP A) (k : A + goerr → SP B) :
  refuses m → (∀ e, refuses (k (inr e))) → refuses (try m k).
Proof.
  intros Hm Hk s Hs. destruct (Hm s Hs) as [[e He] Hh]. unfold try.
  destruct (m s) as [s1 r]. cbn in He, Hh. subst r. specialize (Hh Hs).
  assert (Hs1 : stuck s1) by (unfold stuck; by rewrite Hh).
  destruct (Hk e s1 Hs1) as [He Hh1]. split; [done|]. intros _. by rewrite (Hh1 Hs1).
Qed.

Lemma Enqueue_refuses ctx msg : refuses (Enqueue ctx msg).
Proof.
  unfold Enqueue. destruct ctx; [apply refuses_fail|].
  apply refuses_after; [apply held_records, now_same|intros t].
  apply refuses_after; [apply held_wrapS, held_newID|intros id].
  apply refuses_after; [apply held_wrapS, held_payloads|intros _].
  apply refuses_try; [by apply refuses_records, insertRecord_rejects|]. intros e.
  apply refuses_after; [apply keeps_ignore, held_payloads|intros _; apply refuses_fail].
Qed.

Lemma ClaimReady_refuses ctx t : refuses (ClaimReady ctx t).
Proof.
  unfold ClaimReady. destruct ctx; [apply refuses_fail|]. intros s Hs. unfold bind, get.
  assert (Hl : refuses (claim_loop (S (size (db_cur (sp_records s)))) t)); [|by apply Hl].
  cbn [claim_loop]. apply refuses_bind, refuses_bind, refuses_records.
  by apply immediate_rejects.
Qed.

Lemma Recover_refuses ctx t : refuses (Recover ctx t).
Proof.
  unfold Recover. destruct ctx; [apply refuses_fail|].
  apply refuses_bind, refuses_records. by apply immediate_rejects.
Qed.

Lemma MarkSubmitted_refuses rec result next : refuses (MarkSubmitted rec result next).
Proof. by apply refuses_records, markSubmitted_rejects. Qed.
Lemma MarkRetry_refuses rec next le : refuses (MarkRetry rec next le).
Proof. by apply refuses_records, markRetry_rejects. Qed.
Lemma MarkSucceeded_refuses rec : refuses (MarkSucceeded rec).
Proof. by apply refuses_records, markSucceeded_rejects. Qed.
Lemma MarkDeadLetter_refuses rec le : refuses (MarkDeadLetter rec le).
Proof. by apply refuses_records, markDeadLetter_rejects. Qed.

Lemma run_op_held o s : o ≠ OpCrash → held s (run_op o s).
Proof.
  intros Ho. destruct o; cbn; [..|done].
  - apply refuses_held, Enqueue_refuses.
  - apply refuses_held, ClaimReady_refuses.
  - apply held_records. unfold nextSubmittedReady.
    apply keeps_bind; [apply _|apply queryOne_same|auto with goeff].
  - apply refuses_held, MarkSubmitted_refuses.
  - apply refuses_held, MarkRetry_refuses.
  - apply refuses_held, MarkSucceeded_refuses.
  - apply refuses_held, MarkDeadLetter_refuses.
  - apply refuses_held, Recover_refuses.
  - apply held_records, stateCounts_same.
Qed.

Lemma run_ops_held ops s : OpCrash ∉ ops → held s (run_ops ops s).
Proof.
  revert s. induction ops as [|o ops IH]; intros s Hn; cbn; [by intros _|].
  apply not_elem_of_cons in Hn as [Ho Hn].
  etrans; [by apply run_op_held, not_eq_sym|by apply IH].
Qed.

(** The operations that write. *)
Inductive writing : spool_op → Prop :=
  | writing_enqueue ctx msg : writing (OpEnqueue ctx msg)
  | writing_claim ctx t : writing (OpClaimReady ctx t)
  | writing_submitted rec result next : writing (OpMarkSubmitted rec result next)
  | writing_retry rec next le : writing (OpMarkRetry rec next le)
  | writing_succeeded rec : writing (OpMarkSucceeded rec)
  | writing_dead rec le : writing (OpMarkDeadLetter rec le)
  | writing_recover ctx t : writing (OpRecover ctx t).

(** The error an operation returns. *)
Definition op_error (o : spool_op) (s : spool) : option goerr :=
  let err {A} (r : A + goerr) := match r with inl _ => None | inr e => Some e end in
  match o with
  | OpEnqueue ctx msg => err (snd (Enqueue ctx msg s))
  | OpClaimReady ctx t => err (snd (ClaimReady ctx t s))
  | OpNextSubmittedReady t => err (snd (NextSubmittedReady t s))
  | OpMarkSubmitted rec result next => err (snd (MarkSubmitted rec result next s))
  | OpMarkRetry rec next lastErr => err (snd (MarkRetry rec next lastErr s))
  | OpMarkSucceeded rec => err (snd (MarkSucceeded rec s))
  | OpMarkDeadLetter rec lastErr => err (snd (MarkDeadLetter rec lastErr s))
  | OpRecover ctx t => err (snd (Recover ctx t s))
  | OpStateCounts => err (snd (StateCounts s))
  | OpCrash => None
  end.

Lemma writing_refused o s : writing o → stuck s → is_Some (op_error o s).
Proof.
  assert (He : ∀ A (m : SP A), refuses m → stuck s →
    is_Some (match snd (m s) with inl _ => None | inr e => Some e end)).
  { intros A m Hm Hs. destruct (Hm s Hs) as [[e ->] _]. by eexists. }
  intros [] Hs; cbn; apply He; auto using Enqueue_refuses, ClaimReady_refuses,
    MarkSubmitted_refuses, MarkRetry_refuses, MarkSucceeded_refuses, MarkDeadLetter_refuses,
    Recover_refuses.
Qed.

(** C32. One failed [COMMIT] stops the store until the process is restarted.  Take an
    [Enqueue] on an idle connection that gets as far as the [COMMIT] of its
    insert, and let that [COMMIT] report an error without having taken effect,
    with a pool that does not roll back returned connections.  [Enqueue] reports
    the error and nothing is committed, but its transaction stays open: whatever
    operations follow, without a restart, nothing is ever committed again and
    every operation that writes fails. *)
Theorem failed_commit_wedges (s : spool) (msg : Message) (id : string) (p : pstate) (e : goerr)
    (ops : list spool_op) :
  let db := sp_records s in
  let rec := new_record id msg (clock (db_ticks db)) in
  db_txn db = None → newUUIDv4 (rand_Read (sp_ids s)) = inl id → canonical_id id →
  Save id msg (sp_payloads s) = (p, inl tt) → table s !! id = None →
  row_check id (rowOf rec) = true →
  (∀ k, (k < 3)%nat → drv_fault (k + db_calls db) = None) →
  drv_fault (3 + db_calls db) = Some e → drv_lands (3 + db_calls db) = false →
  OpCrash ∉ ops →
  snd (Enqueue None msg s) = inr (wrapStoreError "commit sqlite transaction" e) ∧
  let s' := run_ops ops (fst (Enqueue None msg s)) in
  table s' = table s ∧ ∀ o, writing o → is_Some (op_error o s').
Proof.
  intros db rec Hn Hid Hcan Hsave Hl Hck Hf He Hlands Hops.
  set (db1 := MkDB (db_cur db) (db_txn db) (db_conn db) (db_calls db) (S (db_ticks db))).
  destruct (insertRecord_commit_fails Hreset rec db1 e) as (d & Hi & Ht); try done.
  { cbn. rewrite <- (durable_idle db Hn). exact Hl. }
  assert (Hq : Enqueue None msg s =
    (MkSpool d (fst (Remove id p)) (S (sp_ids s)),
     inr (wrapStoreError "commit sqlite transaction" e))).
  { unfold Enqueue, bind, wrapS, try, records at 1, now, newID, payloads. cbn.
    rewrite Hid. cbn. rewrite Hsave. cbn. unfold records. cbn. fold db db1 rec. rewrite Hi.
    unfold ignore. cbn. by destruct (Remove id p). }
  rewrite Hq. split; [done|]. intros s'. cbn [fst] in s'. set (s1 := MkSpool d _ _) in s'.
  assert (Hs1 : stuck s1) by (unfold stuck; cbn; rewrite Ht; by eexists).
  assert (Hh : db_txn (sp_records s') = Some (durable db1))
    by (rewrite <- Ht; by apply (run_ops_held ops s1 Hops)).
  split.
  - unfold table. unfold durable at 1. rewrite Hh. reflexivity.
  - intros o Ho. apply writing_refused; [done|]. unfold stuck. rewrite Hh. eexists. done.
Qed.
End wedged.
End life.
