(* ===== verification/StoreLaws.v ===== *)
(** * The SQLite and filesystem spool implements the [Store] contract *)
From S2P Require Import Prelude.
From S2P Require Import GoStrings.
From S2P Require Import GoTime.
From S2P Require Import GoErrors.
From S2P Require Import Email.
From S2P Require Import SpoolCommon.
From S2P Require Import Records.
From S2P Require Import RecordsProps.
From S2P Require Import RecordsSpec.
From S2P Require Import RecordsInv.
From S2P Require Import SpoolStore.
From S2P Require Import SpoolStoreProps.
#[local] Open Scope Z_scope.
#[local] Open Scope relay_scope.

Section laws.
Context `{U : UnicodeTables} `{Env : RecordEnv} `{Rnd : IDSource}.
Context {P : Payloads} {V : PayloadView P} {L : PayloadLaws P}.

Definition entry (r : row) : State * Z := (r_state r, r_attempt r).
Definition table_ledger (t : gmap string row) : ledger_t := entry <$> t.
Definition spool_ledger (s : spool) : ledger_t := table_ledger (table s).
Definition spool_settled (s : spool) : Prop := db_txn (sp_records s) = None.

Lemma ledger_lookup (t : gmap string row) id r :
  t !! id = Some r → table_ledger t !! id = Some (entry r).
Proof. intros Hl. unfold table_ledger. by rewrite lookup_fmap, Hl. Qed.

Lemma scanMetadata_attempt id r m : scanMetadata id r = inl m → m_Attempt m = r_attempt r.
Proof.
  unfold scanMetadata. destruct (validateCanonicalRecordID id); [|done]. intros Hs.
  repeat (match type of Hs with (if ?b then _ else _) = _ => destruct b; [done|] end).
  destruct (scanLastError id r); [|done]. by injection Hs as <-.
Qed.

(** The record a row stands for. *)
Definition row_record (id : string) (r : row) : option SpoolRecord :=
  match scanMetadata id r with inl m => Some (toRecord m) | inr _ => None end.
Definition spool_committed (s : spool) (id : string) : option SpoolRecord :=
  table s !! id ≫= row_record id.

Lemma spool_committed_scan s id r m :
  table s !! id = Some r → scanMetadata id r = inl m → spool_committed s id = Some (toRecord m).
Proof. intros Hl Hs. unfold spool_committed, row_record. rewrite Hl. cbn. by rewrite Hs. Qed.

Lemma spool_committed_ledger s id r :
  spool_committed s id = Some r →
  rec_ID r = id ∧ spool_ledger s !! id = Some (rec_State r, rec_Attempt r).
Proof.
  unfold spool_committed, row_record. destruct (table s !! id) as [x|] eqn:Hl; [|done]. cbn.
  destruct (scanMetadata id x) as [m|] eqn:Hs; [|done]. intros [= <-].
  destruct (scanMetadata_id _ _ _ Hs) as (Hid & Hst & _). apply scanMetadata_attempt in Hs.
  split; [done|]. unfold spool_ledger. rewrite (ledger_lookup _ _ _ Hl).
  unfold entry. cbn. by rewrite Hst, Hs.
Qed.

Lemma scanMetadata_next id r m :
  scanMetadata id r = inl m → m_NextAttemptAt m / Millisecond = r_next_attempt_at_ms r.
Proof.
  unfold scanMetadata. destruct (validateCanonicalRecordID id); [|done]. intros Hs.
  repeat (match type of Hs with (if ?b then _ else _) = _ => destruct b; [done|] end).
  destruct (scanLastError id r); [|done]. injection Hs as <-. cbn.
  unfold millisToTime, ofUnixMilli. by apply Z.div_mul.
Qed.

(** *** Writes *)

(** A record-store operation that ends in one guarded update. *)
Definition db_writes {A} (m : DB A) (id : string) (x : State * Z) : Prop :=
  ∀ s, (durable (fst (m s)) = durable s ∧ ∃ e, snd (m s) = inr e) ∨
       (db_txn s = None ∧ ∃ r, is_Some (durable s !! id) ∧ entry r = x ∧
        durable (fst (m s)) = <[id := r]> (durable s)).

Lemma updateRecord_settled st upd s :
  is_Some (db_txn s) → durable (fst (updateRecord st upd s)) = durable s ∧
                       ∃ e, snd (updateRecord st upd s) = inr e.
Proof.
  intros [t Ht]. unfold updateRecord.
  destruct (validateCanonicalRecordID _); [|by eauto]. destruct (negb _ || negb _); [by eauto|].
  set (body := bind _ _). split.
  - destruct (immediate_durable body s) as [->|(s1 & (Hn & _) & _)]; [done|congruence].
  - destruct (immediate body s) as [s' [a|e]] eqn:Hi; [|by eauto].
    apply immediate_ok in Hi as (? & ? & ? & (Hn & _) & _). congruence.
Qed.

Lemma updateRecord_writes st upd :
  db_writes (updateRecord st upd) (rec_ID upd) (rec_State upd, rec_Attempt upd).
Proof.
  intros s. destruct (db_txn s) as [t|] eqn:Hn.
  { left. apply updateRecord_settled. by rewrite Hn. }
  pose proof (updateRecord_atomic st upd s) as Ha.
  pose proof (updateRecord_ok st upd s) as Hk.
  destruct (updateRecord st upd s) as [s' [[]|e]] eqn:Hu; cbn in *.
  - right. destruct (Hk s' eq_refl) as (_ & _ & _ & _ & (r & Hl & _) & Hd).
    split; [done|]. exists (rowOf upd). split; [by eexists|]. done.
  - destruct Ha as [Ha|(_ & (r & Hl & _) & Ha)]; [left; by eauto|right].
    split; [done|]. exists (rowOf upd). split; [by eexists|]. done.
Qed.

Lemma db_writes_ret {A B} (m : DB A) (b : B) id x :
  db_writes m id x → db_writes (m ;;! ret b) id x.
Proof.
  intros Hm s. specialize (Hm s). unfold bind. destruct (m s) as [s' [a|e]]; cbn in *;
    (destruct Hm as [[Hd [e' He]]|Hm]; [|by right]); [done|left; eauto].
Qed.

Lemma db_writes_now {A} (k : time → DB A) id x :
  (∀ t, db_writes (k t) id x) → db_writes (let! t := now in k t) id x.
Proof.
  intros Hk s. unfold bind, now.
  exact (Hk (clock (db_ticks s)) (MkDB (db_cur s) (db_txn s) (db_conn s) (db_calls s) (S (db_ticks s)))).
Qed.

(** Lifting to the spool. *)
Lemma records_writes {A} (m : DB A) id x :
  db_writes m id x →
  @writes SpoolStore A spool_ledger spool_settled (records m) id x.
Proof.
  intros Hm s. specialize (Hm (sp_records s)). unfold records.
  destruct (m (sp_records s)) as [d r]. cbn in *.
  unfold spool_ledger, table, spool_settled. cbn.
  destruct Hm as [[-> He]|(Hn & r' & Hl & <- & ->)]; [left; done|right].
  split; [done|]. split.
  - unfold table_ledger. rewrite lookup_fmap. by apply fmap_is_Some.
  - unfold table_ledger. by rewrite fmap_insert.
Qed.

Ltac clocks := repeat (apply db_writes_now; intros ?).
Ltac write_mark := apply db_writes_ret, updateRecord_writes.

Lemma markSubmitted_writes rec result next :
  rec_State rec = StateWorking →
  db_writes (markSubmitted rec result next) (rec_ID rec) (submitted_entry rec).
Proof.
  intros Hw. unfold markSubmitted. rewrite decide_False by tauto. clocks. write_mark.
Qed.

(** The two-branch mark operations. *)
Ltac two_branches :=
  intros [Hs|Hs%list_elem_of_singleton]%elem_of_cons; rewrite Hs; clocks;
  [rewrite decide_True by done|rewrite decide_False by done; rewrite decide_True by done];
  write_mark.

Lemma markRetry_writes rec next lastErr :
  rec_State rec ∈ [StateWorking; StateSubmitted] →
  db_writes (markRetry rec next lastErr) (rec_ID rec) (retry_entry rec).
Proof. unfold markRetry, retry_entry, final_entry. two_branches. Qed.

Lemma markSucceeded_writes rec :
  rec_State rec ∈ [StateWorking; StateSubmitted] →
  db_writes (markSucceeded rec) (rec_ID rec) (succeeded_entry rec).
Proof. unfold markSucceeded, succeeded_entry, final_entry. two_branches. Qed.

Lemma markDeadLetter_writes rec lastErr :
  rec_State rec ∈ [StateWorking; StateSubmitted] →
  db_writes (markDeadLetter rec lastErr) (rec_ID rec) (dead_entry rec).
Proof. unfold markDeadLetter, dead_entry, final_entry. two_branches. Qed.
Lemma db_writes_wrapped {A} op (m : DB A) id x :
  db_writes m id x → db_writes (wrapped op m) id x.
Proof.
  intros Hm s. specialize (Hm s). unfold wrapped, try. destruct (m s) as [s' [a|e]]; cbn in *;
    (destruct Hm as [[Hd [e' He]]|Hm]; [|by right]); [done|left; eauto].
Qed.

Lemma deadLetterCorruptRecord_writes m cause :
  db_writes (deadLetterCorruptRecord m cause) (m_ID m) (StateDeadLetter, m_Attempt m).
Proof.
  unfold deadLetterCorruptRecord. clocks. case_decide; write_mark.
Qed.

Lemma requeueClaimedRecord_writes m :
  db_writes (requeueClaimedRecord m) (m_ID m) (StateQueued, m_Attempt m).
Proof.
  unfold requeueClaimedRecord. clocks. apply db_writes_wrapped. apply updateRecord_writes.
Qed.

(** *** Claims *)

Definition claims_step (t t' : gmap string row) : Prop :=
  ∀ id, claim_step (table_ledger t !! id) (table_ledger t' !! id).

#[local] Instance claims_step_preorder : PreOrder claims_step.
Proof.
  split; [intros t id; by left|]. intros t1 t2 t3 H12 H23 id.
  specialize (H12 id). specialize (H23 id).
  destruct H12 as [H12|(a & H1 & H2)]; [by rewrite H12 in H23|].
  destruct H23 as [H23|(b & H3 & _)].
  - rewrite H23. right. eauto.
  - destruct H2 as [H2|H2]; rewrite H2 in H3; injection H3 as Hx _; discriminate Hx.
Qed.

Lemma claims_step_insert t id r x :
  t !! id = Some r → claim_step (Some (entry r)) (Some (entry x)) →
  claims_step t (<[id := x]> t).
Proof.
  intros Hl Hs i. unfold table_ledger. rewrite fmap_insert.
  destruct (decide (i = id)) as [-> |Hne].
  - rewrite lookup_insert_eq. by rewrite lookup_fmap, Hl.
  - rewrite lookup_insert_ne by done. by left.
Qed.

Lemma claimReadyMetadata_step t s :
  claims_step (durable s) (durable (fst (claimReadyMetadata t s))).
Proof.
  destruct (db_txn s) as [t0|] eqn:Hn.
  { unfold claimReadyMetadata. set (body := bind _ _).
    destruct (immediate_durable body s) as [->|(s1 & (Hn' & _) & _)]; [done|congruence]. }
  apply (keeps_claimReadyMetadata claims_step); [|intros t0; congruence].
  intros tb id r ms Hl Hq _. eapply claims_step_insert; [done|].
  right. exists (r_attempt r). unfold entry. cbn. rewrite Hq. auto.
Qed.

Lemma claim_turn_step t s : claims_step (table s) (table (fst (claim_turn t s))).
Proof.
  unfold claim_turn, bind at 1.
  pose proof (claimReadyMetadata_step t (sp_records s)) as Hstep.
  pose proof (claimReadyMetadata_run t (sp_records s)) as Hok.
  unfold records at 1. destruct (claimReadyMetadata t (sp_records s)) as [d [[m|]|e]] eqn:Hc;
    cbn in Hstep |- *; [|done|done].
  destruct (Hok d (Some m) eq_refl) as (r & m0 & k & (Hl & (Hq & _) & _) & Hsc & -> & Hd & _).
  clear Hok. cbn [m_ID claimed] in *. fold (table s) in Hl, Hd, Hstep.
  pose proof (scanMetadata_attempt _ _ _ Hsc) as Hat. cbn in Hq.
  assert (Hw : ∀ A (m : DB A) x d', db_writes m (m_ID m0) (x, r_attempt r) →
            claim_step (Some (StateQueued, r_attempt r)) (Some (x, r_attempt r)) →
            durable d' = durable d → claims_step (table s) (durable (fst (m d')))).
  { intros A m x d' Hwr Hx Hd'. destruct (Hwr d') as [[-> _]|(_ & y & _ & Hy & ->)]; rewrite Hd'.
    - done.
    - rewrite Hd, insert_insert_eq. eapply claims_step_insert; [done|].
      rewrite Hy. unfold entry. by rewrite Hq. }
  unfold try at 1, payloads. cbn. destruct (Load (m_ID m0) (sp_payloads s)) as [p [msg|e]];
    cbn; [done|].
  destruct (AsRecordCorruptionError _) as [[rid cause]|]; unfold bind, records; cbn.
  - specialize (Hw _ (deadLetterCorruptRecord (claimed m0 (clock k)) (RecordCorruptionError rid cause))
                  StateDeadLetter d).
    assert (Hd' := Hw ltac:(rewrite <- Hat; exact (deadLetterCorruptRecord_writes (claimed m0 (clock k)) _))
                      ltac:(right; eexists; split; [done|by left]) eq_refl).
    by destruct (deadLetterCorruptRecord _ _ d) as [d' [?|?]].
  - specialize (Hw _ (requeueClaimedRecord (claimed m0 (clock k))) StateQueued d).
    assert (Hd' := Hw ltac:(rewrite <- Hat; exact (requeueClaimedRecord_writes (claimed m0 (clock k))))
                      ltac:(by left) eq_refl).
    by destruct (requeueClaimedRecord _ d) as [d' [?|?]].
Qed.

Lemma ClaimReady_step ctx t s : claims_step (table s) (table (fst (ClaimReady ctx t s))).
Proof.
  unfold ClaimReady. destruct ctx; [done|]. unfold bind, get. cbn -[claim_loop].
  generalize (S (size (db_cur (sp_records s)))). intros n. revert s.
  induction n as [|n IH]; intros s; cbn; [done|]. unfold bind.
  pose proof (claim_turn_step t s) as Ht.
  destruct (claim_turn t s) as [s1 [[o|[]]|e]]; cbn in *; [done| |done].
  etrans; [exact Ht|apply IH].
Qed.

Lemma ClaimReady_some ctx t s s' rec :
  ClaimReady ctx t s = (s', inl (Some rec)) →
  ∃ r, spool_committed s (rec_ID rec) = Some r ∧ rec_State r = StateQueued ∧ due_by t r ∧
    readable s (rec_ID rec) = Some (rec_Message rec) ∧
    rec = claimed_record r (rec_Message rec) (rec_UpdatedAt rec) ∧
    spool_ledger s' !! rec_ID rec = Some (StateWorking, rec_Attempt rec).
Proof.
  unfold ClaimReady. destruct ctx; [done|]. intros (dead & _ & _ & Ho & _)%claim_loop_ok.
  destruct Ho as (_ & x & m0 & (Hl & Hq & Hdue) & _ & Hsc & Hmsg & Hrec & Hl').
  exists (toRecord m0). split; [by eapply spool_committed_scan|].
  destruct (scanMetadata_id _ _ _ Hsc) as (_ & Hst & _). cbn in Hq, Hdue.
  split; [cbn; congruence|]. split; [unfold due_by; cbn; by rewrite (scanMetadata_next _ _ _ Hsc)|].
  split; [done|]. split; [exact Hrec|]. unfold spool_ledger. rewrite (ledger_lookup _ _ _ Hl').
  unfold entry. cbn. apply scanMetadata_attempt in Hsc. rewrite Hrec. cbn. by rewrite Hsc.
Qed.

Lemma NextSubmittedReady_some t s s' rec :
  NextSubmittedReady t s = (s', inl (Some rec)) →
  rec_State rec = StateSubmitted ∧ due_by t rec ∧
  (spool_settled s' → spool_committed s (rec_ID rec) = Some rec).
Proof.
  intros [Hn Hp]%records_run. apply nextSubmittedReady_ok in Hn as [Hs (id & r & m & Hf & Hsc & ->)].
  destruct Hf as (Hl & (Hq & Hdue) & _). cbn in Hq, Hdue.
  destruct (scanMetadata_id _ _ _ Hsc) as (Hid & Hst & _).
  split; [cbn; congruence|]. split; [unfold due_by; cbn; by rewrite (scanMetadata_next _ _ _ Hsc)|].
  intros Hset. destruct Hs as (_ & Ht & _). unfold spool_settled in Hset. rewrite Ht in Hset.
  cbn. rewrite Hid. eapply spool_committed_scan; [|exact Hsc].
  unfold table. by rewrite (durable_idle _ Hset).
Qed.

Lemma nextSubmittedReady_same t : keeps same_db (nextSubmittedReady t).
Proof.
  unfold nextSubmittedReady. apply keeps_bind; [apply _|apply queryOne_same|].
  intros o. apply keeps_ret. apply _.
Qed.

Lemma Enqueue_ledger ctx msg s s' rec :
  Enqueue ctx msg s = (s', inl rec) →
  rec_Message rec = msg ∧ spool_ledger s !! rec_ID rec = None ∧
  spool_ledger s' = <[rec_ID rec := (StateQueued, 0)]> (spool_ledger s).
Proof.
  intros (_ & Hrec & _ & Hn & Ht & _)%Enqueue_run. split; [by rewrite Hrec|].
  unfold spool_ledger, table_ledger. rewrite lookup_fmap, Hn, Ht, fmap_insert.
  split; [done|]. f_equal. by rewrite Hrec.
Qed.

Lemma Enqueue_ledger_any ctx msg s : spool_ledger s ⊆ spool_ledger (fst (Enqueue ctx msg s)).
Proof.
  destruct (Enqueue ctx msg s) as [s' r] eqn:He.
  apply Enqueue_cases in He as [_ [Ht|(rec & _ & Hn & Ht)]];
    apply map_fmap_mono; cbn; rewrite Ht; [done|by apply insert_subseteq].
Qed.

(** The contract, discharged. *)
#[global] Program Instance SpoolStore_laws : StoreLaws SpoolStore := {|
  ledger := spool_ledger;
  committed := spool_committed;
  mail := readable;
  settled := spool_settled;
|}.
Next Obligation. intros ctx msg s s' rec. apply Enqueue_ledger. Qed.
Next Obligation. intros ctx msg s. apply Enqueue_ledger_any. Qed.
Next Obligation. intros s id r. apply spool_committed_ledger. Qed.
Next Obligation. intros ctx t s s' rec. apply ClaimReady_some. Qed.
Next Obligation. intros ctx t s id. apply ClaimReady_step. Qed.
Next Obligation. intros t s s' rec. apply NextSubmittedReady_some. Qed.
Next Obligation.
  intros t s. cbn. unfold NextSubmittedReady, records, spool_ledger, table.
  pose proof (nextSubmittedReady_same t (sp_records s)) as Hs.
  destruct (nextSubmittedReady t (sp_records s)). cbn in *. by rewrite (same_durable _ _ Hs).
Qed.
Next Obligation. intros. by apply records_writes, markSubmitted_writes. Qed.
Next Obligation. intros. by apply records_writes, markRetry_writes. Qed.
Next Obligation. intros. by apply records_writes, markSucceeded_writes. Qed.
Next Obligation. intros. by apply records_writes, markDeadLetter_writes. Qed.
End laws.
