(* ===== verification/PayloadFS.v ===== *)
(** * internal/spool/payload_fs.go

    Directory trees and the file operations of the payload store.

    The file system is one tree.  A descriptor is the path it was opened under:
    the code never moves a directory it still uses through a descriptor.  Every
    file and directory records whether its content was synced since it was last
    changed; a crash can undo exactly what is not synced.  Permissions and
    times are left out, so [Fchmod] can only fail.

    A system call reports the state of the tree ([ENOENT], [EEXIST], [ENOTDIR],
    [ELOOP], [ENOTEMPTY]) or fails for a reason of its own, which [sys_fault]
    decides for the n-th call; [exdev] says whether the n-th call, a rename
    between two directories, crosses devices, [short_write] how much a failing
    write wrote, [dir_order] in which order [ReadDir] lists names. [os.NewFile] returns nil only for a negative
    descriptor. *)
From Stdlib Require Import Ascii.
From S2P Require Import Prelude.
From S2P Require Import GoStrings.
From S2P Require Import GoTime.
From S2P Require Import GoErrors.
From S2P Require Import SpoolCommon.
#[local] Open Scope Z_scope.
#[local] Open Scope relay_scope.

(** ** The tree *)

Inductive node :=
  | File (data : string) (synced : bool)
  | Dir (entries : gmap string node) (synced : bool)
  | Symlink
  | Special.

(** [stat.Mode & S_IFMT] *)
Inductive kind := S_IFDIR | S_IFREG | S_IFLNK | S_IFOTHER.
#[export] Instance kind_eq_dec : EqDecision kind.
Proof. solve_decision. Defined.

Definition kind_of (n : node) : kind :=
  match n with
  | File _ _ => S_IFREG | Dir _ _ => S_IFDIR | Symlink => S_IFLNK | Special => S_IFOTHER
  end.

Abbreviation path := (list string).

Fixpoint fs_get (p : path) (n : node) : option node :=
  match p with
  | [] => Some n
  | x :: p => match n with Dir es _ => es !! x ≫= fs_get p | _ => None end
  end.

Fixpoint fs_upd (p : path) (f : node → node) (n : node) : node :=
  match p with
  | [] => f n
  | x :: p => match n with Dir es b => Dir (alter (fs_upd p f) x es) b | _ => n end
  end.

(** Changes of one directory or file. *)
Definition set_entry (x : string) (c : node) (n : node) : node :=
  match n with Dir es _ => Dir (<[x := c]> es) false | _ => n end.
Definition del_entry (x : string) (n : node) : node :=
  match n with Dir es _ => Dir (delete x es) false | _ => n end.
Definition set_data (d : string) (n : node) : node :=
  match n with File _ _ => File d false | _ => n end.
Definition mark_synced (n : node) : node :=
  match n with File d _ => File d true | Dir es _ => Dir es true | _ => n end.

(** Levels of directories below and including [n]. *)
Fixpoint depth (n : node) : nat :=
  match n with
  | Dir es _ => S (map_fold (λ _ c acc, Nat.max (depth c) acc) O es)
  | _ => O
  end.

(** ** State and system calls *)

Class FSEnv := {
  sys_fault : nat → option string;
  exdev : nat → bool;
  short_write : nat → nat;
  pay_rand : nat → bytes + goerr;
  dir_order : list string → list string;
  cwd : path;
}.

(** The tree, the system calls made and the identifiers drawn. *)
Record pst := MkP { p_tree : node; p_calls : nat; p_draws : nat }.

Section fs.
Context `{U : UnicodeTables} `{Env : FSEnv}.

Definition PM := io goerr pst.

Definition errno_fail {A} (e : errno) : PM A := fail (EErrno e).

(** One system call: it counts, and may fail for a reason of its own. *)
Definition syscall : PM unit := λ s,
  (MkP (p_tree s) (S (p_calls s)) (p_draws s),
   match sys_fault (p_calls s) with Some t => inr (EErrno (Eother t)) | None => inl tt end).

Definition set_tree (f : node → node) : PM unit :=
  modify (λ s, MkP (f (p_tree s)) (p_calls s) (p_draws s)).

Definition draw_uuid : PM string := λ s,
  (MkP (p_tree s) (p_calls s) (S (p_draws s)), newUUIDv4 (pay_rand (p_draws s))).

(** The entries of the directory a descriptor stands for. *)
Definition entries_of (fd : path) : PM (gmap string node) :=
  let! s := get in
  match fs_get fd (p_tree s) with
  | Some (Dir es _) => ret es
  | Some _ => errno_fail ENOTDIR
  | None => errno_fail ENOENT
  end.

Definition entry_of (fd : path) (name : string) : PM node :=
  let! es := entries_of fd in
  match es !! name with Some n => ret n | None => errno_fail ENOENT end.

(** [O_RDONLY|O_DIRECTORY|O_NOFOLLOW] *)
Definition sys_Openat_dir (fd : path) (name : string) : PM path :=
  syscall ;;!
  let! n := entry_of fd name in
  match n with
  | Dir _ _ => ret (fd ++ [name])
  | _ => errno_fail ENOTDIR
  end.

(** [O_RDONLY|O_NOFOLLOW] *)
Definition sys_Openat_read (fd : path) (name : string) : PM path :=
  syscall ;;!
  let! n := entry_of fd name in
  match n with
  | Symlink => errno_fail ELOOP
  | _ => ret (fd ++ [name])
  end.

(** [O_WRONLY|O_CREAT|O_EXCL] *)
Definition sys_Openat_create (fd : path) (name : string) : PM path :=
  syscall ;;!
  let! es := entries_of fd in
  match es !! name with
  | Some _ => errno_fail EEXIST
  | None => set_tree (fs_upd fd (set_entry name (File "" false))) ;;! ret (fd ++ [name])
  end.

Definition sys_Mkdirat (fd : path) (name : string) : PM unit :=
  syscall ;;!
  let! es := entries_of fd in
  match es !! name with
  | Some _ => errno_fail EEXIST
  | None => set_tree (fs_upd fd (set_entry name (Dir ∅ false)))
  end.

Definition sys_Fstat (fd : path) : PM kind :=
  syscall ;;!
  let! s := get in
  match fs_get fd (p_tree s) with Some n => ret (kind_of n) | None => errno_fail ENOENT end.

(** With [AT_SYMLINK_NOFOLLOW]. *)
Definition sys_Fstatat (fd : path) (name : string) : PM kind :=
  syscall ;;! let! n := entry_of fd name in ret (kind_of n).

Definition sys_Fsync (fd : path) : PM unit :=
  syscall ;;! set_tree (fs_upd fd mark_synced).

(** A failing write leaves a part of the data. *)
Definition sys_Write (fd : path) (data : string) : PM unit :=
  let! s := get in
  try syscall (λ r,
    match r with
    | inr e =>
        set_tree (fs_upd fd (set_data (sb (take (short_write (p_calls s)) (bs data))))) ;;! fail e
    | inl _ => set_tree (fs_upd fd (set_data data))
    end).

Definition sys_ReadAll (fd : path) : PM string :=
  syscall ;;!
  let! s := get in
  match fs_get fd (p_tree s) with
  | Some (File d _) => ret d
  | _ => errno_fail (Eother "is a directory")
  end.

Definition sys_Unlinkat (fd : path) (name : string) : PM unit :=
  syscall ;;!
  let! n := entry_of fd name in
  match n with
  | Dir _ _ => errno_fail (Eother "is a directory")
  | _ => set_tree (fs_upd fd (del_entry name))
  end.

(** [AT_REMOVEDIR] *)
Definition sys_Rmdirat (fd : path) (name : string) : PM unit :=
  syscall ;;!
  let! n := entry_of fd name in
  match n with
  | Dir es _ =>
      if decide (es = ∅) then set_tree (fs_upd fd (del_entry name)) else errno_fail ENOTEMPTY
  | _ => errno_fail ENOTDIR
  end.

(** What may stand at the target of a rename. *)
Definition rename_error (n : node) (target : option node) : option errno :=
  match target with
  | None => None
  | Some t =>
      match n, t with
      | Dir _ _, Dir es _ => if decide (es = ∅) then None else Some ENOTEMPTY
      | Dir _ _, _ => Some ENOTDIR
      | _, Dir _ _ => Some (Eother "is a directory")
      | _, _ => None
      end
  end.

Definition sys_Renameat (sfd : path) (sname : string) (tfd : path) (tname : string) : PM unit :=
  let! s := get in
  syscall ;;!
  let! n := entry_of sfd sname in
  let! target := entries_of tfd in
  if negb (bool_decide (sfd = tfd)) && exdev (p_calls s) then errno_fail EXDEV
  else if decide (sfd ++ [sname] = tfd ++ [tname]) then ret tt
  else if decide (sfd ++ [sname] `prefix_of` tfd) then errno_fail (Eother "invalid argument")
  else match rename_error n (target !! tname) with
       | Some e => errno_fail e
       | None =>
           set_tree (fs_upd sfd (del_entry sname)) ;;!
           set_tree (fs_upd tfd (set_entry tname n))
       end.

(** [unix.Close]; the descriptor is gone either way. *)
Definition sys_Close (fd : path) : PM unit := syscall.

(** [Dup], [ReadDir(-1)] and [Close].  The duplicate shares the offset of [fd];
    no descriptor is listed twice. *)
Definition readDirectoryEntriesFD (fd : path) : PM (list string) :=
  syscall ;;!
  finally (syscall ;;!
           let! es := entries_of fd in
           ret (dir_order (map_to_list es).*1)) (sys_Close fd).

Definition unixClose (fd : path) : PM unit :=
  try (sys_Close fd) (λ r,
    match r with inr e => fail (EWrapf "close file descriptor" e) | inl _ => ret tt end).

(** ** Error helpers *)

(** [fmt.Errorf(what + ": %w", err)] *)
Definition wrapf {A} (what : string) (m : PM A) : PM A :=
  try m (λ r, match r with inr e => fail (EWrapf what e) | inl a => ret a end).

Definition is_errno (n : errno) (e : goerr) : bool :=
  errors_Is (λ e, match e with
                  | EErrno m => if decide (m = n) then Some tt else None
                  | _ => None
                  end) e.
Definition is_UnexpectedFileType (e : goerr) : bool :=
  errors_Is (λ e, match e with EUnexpectedFileType => Some tt | _ => None end) e.

Definition isCrossDeviceError (e : goerr) : bool := is_errno EXDEV e.

(** [filepath.Join] of a clean directory and one name. *)
Definition join (dir name : string) : string :=
  if decide (dir = "") then name
  else if decide (dir = ".") then name
  else if decide (dir = "/") then "/" +:+ name
  else dir +:+ "/" +:+ name.

Definition unexpectedEntryError (rootPath name : string) : goerr :=
  EWrapf ("unexpected spool entry " +:+ join rootPath name) EUnexpectedFileType.

Definition classifyRecordPathError (id path : string) (err : goerr) (missingMessage : string)
    : goerr :=
  if is_errno ENOENT err then PayloadCorruptionError id path (EText missingMessage)
  else if is_errno ELOOP err then
    PayloadCorruptionError id path (EText "path must not be a symlink")
  else if is_errno ENOTDIR err || is_UnexpectedFileType err then
    PayloadCorruptionError id path (EText "unexpected file type")
  else EWrapf ("read payload path " +:+ path) err.

(** ** Opening *)

Definition requireFileType (fd : path) (expected : kind) : PM unit :=
  let! k := sys_Fstat fd in
  if decide (k = expected) then ret tt else fail EUnexpectedFileType.

(** Run [m]; when it fails, run the clean-up and return the error. *)
Definition on_error {A} (m : PM A) (cleanup : PM unit) : PM A :=
  try m (λ r, match r with inr e => ignore cleanup ;;! fail e | inl a => ret a end).

(** [startPath] is the root or the current directory. *)
Definition openDirectoryNoFollow (start : path) : PM path :=
  syscall ;;!
  let! s := get in
  match fs_get start (p_tree s) with
  | Some (Dir _ _) =>
      on_error (requireFileType start S_IFDIR) (sys_Close start) ;;! ret start
  | Some _ => errno_fail ENOTDIR
  | None => errno_fail ENOENT
  end.

Definition openDirectoryAtNoFollow (fd : path) (name : string) : PM path :=
  let! nfd := sys_Openat_dir fd name in
  on_error (requireFileType nfd S_IFDIR) (sys_Close nfd) ;;! ret nfd.

Definition readRegularFileAtNoFollow (fd : path) (name : string) : PM string :=
  let! nfd := sys_Openat_read fd name in
  finally (requireFileType nfd S_IFREG ;;! sys_ReadAll nfd) (sys_Close nfd).

Definition syncFD (fd : path) (p : string) : PM unit :=
  wrapf ("fsync directory " +:+ p) (sys_Fsync fd).

(** [None] when the entry does not exist. *)
Definition entryModeAt (fd : path) (name : string) : PM (option kind) :=
  try (sys_Fstatat fd name) (λ r,
    match r with
    | inl k => ret (Some k)
    | inr e => if is_errno ENOENT e then ret None else fail e
    end).

Definition requireEntryTypeAt (fd : path) (name : string) (expected : kind) : PM unit :=
  let! k := sys_Fstatat fd name in
  if decide (k = expected) then ret tt else fail EUnexpectedFileType.

Definition renameDirectoryAt (sfd : path) (sname : string) (tfd : path) (tname : string)
    : PM unit :=
  requireEntryTypeAt sfd sname S_IFDIR ;;! sys_Renameat sfd sname tfd tname.

(** *** Paths *)

Fixpoint clean_components (rooted : bool) (acc comps : list string) : list string :=
  match comps with
  | [] => reverse acc
  | c :: comps =>
      if decide (c = "" ∨ c = ".") then clean_components rooted acc comps
      else if decide (c = "..") then
        match acc with
        | [] => clean_components rooted (if rooted then [] else [".."]) comps
        | h :: t => clean_components rooted (if decide (h = "..") then ".." :: acc else t) comps
        end
      else clean_components rooted (c :: acc) comps
  end.

Definition IsAbs (p : string) : bool := HasPrefix p "/".

Definition filepath_Clean (p : string) : string :=
  let comps := clean_components (IsAbs p) [] (Split p (chr 47)) in
  if IsAbs p then "/" +:+ Join comps "/"
  else if decide (comps = []) then "." else Join comps "/".

(** The loop over the components. *)
Fixpoint walk_components (create : bool) (whole : string) (fd : path) (currentPath : string)
    (comps : list string) : PM path :=
  match comps with
  | [] => ret fd
  | c :: comps =>
      if decide (c = "" ∨ c = ".") then walk_components create whole fd currentPath comps
      else if decide (c = "..") then
        ignore (sys_Close fd) ;;!
        fail (EText ("directory path " +:+ Quote whole +:+ " must not contain parent traversal"))
      else
        let nextPath := join currentPath c in
        let! created :=
          (if create then
             try (sys_Mkdirat fd c) (λ r,
               match r with
               | inl _ => ret true
               | inr e =>
                   if is_errno EEXIST e then ret false
                   else ignore (sys_Close fd) ;;!
                        fail (EWrapf ("create spool directory " +:+ nextPath) e)
               end)
           else ret false) in
        let! nfd := on_error (wrapf ("open spool directory " +:+ nextPath)
                                (openDirectoryAtNoFollow fd c)) (sys_Close fd) in
        (if (created : bool) then
           on_error (wrapf ("chmod spool directory " +:+ nextPath) syscall ;;!
                     syncFD nfd nextPath ;;! syncFD fd currentPath)
             (ignore (sys_Close fd) ;;! sys_Close nfd)
         else ret tt) ;;!
        on_error (wrapf ("close spool directory " +:+ currentPath) (sys_Close fd))
          (sys_Close nfd) ;;!
        walk_components create whole nfd nextPath comps
  end.

(** The descriptor and the clean path. *)
Definition walkDirectoryPathNoFollow (p : string) (create : bool) : PM (path * string) :=
  let cleanPath := filepath_Clean p in
  let startPath := if IsAbs cleanPath then "/" else "." in
  let! fd := wrapf ("open spool directory " +:+ startPath)
               (openDirectoryNoFollow (if IsAbs cleanPath then [] else cwd)) in
  let components := Split cleanPath (chr 47) in
  let components := if IsAbs cleanPath then tail components else components in
  let! fd := walk_components create p fd startPath components in
  ret (fd, cleanPath).

Definition ensureDirectoryPathNoFollow (p : string) : PM (path * string) :=
  walkDirectoryPathNoFollow p true.
Definition openDirectoryPathNoFollow (p : string) : PM (path * string) :=
  walkDirectoryPathNoFollow p false.

(** ** Creating *)

(** What follows a successful [Mkdirat]: open, chmod, sync it and the parent. *)
Definition settle_directory (fd : path) (parentPath name : string) : PM path :=
  let p := join parentPath name in
  let! nfd := wrapf ("open spool directory " +:+ p) (openDirectoryAtNoFollow fd name) in
  on_error (wrapf ("chmod spool directory " +:+ p) syscall ;;!
            syncFD nfd p ;;! syncFD fd parentPath) (sys_Close nfd) ;;!
  ret nfd.

Definition createDirectoryAt (fd : path) (parentPath name : string) : PM path :=
  wrapf ("create spool directory " +:+ join parentPath name) (sys_Mkdirat fd name) ;;!
  settle_directory fd parentPath name.

Definition ensureDirectoryAt (fd : path) (parentPath name : string) : PM path :=
  let p := join parentPath name in
  let! created :=
    try (sys_Mkdirat fd name) (λ r,
      match r with
      | inl _ => ret true
      | inr e => if is_errno EEXIST e then ret false
                 else fail (EWrapf ("create spool directory " +:+ p) e)
      end) in
  let! nfd := wrapf ("open spool directory " +:+ p) (openDirectoryAtNoFollow fd name) in
  on_error (wrapf ("chmod spool directory " +:+ p) syscall ;;! syncFD nfd p ;;!
            (if (created : bool) then syncFD fd parentPath else ret tt)) (sys_Close nfd) ;;!
  ret nfd.

(** Sixteen attempts at a fresh name [prefix ++ recordID ++ "-" ++ uuid]. *)
Fixpoint create_unique (n : nat) (suffixOf dirOf prefix : string) (fd : path)
    (parentPath recordID : string) : PM (string * path) :=
  match n with
  | O => fail (EText ("create " +:+ dirOf +:+ " directory for " +:+ recordID
                      +:+ ": exhausted unique names"))
  | S n =>
      let! suffix := wrapf ("generate " +:+ suffixOf +:+ " suffix for " +:+ recordID) draw_uuid in
      let name := prefix +:+ recordID +:+ "-" +:+ suffix in
      try (sys_Mkdirat fd name) (λ r,
        match r with
        | inr e =>
            if is_errno EEXIST e
            then create_unique n suffixOf dirOf prefix fd parentPath recordID
            else fail (EWrapf ("create spool directory " +:+ join parentPath name) e)
        | inl _ => let! nfd := settle_directory fd parentPath name in ret (name, nfd)
        end)
  end.

Definition publishTempPrefix : string := ".publish-".

Definition createStagingDirectoryAt (fd : path) (parentPath recordID : string)
    : PM (string * path) :=
  create_unique 16 "staging" "staging" ".stage-" fd parentPath recordID.
Definition createPublishTempDirectoryAt (fd : path) (parentPath recordID : string)
    : PM (string * path) :=
  create_unique 16 "publish" "publish temp" publishTempPrefix fd parentPath recordID.

Fixpoint unique_temp (n : nat) (fd : path) (prefix : string) : PM string :=
  match n with
  | O => fail (EText "exhausted unique temp names")
  | S n =>
      let! suffix := draw_uuid in
      let name := prefix +:+ suffix in
      try (sys_Fstatat fd name) (λ r,
        match r with
        | inl _ => unique_temp n fd prefix
        | inr e => if is_errno ENOENT e then ret name else fail e
        end)
  end.

Definition uniqueTempName (fd : path) (prefix : string) : PM string := unique_temp 16 fd prefix.

(** The temporary file is unlinked when anything after its creation fails; the
    descriptor is closed on every path. *)
Definition writeRegularFileAt (fd : path) (parentPath name data : string) : PM unit :=
  let! tmpName := wrapf ("create temp payload file in " +:+ parentPath)
                    (uniqueTempName fd ".tmp-") in
  let tmpPath := join parentPath tmpName in
  on_error
    (let! tfd := wrapf ("create temp payload file " +:+ tmpPath) (sys_Openat_create fd tmpName) in
     on_error
       (wrapf ("write payload file " +:+ tmpPath) (sys_Write tfd data) ;;!
        wrapf ("fsync payload file " +:+ tmpPath) (sys_Fsync tfd) ;;!
        wrapf ("chmod payload file " +:+ tmpPath) syscall ;;!
        wrapf ("close payload file " +:+ tmpPath) (sys_Close tfd))
       (sys_Close tfd) ;;!
     wrapf ("rename payload file " +:+ tmpPath +:+ " -> " +:+ join parentPath name)
       (sys_Renameat fd tmpName fd name))
    (sys_Unlinkat fd tmpName) ;;!
  syncFD fd parentPath.

(** The loop of [uniqueQuarantineNameAt] with [n] turns left. *)
Fixpoint quarantine_name (n : nat) (i : Z) (fd : path) (name target : string) : PM string :=
  match n with
  | O => fail (EText "quarantine names exhausted")
  | S n =>
      try (sys_Fstatat fd target) (λ r,
        match r with
        | inl _ => quarantine_name n (i + 1) fd name (name +:+ "-" +:+ Itoa i)
        | inr e => if is_errno ENOENT e then ret target else fail e
        end)
  end.

(** One turn more than there are entries. *)
Definition uniqueQuarantineNameAt (fd : path) (name : string) : PM string :=
  let! s := get in
  let n := match fs_get fd (p_tree s) with Some (Dir es _) => size es | _ => O end in
  quarantine_name (S n) 1 fd name name.

(** ** Recursive removal and copying

    [fuel] bounds the levels of directories below. *)

(** Run [f] on each name; stop at the first error. *)
Fixpoint for_each (f : string → PM unit) (names : list string) : PM unit :=
  match names with
  | [] => ret tt
  | x :: names => f x ;;! for_each f names
  end.

Fixpoint remove_entry (fuel : nat) (fd : path) (parentPath name : string) : PM unit :=
  let p := join parentPath name in
  let! mode := wrapf ("stat spool entry " +:+ p) (entryModeAt fd name) in
  match mode with
  | None => ret tt
  | Some S_IFDIR =>
      match fuel with
      | O => fail (EText "directory tree too deep")
      | S fuel =>
          let! dfd := wrapf ("open spool directory " +:+ p) (openDirectoryAtNoFollow fd name) in
          on_error
            (let! names := wrapf ("read directory " +:+ p) (readDirectoryEntriesFD dfd) in
             for_each (remove_entry fuel dfd p) names) (sys_Close dfd) ;;!
          wrapf ("close spool directory " +:+ p) (sys_Close dfd) ;;!
          wrapf ("remove spool directory " +:+ p) (sys_Rmdirat fd name)
      end
  | Some S_IFREG => wrapf ("remove spool file " +:+ p) (sys_Unlinkat fd name)
  | Some _ => fail (EWrapf ("unexpected file type at " +:+ p) EUnexpectedFileType)
  end.

(** Enough for any tree: the levels of the whole one. *)
Definition removeEntryTreeAt (fd : path) (parentPath name : string) : PM unit :=
  let! s := get in remove_entry (depth (p_tree s)) fd parentPath name.

Definition removeTreeContentsFD (fd : path) (dirPath : string) : PM unit :=
  let! names := wrapf ("read directory " +:+ dirPath) (readDirectoryEntriesFD fd) in
  for_each (removeEntryTreeAt fd dirPath) names.

(** [copyDirectoryEntries] with the function that copies a subdirectory: one
    entry, and the loop. *)
Definition copy_entry (copyTree : string → PM unit) (sfd : path) (sourcePath : string)
    (tfd : path) (targetPath : string) (name : string) : PM unit :=
  let p := join sourcePath name in
  let! mode := wrapf ("stat spool entry " +:+ p) (entryModeAt sfd name) in
  match mode with
  | None => fail (EText ("spool entry disappeared during copy: " +:+ p))
  | Some S_IFDIR => copyTree name
  | Some S_IFREG =>
      let! data := wrapf ("read spool file " +:+ p) (readRegularFileAtNoFollow sfd name) in
      writeRegularFileAt tfd targetPath name data
  | Some _ => fail (EWrapf ("unexpected file type at " +:+ p) EUnexpectedFileType)
  end.

Definition copy_entries (copyTree : string → PM unit) (sfd : path) (sourcePath : string)
    (tfd : path) (targetPath : string) : PM unit :=
  let! names := wrapf ("read directory " +:+ sourcePath) (readDirectoryEntriesFD sfd) in
  for_each (copy_entry copyTree sfd sourcePath tfd targetPath) names.

Fixpoint copy_tree (fuel : nat) (sfd : path) (sourceParentPath sname : string)
    (tfd : path) (targetParentPath tname : string) : PM unit :=
  let! targetFD := createDirectoryAt tfd targetParentPath tname in
  let targetPath := join targetParentPath tname in
  let sourcePath := join sourceParentPath sname in
  on_error
    (finally
       (let! sourceFD := wrapf ("open spool directory " +:+ sourcePath)
                           (openDirectoryAtNoFollow sfd sname) in
        finally
          (match fuel with
           | O => fail (EText "directory tree too deep")
           | S fuel =>
               copy_entries
                 (λ name, copy_tree fuel sourceFD sourcePath name targetFD targetPath name)
                 sourceFD sourcePath targetFD targetPath
           end ;;! syncFD targetFD targetPath)
          (sys_Close sourceFD))
       (sys_Close targetFD))
    (ignore (removeEntryTreeAt tfd targetParentPath tname) ;;! syncFD tfd targetParentPath).

Definition copyDirectoryTreeAt (sfd : path) (sourceParentPath sname : string)
    (tfd : path) (targetParentPath tname : string) : PM unit :=
  let! s := get in copy_tree (depth (p_tree s)) sfd sourceParentPath sname tfd targetParentPath tname.

Definition copyDirectoryEntries (sfd : path) (sourcePath : string) (tfd : path)
    (targetPath : string) : PM unit :=
  let! s := get in
  let fuel := depth (p_tree s) in
  copy_entries (λ name, copy_tree fuel sfd sourcePath name tfd targetPath name)
    sfd sourcePath tfd targetPath.

Definition copyDirectoryContentsAt (sfd : path) (sourceParentPath sname : string)
    (tfd : path) (targetParentPath tname : string) : PM unit :=
  let sourcePath := join sourceParentPath sname in
  let targetPath := join targetParentPath tname in
  let! sourceFD := wrapf ("open spool directory " +:+ sourcePath)
                     (openDirectoryAtNoFollow sfd sname) in
  finally
    (let! targetFD := wrapf ("open spool directory " +:+ targetPath)
                        (openDirectoryAtNoFollow tfd tname) in
     finally (copyDirectoryEntries sourceFD sourcePath targetFD targetPath) (sys_Close targetFD))
    (sys_Close sourceFD).
End fs.
