(* ===== verification/PayloadTree.v ===== *)
(** * Reasoning about directory trees

    Lookups and updates of the tree, and a judgement about the operations of
    [PayloadFS]: [stays], an invariant every run keeps whatever fails, with what
    a result satisfies. *)
From Stdlib Require Import Ascii.
From S2P Require Import Prelude.
From S2P Require Import GoStrings.
From S2P Require Import GoTime.
From S2P Require Import GoErrors.
From S2P Require Import SpoolCommon.
From S2P Require Import PayloadFS.
#[local] Open Scope Z_scope.
#[local] Open Scope relay_scope.

Create HintDb fsdb.

(** ** Paths *)

(** Neither path lies below the other. *)
Definition away (q p : path) : Prop := ¬ q `prefix_of` p ∧ ¬ p `prefix_of` q.

Lemma away_sym q p : away q p → away p q.
Proof. intros [? ?]. by split. Qed.

Lemma away_app q p r : away q p → away q (p ++ r).
Proof.
  intros [Hq Hp]. split.
  - intros Hr. destruct (prefix_weak_total q p (p ++ r)) as [H|H]; try done.
    by apply prefix_app_r.
  - intros Hr. apply Hp. by eapply prefix_app_l.
Qed.

Lemma away_siblings p x y q r : x ≠ y → away (p ++ x :: q) (p ++ y :: r).
Proof.
  intros Hne. split; intros H%prefix_app_inv.
  - apply Hne. by eapply prefix_cons_inv_1.
  - apply Hne. symmetry. by eapply prefix_cons_inv_1.
Qed.

#[export] Hint Resolve away_app away_sym : fsdb.

(** ** Lookups and updates *)

Definition put (p : path) (n : node) (t : node) : node := fs_upd p (λ _, n) t.

Lemma fs_get_app p q t : fs_get (p ++ q) t = fs_get p t ≫= fs_get q.
Proof.
  revert t. induction p as [|x p IH]; intros t; cbn; [done|].
  destruct t as [|es ?| |]; cbn; try done. destruct (es !! x); cbn; [apply IH|done].
Qed.

Lemma fs_get_entry p x t n es b :
  fs_get p t = Some (Dir es b) → es !! x = Some n → fs_get (p ++ [x]) t = Some n.
Proof. intros Hp Hx. rewrite fs_get_app, Hp. cbn. by rewrite Hx. Qed.

Lemma fs_get_upd p q f t : fs_get (p ++ q) (fs_upd p f t) = fs_get p t ≫= λ n, fs_get q (f n).
Proof.
  revert t. induction p as [|x p IH]; intros t; cbn; [done|].
  destruct t as [|es ?| |]; cbn; try done. rewrite lookup_alter_eq.
  destruct (es !! x); cbn; [apply IH|done].
Qed.

Lemma fs_get_upd_away p q f t : away q p → fs_get q (fs_upd p f t) = fs_get q t.
Proof.
  revert q t. induction p as [|x p IH]; intros q t [Hq Hp]; [by destruct Hp; apply prefix_nil|].
  destruct q as [|y q]; [by destruct Hq; apply prefix_nil|]. cbn.
  destruct t as [|es ?| |]; cbn; try done. destruct (decide (x = y)) as [->|Hne].
  - rewrite lookup_alter_eq. destruct (es !! y); cbn; [|done]. apply IH.
    split; intros H; [apply Hq|apply Hp]; by apply prefix_cons.
  - by rewrite lookup_alter_ne.
Qed.

Lemma fs_upd_put p f t n : fs_get p t = Some n → fs_upd p f t = put p (f n) t.
Proof.
  revert t. induction p as [|x p IH]; intros t; cbn; [by intros [= ->]|].
  destruct t as [|es b| |]; try done. cbn. destruct (es !! x) as [c|] eqn:Hx; [|done]. cbn.
  intros Hc. f_equal. apply map_eq. intros y. destruct (decide (x = y)) as [<-|Hne].
  - rewrite !lookup_alter_eq, Hx. cbn. f_equal. by apply IH.
  - by rewrite !lookup_alter_ne.
Qed.

Lemma put_put p n n' t : put p n (put p n' t) = put p n t.
Proof.
  unfold put. revert t. induction p as [|x p IH]; intros t; cbn; [done|].
  destruct t as [|es b| |]; cbn; try done. f_equal. apply map_eq. intros y. destruct (decide (x = y)) as [<-|Hne].
  - rewrite !lookup_alter_eq. destruct (es !! x); cbn; [|done]. f_equal. apply IH.
  - by rewrite !lookup_alter_ne.
Qed.

Lemma get_put p n n' t : fs_get p t = Some n → fs_get p (put p n' t) = Some n'.
Proof.
  intros Hp. pose proof (fs_get_upd p [] (λ _, n') t) as H. rewrite app_nil_r in H.
  unfold put. by rewrite H, Hp.
Qed.

(** An update below a directory is an update of the directory. *)
Lemma put_entry p x n m t es b :
  fs_get p t = Some (Dir es b) → es !! x = Some m →
  put (p ++ [x]) n t = put p (Dir (<[x := n]> es) b) t.
Proof.
  unfold put. revert t. induction p as [|y p IH]; intros t; cbn.
  - intros [= ->] Hx. f_equal. apply map_eq. intros z. destruct (decide (x = z)) as [<-|Hne].
    + by rewrite lookup_alter_eq, lookup_insert_eq, Hx.
    + by rewrite lookup_alter_ne, lookup_insert_ne.
  - destruct t as [|es' b'| |]; try done. destruct (es' !! y) as [c|] eqn:Hy; [|done]. cbn.
    intros Hc Hx. f_equal. apply map_eq. intros z. destruct (decide (y = z)) as [<-|Hne].
    + rewrite !lookup_alter_eq, Hy. cbn. f_equal. by apply IH.
    + by rewrite !lookup_alter_ne.
Qed.

Lemma put_same p n t : fs_get p t = Some n → put p n t = t.
Proof.
  unfold put. revert t. induction p as [|x p IH]; intros t; cbn; [by intros [= ->]|].
  destruct t as [|es b| |]; try done. destruct (es !! x) as [c|] eqn:Hx; [|done]. cbn.
  intros Hc. f_equal. apply map_eq. intros y. destruct (decide (x = y)) as [<-|Hne].
  - rewrite lookup_alter_eq, Hx. cbn. f_equal. by apply IH.
  - by rewrite lookup_alter_ne.
Qed.

(** ** Content that cannot be lost *)

Definition node_synced (n : node) : Prop :=
  match n with File _ b | Dir _ b => b = true | _ => False end.

(** Everything from [n] down is a synced file or directory. *)
Definition settled (n : node) : Prop := ∀ q m, fs_get q n = Some m → node_synced m.

Lemma settled_file d : settled (File d true).
Proof. intros [|x q] m; cbn; [by intros [= <-]|done]. Qed.

Lemma settled_dir es : (∀ x n, es !! x = Some n → settled n) → settled (Dir es true).
Proof.
  intros Hes [|x q] m; cbn; [by intros [= <-]|].
  destruct (es !! x) as [n|] eqn:Hx; [|done]. cbn. intros Hm. exact (Hes _ _ Hx _ _ Hm).
Qed.

(** Regular files and directories all the way down. *)
Definition plain (n : node) : Prop :=
  ∀ q m, fs_get q n = Some m → match m with File _ _ | Dir _ _ => True | _ => False end.

(** And no name that [writeRegularFileAt] may pick for a temporary file. *)
Definition tidy (n : node) : Prop :=
  plain n ∧ ∀ q es b, fs_get q n = Some (Dir es b) → ∀ x, es !! (".tmp-" +:+ x) = None.

Lemma plain_child es b x n : plain (Dir es b) → es !! x = Some n → plain n.
Proof. intros Hp Hx q m Hm. apply (Hp (x :: q)). cbn. by rewrite Hx. Qed.

Lemma tidy_child es b x n : tidy (Dir es b) → es !! x = Some n → tidy n.
Proof.
  intros [Hp Ht] Hx. split; [by eapply plain_child|].
  intros q es' b' Hq. apply (Ht (x :: q) _ b'). cbn. by rewrite Hx.
Qed.

(** What a copy looks like: the same content, synced. *)
Fixpoint copied (n : node) : node :=
  match n with
  | File d _ => File d true
  | Dir es _ => Dir (copied <$> es) true
  | _ => n
  end.

(** *** Levels *)

Lemma depth_child es b x n : es !! x = Some n → (depth n < depth (Dir es b))%nat.
Proof.
  cbn. revert x n. change ((λ acc (m : gmap string node), ∀ x n, m !! x = Some n →
    (depth n < S acc)%nat) (map_fold (λ _ c acc, Nat.max (depth c) acc) O es) es).
  apply map_fold_weak_ind; [done|]. intros y c m acc Hy IH x n Hx.
  destruct (decide (x = y)) as [->|Hne].
  - rewrite lookup_insert_eq in Hx. injection Hx as ->. lia.
  - rewrite lookup_insert_ne in Hx by done. specialize (IH _ _ Hx). lia.
Qed.

Lemma depth_get p t n : fs_get p t = Some n → (depth n <= depth t)%nat.
Proof.
  revert t. induction p as [|x p IH]; intros t; cbn [fs_get]; [by intros [= ->]|].
  destruct t as [|es b| |]; try done. destruct (es !! x) as [c|] eqn:Hx; [|done]. cbn -[depth].
  intros Hn%IH. apply (depth_child _ b) in Hx. lia.
Qed.

(** A node whose parts are all synced is its own copy. *)
Lemma copied_settled n : settled n → copied n = n.
Proof.
  remember (depth n) as k eqn:Hk. revert n Hk. induction (lt_wf k) as [k _ IH].
  intros n -> Hn. pose proof (Hn [] n eq_refl) as Hb.
  destruct n as [d b|es b| |]; cbn in *; try done; subst; [done|].
  f_equal. apply map_eq. intros x. rewrite lookup_fmap. destruct (es !! x) as [c|] eqn:Hx; [|done].
  cbn. f_equal. eapply IH; [|done|].
  - by apply (depth_child _ true) in Hx.
  - intros q m Hm. apply (Hn (x :: q)). cbn. by rewrite Hx.
Qed.

(** ** Invariants *)

Section stays.
Context `{U : UnicodeTables} `{Env : FSEnv}.

(** Every run of [m] from a tree that satisfies [I] ends in one; when it
    succeeds its result satisfies [Q]. *)
Definition stays (I : node → Prop) {A} (m : PM A) (Q : A → Prop) : Prop := ∀ s,
  I (p_tree s) →
  match m s with
  | (s', inl a) => I (p_tree s') ∧ Q a
  | (s', inr _) => I (p_tree s')
  end.

End stays.

Abbreviation kept I m := (stays I m (λ _, True)).

Section rules.
Context `{U : UnicodeTables} `{Env : FSEnv} (I : node → Prop).

Lemma st_ret {A} (a : A) (Q : A → Prop) : Q a → stays I (ret a) Q.
Proof. intros HQ s Hs. by split. Qed.
Lemma st_fail {A} e (Q : A → Prop) : stays I (fail e) Q.
Proof. intros s Hs. done. Qed.
Lemma st_errno {A} e (Q : A → Prop) : stays I (errno_fail e) Q.
Proof. apply st_fail. Qed.
Lemma st_get : kept I get.
Proof. intros s Hs. by split. Qed.
Lemma st_lift {A} (r : A + goerr) : kept I (lift r).
Proof. intros s Hs. by destruct r. Qed.
Lemma st_conseq {A} (m : PM A) (Q Q' : A → Prop) :
  stays I m Q → (∀ a, Q a → Q' a) → stays I m Q'.
Proof. intros Hm HQ s Hs. specialize (Hm s Hs). destruct (m s) as [s' [a|e]]; naive_solver. Qed.
Lemma st_bind {A B} (m : PM A) (k : A → PM B) Q R :
  stays I m Q → (∀ a, Q a → stays I (k a) R) → stays I (bind m k) R.
Proof.
  intros Hm Hk s Hs. unfold bind. specialize (Hm s Hs). destruct (m s) as [s' [a|e]]; [|done].
  destruct Hm as [Hs' Ha]. by apply (Hk a Ha s').
Qed.
Lemma st_try {A B} (m : PM A) (k : A + goerr → PM B) Q R :
  stays I m Q → (∀ a, Q a → stays I (k (inl a)) R) → (∀ e, stays I (k (inr e)) R) →
  stays I (try m k) R.
Proof.
  intros Hm Hk He s Hs. unfold try. specialize (Hm s Hs). destruct (m s) as [s' [a|e]].
  - destruct Hm as [Hs' Ha]. by apply (Hk a Ha s').
  - by apply He.
Qed.
Lemma st_ignore {A} (m : PM A) Q : stays I m Q → kept I (ignore m).
Proof.
  intros Hm s Hs. unfold ignore. specialize (Hm s Hs). destruct (m s) as [s' [a|e]]; cbn; tauto.
Qed.
Lemma st_finally {A} (m : PM A) c Q R : stays I m Q → stays I c R → stays I (finally m c) Q.
Proof.
  intros Hm Hc s Hs. unfold finally. specialize (Hm s Hs). destruct (m s) as [s' r].
  assert (Hs' : I (p_tree s')) by (destruct r; tauto). specialize (Hc s' Hs').
  destruct (c s') as [s2 [|]]; cbn; destruct r; tauto.
Qed.
Lemma st_wrapf {A} w (m : PM A) Q : stays I m Q → stays I (wrapf w m) Q.
Proof. intros Hm. eapply st_try; [exact Hm|intros; by apply st_ret|intros; apply st_fail]. Qed.
Lemma st_on_error {A} (m : PM A) c Q R :
  stays I m Q → stays I c R → stays I (on_error m c) Q.
Proof.
  intros Hm Hc. eapply st_try; [exact Hm|intros; by apply st_ret|].
  intros e. eapply st_bind; [by eapply st_ignore|]. intros. apply st_fail.
Qed.
Lemma st_for_each f names : (∀ x, kept I (f x)) → kept I (for_each f names).
Proof.
  intros Hf. induction names as [|x names IH]; cbn; [by apply st_ret|].
  eapply st_bind; [apply Hf|]. by intros.
Qed.
Lemma st_set_tree f : (∀ t, I t → I (f t)) → kept I (set_tree f).
Proof. intros Hf s Hs. split; [by apply Hf|done]. Qed.

(** Calls that leave the tree alone. *)
Lemma st_syscall : kept I syscall.
Proof. intros s Hs. unfold syscall. cbn. by destruct (sys_fault _). Qed.
Lemma st_draw : kept I draw_uuid.
Proof. intros s Hs. unfold draw_uuid. cbn. by destruct (newUUIDv4 _). Qed.
End rules.

#[local] Hint Resolve st_ret st_fail st_errno st_get st_lift st_syscall st_draw st_ignore st_wrapf : fsdb.

(** One step of a proof of [stays]. *)
Ltac stays_step :=
  match goal with
  | |- stays _ (bind _ _) _ => eapply st_bind; [|intros]
  | |- stays _ (try _ _) _ => eapply st_try; [|intros|intros]
  | |- stays _ (finally _ _) _ => eapply st_finally
  | |- stays _ (on_error _ _) _ => eapply st_on_error
  | |- stays _ (wrapf _ _) _ => apply st_wrapf
  | |- stays _ (ignore _) _ => eapply st_ignore
  | |- stays _ (for_each _ _) _ => apply st_for_each; intros
  | |- stays _ (set_tree _) _ => apply st_set_tree; intros
  | |- stays _ (match ?x with _ => _ end) _ => destruct x
  | |- stays _ (if ?x then _ else _) _ => destruct x
  end.

Ltac stays_tac := repeat first [solve [eauto with fsdb] | stays_step].

Section reads.
Context `{U : UnicodeTables} `{Env : FSEnv} (I : node → Prop).

Lemma st_entries_of fd : kept I (entries_of fd).
Proof. unfold entries_of. stays_tac. Qed.
Lemma st_entry_of fd x : kept I (entry_of fd x).
Proof. unfold entry_of. stays_tac; apply st_entries_of. Qed.
#[local] Hint Resolve st_entries_of st_entry_of : fsdb.

Lemma st_Openat_dir fd x : stays I (sys_Openat_dir fd x) (λ a, a = fd ++ [x]).
Proof. unfold sys_Openat_dir. stays_tac. Qed.
Lemma st_Openat_read fd x : stays I (sys_Openat_read fd x) (λ a, a = fd ++ [x]).
Proof. unfold sys_Openat_read. stays_tac. Qed.
Lemma st_Fstat fd : kept I (sys_Fstat fd).
Proof. unfold sys_Fstat. stays_tac. Qed.
Lemma st_Fstatat fd x : kept I (sys_Fstatat fd x).
Proof. unfold sys_Fstatat. stays_tac. Qed.
Lemma st_ReadAll fd : kept I (sys_ReadAll fd).
Proof. unfold sys_ReadAll. stays_tac. Qed.
Lemma st_Close fd : kept I (sys_Close fd).
Proof. unfold sys_Close. stays_tac. Qed.
Lemma st_readDirectoryEntriesFD fd : kept I (readDirectoryEntriesFD fd).
Proof. unfold readDirectoryEntriesFD. stays_tac; apply st_Close. Qed.
#[local] Hint Resolve st_Openat_dir st_Openat_read st_Fstat st_Fstatat st_ReadAll st_Close
  st_readDirectoryEntriesFD : fsdb.

Lemma st_unixClose fd : kept I (unixClose fd).
Proof. unfold unixClose. stays_tac. Qed.
Lemma st_requireFileType fd k : kept I (requireFileType fd k).
Proof. unfold requireFileType. stays_tac. Qed.
#[local] Hint Resolve st_requireFileType : fsdb.
Lemma st_openDirectoryNoFollow p : stays I (openDirectoryNoFollow p) (λ a, a = p).
Proof. unfold openDirectoryNoFollow. stays_tac. Qed.
Lemma st_openDirectoryAt fd x : stays I (openDirectoryAtNoFollow fd x) (λ a, a = fd ++ [x]).
Proof.
  unfold openDirectoryAtNoFollow. eapply st_bind; [apply st_Openat_dir|]. intros a ->. stays_tac.
Qed.
Lemma st_readRegularFile fd x : kept I (readRegularFileAtNoFollow fd x).
Proof. unfold readRegularFileAtNoFollow. stays_tac. Qed.
Lemma st_entryModeAt fd x : kept I (entryModeAt fd x).
Proof. unfold entryModeAt. stays_tac. Qed.
Lemma st_requireEntryTypeAt fd x k : kept I (requireEntryTypeAt fd x k).
Proof. unfold requireEntryTypeAt. stays_tac. Qed.
Lemma st_unique_temp n fd p : kept I (unique_temp n fd p).
Proof. induction n as [|n IH]; cbn; stays_tac. Qed.
Lemma st_uniqueTempName fd p : kept I (uniqueTempName fd p).
Proof. apply st_unique_temp. Qed.
Lemma st_quarantine_name n i fd x target : kept I (quarantine_name n i fd x target).
Proof. revert i target. induction n as [|n IH]; intros i target; cbn; stays_tac. Qed.
Lemma st_uniqueQuarantineNameAt fd x : kept I (uniqueQuarantineNameAt fd x).
Proof.
  unfold uniqueQuarantineNameAt. eapply st_bind; [apply st_get|]. intros. apply st_quarantine_name.
Qed.
End reads.

#[export] Hint Resolve st_ret st_fail st_errno st_get st_lift st_syscall st_draw st_ignore st_wrapf
  st_entries_of st_entry_of st_Openat_dir st_Openat_read st_Fstat st_Fstatat st_ReadAll st_Close
  st_readDirectoryEntriesFD st_unixClose st_requireFileType st_openDirectoryNoFollow
  st_openDirectoryAt st_readRegularFile st_entryModeAt st_requireEntryTypeAt st_uniqueTempName
  st_uniqueQuarantineNameAt : fsdb.

(** ** Frames

    What is found at a path [q] away from every entry an operation changes. *)

Section frame.
Context `{U : UnicodeTables} `{Env : FSEnv} (q : path) (v : option node).

Definition at_path (t : node) : Prop := fs_get q t = v.

(** [f] changes a directory at the entry [x] only. *)
Definition touches (x : string) (f : node → node) : Prop :=
  ∀ n y r, y ≠ x → fs_get (y :: r) (f n) = fs_get (y :: r) n.

Lemma touches_set x c : touches x (set_entry x c).
Proof. intros [|es ?| |] y r Hy; cbn; try done. by rewrite lookup_insert_ne. Qed.
Lemma touches_del x : touches x (del_entry x).
Proof. intros [|es ?| |] y r Hy; cbn; try done. by rewrite lookup_delete_ne. Qed.

Lemma away_entry fd x : away q (fd ++ [x]) →
  away q fd ∨ ∃ y r, q = fd ++ y :: r ∧ y ≠ x.
Proof.
  intros [H1 H2]. destruct (decide (fd `prefix_of` q)) as [[r ->]|Hp].
  - right. destruct r as [|y r]; [destruct H1; by rewrite app_nil_r; apply prefix_app_r|].
    exists y, r. split; [done|]. intros ->. apply H2. exists r. by rewrite <- app_assoc.
  - left. split; [|done]. intros Hq. apply H1. by apply prefix_app_r.
Qed.

Lemma at_touch fd x f t :
  away q (fd ++ [x]) → touches x f → at_path t → at_path (fs_upd fd f t).
Proof.
  unfold at_path. intros [Ha|(y & r & -> & Hy)]%away_entry Hf Ht.
  - by rewrite fs_get_upd_away.
  - rewrite fs_get_upd, <- Ht, fs_get_app. destruct (fs_get fd t); [|done]. cbn -[fs_get].
    by apply Hf.
Qed.

Lemma at_synced fd t : ¬ q `prefix_of` fd → at_path t → at_path (fs_upd fd mark_synced t).
Proof.
  unfold at_path. intros Hq Ht. destruct (decide (fd `prefix_of` q)) as [[r ->]|Hp].
  - destruct r as [|y r]; [destruct Hq; by rewrite app_nil_r|].
    rewrite fs_get_upd, <- Ht, fs_get_app. by destruct (fs_get fd t) as [[]|].
  - by rewrite fs_get_upd_away.
Qed.

Lemma away_prefix p r : away q p → ¬ q `prefix_of` p ++ r.
Proof. intros Ha. by apply (away_app q p r) in Ha as [? _]. Qed.
Lemma away_parent p x : away q (p ++ [x]) → ¬ q `prefix_of` p.
Proof. intros [H _] Hq. apply H. by apply prefix_app_r. Qed.
Lemma away_self p : away q p → ¬ q `prefix_of` p.
Proof. by intros [? _]. Qed.
#[local] Hint Resolve touches_set touches_del at_touch at_synced away_parent away_self : fsdb.

Lemma fr_Openat_create fd x :
  away q (fd ++ [x]) → stays at_path (sys_Openat_create fd x) (λ a, a = fd ++ [x]).
Proof. intros Ha. unfold sys_Openat_create. stays_tac. Qed.
Lemma fr_Mkdirat fd x : away q (fd ++ [x]) → kept at_path (sys_Mkdirat fd x).
Proof. intros Ha. unfold sys_Mkdirat. stays_tac. Qed.
Lemma fr_Fsync fd : ¬ q `prefix_of` fd → kept at_path (sys_Fsync fd).
Proof. intros Ha. unfold sys_Fsync. stays_tac. Qed.
Lemma fr_Write fd d : away q fd → kept at_path (sys_Write fd d).
Proof.
  intros Ha. assert (Hf : ∀ f t, at_path t → at_path (fs_upd fd f t)).
  { unfold at_path. intros f t Ht. by rewrite fs_get_upd_away. }
  unfold sys_Write. stays_tac.
Qed.
Lemma fr_Unlinkat fd x : away q (fd ++ [x]) → kept at_path (sys_Unlinkat fd x).
Proof. intros Ha. unfold sys_Unlinkat. stays_tac. Qed.
Lemma fr_Rmdirat fd x : away q (fd ++ [x]) → kept at_path (sys_Rmdirat fd x).
Proof. intros Ha. unfold sys_Rmdirat. stays_tac. Qed.
Lemma fr_Renameat sfd sx tfd tx :
  away q (sfd ++ [sx]) → away q (tfd ++ [tx]) → kept at_path (sys_Renameat sfd sx tfd tx).
Proof. intros Hs Ht. unfold sys_Renameat. stays_tac. Qed.
Lemma fr_syncFD fd p : ¬ q `prefix_of` fd → kept at_path (syncFD fd p).
Proof. intros Ha. by apply st_wrapf, fr_Fsync. Qed.
#[local] Hint Resolve fr_Openat_create fr_Mkdirat fr_Write fr_Unlinkat fr_Rmdirat
  fr_Renameat fr_syncFD fr_Fsync : fsdb.

Lemma fr_renameDirectoryAt sfd sx tfd tx :
  away q (sfd ++ [sx]) → away q (tfd ++ [tx]) → kept at_path (renameDirectoryAt sfd sx tfd tx).
Proof. intros Hs Ht. unfold renameDirectoryAt. stays_tac. Qed.

Lemma fr_settle_directory fd pp x :
  away q (fd ++ [x]) → stays at_path (settle_directory fd pp x) (λ a, a = fd ++ [x]).
Proof.
  intros Ha. unfold settle_directory. eapply st_bind; [apply st_wrapf, st_openDirectoryAt|].
  intros a ->. stays_tac.
Qed.
#[local] Hint Resolve fr_settle_directory : fsdb.

Lemma fr_createDirectoryAt fd pp x :
  away q (fd ++ [x]) → stays at_path (createDirectoryAt fd pp x) (λ a, a = fd ++ [x]).
Proof. intros Ha. unfold createDirectoryAt. stays_tac. Qed.

Lemma fr_ensureDirectoryAt fd pp x :
  away q (fd ++ [x]) → stays at_path (ensureDirectoryAt fd pp x) (λ a, a = fd ++ [x]).
Proof.
  intros Ha. unfold ensureDirectoryAt. eapply st_bind; [stays_tac|]. intros c _.
  eapply st_bind; [apply st_wrapf, st_openDirectoryAt|]. intros a ->. stays_tac.
Qed.

Lemma fr_create_unique n so d prefix fd pp id :
  (∀ x, away q (fd ++ [prefix +:+ x])) →
  stays at_path (create_unique n so d prefix fd pp id)
    (λ a, a.2 = fd ++ [a.1] ∧ ∃ x, a.1 = prefix +:+ x).
Proof.
  intros Ha. induction n as [|n IH]; cbn [create_unique]; [apply st_fail|].
  eapply st_bind; [eauto with fsdb|]. intros suffix _.
  eapply st_try; [by apply fr_Mkdirat| |].
  - intros _ _. eapply st_bind; [by apply fr_settle_directory|]. intros a ->.
    apply st_ret. split; [done|]. eauto.
  - intros e. destruct (is_errno _ _); [done|apply st_fail].
Qed.

Lemma fr_writeRegularFileAt fd pp x d : away q fd → kept at_path (writeRegularFileAt fd pp x d).
Proof.
  intros Ha. unfold writeRegularFileAt. eapply st_bind; [eauto with fsdb|]. intros tmp _.
  eapply st_bind; [|intros; auto with fsdb].
  eapply st_on_error; [|auto with fsdb].
  eapply st_bind; [by apply st_wrapf, fr_Openat_create, away_app|]. intros a ->.
  assert (¬ q `prefix_of` fd ++ [tmp]) by by apply away_prefix.
  stays_tac.
Qed.

Lemma fr_remove_entry fuel fd pp x : away q (fd ++ [x]) → kept at_path (remove_entry fuel fd pp x).
Proof.
  revert fd pp x. induction fuel as [|fuel IH]; intros fd pp x Ha; cbn [remove_entry];
    eapply st_bind; try (apply st_wrapf, st_entryModeAt); intros [[]|] _; auto with fsdb.
  eapply st_bind; [apply st_wrapf, st_openDirectoryAt|]. intros a ->. stays_tac.
Qed.
#[local] Hint Resolve fr_remove_entry : fsdb.

Lemma fr_removeEntryTreeAt fd pp x :
  away q (fd ++ [x]) → kept at_path (removeEntryTreeAt fd pp x).
Proof. intros Ha. unfold removeEntryTreeAt. stays_tac. Qed.
#[local] Hint Resolve fr_removeEntryTreeAt : fsdb.

Lemma fr_removeTreeContentsFD fd pp : away q fd → kept at_path (removeTreeContentsFD fd pp).
Proof. intros Ha. unfold removeTreeContentsFD. stays_tac. Qed.

Lemma fr_copy_entries copy sfd sp tfd tp :
  away q tfd → (∀ x, kept at_path (copy x)) → kept at_path (copy_entries copy sfd sp tfd tp).
Proof.
  intros Ha Hc. unfold copy_entries. eapply st_bind; [eauto with fsdb|]. intros names _.
  apply st_for_each. intros x. eapply st_bind; [eauto with fsdb|]. intros [[]|] _; auto with fsdb.
  eapply st_bind; [eauto with fsdb|]. intros d _. by apply fr_writeRegularFileAt.
Qed.

Lemma fr_copy_tree fuel sfd sp sx tfd tp tx :
  away q (tfd ++ [tx]) → kept at_path (copy_tree fuel sfd sp sx tfd tp tx).
Proof.
  revert sfd sp sx tfd tp tx. induction fuel as [|fuel IH]; intros sfd sp sx tfd tp tx Ha;
    cbn [copy_tree]; (eapply st_bind; [by apply fr_createDirectoryAt|]); intros a ->;
    (eapply st_on_error; [|stays_tac]); (eapply st_finally; [|auto with fsdb]);
    (eapply st_bind; [apply st_wrapf, st_openDirectoryAt|]); intros b ->;
    (eapply st_finally; [|auto with fsdb]);
    (apply (st_bind _ _ _ (λ _, True)); [|intros; auto with fsdb]).
  - apply st_fail.
  - apply fr_copy_entries; [done|]. intros x. by apply IH, away_app.
Qed.

Lemma fr_copyDirectoryTreeAt sfd sp sx tfd tp tx :
  away q (tfd ++ [tx]) → kept at_path (copyDirectoryTreeAt sfd sp sx tfd tp tx).
Proof.
  intros Ha. unfold copyDirectoryTreeAt. eapply st_bind; [apply st_get|]. intros.
  by apply fr_copy_tree.
Qed.

Lemma fr_copyDirectoryContentsAt sfd sp sx tfd tp tx :
  away q (tfd ++ [tx]) → kept at_path (copyDirectoryContentsAt sfd sp sx tfd tp tx).
Proof.
  intros Ha. unfold copyDirectoryContentsAt.
  eapply st_bind; [apply st_wrapf, st_openDirectoryAt|]. intros a ->.
  eapply st_finally; [|auto with fsdb].
  eapply st_bind; [apply st_wrapf, st_openDirectoryAt|]. intros b ->.
  eapply st_finally; [|auto with fsdb]. unfold copyDirectoryEntries.
  eapply st_bind; [apply st_get|]. intros s _. apply fr_copy_entries; [done|].
  intros x. by apply fr_copy_tree, away_app.
Qed.
End frame.
