(* ===== verification/PayloadHoare.v ===== *)
(** * What the file operations do

    [triple t m Q E]: a run of [m] from the tree [t] ends with a result and a
    tree that satisfy [Q], or with an error and a tree that satisfy [E].
    [hoare] is the case where only [trouble] excuses an error.  With [trouble]
    taken as [True] it speaks of the runs that succeed; in a world where no
    call fails it may be taken as [False], and then every run succeeds. *)
From Stdlib Require Import Ascii.
From S2P Require Import Prelude.
From S2P Require Import GoStrings.
From S2P Require Import GoTime.
From S2P Require Import GoErrors.
From S2P Require Import SpoolCommon.
From S2P Require Import PayloadFS.
From S2P Require Import PayloadTree.
#[local] Open Scope Z_scope.
#[local] Open Scope relay_scope.

Section triple.
Context `{U : UnicodeTables} `{Env : FSEnv}.

Definition triple (t : node) {A} (m : PM A) (Q : A → node → Prop) (E : goerr → node → Prop)
    : Prop := ∀ s, p_tree s = t →
  match m s with
  | (s', inl a) => Q a (p_tree s')
  | (s', inr e) => E e (p_tree s')
  end.

Lemma tr_conseq {A} t (m : PM A) (Q Q' : A → node → Prop) (E E' : goerr → node → Prop) :
  triple t m Q E → (∀ a t', Q a t' → Q' a t') → (∀ e t', E e t' → E' e t') → triple t m Q' E'.
Proof. intros Hm HQ HE s Hs. specialize (Hm s Hs). destruct (m s) as [s' [a|e]]; eauto. Qed.

Lemma tr_ret {A} t (a : A) (Q : A → node → Prop) E : Q a t → triple t (ret a) Q E.
Proof. by intros HQ s <-. Qed.

Lemma tr_fail {A} t e (Q : A → node → Prop) (E : goerr → node → Prop) :
  E e t → triple t (fail e) Q E.
Proof. by intros HQ s <-. Qed.

Lemma tr_bind {A B} t (m : PM A) (k : A → PM B) Q R E :
  triple t m Q E → (∀ a t', Q a t' → triple t' (k a) R E) → triple t (bind m k) R E.
Proof.
  intros Hm Hk s Hs. unfold bind. specialize (Hm s Hs). destruct (m s) as [s' [a|e]]; [|done].
  by apply (Hk a _ Hm).
Qed.

Lemma tr_try {A B} t (m : PM A) (k : A + goerr → PM B) Q E R E' :
  triple t m Q E → (∀ a t', Q a t' → triple t' (k (inl a)) R E') →
  (∀ e t', E e t' → triple t' (k (inr e)) R E') → triple t (try m k) R E'.
Proof.
  intros Hm Hk He s Hs. unfold try. specialize (Hm s Hs). destruct (m s) as [s' [a|e]].
  - by apply (Hk a _ Hm).
  - by apply (He e _ Hm).
Qed.

(** A read: it keeps every invariant, so it leaves the tree alone. *)
Definition reads {A} (m : PM A) : Prop := ∀ I, kept I m.

Lemma reads_tree {A} (m : PM A) s : reads m → p_tree (fst (m s)) = p_tree s.
Proof.
  intros Hm. specialize (Hm (λ t, t = p_tree s) s eq_refl).
  destruct (m s) as [s' [a|e]]; cbn in *; tauto.
Qed.

Lemma tr_finally {A} t (m : PM A) c Q E :
  reads c → triple t m Q E → triple t (finally m c) Q E.
Proof.
  intros Hc Hm s Hs. unfold finally. specialize (Hm s Hs). destruct (m s) as [s' r].
  pose proof (reads_tree c s' Hc) as Ht. destruct (c s') as [s2 ?]; cbn in *.
  destruct r; by rewrite Ht.
Qed.

Lemma tr_ignore {A} t (m : PM A) (Q : unit → node → Prop) E :
  (∀ s, p_tree s = t → Q tt (p_tree (fst (m s)))) → triple t (ignore m) Q E.
Proof. intros Hm s Hs. cbn. by apply Hm. Qed.

(** A run whose outcome is ignored keeps what it keeps. *)
Lemma tr_ignore_kept {A} t (m : PM A) (I : node → Prop) E :
  kept I m → I t → triple t (ignore m) (λ _ t', I t') E.
Proof.
  intros Hm Ht. apply tr_ignore. intros s <-. specialize (Hm s Ht).
  destruct (m s) as [s' [a|e]]; cbn; tauto.
Qed.

Lemma tr_get t (Q : pst → node → Prop) E :
  (∀ s, p_tree s = t → Q s t) → triple t get Q E.
Proof. intros HQ s Hs. cbn. rewrite Hs. by apply HQ. Qed.

Lemma reads_Close fd : reads (sys_Close fd).
Proof. intros I. apply st_Close. Qed.
Lemma reads_unixClose fd : reads (unixClose fd).
Proof. intros I. apply st_unixClose. Qed.

Lemma tr_on_error {A} t (m : PM A) c Q E :
  reads c → triple t m Q E → triple t (on_error m c) Q E.
Proof.
  intros Hc Hm s Hs. specialize (Hm s Hs). unfold on_error, try, bind, ignore.
  destruct (m s) as [s' [a|e]]; cbn; [done|]. by rewrite reads_tree.
Qed.

Lemma tr_wrapf {A} t w (m : PM A) Q (E E' : goerr → node → Prop) :
  triple t m Q E → (∀ e t', E e t' → E' (EWrapf w e) t') → triple t (wrapf w m) Q E'.
Proof.
  intros Hm HE. eapply tr_try; [exact Hm|intros; by apply tr_ret|].
  intros e t' He. by apply tr_fail, HE.
Qed.

Section trouble.
Context (trouble : Prop).

Definition hoare (t : node) {A} (m : PM A) (Q : A → node → Prop) : Prop :=
  triple t m Q (λ _ _, trouble).

Lemma h_wrapf {A} t w (m : PM A) Q : hoare t m Q → hoare t (wrapf w m) Q.
Proof.
  intros Hm. eapply tr_try; [exact Hm|intros; by apply tr_ret|intros; by apply tr_fail].
Qed.

Lemma h_on_error {A} t (m : PM A) c Q : hoare t m Q → hoare t (on_error m c) Q.
Proof.
  intros Hm s Hs. specialize (Hm s Hs). unfold on_error, try. by destruct (m s) as [s' [a|e]].
Qed.

Lemma h_conseq {A} t (m : PM A) (Q Q' : A → node → Prop) :
  hoare t m Q → (∀ a t', Q a t' → Q' a t') → hoare t m Q'.
Proof. intros Hm HQ. by eapply tr_conseq. Qed.
End trouble.
End triple.

#[export] Hint Resolve reads_Close reads_unixClose : fsdb.

(** ** The operations *)

Section ops.
Context `{U : UnicodeTables} `{Env : FSEnv} (trouble : Prop).
Hypothesis fault_trouble : ∀ n e, sys_fault n = Some e → trouble.
Hypothesis rand_trouble : ∀ n e, newUUIDv4 (pay_rand n) = inr e → trouble.

Abbreviation hoare := (hoare trouble).

(** A fault of its own is none of the errors the code tests for. *)
Definition odd_error (e : goerr) : Prop := ∃ x, e = EErrno (Eother x).

Lemma tr_syscall t : triple t syscall (λ _ t', t' = t) (λ e t', t' = t ∧ trouble ∧ odd_error e).
Proof.
  intros s Hs. unfold syscall. destruct (sys_fault _) as [x|] eqn:Hx; cbn; [|done].
  split; [done|]. split; [by eapply fault_trouble|]. by exists x.
Qed.

Lemma h_syscall t : hoare t syscall (λ _ t', t' = t).
Proof. eapply tr_conseq; [apply tr_syscall|done|]. by intros e t' (_ & ? & _). Qed.

Lemma h_unixClose t fd : hoare t (unixClose fd) (λ _ t', t' = t).
Proof.
  eapply tr_try; [apply h_syscall|intros _ t' ->; by apply tr_ret|]. intros e t' H.
  by apply tr_fail.
Qed.

Lemma h_set_tree t f : hoare t (set_tree f) (λ _ t', t' = f t).
Proof. by intros s <-. Qed.

Lemma h_draw t : hoare t draw_uuid (λ _ t', t' = t).
Proof.
  intros s Hs. unfold draw_uuid. cbn. destruct (newUUIDv4 _) eqn:Hn; [done|].
  by eapply rand_trouble.
Qed.

Lemma tr_entries_of t fd es b Q E :
  fs_get fd t = Some (Dir es b) → Q es t → triple t (entries_of fd) Q E.
Proof. intros Hg HQ s Hs. unfold entries_of, bind. cbn. rewrite Hs, Hg. by subst. Qed.

(** The errors of a path that is not what it should be. *)
Definition shape_error (e : goerr) : Prop :=
  e = EErrno ENOENT ∨ e = EErrno ELOOP ∨ e = EErrno ENOTDIR ∨ e = EUnexpectedFileType.

(** The error of a read: [absent], or a fault. *)
Definition read_error (t : node) (absent : Prop) (e : goerr) (t' : node) : Prop :=
  t' = t ∧ (shape_error e ∧ absent ∨ trouble ∧ odd_error e).

Lemma tr_read {B} t (absent : Prop) (k : PM B) Q :
  triple t k Q (read_error t absent) → triple t (syscall ;;! k) Q (read_error t absent).
Proof.
  intros Hk. eapply tr_bind.
  - eapply tr_conseq; [apply tr_syscall|exact (λ _ _ H, H)|]. intros e t' (-> & H).
    split; [done|by right].
  - by intros _ t' ->.
Qed.

Lemma tr_requireFileType t fd k n :
  fs_get fd t = Some n →
  triple t (requireFileType fd k) (λ _ t', t' = t ∧ kind_of n = k)
    (read_error t (kind_of n ≠ k)).
Proof.
  intros Hg. unfold requireFileType.
  apply (tr_bind _ _ _ (λ k' t', k' = kind_of n ∧ t' = t)).
  - apply tr_read. intros s Hs. unfold bind. cbn. by rewrite Hs, Hg.
  - intros k' t' [-> ->]. case_decide as Hk; [by apply tr_ret|].
    apply tr_fail. split; [done|]. left. split; [by do 3 right|done].
Qed.

Definition dir_at (t : node) (p : path) : Prop := ∃ es b, fs_get p t = Some (Dir es b).

Lemma tr_open t fd x :
  triple t (openDirectoryAtNoFollow fd x)
    (λ a t', a = fd ++ [x] ∧ t' = t ∧ dir_at t (fd ++ [x]))
    (read_error t (¬ dir_at t (fd ++ [x]))).
Proof.
  unfold openDirectoryAtNoFollow.
  apply (tr_bind _ _ _ (λ a t', a = fd ++ [x] ∧ t' = t ∧ dir_at t (fd ++ [x]))).
  - apply tr_read. intros s Hs. unfold entry_of, entries_of, bind. cbn. rewrite Hs.
    unfold dir_at, read_error, shape_error. rewrite fs_get_app.
    destruct (fs_get fd t) as [[|es b| |]|]; cbn;
      [naive_solver| |naive_solver..]. destruct (es !! x) as [[|es' b'| |]|]; naive_solver.
  - intros a t' (-> & -> & es & b & Hd).
    eapply tr_bind; [apply tr_on_error; [apply reads_Close|]|].
    + eapply tr_conseq; [by eapply tr_requireFileType|exact (λ _ _ H, H)|].
      intros e t' (-> & [[_ ?]|?]); [done|]. split; [done|by right].
    + intros _ t' [-> _]. apply tr_ret. unfold dir_at. eauto.
Qed.

(** A directory is opened when there is one. *)
Lemma h_open t fd x :
  (¬ dir_at t (fd ++ [x]) → trouble) →
  hoare t (openDirectoryAtNoFollow fd x)
    (λ a t', a = fd ++ [x] ∧ t' = t ∧ dir_at t (fd ++ [x])).
Proof.
  intros Hno. eapply tr_conseq; [apply tr_open|done|]. intros e t' (_ & [[_ H]|[H _]]); auto.
Qed.

Lemma tr_readRegularFile t fd x :
  triple t (readRegularFileAtNoFollow fd x)
    (λ d t', t' = t ∧ ∃ b, fs_get (fd ++ [x]) t = Some (File d b))
    (read_error t (∀ d b, fs_get (fd ++ [x]) t ≠ Some (File d b))).
Proof.
  apply (tr_bind _ _ _ (λ a t', a = fd ++ [x] ∧ t' = t ∧ is_Some (fs_get (fd ++ [x]) t))).
  - apply tr_read. intros s Hs. unfold entry_of, entries_of, bind. cbn. rewrite Hs.
    unfold read_error, shape_error. rewrite fs_get_app.
    destruct (fs_get fd t) as [[|es b| |]|]; cbn;
      [naive_solver| |naive_solver..]. destruct (es !! x) as [[|es' b'| |]|]; naive_solver.
  - intros a t' (-> & -> & n & Hn). apply tr_finally; [apply reads_Close|]. eapply tr_bind.
    + eapply tr_conseq; [by eapply tr_requireFileType|exact (λ _ _ H, H)|].
      intros e t' (-> & [[? Hk]|?]); (split; [done|]); [left|by right].
      split; [done|]. intros d b Hd. rewrite Hn in Hd. injection Hd as ->. done.
    + intros _ t' [-> Hk]. destruct n as [d b| | |]; try done.
      apply tr_read. intros s Hs. unfold bind. cbn. rewrite Hs, Hn. cbn. eauto.
Qed.

(** [triple] for a call that starts with [syscall] and then looks at a
    directory. *)
Ltac look Hg :=
  let s := fresh "s" in let Hs := fresh "Hs" in
  intros s Hs; unfold entry_of, entries_of, bind; cbn; rewrite Hs, Hg; cbn.

Lemma tr_Fstatat t fd x es b :
  fs_get fd t = Some (Dir es b) →
  triple t (sys_Fstatat fd x) (λ k t', t' = t ∧ kind_of <$> es !! x = Some k)
    (λ e t', t' = t ∧ (e = EErrno ENOENT ∧ es !! x = None ∨ trouble ∧ odd_error e)).
Proof.
  intros Hg. unfold sys_Fstatat. eapply tr_bind.
  - eapply tr_conseq; [apply tr_syscall|exact (λ _ _ H, H)|]. intros e t' (-> & H). auto.
  - intros _ t' ->. look Hg. by destruct (es !! x) eqn:Hx; cbn; subst; auto.
Qed.

Lemma tr_entryModeAt t fd x es b :
  fs_get fd t = Some (Dir es b) →
  triple t (entryModeAt fd x) (λ k t', t' = t ∧ k = kind_of <$> es !! x)
    (λ _ t', t' = t ∧ trouble).
Proof.
  intros Hg. eapply tr_try; [by eapply tr_Fstatat|..].
  - intros k t' [-> Hk]. by apply tr_ret.
  - intros e t' (-> & [[-> Hn]|[Ht [y ->]]]); [|by apply tr_fail].
    apply tr_ret. by rewrite Hn.
Qed.

Lemma h_entryModeAt t fd x es b :
  fs_get fd t = Some (Dir es b) →
  hoare t (entryModeAt fd x) (λ k t', t' = t ∧ k = kind_of <$> es !! x).
Proof.
  intros Hg. eapply tr_conseq; [by eapply tr_entryModeAt|done|]. by intros e t' [_ ?].
Qed.

(** *** Making directories *)

Lemma tr_Mkdirat t fd x es b :
  fs_get fd t = Some (Dir es b) →
  triple t (sys_Mkdirat fd x)
    (λ _ t', es !! x = None ∧ t' = put fd (Dir (<[x := Dir ∅ false]> es) false) t)
    (λ e t', t' = t ∧ (e = EErrno EEXIST ∧ is_Some (es !! x) ∨ trouble ∧ odd_error e)).
Proof.
  intros Hg. unfold sys_Mkdirat. eapply tr_bind.
  - eapply tr_conseq; [apply tr_syscall|exact (λ _ _ H, H)|]. intros e t' (-> & H). auto.
  - intros _ t' ->. look Hg. destruct (es !! x) eqn:Hx; cbn; [subst; eauto|].
    split; [done|]. subst. by rewrite (fs_upd_put _ _ _ _ Hg).
Qed.

Lemma h_Fsync t fd n : fs_get fd t = Some n → hoare t (sys_Fsync fd) (λ _ t', t' = put fd (mark_synced n) t).
Proof.
  intros Hg. eapply tr_bind; [apply h_syscall|]. intros _ t' ->. intros s Hs. cbn. rewrite Hs.
  by rewrite (fs_upd_put _ _ _ _ Hg).
Qed.

Lemma h_syncFD t fd p n : fs_get fd t = Some n → hoare t (syncFD fd p) (λ _ t', t' = put fd (mark_synced n) t).
Proof. intros Hg. by apply h_wrapf, h_Fsync. Qed.

Lemma h_settle_directory t fd pp x es b c :
  fs_get fd t = Some (Dir es b) → es !! x = Some (Dir ∅ c) →
  hoare t (settle_directory fd pp x)
    (λ a t', a = fd ++ [x] ∧ t' = put fd (Dir (<[x := Dir ∅ true]> es) true) t).
Proof.
  intros Hg Hx. pose proof (fs_get_entry _ _ _ _ _ _ Hg Hx) as Hgx.
  unfold settle_directory. eapply tr_bind.
  { apply h_wrapf, h_open. intros Hno. destruct Hno. by eexists _, _. }
  intros a t' (-> & -> & _). 
  apply (tr_bind _ _ _ (λ _ t', t' = put fd (Dir (<[x := Dir ∅ true]> es) true) t));
    [|intros _ t' ->; by apply tr_ret].
  apply h_on_error. eapply tr_bind; [apply h_wrapf, h_syscall|]. intros _ t' ->.
  eapply tr_bind; [by apply h_syncFD|]. intros _ t' ->. cbn.
  rewrite (put_entry _ _ _ _ _ _ _ Hg Hx).
  eapply h_conseq; [eapply h_syncFD; by eapply get_put|]. intros _ t' ->. cbn. apply put_put.
Qed.

Lemma h_createDirectoryAt t fd pp x es b :
  fs_get fd t = Some (Dir es b) → (is_Some (es !! x) → trouble) →
  hoare t (createDirectoryAt fd pp x)
    (λ a t', a = fd ++ [x] ∧ es !! x = None ∧
             t' = put fd (Dir (<[x := Dir ∅ true]> es) true) t).
Proof.
  intros Hg Hx. unfold createDirectoryAt. eapply tr_bind.
  { apply h_wrapf. eapply tr_conseq; [by eapply tr_Mkdirat|exact (λ _ _ H, H)|].
    intros e t' (_ & [[_ H]|[H _]]); auto. }
  intros _ t' [Hn ->]. eapply h_conseq.
  { eapply h_settle_directory; [by eapply get_put|apply lookup_insert_eq]. }
  intros a t' [-> ->]. split; [done|]. split; [done|]. by rewrite put_put, insert_insert_eq.
Qed.

(** A directory under a fresh name.  Sixteen names in use are trouble, unless
    none with the prefix is. *)
Lemma h_create_unique t n so d prefix fd pp id es b :
  fs_get fd t = Some (Dir es b) →
  trouble ∨ n ≠ O ∧ (∀ x, es !! (prefix +:+ x) = None) →
  hoare t (create_unique n so d prefix fd pp id)
    (λ a t', (∃ x, a.1 = prefix +:+ x) ∧ es !! a.1 = None ∧ a.2 = fd ++ [a.1] ∧
             t' = put fd (Dir (<[a.1 := Dir ∅ true]> es) true) t).
Proof.
  intros Hg Hfresh. revert Hfresh. induction n as [|n IH]; intros Hfresh; cbn [create_unique].
  { apply tr_fail. by destruct Hfresh as [?|[? _]]. }
  eapply tr_bind; [apply h_wrapf, h_draw|]. intros suffix t' ->.
  eapply tr_try; [by eapply tr_Mkdirat|..].
  - intros _ t' [Hn ->]. eapply tr_bind.
    { eapply h_settle_directory; [by eapply get_put|apply lookup_insert_eq]. }
    intros a t' [-> ->]. apply tr_ret. cbn. split; [eauto|]. split; [done|]. split; [done|].
    by rewrite put_put, insert_insert_eq.
  - intros e t' (-> & [[-> Hs]|[Ht [y ->]]]); cbn; [|by apply tr_fail].
    apply IH. destruct Hfresh as [?|[_ Hf]]; [by left|]. rewrite Hf in Hs. by destruct Hs.
Qed.

(** *** Renaming *)

Lemma h_rename_within t fd x y n es b :
  fs_get fd t = Some (Dir (<[x := n]> es) b) → es !! x = None →
  (rename_error n (es !! y) ≠ None → trouble) →
  hoare t (sys_Renameat fd x fd y) (λ _ t', ∃ b', t' = put fd (Dir (<[y := n]> es) b') t).
Proof.
  intros Hg Hx Hy. unfold sys_Renameat. 
  apply (tr_bind _ _ _ (λ _ t', t' = t)); [by apply tr_get|]. intros s0 t' ->. eapply tr_bind; [apply h_syscall|]. intros _ t' ->.
  look Hg. rewrite lookup_insert_eq. cbn. rewrite Hs, Hg. cbn.
  rewrite bool_decide_eq_true_2 by done. cbn.
  case_decide as Hxy.
  { apply app_inv_head in Hxy as [= <-]. cbn. exists b. rewrite Hs. by rewrite put_same. }
  rewrite decide_False by (intros Hp%prefix_length; rewrite length_app in Hp; cbn in Hp; lia).
  rewrite lookup_insert_ne by congruence.
  destruct (rename_error n (es !! y)) eqn:He; [by apply Hy|]. cbn.
  exists false. rewrite Hs, (fs_upd_put _ _ _ _ Hg). cbn. rewrite delete_insert_id by done.
  erewrite fs_upd_put by (by eapply get_put). cbn. apply put_put.
Qed.

Lemma tr_rename_across t sfd x tfd y n ses sb tes tb :
  away sfd tfd →
  fs_get sfd t = Some (Dir ses sb) → ses !! x = Some n → fs_get tfd t = Some (Dir tes tb) →
  (rename_error n (tes !! y) ≠ None → trouble) →
  triple t (sys_Renameat sfd x tfd y)
    (λ _ t', t' = put tfd (Dir (<[y := n]> tes) false) (put sfd (Dir (delete x ses) false) t))
    (λ e t', t' = t ∧ (isCrossDeviceError e = true ∨ trouble)).
Proof.
  intros Ha Hgs Hx Hgt Hy. unfold sys_Renameat.
  apply (tr_bind _ _ _ (λ _ t', t' = t)); [by apply tr_get|]. intros s0 t' ->.
  eapply tr_bind.
  { eapply tr_conseq; [apply tr_syscall|exact (λ _ _ H, H)|]. intros e t' (-> & H & _). auto. }
  intros _ t' ->. look Hgs. rewrite Hx. cbn. rewrite Hs, Hgt. cbn.
  destruct (negb _ && _); [cbn; by auto|]. case_decide as Hxy.
  { destruct Ha as [Ha _]. destruct Ha. apply app_inj_tail in Hxy as [-> _]. done. }
  rewrite decide_False.
  2:{ intros Hp. destruct Ha as [Ha _]. apply Ha. by eapply prefix_app_l. }
  destruct (rename_error n (tes !! y)) eqn:He; cbn; [by auto|].
  rewrite Hs, (fs_upd_put _ _ _ _ Hgs). cbn.
  rewrite (fs_upd_put tfd _ _ (Dir tes tb)); [done|]. unfold put. rewrite fs_get_upd_away; [done|]. by apply away_sym.
Qed.

Lemma tr_requireEntryTypeAt t fd x n es b :
  fs_get fd t = Some (Dir es b) → es !! x = Some n →
  triple t (requireEntryTypeAt fd x (kind_of n)) (λ _ t', t' = t) (λ _ t', t' = t ∧ trouble).
Proof.
  intros Hg Hx. eapply tr_bind.
  { eapply tr_conseq; [by eapply tr_Fstatat|exact (λ _ _ H, H)|].
    intros e t' (-> & [[_ H]|[H _]]); [congruence|done]. }
  intros k t' [-> Hk]. rewrite Hx in Hk. injection Hk as <-. rewrite decide_True by done.
  by apply tr_ret.
Qed.

Lemma h_requireEntryTypeAt t fd x n es b :
  fs_get fd t = Some (Dir es b) → es !! x = Some n →
  hoare t (requireEntryTypeAt fd x (kind_of n)) (λ _ t', t' = t).
Proof.
  intros Hg Hx. eapply tr_conseq; [by eapply tr_requireEntryTypeAt|done|]. by intros e t' [_ ?].
Qed.

(** *** Files *)

Lemma h_unique_temp t n fd prefix es b :
  fs_get fd t = Some (Dir es b) →
  trouble ∨ n ≠ O ∧ (∀ x, es !! (prefix +:+ x) = None) →
  hoare t (unique_temp n fd prefix) (λ a t', es !! a = None ∧ t' = t).
Proof.
  intros Hg Hfresh. revert Hfresh. induction n as [|n IH]; intros Hfresh; cbn [unique_temp].
  { apply tr_fail. by destruct Hfresh as [?|[? _]]. }
  eapply tr_bind; [apply h_draw|]. intros suffix t' ->.
  eapply tr_try; [by eapply tr_Fstatat|..].
  - intros k t' [-> Hk]. apply IH. destruct Hfresh as [?|[_ Hf]]; [by left|].
    by rewrite Hf in Hk.
  - intros e t' (-> & [[-> Hn]|[Ht [y ->]]]); [by apply tr_ret|by apply tr_fail].
Qed.

(** [writeRegularFileAt] leaves exactly one entry more, complete and synced. *)
Lemma h_writeRegularFileAt t fd pp x d es b :
  fs_get fd t = Some (Dir es b) →
  trouble ∨ (∀ y, es !! (".tmp-" +:+ y) = None) ∧ es !! x = None →
  hoare t (writeRegularFileAt fd pp x d)
    (λ _ t', t' = put fd (Dir (<[x := File d true]> es) true) t).
Proof.
  intros Hg Hfresh. unfold writeRegularFileAt. eapply tr_bind.
  { apply h_wrapf. eapply h_unique_temp; [done|]. destruct Hfresh as [?|[? _]]; [by left|by right]. }
  intros tmp t' [Htmp ->]. set (n := File d true).
  apply (tr_bind _ _ _ (λ _ t', ∃ b', t' = put fd (Dir (<[x := n]> es) b') t)).
  2:{ intros _ t' [b' ->]. eapply h_conseq; [eapply h_syncFD; by eapply get_put|].
      intros _ t' ->. apply put_put. }
  apply h_on_error.
  apply (tr_bind _ _ _ (λ a t', a = fd ++ [tmp] ∧
    t' = put fd (Dir (<[tmp := File "" false]> es) false) t)).
  { apply h_wrapf. eapply tr_bind; [apply h_syscall|]. intros _ t' ->. look Hg. rewrite Htmp. cbn.
    by rewrite Hs, (fs_upd_put _ _ _ _ Hg). }
  intros a t' [-> ->].
  set (t1 := put fd (Dir (<[tmp := File "" false]> es) false) t).
  assert (Hg1 : fs_get fd t1 = Some (Dir (<[tmp := File "" false]> es) false))
    by by eapply get_put.
  assert (Hput : ∀ c c', put (fd ++ [tmp]) c' (put fd (Dir (<[tmp := c]> es) false) t) =
                      put fd (Dir (<[tmp := c']> es) false) t).
  { intros c c'. erewrite put_entry; [|by eapply get_put|apply lookup_insert_eq].
    by rewrite put_put, insert_insert_eq. }
  assert (Hget : ∀ c, fs_get (fd ++ [tmp]) (put fd (Dir (<[tmp := c]> es) false) t) = Some c).
  { intros c. eapply fs_get_entry; [by eapply get_put|apply lookup_insert_eq]. }
  apply (tr_bind _ _ _ (λ _ t', t' = put fd (Dir (<[tmp := n]> es) false) t)).
  - apply h_on_error.
    apply (tr_bind _ _ _ (λ _ t', t' = put fd (Dir (<[tmp := File d false]> es) false) t)).
    { apply h_wrapf. intros s Hs. unfold sys_Write, bind, try. cbn.
      destruct (sys_fault (p_calls s)) eqn:Hf; cbn; [by eapply fault_trouble|].
      rewrite Hs. subst t1. by rewrite (fs_upd_put _ _ _ _ (Hget _)), Hput. }
    intros _ t' ->. subst t1.
    eapply tr_bind; [by apply h_wrapf, h_Fsync|]. intros _ t' ->. rewrite Hput. cbn.
    eapply tr_bind; [apply h_wrapf, h_syscall|]. intros _ t' ->. apply h_wrapf, h_syscall.
  - intros _ t' ->. apply h_wrapf. eapply h_conseq.
    { eapply h_rename_within; [by eapply get_put|done|].
      destruct Hfresh as [?|[_ ->]]; [by intros _|done]. }
    intros _ t' [b' ->]. exists b'. apply put_put.
Qed.

Lemma h_readRegularFile t fd x d c es b :
  fs_get fd t = Some (Dir es b) → es !! x = Some (File d c) →
  hoare t (readRegularFileAtNoFollow fd x) (λ a t', a = d ∧ t' = t).
Proof.
  intros Hg Hx. pose proof (fs_get_entry _ _ _ _ _ _ Hg Hx) as Hgx.
  eapply tr_conseq; [apply tr_readRegularFile|..].
  - intros a t' (-> & b' & Hb). by simplify_eq.
  - intros e t' (_ & [[_ Hno]|[? _]]); [|done]. by destruct (Hno _ _ Hgx).
Qed.

(** *** Removing *)

(** [ReadDir] lists every name once, in some order. *)
Hypothesis order_perm : ∀ l, dir_order l ≡ₚ l.

Lemma h_readDirectoryEntriesFD t fd es b :
  fs_get fd t = Some (Dir es b) →
  hoare t (readDirectoryEntriesFD fd)
    (λ names t', t' = t ∧ NoDup names ∧ ∀ x, x ∈ names ↔ is_Some (es !! x)).
Proof.
  intros Hg. eapply tr_bind; [apply h_syscall|]. intros _ t' ->.
  apply tr_finally; [apply reads_Close|]. eapply tr_bind; [apply h_syscall|]. intros _ t' ->.
  look Hg. split; [done|]. rewrite order_perm. split; [apply NoDup_fst_map_to_list|].
  intros x. rewrite order_perm, list_elem_of_fmap. split.
  - intros ([y n] & -> & Hin%elem_of_map_to_list). by exists n.
  - intros [n Hn]. exists (x, n). by rewrite elem_of_map_to_list.
Qed.

(** Whether [n] can be removed with [fuel] levels. *)
Definition removable (fuel : nat) (n : node) : Prop := trouble ∨ plain n ∧ (depth n <= fuel)%nat.

(** [f x] removes the entry [x] of [fd] when it satisfies [ok]. *)
Definition removes (f : string → PM unit) (fd : path) (ok : node → Prop) : Prop :=
  ∀ t x es b, fs_get fd t = Some (Dir es b) → (∀ n, es !! x = Some n → ok n) →
  hoare t (f x) (λ _ t', ∃ b', t' = put fd (Dir (delete x es) b') t).

Lemma h_remove_names f fd ok names t es b :
  removes f fd ok → fs_get fd t = Some (Dir es b) → (∀ x n, es !! x = Some n → ok n) →
  hoare t (for_each f names)
    (λ _ t', ∃ es' b', t' = put fd (Dir es' b') t ∧
             ∀ y, es' !! y = if decide (y ∈ names) then None else es !! y).
Proof.
  intros Hf. revert t es b. induction names as [|x names IH]; intros t es b Hg Hok; cbn.
  { apply tr_ret. exists es, b. by rewrite put_same. }
  eapply tr_bind; [eapply Hf; eauto|]. intros _ t' [b' ->]. eapply h_conseq.
  { eapply IH; [by eapply get_put|]. intros y n [_ Hy]%lookup_delete_Some. eauto. }
  intros _ t' (es' & b2 & -> & Hes). exists es', b2. rewrite put_put. split; [done|].
  intros y. rewrite Hes. destruct (decide (x = y)) as [->|Hne].
  - rewrite lookup_delete_eq. clear. repeat case_decide; set_solver.
  - rewrite lookup_delete_ne by done. clear -Hne. repeat case_decide; set_solver.
Qed.

Lemma h_remove_entry fuel fd pp : removes (remove_entry fuel fd pp) fd (removable fuel).
Proof.
  revert fd pp. induction fuel as [|fuel IH]; intros fd pp t x es b Hg Hx;
    cbn [remove_entry]; (eapply tr_bind; [by eapply h_wrapf, h_entryModeAt|]);
    intros k t' [-> ->]; (destruct (es !! x) as [n|] eqn:Hn;
      [|apply tr_ret; exists b; by rewrite delete_id, put_same]);
    specialize (Hx n eq_refl);
    pose proof (fs_get_entry _ _ _ _ _ _ Hg Hn) as Hgx;
    (destruct n as [d c|es1 c| |]; cbn [fmap option_fmap option_map kind_of];
      [| |apply tr_fail; destruct Hx as [?|[Hp _]]; [done|by destruct (Hp [] _ eq_refl)]..]).
  1,3: apply h_wrapf; (eapply tr_bind; [apply h_syscall|]); intros _ t' ->; look Hg;
    rewrite Hn; cbn; exists false; by rewrite Hs, (fs_upd_put _ _ _ _ Hg).
  { apply tr_fail. destruct Hx as [?|[_ Hd]]; [done|]. cbn in Hd. lia. }
  eapply tr_bind.
  { apply h_wrapf, h_open. intros Hno. destruct Hno. by eexists _, _. }
  intros a t' (-> & -> & _).
  apply (tr_bind _ _ _ (λ _ t', ∃ c', t' = put fd (Dir (<[x := Dir ∅ c']> es) b) t)).
  - apply h_on_error. eapply tr_bind; [by eapply h_wrapf, h_readDirectoryEntriesFD|].
    intros names t' (-> & _ & Hnames). eapply h_conseq.
    { eapply h_remove_names; [apply IH|done|]. intros y n Hy.
      destruct Hx as [?|[Hp Hd]]; [by left|right]. split; [by eapply plain_child|].
      apply (depth_child _ c) in Hy. lia. }
    intros _ t' (es' & c' & -> & Hes). exists c'.
    rewrite (put_entry _ _ _ _ _ _ _ Hg Hn). do 4 f_equal. apply map_eq. intros y.
    rewrite Hes, lookup_empty. case_decide as Hy; [done|].
    apply eq_None_not_Some. by rewrite <- Hnames.
  - intros _ t' [c' ->]. eapply tr_bind; [apply h_wrapf, h_syscall|]. intros _ t' ->.
    apply h_wrapf. eapply tr_bind; [apply h_syscall|]. intros _ t' ->.
    pose proof (get_put fd _ (Dir (<[x:=Dir ∅ c']> es) b) _ Hg) as Hg'.
    look Hg'. rewrite lookup_insert_eq. cbn. rewrite decide_True by done. cbn.
    exists false. rewrite Hs, (fs_upd_put _ _ _ _ Hg'). cbn.
    by rewrite put_put, delete_insert_eq.
Qed.

Lemma h_removeEntryTreeAt fd pp :
  removes (removeEntryTreeAt fd pp) fd (λ n, trouble ∨ plain n).
Proof.
  intros t x es b Hg Hx s Hs. unfold removeEntryTreeAt, bind. cbn. rewrite Hs.
  refine (h_remove_entry _ _ _ _ _ _ _ Hg _ s Hs). intros n Hn.
  destruct (Hx n Hn) as [?|Hp]; [by left|right]. split; [done|].
  pose proof (fs_get_entry _ _ _ _ _ _ Hg Hn) as Hd. by eapply depth_get.
Qed.

Lemma h_removeTreeContentsFD t fd pp es b :
  fs_get fd t = Some (Dir es b) → (∀ x n, es !! x = Some n → trouble ∨ plain n) →
  hoare t (removeTreeContentsFD fd pp) (λ _ t', ∃ b', t' = put fd (Dir ∅ b') t).
Proof.
  intros Hg Hx. eapply tr_bind; [by eapply h_wrapf, h_readDirectoryEntriesFD|].
  intros names t' (-> & _ & Hnames). eapply h_conseq.
  { by eapply h_remove_names; [apply h_removeEntryTreeAt|..]. }
  intros _ t' (es' & b' & -> & Hes). exists b'. do 2 f_equal. apply map_eq. intros y.
  rewrite Hes, lookup_empty. case_decide as Hy; [done|].
  apply eq_None_not_Some. by rewrite <- Hnames.
Qed.

(** *** Copying *)

(** [copy x] copies the subdirectory [x] of [sfd] into [tfd], when it
    satisfies [ok]. *)
Definition copies (copy : string → PM unit) (sfd tfd : path) (ok : node → Prop) : Prop :=
  ∀ t x ses sb es c tes,
  fs_get sfd t = Some (Dir ses sb) → ses !! x = Some (Dir es c) →
  fs_get tfd t = Some (Dir tes true) →
  trouble ∨ ok (Dir es c) ∧ tes !! x = None →
  hoare t (copy x) (λ _ t', t' = put tfd (Dir (<[x := copied (Dir es c)]> tes) true) t).

Lemma h_copy_names copy sfd sp tfd tp ok names t ses sb tes :
  away sfd tfd → copies copy sfd tfd ok →
  trouble ∨ (∀ x n, ses !! x = Some n → ok n) →
  fs_get sfd t = Some (Dir ses sb) → fs_get tfd t = Some (Dir tes true) →
  NoDup names → (∀ x, x ∈ names → is_Some (ses !! x)) →
  trouble ∨ tidy (Dir ses sb) ∧ (∀ x, x ∈ names → tes !! x = None) ∧
            (∀ x, tes !! (".tmp-" +:+ x) = None) →
  hoare t (for_each (copy_entry copy sfd sp tfd tp) names)
    (λ _ t', ∃ tes', t' = put tfd (Dir tes' true) t ∧
             ∀ y, tes' !! y = if decide (y ∈ names) then copied <$> ses !! y else tes !! y).
Proof.
  intros Ha Hcopy Hdeep. revert t tes. induction names as [|x names IH];
    intros t tes Hgs Hgt Hnd Hin Hok; cbn [for_each].
  { apply tr_ret. exists tes. by rewrite put_same. }
  apply NoDup_cons in Hnd as [Hx Hnd].
  destruct (Hin x) as [n Hn]; [set_solver|].
  apply (tr_bind _ _ _ (λ _ t', t' = put tfd (Dir (<[x := copied n]> tes) true) t)).
  - unfold copy_entry. eapply tr_bind; [by eapply h_wrapf, h_entryModeAt|].
    intros k t' [-> ->]. rewrite Hn. destruct n as [d c|es c| |]; cbn -[copied].
    + eapply tr_bind; [by eapply h_wrapf, h_readRegularFile|]. intros a t' [-> ->].
      eapply h_writeRegularFileAt; [done|].
      destruct Hok as [?|(_ & Hf & Ht)]; [by left|right]. split; [done|]. apply Hf. set_solver.
    + eapply Hcopy; try done. destruct Hok as [?|(_ & Hf & _)]; [by left|].
      destruct Hdeep as [?|Hdeep]; [by left|right]. split; [by eapply Hdeep|]. apply Hf. set_solver.
    + apply tr_fail. destruct Hok as [?|([Hp _] & _)]; [done|].
      destruct (Hp [x] Symlink). cbn. by rewrite Hn.
    + apply tr_fail. destruct Hok as [?|([Hp _] & _)]; [done|].
      destruct (Hp [x] Special). cbn. by rewrite Hn.
  - intros _ t' ->. eapply h_conseq.
    { eapply IH; [|by eapply get_put|done|set_solver|].
      - unfold put. by rewrite fs_get_upd_away.
      - destruct Hok as [?|(Ht & Hf & Htmp)]; [by left|right]. split; [done|]. split.
        + intros y Hy. rewrite lookup_insert_ne by (intros ->; done). apply Hf. set_solver.
        + intros y. rewrite lookup_insert_ne; [done|]. intros ->.
          destruct Ht as [_ Ht]. specialize (Ht [] ses sb eq_refl y). congruence. }
    intros _ t' (tes' & -> & Htes). exists tes'. rewrite put_put. split; [done|].
    intros y. rewrite Htes. destruct (decide (x = y)) as [->|Hne].
    + rewrite lookup_insert_eq, decide_False by done. rewrite decide_True by set_solver.
      by rewrite Hn.
    + rewrite lookup_insert_ne by done. clear -Hne. repeat case_decide; set_solver.
Qed.

Lemma h_copy_entries copy sfd sp tfd tp ok t ses sb :
  away sfd tfd → copies copy sfd tfd ok →
  trouble ∨ (∀ x n, ses !! x = Some n → ok n) →
  fs_get sfd t = Some (Dir ses sb) → fs_get tfd t = Some (Dir ∅ true) →
  trouble ∨ tidy (Dir ses sb) →
  hoare t (copy_entries copy sfd sp tfd tp)
    (λ _ t', t' = put tfd (copied (Dir ses sb)) t).
Proof.
  intros Ha Hcopy Hdeep Hgs Hgt Hok.
  eapply tr_bind; [by eapply h_wrapf, h_readDirectoryEntriesFD|].
  intros names t' (-> & Hnd & Hnames). eapply h_conseq.
  { eapply h_copy_names; try done; [by intros x ?%Hnames|].
    destruct Hok as [?|?]; [by left|right]. done. }
  intros _ t' (tes & -> & Htes). cbn. do 2 f_equal. apply map_eq. intros y.
  rewrite Htes, lookup_empty, lookup_fmap. case_decide as Hy; [done|].
  rewrite Hnames, <- eq_None_not_Some in Hy. by rewrite Hy.
Qed.

(** [fuel] levels are enough to copy [n]. *)
Definition copiable (fuel : nat) (n : node) : Prop := (depth n <= fuel)%nat ∧ tidy n.

Lemma h_copy_tree fuel t sfd sp sx tfd tp tx es c tes b :
  away (sfd ++ [sx]) tfd →
  fs_get (sfd ++ [sx]) t = Some (Dir es c) → fs_get tfd t = Some (Dir tes b) →
  trouble ∨ (depth (Dir es c) <= fuel)%nat ∧ tidy (Dir es c) ∧ tes !! tx = None →
  hoare t (copy_tree fuel sfd sp sx tfd tp tx)
    (λ _ t', t' = put tfd (Dir (<[tx := copied (Dir es c)]> tes) true) t).
Proof.
  revert t sfd sp sx tfd tp tx es c tes b.
  induction fuel as [|fuel IH]; intros t sfd sp sx tfd tp tx es c tes b Ha Hgs Hgt Hok;
    cbn [copy_tree]; (eapply tr_bind;
      [eapply h_createDirectoryAt; [done|];
       destruct Hok as [?|(_ & _ & ->)]; [done|by intros [? ?]]|]);
    intros a t' (-> & Hnone & ->); apply h_on_error;
    (apply tr_finally; [apply reads_Close|]);
    assert (Hgs' : fs_get (sfd ++ [sx]) (put tfd (Dir (<[tx:=Dir ∅ true]> tes) true) t) =
                   Some (Dir es c)) by (unfold put; by rewrite fs_get_upd_away);
    (eapply tr_bind; [apply h_wrapf, h_open; intros Hno; destruct Hno; by eexists _, _|]);
    intros a t' (-> & -> & _); (apply tr_finally; [apply reads_Close|]).
  - apply (tr_bind _ _ _ (λ _ _, False)); [|done]. apply tr_fail.
    destruct Hok as [?|(Hd & _)]; [done|]. cbn in Hd. lia.
  - set (t1 := put tfd _ t) in *.
    assert (Hgt1 : fs_get (tfd ++ [tx]) t1 = Some (Dir ∅ true)).
    { eapply fs_get_entry; [by eapply get_put|apply lookup_insert_eq]. }
    assert (Ht : ∀ n, put (tfd ++ [tx]) n t1 = put tfd (Dir (<[tx := n]> tes) true) t).
    { intros n. erewrite put_entry; [|by eapply get_put|apply lookup_insert_eq].
      unfold t1. by rewrite put_put, insert_insert_eq. }
    apply (tr_bind _ _ _ (λ _ t', t' = put (tfd ++ [tx]) (copied (Dir es c)) t1)).
    + eapply (h_copy_entries _ _ _ _ _ (copiable fuel)); try done.
      * by apply away_app.
      * intros t2 x ses sb es' c' tes' Hs2 Hx Ht2 Hok2. eapply IH; try done.
        -- apply away_sym, away_app, away_sym. by apply away_app.
        -- by eapply fs_get_entry.
        -- by destruct Hok2 as [?|[[? ?] ?]]; [left|right].
      * destruct Hok as [?|(Hd & Ht' & _)]; [by left|right]. intros x n Hx.
        split; [|by eapply tidy_child]. apply (depth_child _ c) in Hx. lia.
      * destruct Hok as [?|(_ & ? & _)]; [by left|by right].
    + intros _ t' ->. eapply h_conseq; [eapply h_syncFD; by eapply get_put|].
      intros _ t' ->. by rewrite put_put, Ht.
Qed.

Lemma h_copyDirectoryTreeAt t sfd sp sx tfd tp tx es c tes b :
  away (sfd ++ [sx]) tfd →
  fs_get (sfd ++ [sx]) t = Some (Dir es c) → fs_get tfd t = Some (Dir tes b) →
  trouble ∨ tidy (Dir es c) ∧ tes !! tx = None →
  hoare t (copyDirectoryTreeAt sfd sp sx tfd tp tx)
    (λ _ t', t' = put tfd (Dir (<[tx := copied (Dir es c)]> tes) true) t).
Proof.
  intros Ha Hgs Hgt Hok s Hs. unfold copyDirectoryTreeAt, bind. cbn -[copied]. rewrite Hs.
  refine (h_copy_tree _ _ _ _ _ _ _ _ _ _ _ _ Ha Hgs Hgt _ s Hs).
  destruct Hok as [?|[? ?]]; [by left|right]. split; [by eapply depth_get|done].
Qed.

Lemma h_copyDirectoryContentsAt t sfd sp sx tfd tp tx es c :
  away (sfd ++ [sx]) (tfd ++ [tx]) →
  fs_get (sfd ++ [sx]) t = Some (Dir es c) → fs_get (tfd ++ [tx]) t = Some (Dir ∅ true) →
  trouble ∨ tidy (Dir es c) →
  hoare t (copyDirectoryContentsAt sfd sp sx tfd tp tx)
    (λ _ t', t' = put (tfd ++ [tx]) (copied (Dir es c)) t).
Proof.
  intros Ha Hgs Hgt Hok. unfold copyDirectoryContentsAt. eapply tr_bind.
  { apply h_wrapf, h_open. intros Hno. destruct Hno. by eexists _, _. }
  intros a t' (-> & -> & _). apply tr_finally; [apply reads_Close|]. eapply tr_bind.
  { apply h_wrapf, h_open. intros Hno. destruct Hno. by eexists _, _. }
  intros a t' (-> & -> & _). apply tr_finally; [apply reads_Close|].
  intros s Hs. unfold copyDirectoryEntries, bind. cbn -[copied]. rewrite Hs.
  refine (h_copy_entries _ _ _ _ _ (copiable (depth t)) _ _ _ Ha _ _ Hgs Hgt Hok s Hs).
  - intros t2 x ses sb es' c' tes' Hs2 Hx Ht2 Hok2. eapply h_copy_tree; try done.
    + by apply away_sym, away_app, away_sym.
    + by eapply fs_get_entry.
    + by destruct Hok2 as [?|[[? ?] ?]]; [left|right].
  - destruct Hok as [?|Ht]; [by left|right]. intros x n Hx.
    split; [|by eapply tidy_child]. apply (depth_child _ c) in Hx.
    apply depth_get in Hgs. lia.
Qed.

(** *** Walking to the root of the store *)

Definition proper (c : string) : Prop := c ≠ "" ∧ c ≠ ".".

(** Errors that do not report corruption. *)
Definition clean_error (e : goerr) : Prop :=
  AsPayloadCorruptionError e = None ∧ AsRecordCorruptionError e = None.

Lemma read_error_clean t absent e t' w :
  read_error t absent e t' → clean_error (EWrapf w e) ∧ t' = t ∧ (absent ∨ trouble).
Proof.
  intros (-> & [[He Ha]|[Ht [x ->]]]); [|done || (split; [done|]; tauto)].
  split; [|tauto]. by destruct He as [->|[->|[->| ->]]].
Qed.

Lemma tr_walk t whole fd cur comps :
  dir_at t fd →
  triple t (walk_components false whole fd cur comps)
    (λ a t', a = fd ++ filter proper comps ∧ t' = t ∧ dir_at t a ∧ ".." ∉ comps)
    (λ e t', clean_error e ∧ t' = t ∧
             (¬ dir_at t (fd ++ filter proper comps) ∨ ".." ∈ comps ∨ trouble)).
Proof.
  revert fd cur. induction comps as [|c comps IH]; intros fd cur Hd.
  { apply tr_ret. rewrite app_nil_r, elem_of_nil. tauto. }
  cbn [walk_components]. case_decide as Hc.
  { rewrite filter_cons_False by (unfold proper; tauto).
    eapply tr_conseq; [by apply IH|intros a t' (? & ? & ? & Hn);
      do 3 (split; [done|]); rewrite elem_of_cons; intros [<-|?]; [by destruct Hc|done]|]. intros e t' (? & -> & [?|[?|?]]); rewrite elem_of_cons; tauto. }
  case_decide as Hdd.
  { eapply (tr_bind _ _ _ (λ _ t', t' = t)).
    - apply tr_ignore. intros s <-. apply reads_tree, reads_Close.
    - intros _ t' ->. apply tr_fail. split; [done|]. subst. rewrite elem_of_cons. tauto. }
  rewrite filter_cons_True by (unfold proper; tauto).
  eapply (tr_bind _ _ _ (λ created t', created = false ∧ t' = t)); [by apply tr_ret|].
  intros cr t' [-> ->].
  eapply (tr_bind _ _ _ (λ a t', a = fd ++ [c] ∧ t' = t ∧ dir_at t (fd ++ [c]))).
  { apply tr_on_error; [apply reads_Close|]. eapply tr_wrapf; [apply tr_open|].
    intros e t' (? & -> & [Hn|?])%(read_error_clean _ _ _ _ ("open spool directory " +:+ join cur c));
      (split; [done|]); (split; [done|]); [left|tauto].
    intros (es & b & Hg). apply Hn. rewrite cons_middle, app_assoc, fs_get_app in Hg.
    unfold dir_at. destruct (fs_get (fd ++ [c]) t) as [[]|]; cbn in Hg; eauto;
      destruct (filter proper comps); try done; eauto. }
  intros a t' (-> & -> & Hdc).
  eapply (tr_bind _ _ _ (λ _ t', t' = t)); [by apply tr_ret|]. intros _ t' ->.
  eapply (tr_bind _ _ _ (λ _ t', t' = t)).
  { apply tr_on_error; [apply reads_Close|]. eapply tr_wrapf; [apply tr_syscall|].
    intros e t' (-> & Ht & [x ->]). split; [done|]. tauto. }
  intros _ t' ->.
  replace (fd ++ c :: filter proper comps) with ((fd ++ [c]) ++ filter proper comps)
    by by rewrite <- app_assoc.
  eapply tr_conseq; [by apply IH|..].
  - intros a t' (? & ? & ? & Hn). do 3 (split; [done|]). rewrite elem_of_cons.
    by intros [<-|?].
  - intros e t' (? & -> & [?|[?|?]]); rewrite elem_of_cons; tauto.
Qed.
End ops.
