(* ===== verification/PayloadStore.v ===== *)
(** * internal/spool/payload_store.go

    Payloads on disk: a directory per record with a JSON manifest and one file
    per attachment.  A payload is assembled in the staging directory and
    published by a rename, or through a copy when staging is on another device.

    [json.Marshal] and [json.Unmarshal] of the manifest are used through the
    interface [ManifestCodec]. *)
From Stdlib Require Import Ascii.
From S2P Require Import Prelude.
From S2P Require Import GoStrings.
From S2P Require Import GoTime.
From S2P Require Import GoErrors.
From S2P Require Import GoEncoding.
From S2P Require Import GoSHA256.
From S2P Require Import Email.
From S2P Require Import SpoolCommon.
From S2P Require Import PayloadFS.
#[local] Open Scope Z_scope.
#[local] Open Scope relay_scope.

Definition payloadsDirName : string := "payloads".
Definition payloadOrphansDirName : string := "payload-orphans".
Definition stagingDirName : string := "staging".
Definition messageFileName : string := "message.json".
Definition attachmentsDirName : string := "attachments".

Record PayloadStore := MkPayloadStore {
  ps_root : string;
  ps_payloadsRoot : string;
  ps_orphanRoot : string;
  ps_stagingRoot : string;
}.

Record payloadAttachmentRef := MkRef {
  ar_Filename : string;
  ar_ContentType : string;
  ar_Path : string;
  ar_SizeBytes : Z;
  ar_SHA256 : string;
}.

Record payloadManifest := MkManifest {
  pm_EnvelopeFrom : string;
  pm_HeaderFrom : string;
  pm_ReplyTo : list string;
  pm_To : list string;
  pm_Subject : string;
  pm_TextBody : string;
  pm_HTMLBody : string;
  pm_Attachments : list payloadAttachmentRef;
}.

Class ManifestCodec := {
  manifest_Marshal : payloadManifest → string + goerr;
  manifest_Unmarshal : string → payloadManifest + goerr;
}.

(** [fmt.Sprintf("%d.bin", i)] and its path in the payload. *)
Definition attachment_file (i : nat) : string := Itoa (Z.of_nat i) +:+ ".bin".
Definition attachment_path (i : nat) : string := join attachmentsDirName (attachment_file i).

(** [hex.DecodeString]: both cases of digits, an even number of them. *)
Definition hex_value (c : ascii) : option Z :=
  if between 48 57 c then Some (byte_val c - 48)
  else if between 97 102 c then Some (byte_val c - 87)
  else if between 65 70 c then Some (byte_val c - 55)
  else None.

Fixpoint hex_Decode (l : bytes) : option bytes :=
  match l with
  | [] => Some []
  | a :: b :: l =>
      x ← hex_value a; y ← hex_value b; rest ← hex_Decode l; Some (chr (x * 16 + y) :: rest)
  | _ => None
  end.

Section store.
Context `{U : UnicodeTables} `{Env : FSEnv} `{Codec : ManifestCodec}.

Definition validateAttachmentRef (index : nat) (ref : payloadAttachmentRef) : string + goerr :=
  if decide (TrimSpace (ar_Path ref) ≠ attachment_path index) then
    inr (EText ("attachment path must be " +:+ Quote (attachment_path index)))
  else if ar_SizeBytes ref <? 0 then inr (EText "attachment size must be non-negative")
  else
    let bad := inr (EText "attachment sha256 must be a 32-byte hex digest") in
    match hex_Decode (bs (TrimSpace (ar_SHA256 ref))) with
    | None => bad
    | Some sum => if decide (length sum = 32%nat) then inl (attachment_file index) else bad
    end.

Section methods.
Context (ps : PayloadStore).

Definition payloadDir (id : string) : string := join (ps_payloadsRoot ps) id.

(** The root, opened and closed around [k]. *)
Definition with_root {A} (k : path → PM A) : PM A :=
  let! r := wrapf ("open spool root " +:+ ps_root ps) (openDirectoryPathNoFollow (ps_root ps)) in
  finally (k r.1) (unixClose r.1).

(** A directory of the root, opened and closed around [k]. *)
Definition with_dir {A} (what dirPath : string) (rootFD : path) (name : string)
    (k : path → PM A) : PM A :=
  let! fd := wrapf ("open " +:+ what +:+ " root " +:+ dirPath)
               (openDirectoryAtNoFollow rootFD name) in
  finally (k fd) (unixClose fd).

Definition with_payloads {A} (rootFD : path) (k : path → PM A) : PM A :=
  with_dir "payload" (ps_payloadsRoot ps) rootFD payloadsDirName k.

(** *** Save *)

Fixpoint save_attachments (i : nat) (fd : path) (dirPath : string) (atts : list Attachment)
    : PM (list payloadAttachmentRef) :=
  match atts with
  | [] => ret []
  | a :: atts =>
      writeRegularFileAt fd dirPath (attachment_file i) (Data a) ;;!
      let! refs := save_attachments (S i) fd dirPath atts in
      ret (MkRef (Filename a) (ContentType a) (attachment_path i)
             (Z.of_nat (String.length (Data a))) (hex_EncodeToString (sha256 (Data a))) :: refs)
  end.

Definition save_attachment_dir (stageFD : path) (stagePath : string) (atts : list Attachment)
    : PM (list payloadAttachmentRef) :=
  match atts with
  | [] => ret []
  | _ =>
      let! fd := createDirectoryAt stageFD stagePath attachmentsDirName in
      let dirPath := join stagePath attachmentsDirName in
      let! refs := on_error (let! refs := save_attachments 0 fd dirPath atts in
                             syncFD fd dirPath ;;! ret refs) (unixClose fd) in
      unixClose fd ;;! ret refs
  end.

Definition manifest_of (msg : Message) (refs : list payloadAttachmentRef) : payloadManifest :=
  MkManifest (TrimSpace (EnvelopeFrom msg)) (TrimSpace (HeaderFrom msg)) (ReplyTo msg) (To msg)
    (Subject msg) (TextBody msg) (HTMLBody msg) refs.

Definition publishViaPayloadTemp (stagingFD : path) (stageName : string) (payloadsFD : path)
    (id : string) : PM unit :=
  let! t := createPublishTempDirectoryAt payloadsFD (ps_payloadsRoot ps) id in
  let tempName := t.1 in
  ignore (unixClose t.2) ;;!
  on_error
    (copyDirectoryContentsAt stagingFD (join (ps_stagingRoot ps) stageName) stageName
       payloadsFD (join (ps_payloadsRoot ps) tempName) tempName ;;!
     renameDirectoryAt payloadsFD tempName payloadsFD id ;;!
     syncFD payloadsFD (ps_payloadsRoot ps))
    (ignore (removeEntryTreeAt payloadsFD (ps_payloadsRoot ps) tempName) ;;!
     syncFD payloadsFD (ps_payloadsRoot ps)) ;;!
  ignore (removeEntryTreeAt stagingFD (ps_stagingRoot ps) stageName) ;;!
  ignore (syncFD stagingFD (ps_stagingRoot ps)).

Definition publish (stagingFD : path) (stageName : string) (payloadsFD : path) (id : string)
    : PM unit :=
  let what := "publish payload " +:+ join (ps_stagingRoot ps) stageName +:+ " -> "
              +:+ payloadDir id in
  try (renameDirectoryAt stagingFD stageName payloadsFD id) (λ r,
    match r with
    | inr e =>
        if isCrossDeviceError e
        then wrapf what (publishViaPayloadTemp stagingFD stageName payloadsFD id)
        else fail (EWrapf what e)
    | inl _ =>
        syncFD payloadsFD (ps_payloadsRoot ps) ;;! syncFD stagingFD (ps_stagingRoot ps)
    end).

(** The part of [Save] that fills the staging directory and publishes it. *)
Definition save_stage (payloadsFD stagingFD : path) (id : string) (msg : Message)
    (stageName : string) (stageFD : path) : PM unit :=
  let stagePath := join (ps_stagingRoot ps) stageName in
  let! refs := save_attachment_dir stageFD stagePath (Attachments msg) in
  match manifest_Marshal (manifest_of msg refs) with
  | inr e => fail (EWrapf ("marshal payload manifest " +:+ Quote id) e)
  | inl data =>
      writeRegularFileAt stageFD stagePath messageFileName data ;;!
      syncFD stageFD stagePath ;;!
      publish stagingFD stageName payloadsFD id
  end.

Definition save_new (payloadsFD stagingFD : path) (id : string) (msg : Message) : PM unit :=
  let! mode := wrapf ("stat payload target " +:+ payloadDir id) (entryModeAt payloadsFD id) in
  match mode with
  | Some k =>
      if decide (k = S_IFDIR) then fail (EText ("payload already exists: " +:+ payloadDir id))
      else fail (unexpectedEntryError (ps_payloadsRoot ps) id)
  | None =>
      let! t := createStagingDirectoryAt stagingFD (ps_stagingRoot ps) id in
      try (save_stage payloadsFD stagingFD id msg t.1 t.2) (λ r,
        ignore (unixClose t.2) ;;!
        match r with
        | inl _ => ret tt
        | inr e =>
            ignore (removeEntryTreeAt stagingFD (ps_stagingRoot ps) t.1) ;;!
            ignore (syncFD stagingFD (ps_stagingRoot ps)) ;;!
            fail e
        end)
  end.

Definition ps_Save (id : string) (msg : Message) : PM unit :=
  let id := TrimSpace id in
  lift (validateCanonicalRecordID id) ;;!
  with_root (λ rootFD,
    with_payloads rootFD (λ payloadsFD,
      with_dir "staging" (ps_stagingRoot ps) rootFD stagingDirName (λ stagingFD,
        save_new payloadsFD stagingFD id msg))).

(** *** Load *)

Definition corrupt {A} (id p : string) (cause : goerr) : PM A :=
  fail (PayloadCorruptionError id p cause).

(** [classifyRecordPathError] on the error of [m]. *)
Definition classified {A} (id p missing : string) (m : PM A) : PM A :=
  try m (λ r, match r with
              | inr e => fail (classifyRecordPathError id p e missing)
              | inl a => ret a
              end).

Definition load_attachment (id dirPath manifestPath : string) (fd : path) (i : nat)
    (ref : payloadAttachmentRef) : PM Attachment :=
  match validateAttachmentRef i ref with
  | inr e => corrupt id manifestPath e
  | inl fileName =>
      let fullPath := join (join dirPath attachmentsDirName) fileName in
      let! data := classified id fullPath "attachment file is missing"
                     (readRegularFileAtNoFollow fd fileName) in
      if negb (Z.of_nat (String.length data) =? ar_SizeBytes ref) then
        corrupt id fullPath (EText "attachment size mismatch")
      else if negb (EqualFold (hex_EncodeToString (sha256 data)) (TrimSpace (ar_SHA256 ref))) then
        corrupt id fullPath (EText "attachment sha256 mismatch")
      else ret (MkAttachment (ar_Filename ref) (ar_ContentType ref) data)
  end.

Fixpoint load_attachments (id dirPath manifestPath : string) (fd : path) (i : nat)
    (refs : list payloadAttachmentRef) : PM (list Attachment) :=
  match refs with
  | [] => ret []
  | ref :: refs =>
      let! a := load_attachment id dirPath manifestPath fd i ref in
      let! atts := load_attachments id dirPath manifestPath fd (S i) refs in
      ret (a :: atts)
  end.

Definition message_of (m : payloadManifest) (atts : list Attachment) : Message :=
  MkMessage (TrimSpace (pm_EnvelopeFrom m)) (TrimSpace (pm_HeaderFrom m)) (pm_ReplyTo m)
    (pm_To m) (pm_Subject m) (pm_TextBody m) (pm_HTMLBody m) atts.

Definition load_dir (id dirPath : string) (dirFD : path) : PM Message :=
  let manifestPath := join dirPath messageFileName in
  let! data := classified id manifestPath "payload manifest is missing"
                 (readRegularFileAtNoFollow dirFD messageFileName) in
  match manifest_Unmarshal data with
  | inr e => corrupt id manifestPath (EWrapf "decode payload manifest" e)
  | inl manifest =>
      match pm_Attachments manifest with
      | [] => ret (message_of manifest [])
      | refs =>
          let! fd := classified id (join dirPath attachmentsDirName)
                       "attachments directory is missing"
                       (openDirectoryAtNoFollow dirFD attachmentsDirName) in
          finally
            (let! atts := load_attachments id dirPath manifestPath fd 0 refs in
             ret (message_of manifest atts))
            (unixClose fd)
      end
  end.

Definition ps_Load (id : string) : PM Message :=
  let id := TrimSpace id in
  lift (validateCanonicalRecordID id) ;;!
  with_root (λ rootFD,
    with_payloads rootFD (λ payloadsFD,
      let! dirFD := classified id (payloadDir id) "payload directory is missing"
                      (openDirectoryAtNoFollow payloadsFD id) in
      finally (load_dir id (payloadDir id) dirFD) (unixClose dirFD))).

(** *** Remove *)

Definition ps_Remove (id : string) : PM unit :=
  let id := TrimSpace id in
  lift (validateCanonicalRecordID id) ;;!
  with_root (λ rootFD,
    with_payloads rootFD (λ payloadsFD,
      removeEntryTreeAt payloadsFD (ps_payloadsRoot ps) id ;;!
      syncFD payloadsFD (ps_payloadsRoot ps))).

(** *** QuarantineOrphans *)

Definition copyAndRemoveOrphan (payloadsFD : path) (sourceName : string) (orphanFD : path)
    (targetName : string) : PM unit :=
  copyDirectoryTreeAt payloadsFD (ps_payloadsRoot ps) sourceName orphanFD (ps_orphanRoot ps)
    targetName ;;!
  on_error (removeEntryTreeAt payloadsFD (ps_payloadsRoot ps) sourceName)
    (ignore (removeEntryTreeAt orphanFD (ps_orphanRoot ps) targetName) ;;!
     syncFD orphanFD (ps_orphanRoot ps)).

(** One entry of the scan: the path it was moved to, if it was. *)
Definition quarantine_entry (payloadsFD orphanFD : path) (validIDs : gset string)
    (name : string) : PM (list string) :=
  let p := join (ps_payloadsRoot ps) name in
  match validateCanonicalRecordID name with
  | inr e => fail (EWrapf ("invalid payload entry " +:+ p) e)
  | inl _ =>
      let! mode := wrapf ("stat payload entry " +:+ p) (entryModeAt payloadsFD name) in
      match mode with
      | None => fail (EText ("payload entry disappeared during orphan scan: " +:+ p))
      | Some k =>
          if negb (bool_decide (k = S_IFDIR)) then
            fail (unexpectedEntryError (ps_payloadsRoot ps) name)
          else if decide (name ∈ validIDs) then ret []
          else
            let! targetName := wrapf ("select quarantine name for " +:+ p)
                                 (uniqueQuarantineNameAt orphanFD name) in
            let q := join (ps_orphanRoot ps) targetName in
            let what := "move orphan payload " +:+ p +:+ " -> " +:+ q in
            try (renameDirectoryAt payloadsFD name orphanFD targetName) (λ r,
              match r with
              | inl _ => ret tt
              | inr e =>
                  if isCrossDeviceError e
                  then wrapf what (copyAndRemoveOrphan payloadsFD name orphanFD targetName)
                  else fail (EWrapf what e)
              end) ;;!
            syncFD payloadsFD (ps_payloadsRoot ps) ;;!
            syncFD orphanFD (ps_orphanRoot ps) ;;!
            ret [q]
      end
  end.

Fixpoint quarantine_loop (payloadsFD orphanFD : path) (validIDs : gset string)
    (names : list string) : PM (list string) :=
  match names with
  | [] => ret []
  | name :: names =>
      let! q := quarantine_entry payloadsFD orphanFD validIDs name in
      let! qs := quarantine_loop payloadsFD orphanFD validIDs names in
      ret (q ++ qs)
  end.

(** The names moved before an error are dropped here: the caller ignores
    them. *)
Definition ps_QuarantineOrphans (validIDs : gset string) : PM (list string) :=
  with_root (λ rootFD,
    with_payloads rootFD (λ payloadsFD,
      with_dir "orphan" (ps_orphanRoot ps) rootFD payloadOrphansDirName (λ orphanFD,
        let! names := wrapf ("read payload root " +:+ ps_payloadsRoot ps)
                        (readDirectoryEntriesFD payloadsFD) in
        quarantine_loop payloadsFD orphanFD validIDs names))).

Definition cleanup_temp (payloadsFD : path) (name : string) : PM unit :=
  wrapf ("clean payload publish temp " +:+ join (ps_payloadsRoot ps) name)
    (removeEntryTreeAt payloadsFD (ps_payloadsRoot ps) name).

Definition cleanupPayloadTemps (payloadsFD : path) : PM unit :=
  let! names := wrapf ("read payload root " +:+ ps_payloadsRoot ps)
                  (readDirectoryEntriesFD payloadsFD) in
  let temps := filter (λ n, HasPrefix n publishTempPrefix = true) names in
  for_each (cleanup_temp payloadsFD) temps ;;!
  if decide (temps = []) then ret tt else syncFD payloadsFD (ps_payloadsRoot ps).
End methods.

Definition NewPayloadStore (root : string) : PM PayloadStore :=
  let root := TrimSpace root in
  if decide (root = "") then fail (EText "spool root cannot be empty")
  else
    let! r := wrapf ("ensure spool root " +:+ root) (ensureDirectoryPathNoFollow root) in
    let rootFD := r.1 in
    let cleanRoot := r.2 in
    let store := MkPayloadStore cleanRoot (join cleanRoot payloadsDirName)
                   (join cleanRoot payloadOrphansDirName) (join cleanRoot stagingDirName) in
    finally
      (let! payloadsFD := ensureDirectoryAt rootFD cleanRoot payloadsDirName in
       finally
         (let! orphanFD := ensureDirectoryAt rootFD cleanRoot payloadOrphansDirName in
          finally
            (let! stagingFD := ensureDirectoryAt rootFD cleanRoot stagingDirName in
             finally
               (wrapf ("clean staging root " +:+ ps_stagingRoot store)
                  (removeTreeContentsFD stagingFD (ps_stagingRoot store)) ;;!
                syncFD stagingFD (ps_stagingRoot store) ;;!
                cleanupPayloadTemps store payloadsFD ;;!
                ret store)
               (unixClose stagingFD))
            (unixClose orphanFD))
         (unixClose payloadsFD))
      (unixClose rootFD).
End store.
