(* ===== verification/PayloadProps.v ===== *)
(** * Properties of the payload store

    What can be read of a payload directory ([read_payload]), that [Load]
    returns exactly that and reports corruption only when nothing can be read,
    that [Save] makes it so durably on both ways of publishing, and that no
    operation touches the payload of another record. *)
From Stdlib Require Import Ascii.
From S2P Require Import Prelude.
From S2P Require Import GoStrings.
From S2P Require Import GoTime.
From S2P Require Import GoErrors.
From S2P Require Import GoEncoding.
From S2P Require Import GoSHA256.
From S2P Require Import GoNumbers.
From S2P Require Import Email.
From S2P Require Import SpoolCommon.
From S2P Require Import PayloadFS.
From S2P Require Import PayloadTree.
From S2P Require Import PayloadHoare.
From S2P Require Import PayloadStore.
#[local] Open Scope Z_scope.
#[local] Open Scope relay_scope.

Section read.
Context `{U : UnicodeTables} `{Codec : ManifestCodec}.

(** ** What a payload directory says *)

Definition attachment_intact (ref : payloadAttachmentRef) (data : string) : bool :=
  (Z.of_nat (String.length data) =? ar_SizeBytes ref) &&
  EqualFold (hex_EncodeToString (sha256 data)) (TrimSpace (ar_SHA256 ref)).

Definition read_attachment (es : gmap string node) (i : nat) (ref : payloadAttachmentRef)
    : option Attachment :=
  match validateAttachmentRef i ref with
  | inr _ => None
  | inl name =>
      match es !! name with
      | Some (File data _) =>
          if attachment_intact ref data
          then Some (MkAttachment (ar_Filename ref) (ar_ContentType ref) data) else None
      | _ => None
      end
  end.

Fixpoint read_attachments (es : gmap string node) (i : nat) (refs : list payloadAttachmentRef)
    : option (list Attachment) :=
  match refs with
  | [] => Some []
  | ref :: refs =>
      a ← read_attachment es i ref; l ← read_attachments es (S i) refs; Some (a :: l)
  end.

Definition read_payload (n : node) : option Message :=
  match n with
  | Dir es _ =>
      match es !! messageFileName with
      | Some (File data _) =>
          match manifest_Unmarshal data with
          | inr _ => None
          | inl m =>
              match pm_Attachments m with
              | [] => Some (message_of m [])
              | refs =>
                  match es !! attachmentsDirName with
                  | Some (Dir aes _) => message_of m <$> read_attachments aes 0 refs
                  | _ => None
                  end
              end
          end
      | _ => None
      end
  | _ => None
  end.
End read.

Section store.
Context `{U : UnicodeTables} `{Env : FSEnv} `{Codec : ManifestCodec}.
Context (ps : PayloadStore).

(** ** Where things are *)

Definition root_components : list string :=
  let clean := filepath_Clean (ps_root ps) in
  if IsAbs clean then tail (Split clean (chr 47)) else Split clean (chr 47).

Definition store_root : path :=
  (if IsAbs (filepath_Clean (ps_root ps)) then [] else cwd) ++ filter proper root_components.

Definition payloads_at : path := store_root ++ [payloadsDirName].
Definition staging_at : path := store_root ++ [stagingDirName].
Definition orphans_at : path := store_root ++ [payloadOrphansDirName].
Definition payload_at (id : string) : path := payloads_at ++ [id].

Definition root_ok (t : node) : Prop := dir_at t store_root ∧ ".." ∉ root_components.

(** The message that can be read back under an identifier. *)
Definition stored_payload (t : node) (id : string) : option Message :=
  match validateCanonicalRecordID id with
  | inl _ => fs_get (payload_at id) t ≫= read_payload
  | inr _ => None
  end.

(** ** Opening the store *)

Lemma st_walk I whole fd cur comps :
  stays I (walk_components false whole fd cur comps) (λ a, a = fd ++ filter proper comps).
Proof.
  revert fd cur. induction comps as [|c comps IH]; intros fd cur; cbn [walk_components].
  { apply st_ret. by rewrite app_nil_r. }
  case_decide as Hc; [rewrite filter_cons_False by (unfold proper; tauto); apply IH|].
  case_decide; [by eapply st_bind; [eauto with fsdb|intros; apply st_fail]|].
  rewrite filter_cons_True by (unfold proper; tauto).
  apply (st_bind _ _ _ (λ b, b = false)); [by apply st_ret|]. intros b ->.
  apply (st_bind _ _ _ (λ a, a = fd ++ [c])).
  { eapply st_on_error; [apply st_wrapf, st_openDirectoryAt|apply st_Close]. }
  intros a ->. eapply st_bind; [by apply (st_ret _ _ (λ _, True))|]. intros _ _.
  eapply st_bind; [eapply st_on_error; [apply st_wrapf, st_Close|apply st_Close]|]. intros _ _.
  eapply st_conseq; [apply IH|]. intros a ->. by rewrite <- app_assoc.
Qed.

Lemma st_open_root I : stays I (openDirectoryPathNoFollow (ps_root ps)) (λ r, r.1 = store_root).
Proof.
  eapply st_bind; [apply st_wrapf, st_openDirectoryNoFollow|]. intros fd ->.
  eapply st_bind; [apply st_walk|]. intros a ->. apply st_ret. done.
Qed.

Lemma st_with_root I {A} (k : path → PM A) Q :
  stays I (k store_root) Q → stays I (with_root ps k) Q.
Proof.
  intros Hk. eapply st_bind; [apply st_wrapf, st_open_root|]. intros r ->.
  eapply st_finally; [done|apply st_unixClose].
Qed.

Lemma st_with_dir I {A} what p fd name (k : path → PM A) Q :
  stays I (k (fd ++ [name])) Q → stays I (with_dir what p fd name k) Q.
Proof.
  intros Hk. eapply st_bind; [apply st_wrapf, st_openDirectoryAt|]. intros a ->.
  eapply st_finally; [done|apply st_unixClose].
Qed.

(** ** Frames

    Whatever fails on the way, an operation on one payload leaves every other
    payload directory as it was. *)

Lemma canonical_not_dotted id x : canonical_id id → id ≠ "." +:+ x.
Proof.
  intros [_ Hc] ->. specialize (Hc 0%nat (chr 46)). cbn in Hc. specialize (Hc eq_refl). done.
Qed.

Section frames.
Context (id' : string) (v : option node).
Hypothesis canonical' : canonical_id id'.

Abbreviation intact := (at_path (payload_at id') v).

Lemma away_staging r : away (payload_at id') (staging_at ++ r).
Proof. apply away_app. unfold payload_at, payloads_at, staging_at. rewrite <- app_assoc.
  by apply away_siblings. Qed.
Lemma away_orphans r : away (payload_at id') (orphans_at ++ r).
Proof. apply away_app. unfold payload_at, payloads_at, orphans_at. rewrite <- app_assoc.
  by apply away_siblings. Qed.
Lemma away_other id r : id' ≠ id → away (payload_at id') ((payloads_at ++ [id]) ++ r).
Proof. intros Hne. apply away_app. by apply away_siblings. Qed.
Lemma not_above_payloads : ¬ payload_at id' `prefix_of` payloads_at.
Proof. intros Hp%prefix_length. unfold payload_at in Hp. rewrite length_app in Hp. cbn in Hp. lia. Qed.
Lemma not_above_staging : ¬ payload_at id' `prefix_of` staging_at.
Proof. apply away_self. rewrite <- (app_nil_r staging_at). apply away_staging. Qed.
Lemma not_above_orphans : ¬ payload_at id' `prefix_of` orphans_at.
Proof. apply away_self. rewrite <- (app_nil_r orphans_at). apply away_orphans. Qed.

#[local] Hint Resolve away_staging away_orphans not_above_payloads not_above_staging
  not_above_orphans fr_syncFD fr_removeEntryTreeAt fr_renameDirectoryAt fr_copyDirectoryTreeAt
  fr_copyDirectoryContentsAt fr_writeRegularFileAt fr_removeTreeContentsFD : fsdb.

Lemma away_staged x : away (payload_at id') (staging_at ++ [x]).
Proof. apply away_staging. Qed.
Lemma away_orphan x : away (payload_at id') (orphans_at ++ [x]).
Proof. apply away_orphans. Qed.
Lemma away_entry_of id : id' ≠ id → away (payload_at id') (payloads_at ++ [id]).
Proof. intros Hne. rewrite <- (app_nil_r (payloads_at ++ [id])). by apply away_other. Qed.
#[local] Hint Resolve away_staged away_orphan away_entry_of : fsdb.

Lemma fr_save_attachments i fd p atts :
  away (payload_at id') fd → kept intact (save_attachments i fd p atts).
Proof.
  intros Ha. revert i. induction atts as [|a atts IH]; intros i; cbn; stays_tac.
Qed.

Lemma fr_save_attachment_dir fd p atts :
  away (payload_at id') fd → kept intact (save_attachment_dir fd p atts).
Proof.
  intros Ha. unfold save_attachment_dir. destruct atts as [|a atts]; [by apply st_ret|].
  eapply st_bind; [by apply fr_createDirectoryAt, away_app|]. intros d ->.
  apply (st_bind _ _ _ (λ _, True)); [|intros; stays_tac].
  eapply st_on_error; [|apply st_unixClose].
  eapply st_bind; [by apply fr_save_attachments, away_app|]. intros refs _.
  eapply st_bind; [apply fr_syncFD; by apply away_self, away_app|]. intros. by apply st_ret.
Qed.

Lemma fr_publishViaPayloadTemp x id :
  id' ≠ id → kept intact (publishViaPayloadTemp ps staging_at x payloads_at id).
Proof.
  intros Hne. unfold publishViaPayloadTemp. eapply st_bind.
  { apply fr_create_unique. intros y. apply away_entry_of. by apply canonical_not_dotted. }
  intros [name fd] [-> [y Hname]]. cbn in *. assert (id' ≠ name).
  { rewrite Hname. by apply canonical_not_dotted. }
  stays_tac.
Qed.

Lemma fr_publish x id : id' ≠ id → kept intact (publish ps staging_at x payloads_at id).
Proof.
  intros Hne. unfold publish. eapply st_try; [by eauto with fsdb|intros; stays_tac|].
  intros e. destruct (isCrossDeviceError e); [|apply st_fail].
  by apply st_wrapf, fr_publishViaPayloadTemp.
Qed.

Lemma fr_Save id m : id' ≠ TrimSpace id → kept intact (ps_Save ps id m).
Proof.
  intros Hne. unfold ps_Save. eapply st_bind; [apply st_lift|]. intros _ _.
  apply st_with_root, st_with_dir, st_with_dir. fold payloads_at staging_at.
  unfold save_new. eapply st_bind; [eauto with fsdb|]. intros [k|] _; [by case_decide; apply st_fail|].
  eapply st_bind; [apply fr_create_unique; auto with fsdb|].
  intros [name fd] [-> _]. cbn. eapply (st_try _ _ _ (λ _, True)).
  - unfold save_stage. eapply st_bind; [auto using fr_save_attachment_dir with fsdb|]. intros refs _.
    destruct (manifest_Marshal _); [|apply st_fail].
    eapply st_bind; [auto with fsdb|]. intros _ _.
    eapply st_bind; [auto using away_self with fsdb|]. intros _ _. by apply fr_publish.
  - intros; stays_tac.
  - intros e. stays_tac.
Qed.

Lemma fr_Remove id : id' ≠ TrimSpace id → kept intact (ps_Remove ps id).
Proof.
  intros Hne. unfold ps_Remove. eapply st_bind; [apply st_lift|]. intros _ _.
  apply st_with_root, st_with_dir. fold payloads_at. stays_tac.
Qed.

Lemma fr_Quarantine ids : id' ∈ ids → kept intact (ps_QuarantineOrphans ps ids).
Proof.
  intros Hin. unfold ps_QuarantineOrphans.
  apply st_with_root, st_with_dir, st_with_dir. fold payloads_at orphans_at.
  eapply st_bind; [eauto with fsdb|]. intros names _.
  induction names as [|name names IH]; cbn; [by apply st_ret|].
  eapply (st_bind _ _ _ (λ _, True)); [|intros; stays_tac].
  unfold quarantine_entry. destruct (validateCanonicalRecordID name); [|apply st_fail].
  eapply st_bind; [eauto with fsdb|]. intros [k|] _; [|apply st_fail].
  destruct (negb _); [apply st_fail|]. case_decide as Hn; [by apply st_ret|].
  assert (id' ≠ name) by (intros ->; done).
  eapply st_bind; [eauto with fsdb|]. intros target _.
  unfold copyAndRemoveOrphan. stays_tac.
Qed.
End frames.

Lemma reads_Load id : reads (ps_Load ps id).
Proof.
  intros I. unfold ps_Load. eapply st_bind; [apply st_lift|]. intros _ _.
  apply st_with_root, st_with_dir. unfold classified, corrupt.
  eapply (st_bind _ _ _ (λ _, True)); [stays_tac|]. intros fd _.
  eapply st_finally; [|apply st_unixClose]. unfold load_dir, classified, corrupt.
  eapply (st_bind _ _ _ (λ _, True)); [stays_tac|]. intros d _.
  destruct (manifest_Unmarshal d) as [m|]; [|apply st_fail].
  destruct (pm_Attachments m) as [|ref refs]; [by apply st_ret|].
  eapply (st_bind _ _ _ (λ _, True)); [stays_tac|]. intros afd _.
  eapply st_finally; [|apply st_unixClose].
  eapply (st_bind _ _ _ (λ _, True)); [|intros; by apply st_ret].
  generalize (ref :: refs), 0%nat. clear. intros refs. induction refs as [|ref refs IH]; intros i; cbn;
    [by apply st_ret|].
  eapply (st_bind _ _ _ (λ _, True)); [|intros; stays_tac].
  unfold load_attachment, classified, corrupt. stays_tac.
Qed.

(** ** Load *)

Section load.
Context (trouble : Prop).
Hypothesis fault_trouble : ∀ n e, sys_fault n = Some e → trouble.

Abbreviation read_error := (read_error trouble).

Lemma tr_open_start t p :
  triple t (openDirectoryNoFollow p) (λ a t', a = p ∧ t' = t ∧ dir_at t p)
    (read_error t (¬ dir_at t p)).
Proof.
  apply (tr_read _ fault_trouble). apply (tr_bind _ _ _ (λ s t', p_tree s = t ∧ t' = t));
    [by apply tr_get|]. intros s t' [Hs ->]. rewrite Hs. unfold dir_at.
  destruct (fs_get p t) as [[|es b| |]|] eqn:Hg;
    try (apply tr_fail; split; [done|]; left; split; [unfold shape_error; tauto|naive_solver]).
  eapply tr_bind; [apply tr_on_error; [apply reads_Close|]|].
  - eapply tr_conseq; [by eapply (tr_requireFileType _ fault_trouble)|exact (λ _ _ H, H)|].
    intros e t' (-> & [[_ ?]|?]); [done|]. split; [done|by right].
  - intros _ t' [-> _]. apply tr_ret. eauto.
Qed.

Lemma tr_with_root {A} t (k : path → PM A) Q E :
  (root_ok t → triple t (k store_root) Q E) →
  (∀ e, clean_error e → ¬ root_ok t ∨ trouble → E e t) →
  triple t (with_root ps k) Q E.
Proof.
  intros Hk HE. unfold with_root.
  apply (tr_bind _ _ _ (λ r t', r.1 = store_root ∧ t' = t ∧ root_ok t)).
  2:{ intros [fd c] t' (Hfd & -> & Hr). cbn in *. rewrite Hfd.
      apply tr_finally; [apply reads_unixClose|]. by apply Hk. }
  unfold openDirectoryPathNoFollow, walkDirectoryPathNoFollow.
  set (start := if IsAbs _ then [] else cwd).
  assert (Hup : dir_at t store_root → dir_at t start).
  { intros (es & b & Hg). unfold store_root in Hg. fold start in Hg. rewrite fs_get_app in Hg.
    unfold dir_at. destruct (fs_get start t) as [[]|]; cbn in Hg; eauto;
      destruct (filter proper root_components); try done; eauto. }
  eapply (tr_wrapf _ _ _ _ (λ e t', clean_error e ∧ t' = t ∧ (¬ root_ok t ∨ trouble)));
    [|intros e t' (? & -> & ?); by apply HE].
  apply (tr_bind _ _ _ (λ a t', a = start ∧ t' = t ∧ dir_at t start)).
  - eapply tr_wrapf; [apply tr_open_start|].
    intros e t' (? & -> & [Hn|?])%(read_error_clean _ _ _ _ _ ""); (split; [done|]); [|tauto].
    split; [done|]. left. intros [Hr _]. auto.
  - intros a t' (-> & -> & Hd). eapply tr_bind.
    + eapply tr_conseq; [by apply (tr_walk _ fault_trouble)|exact (λ _ _ H, H)|].
      fold root_components. fold store_root. intros e t' (? & -> & [?|[?|?]]); (split; [done|]);
        unfold root_ok; tauto.
    + intros a t' (-> & -> & Hr & Hn). apply tr_ret. done.
Qed.

Lemma tr_with_dir {A} t what p fd name (k : path → PM A) Q E :
  (dir_at t (fd ++ [name]) → triple t (k (fd ++ [name])) Q E) →
  (∀ e, clean_error e → ¬ dir_at t (fd ++ [name]) ∨ trouble → E e t) →
  triple t (with_dir what p fd name k) Q E.
Proof.
  intros Hk HE. eapply tr_bind.
  - eapply tr_wrapf; [apply (tr_open _ fault_trouble)|].
    intros e t' (? & -> & ?)%(read_error_clean _ _ _ _ _ ""). by apply HE.
  - intros a t' (-> & -> & Hd). apply tr_finally; [apply reads_unixClose|]. by apply Hk.
Qed.

(** How reading a payload fails: the payload is corrupt, and nothing can be
    read, or there was trouble. *)
Definition load_error (t : node) (absent : Prop) (e : goerr) (t' : node) : Prop :=
  t' = t ∧ AsRecordCorruptionError e = None ∧
  (is_Some (AsPayloadCorruptionError e) ∧ absent ∨ AsPayloadCorruptionError e = None ∧ trouble).

Lemma tr_classified {A} t id p missing (m : PM A) Q absent :
  triple t m Q (read_error t absent) →
  triple t (classified id p missing m) Q (load_error t absent).
Proof.
  intros Hm. eapply tr_try; [exact Hm|intros; by apply tr_ret|].
  intros e t' (-> & He). apply tr_fail. split; [done|].
  destruct He as [[[->|[->|[->| ->]]] Ha]|[Ht [x ->]]]; cbn;
    (split; [done|]); [left; split; [by eexists|done]..|by right].
Qed.

Lemma load_error_mono {A} t (m : PM A) Q absent absent' :
  triple t m Q (load_error t absent) → (absent → absent') → triple t m Q (load_error t absent').
Proof.
  intros Hm Ha. eapply tr_conseq; [exact Hm|done|]. intros e t' (-> & ? & H).
  split; [done|]. split; [done|]. tauto.
Qed.

Lemma tr_corrupt {A} t id p cause (Q : A → node → Prop) (absent : Prop) :
  AsRecordCorruptionError cause = None → absent →
  triple t (corrupt id p cause) Q (load_error t absent).
Proof. intros Hc Ha. apply tr_fail. split; [done|]. split; [done|]. left. by split. Qed.

Lemma validate_error i ref e :
  validateAttachmentRef i ref = inr e → AsRecordCorruptionError e = None.
Proof. unfold validateAttachmentRef. intros He. repeat case_match; by simplify_eq. Qed.

Lemma tr_load_attachment t id dp mp fd i ref es b :
  fs_get fd t = Some (Dir es b) →
  triple t (load_attachment id dp mp fd i ref)
    (λ a t', t' = t ∧ read_attachment es i ref = Some a)
    (load_error t (read_attachment es i ref = None)).
Proof.
  intros Hg. unfold load_attachment, read_attachment.
  destruct (validateAttachmentRef i ref) as [name|e] eqn:Hv;
    [|apply tr_corrupt; [by eapply validate_error|done]].
  assert (Hget : fs_get (fd ++ [name]) t = es !! name).
  { rewrite fs_get_app, Hg. cbn. by destruct (es !! name). }
  eapply tr_bind.
  - eapply load_error_mono; [apply tr_classified, (tr_readRegularFile _ fault_trouble)|].
    rewrite Hget. intros Hno. destruct (es !! name) as [[]|] eqn:Hx; try done.
    by destruct (Hno data synced).
  - intros d t' (-> & c & Hd). rewrite Hget in Hd. rewrite Hd.
    unfold attachment_intact. destruct (_ =? _); cbn; [|by apply tr_corrupt].
    destruct (EqualFold _ _); cbn; [by apply tr_ret|by apply tr_corrupt].
Qed.

Lemma tr_load_attachments t id dp mp fd i refs es b :
  fs_get fd t = Some (Dir es b) →
  triple t (load_attachments id dp mp fd i refs)
    (λ l t', t' = t ∧ read_attachments es i refs = Some l)
    (load_error t (read_attachments es i refs = None)).
Proof.
  intros Hg. revert i. induction refs as [|ref refs IH]; intros i; cbn; [by apply tr_ret|].
  eapply tr_bind.
  - eapply load_error_mono; [by eapply tr_load_attachment|]. by intros ->.
  - intros a t' [-> Ha]. rewrite Ha. cbn. eapply tr_bind.
    + eapply load_error_mono; [apply IH|]. by intros ->.
    + intros l t' [-> Hl]. apply tr_ret. by rewrite Hl.
Qed.

Hypothesis codec_errors : ∀ d e, manifest_Unmarshal d = inr e → AsRecordCorruptionError e = None.

Lemma tr_load_dir t id dp fd n :
  fs_get fd t = Some n → dir_at t fd →
  triple t (load_dir id dp fd) (λ m t', t' = t ∧ read_payload n = Some m)
    (load_error t (read_payload n = None)).
Proof.
  intros Hg (es & b & Hd). rewrite Hg in Hd. injection Hd as ->. unfold load_dir, read_payload.
  assert (Hget : ∀ x, fs_get (fd ++ [x]) t = es !! x).
  { intros x. rewrite fs_get_app, Hg. cbn. by destruct (es !! x). }
  eapply tr_bind.
  { eapply load_error_mono; [apply tr_classified, (tr_readRegularFile _ fault_trouble)|].
    rewrite Hget. intros Hno. destruct (es !! messageFileName) as [[]|] eqn:Hx; try done.
    by destruct (Hno data synced). }
  intros d t' (-> & c & Hx). rewrite Hget in Hx. rewrite Hx.
  destruct (manifest_Unmarshal d) as [m|e] eqn:Hu.
  2:{ apply tr_corrupt; [|done]. cbn. by eapply codec_errors. }
  destruct (pm_Attachments m) as [|ref refs] eqn:Hrefs; [by apply tr_ret|].
  eapply tr_bind.
  { eapply load_error_mono; [apply tr_classified, (tr_open _ fault_trouble)|].
    unfold dir_at. rewrite Hget. intros Hno. destruct (es !! attachmentsDirName) as [[]|]; try done.
    destruct Hno. eauto. }
  intros a t' (-> & -> & aes & b' & Ha). apply tr_finally; [apply reads_unixClose|].
  pose proof Ha as Ha'. rewrite Hget in Ha'. rewrite Ha'. eapply tr_bind.
  - eapply load_error_mono; [by eapply tr_load_attachments|]. by intros ->.
  - intros l t' [-> Hl]. apply tr_ret. by rewrite Hl.
Qed.

(** The store is laid out and the identifier is one. *)
Definition readable_layout (t : node) (id : string) : Prop :=
  root_ok t ∧ dir_at t payloads_at ∧ canonical_id id.

(** [Load] in full: it changes nothing and returns what can be read; it reports
    corruption only when nothing can be read. *)
Lemma tr_Load t id :
  triple t (ps_Load ps id) (λ m t', t' = t ∧ stored_payload t (TrimSpace id) = Some m)
    (λ e t', t' = t ∧ AsRecordCorruptionError e = None ∧
       (is_Some (AsPayloadCorruptionError e) ∧ stored_payload t (TrimSpace id) = None ∨
        AsPayloadCorruptionError e = None ∧
        (trouble ∨ ¬ readable_layout t (TrimSpace id)))).
Proof.
  unfold ps_Load, stored_payload, readable_layout. set (i := TrimSpace id).
  destruct (validateCanonicalRecordID i) as [[]|e] eqn:Hv.
  2:{ intros s Hs. cbn. split; [done|]. assert (clean_error e) as [? ?].
      { unfold validateCanonicalRecordID in Hv. repeat case_match; by simplify_eq. }
      split; [done|]. right. split; [done|]. right. intros (_ & _ & Hc%validate_canonical).
      congruence. }
  eapply (tr_bind _ _ _ (λ _ t', t' = t)); [by intros s Hs|]. intros _ t' ->.
  apply tr_with_root; [intros Hr|intros e [? ?] [?|?]; naive_solver].
  apply tr_with_dir; fold payloads_at; [intros Hd|intros e [? ?] [?|?]; naive_solver].
  eapply tr_bind.
  { eapply tr_conseq; [apply tr_classified, (tr_open _ fault_trouble)|exact (λ _ _ H, H)|].
    intros e t' (-> & ? & [[He Hn]|[He Ht]]); (split; [done|]); (split; [done|]); [left|tauto].
    split; [done|]. fold (payload_at i) in *. destruct (fs_get (payload_at i) t) as [[]|] eqn:Hg; try done.
    destruct Hn. unfold dir_at. eauto. }
  intros fd t' (-> & -> & Hdir). apply tr_finally; [apply reads_unixClose|].
  fold (payload_at i) in *. pose proof Hdir as (es & b & Hg). rewrite Hg. cbn [mbind option_bind].
  eapply tr_conseq; [by eapply tr_load_dir|done|].
  intros e t' (-> & ? & [?|[? ?]]); tauto.
Qed.
End load.

(** ** Save *)

(** The manifest entries of [atts], numbered from [i], and their files. *)
Fixpoint refs_of (i : nat) (atts : list Attachment) : list payloadAttachmentRef :=
  match atts with
  | [] => []
  | a :: atts =>
      MkRef (Filename a) (ContentType a) (attachment_path i)
        (Z.of_nat (String.length (Data a))) (hex_EncodeToString (sha256 (Data a)))
      :: refs_of (S i) atts
  end.

Fixpoint files_of (i : nat) (atts : list Attachment) : gmap string node :=
  match atts with
  | [] => ∅
  | a :: atts => <[attachment_file i := File (Data a) true]> (files_of (S i) atts)
  end.

Lemma attachment_file_inj i j : attachment_file i = attachment_file j → i = j.
Proof.
  unfold attachment_file. intros H%(f_equal bs). rewrite !bs_app in H.
  apply app_inv_tail in H. apply (f_equal sb) in H. rewrite !sb_bs in H.
  apply Itoa_inj in H. lia.
Qed.

Lemma attachment_file_head i : ∃ c x, attachment_file i = String c x ∧ digit c = true.
Proof.
  destruct (Itoa_decimal (Z.of_nat i)) as [(Hd & Hne & _) _]; [lia|].
  unfold attachment_file. destruct (Itoa (Z.of_nat i)) as [|c x]; [done|].
  exists c, (x +:+ ".bin"). split; [done|]. by apply andb_true_iff in Hd as [? _].
Qed.

Lemma attachment_file_not_temp i x : attachment_file i ≠ ".tmp-" +:+ x.
Proof. destruct (attachment_file_head i) as (c & y & -> & Hd). intros [= -> _]. done. Qed.

Lemma files_of_lookup_lt i j atts : (j < i)%nat → files_of i atts !! attachment_file j = None.
Proof.
  revert i. induction atts as [|a atts IH]; intros i Hj; cbn; [done|].
  rewrite lookup_insert_ne; [apply IH; lia|]. intros H%attachment_file_inj. lia.
Qed.

Lemma files_of_elem i atts x n :
  files_of i atts !! x = Some n → ∃ j a, x = attachment_file j ∧ n = File (Data a) true.
Proof.
  revert i. induction atts as [|a atts IH]; intros i; cbn; [done|].
  rewrite lookup_insert_Some. intros [[<- <-]|[_ H]]; eauto.
Qed.

Section save.
Context (trouble : Prop).
Hypothesis fault_trouble : ∀ n e, sys_fault n = Some e → trouble.
Hypothesis rand_trouble : ∀ n e, newUUIDv4 (pay_rand n) = inr e → trouble.
Hypothesis order_perm : ∀ l, dir_order l ≡ₚ l.

Abbreviation hoare := (hoare trouble).

Lemma h_save_attachments t i fd p atts es :
  fs_get fd t = Some (Dir es true) →
  (∀ x, es !! (".tmp-" +:+ x) = None) → (∀ j, (i <= j)%nat → es !! attachment_file j = None) →
  hoare t (save_attachments i fd p atts)
    (λ refs t', refs = refs_of i atts ∧ t' = put fd (Dir (files_of i atts ∪ es) true) t).
Proof.
  revert t i es. induction atts as [|a atts IH]; intros t i es Hg Htmp Hf; cbn.
  { apply tr_ret. by rewrite (left_id_L ∅ (∪)), put_same. }
  eapply tr_bind.
  { eapply h_writeRegularFileAt; [done..|]. right. split; [done|]. by apply Hf. }
  intros _ t' ->. eapply tr_bind.
  - eapply IH; [by eapply get_put|..].
    + intros x. rewrite lookup_insert_ne; [done|]. apply attachment_file_not_temp.
    + intros j Hj. rewrite lookup_insert_ne; [apply Hf; lia|]. intros H%attachment_file_inj. lia.
  - intros refs t' [-> ->]. apply tr_ret. split; [done|]. rewrite put_put. do 2 f_equal.
    rewrite <- insert_union_l, insert_union_r; [done|]. apply files_of_lookup_lt. lia.
Qed.

(** The staging directory once it is filled. *)
Definition attachment_entries (atts : list Attachment) : gmap string node :=
  match atts with [] => ∅ | _ => {[attachmentsDirName := Dir (files_of 0 atts) true]} end.

Definition stage_node (atts : list Attachment) (manifest : string) : node :=
  Dir (<[messageFileName := File manifest true]> (attachment_entries atts)) true.

Lemma h_save_attachment_dir t fd p atts :
  fs_get fd t = Some (Dir ∅ true) →
  hoare t (save_attachment_dir fd p atts)
    (λ refs t', refs = refs_of 0 atts ∧ t' = put fd (Dir (attachment_entries atts) true) t).
Proof.
  intros Hg. unfold save_attachment_dir, attachment_entries.
  destruct atts as [|a atts]; [apply tr_ret; by rewrite put_same|].
  remember (a :: atts) as l. clear Heql.
  eapply tr_bind; [eapply h_createDirectoryAt; [done..|by intros [? ?]]|].
  intros d t' (-> & _ & ->). set (t1 := put fd _ t).
  assert (Hg1 : fs_get (fd ++ [attachmentsDirName]) t1 = Some (Dir ∅ true)).
  { eapply fs_get_entry; [by eapply get_put|apply lookup_insert_eq]. }
  assert (Hput : ∀ n, put (fd ++ [attachmentsDirName]) n t1 =
                      put fd (Dir {[attachmentsDirName := n]} true) t).
  { intros n. erewrite put_entry; [|by eapply get_put|apply lookup_insert_eq].
    unfold t1. by rewrite put_put, insert_insert_eq. }
  eapply (tr_bind _ _ _ (λ refs t', refs = refs_of 0 l ∧
    t' = put (fd ++ [attachmentsDirName]) (Dir (files_of 0 l) true) t1)).
  - apply h_on_error. eapply tr_bind; [by eapply h_save_attachments|].
    intros refs t' [-> ->]. rewrite (right_id_L ∅ (∪)).
    eapply tr_bind; [eapply h_syncFD; [done|by eapply get_put]|].
    intros _ t' ->. apply tr_ret. by rewrite put_put.
  - intros refs t' [-> ->]. rewrite Hput. eapply tr_bind; [by apply h_unixClose|].
    intros _ t' ->. by apply tr_ret.
Qed.

Lemma attachment_entries_other atts x :
  x ≠ attachmentsDirName → attachment_entries atts !! x = None.
Proof. intros Hx. destruct atts; [done|]. by apply lookup_singleton_ne. Qed.

(** A stage is complete, synced, and made of files and directories only. *)
Lemma stage_elem atts d x n :
  <[messageFileName := File d true]> (attachment_entries atts) !! x = Some n →
  n = File d true ∨ n = Dir (files_of 0 atts) true.
Proof.
  rewrite lookup_insert_Some. intros [[_ <-]|[_ H]]; [by left|right].
  unfold attachment_entries in H. destruct atts; [done|]. by apply lookup_singleton_Some in H as [_ <-].
Qed.

Lemma stage_settled atts d : settled (stage_node atts d).
Proof.
  apply settled_dir. intros x n [->| ->]%stage_elem; [apply settled_file|].
  apply settled_dir. intros y m (j & a & _ & ->)%files_of_elem. apply settled_file.
Qed.

Lemma settled_plain n : settled n → plain n.
Proof. intros Hn q m Hm%Hn. by destruct m. Qed.

Lemma stage_tidy atts d : tidy (stage_node atts d).
Proof.
  split; [apply settled_plain, stage_settled|].
  intros [|x q] es b; cbn.
  - intros [= <- <-] x. rewrite lookup_insert_ne by done. by apply attachment_entries_other.
  - destruct (_ !! x) as [n|] eqn:Hx; [|done]. cbn. apply stage_elem in Hx as [->| ->].
    + by destruct q.
    + destruct q as [|y q]; cbn.
      * intros [= <- <-] z. apply eq_None_not_Some. intros [n (j & a & Hj & _)%files_of_elem].
        by apply (attachment_file_not_temp j z).
      * destruct (files_of 0 atts !! y) as [m|] eqn:Hy; [|done]. cbn.
        apply files_of_elem in Hy as (j & a & _ & ->). by destruct q.
Qed.

(** *** Publishing *)

(** What [Save] reads and changes: the entries of the two directories. *)
Definition layout (t : node) (pes ses : gmap string node) (pb sb : bool) : Prop :=
  fs_get payloads_at t = Some (Dir pes pb) ∧ fs_get staging_at t = Some (Dir ses sb).

(** [t'] has the payload [n] under [id], durably, and no other change among the
    payloads of [t]. *)
Definition published (t t' : node) (id : string) (n : node) : Prop :=
  ∃ pes b, fs_get payloads_at t = Some (Dir pes b) ∧ pes !! id = None ∧
           fs_get payloads_at t' = Some (Dir (<[id := n]> pes) true).

Lemma away_dirs : away staging_at payloads_at.
Proof. by apply away_siblings. Qed.

Lemma get_payloads_put n t : fs_get payloads_at (put staging_at n t) = fs_get payloads_at t.
Proof. apply fs_get_upd_away, away_sym, away_dirs. Qed.
Lemma get_staging_put n t : fs_get staging_at (put payloads_at n t) = fs_get staging_at t.
Proof. apply fs_get_upd_away, away_dirs. Qed.

Lemma h_publishViaPayloadTemp t stage id n pes ses pb sb :
  layout t pes (<[stage := n]> ses) pb sb → pes !! id = None →
  kind_of n = S_IFDIR → settled n → tidy n →
  trouble ∨ (∀ x, pes !! (publishTempPrefix +:+ x) = None) →
  hoare t (publishViaPayloadTemp ps staging_at stage payloads_at id)
    (λ _ t', fs_get payloads_at t' = Some (Dir (<[id := n]> pes) true)).
Proof.
  intros [Hp Hs] Hid Hk Hsettled Htidy Hfresh. destruct n as [|es c| |]; try done.
  unfold publishViaPayloadTemp. eapply tr_bind.
  { eapply h_create_unique; [done..|]. destruct Hfresh as [?|?]; [by left|by right]. }
  intros [temp fd] t' (_ & Htemp & -> & ->). cbn [fst snd] in *.
  set (t1 := put payloads_at _ t).
  eapply (tr_bind _ _ _ (λ _ t', t' = t1)).
  { apply tr_ignore. intros s <-. apply reads_tree, reads_unixClose. }
  intros _ t' ->.
  assert (Hp1 : fs_get payloads_at t1 = Some (Dir (<[temp := Dir ∅ true]> pes) true))
    by by eapply get_put.
  apply (tr_bind _ _ _ (λ _ t', t' = put payloads_at (Dir (<[id := Dir es c]> pes) true) t)).
  - apply h_on_error. eapply tr_bind.
    { eapply h_copyDirectoryContentsAt; [done..| | | |by right].
      - apply away_app, away_sym, away_app, away_sym, away_dirs.
      - eapply fs_get_entry; [unfold t1; rewrite get_staging_put; exact Hs|].
        apply lookup_insert_eq.
      - eapply fs_get_entry; [done|]. apply lookup_insert_eq. }
    intros _ t' ->. rewrite copied_settled by done.
    erewrite put_entry; [|done|apply lookup_insert_eq]. unfold t1.
    rewrite put_put, insert_insert_eq. eapply tr_bind.
    { eapply tr_bind; [eapply (h_requireEntryTypeAt _ fault_trouble _ _ _ (Dir es c));
        [by eapply get_put|apply lookup_insert_eq]|]. intros _ t' ->.
      eapply h_rename_within; [done|by eapply get_put|done|]. by rewrite Hid. }
    intros _ t' [b' ->]. rewrite put_put.
    eapply h_conseq; [eapply h_syncFD; [done|by eapply get_put]|]. intros _ t' ->. apply put_put.
  - intros _ t' ->. set (t2 := put _ _ t).
    assert (Hp2 : fs_get payloads_at t2 = Some (Dir (<[id := Dir es c]> pes) true))
      by by eapply get_put.
    set (I := at_path payloads_at (Some (Dir (<[id := Dir es c]> pes) true))).
    eapply (tr_bind _ _ _ (λ _, I)).
    + apply tr_ignore_kept; [|exact Hp2]. apply fr_removeEntryTreeAt, away_app, away_sym, away_dirs.
    + intros _ t' Ht'. apply (tr_ignore_kept _ _ I); [|done].
      apply fr_syncFD, away_self, away_sym, away_dirs.
Qed.

Lemma h_publish t stage id n pes ses pb sb :
  layout t pes (<[stage := n]> ses) pb sb → pes !! id = None →
  kind_of n = S_IFDIR → settled n → tidy n →
  trouble ∨ (∀ x, pes !! (publishTempPrefix +:+ x) = None) →
  hoare t (publish ps staging_at stage payloads_at id)
    (λ _ t', fs_get payloads_at t' = Some (Dir (<[id := n]> pes) true)).
Proof.
  intros [Hp Hs] Hid Hk Hsettled Htidy Hfresh. unfold publish.
  eapply (tr_try _ _ _ (λ _ t', t' = put payloads_at (Dir (<[id := n]> pes) false)
            (put staging_at (Dir (delete stage (<[stage := n]> ses)) false) t))
            (λ e t', t' = t ∧ (isCrossDeviceError e = true ∨ trouble))).
  - unfold renameDirectoryAt. rewrite <- Hk. eapply tr_bind.
    + eapply tr_conseq; [eapply (tr_requireEntryTypeAt _ fault_trouble _ _ _ n);
        [done|apply lookup_insert_eq]|exact (λ _ _ H, H)|]. intros e t' [-> ?]. auto.
    + intros _ t' ->. eapply tr_rename_across; [done|apply away_dirs|done|apply lookup_insert_eq|done|].
      by rewrite Hid.
  - intros _ t' ->. set (t1 := put staging_at _ t).
    assert (Hp1 : fs_get payloads_at t1 = Some (Dir pes pb))
      by (unfold t1; by rewrite get_payloads_put).
    eapply tr_bind; [eapply h_syncFD; [done|by eapply get_put]|]. intros _ t' ->. rewrite put_put.
    eapply h_conseq; [eapply (h_syncFD _ fault_trouble _ _ _
      (Dir (delete stage (<[stage:=n]> ses)) false))|].
    + rewrite get_staging_put. by eapply get_put.
    + intros _ t' ->. rewrite get_payloads_put. by eapply get_put.
  - intros e t' [-> He]. destruct (isCrossDeviceError e); [|apply tr_fail; by destruct He].
    by eapply h_wrapf, h_publishViaPayloadTemp.
Qed.

(** *** The whole of [Save] *)

(** The manifest of [msg], and that only trouble keeps it from being encoded. *)
Definition manifest_for (msg : Message) : payloadManifest :=
  manifest_of msg (refs_of 0 (Attachments msg)).

Definition marshal_trouble (msg : Message) : Prop :=
  ∀ e, manifest_Marshal (manifest_for msg) = inr e → trouble.

(** Nothing is in the way of saving [id]. *)
Definition save_ready (t : node) (id : string) : Prop :=
  root_ok t ∧ ∃ pes ses pb sb, layout t pes ses pb sb ∧ pes !! id = None ∧
  (∀ x, pes !! (publishTempPrefix +:+ x) = None) ∧ (∀ x, ses !! (".stage-" +:+ x) = None).

Lemma h_save_stage t id msg stage pes ses pb sb :
  marshal_trouble msg →
  layout t pes (<[stage := Dir ∅ true]> ses) pb sb → pes !! id = None →
  trouble ∨ (∀ x, pes !! (publishTempPrefix +:+ x) = None) →
  hoare t (save_stage ps payloads_at staging_at id msg stage (staging_at ++ [stage]))
    (λ _ t', ∃ d, manifest_Marshal (manifest_for msg) = inl d ∧
       fs_get payloads_at t' =
       Some (Dir (<[id := stage_node (Attachments msg) d]> pes) true)).
Proof.
  intros Hmt [Hp Hs] Hid Hfresh. unfold save_stage. set (fd := staging_at ++ [stage]).
  assert (Hg : fs_get fd t = Some (Dir ∅ true)).
  { eapply fs_get_entry; [done|apply lookup_insert_eq]. }
  assert (Hput : ∀ n, put fd n t = put staging_at (Dir (<[stage := n]> ses) sb) t).
  { intros n. unfold fd. erewrite put_entry; [|done|apply lookup_insert_eq].
    by rewrite insert_insert_eq. }
  eapply tr_bind; [by apply h_save_attachment_dir|]. intros refs t' [-> ->].
  fold (manifest_for msg).
  destruct (manifest_Marshal _) as [d|e] eqn:Hm; [|apply tr_fail; by eapply Hmt].
  eapply tr_bind.
  { eapply h_writeRegularFileAt; [done..|by eapply get_put|right].
    split; [intros y|]; by apply attachment_entries_other. }
  intros _ t' ->. rewrite put_put. fold (stage_node (Attachments msg) d).
  eapply tr_bind; [eapply h_syncFD; [done|by eapply get_put]|].
  intros _ t' ->. rewrite put_put, Hput. change (mark_synced _) with (stage_node (Attachments msg) d).
  eapply h_conseq.
  - eapply (h_publish _ stage id (stage_node (Attachments msg) d) pes ses pb sb); try done.
    + split; [by rewrite get_payloads_put|by eapply get_put].
    + apply stage_settled.
    + apply stage_tidy.
  - eauto.
Qed.

Lemma h_save_new t id msg :
  marshal_trouble msg →
  dir_at t payloads_at → dir_at t staging_at → trouble ∨ save_ready t id →
  hoare t (save_new ps payloads_at staging_at id msg)
    (λ _ t', ∃ d, manifest_Marshal (manifest_for msg) = inl d ∧
       published t t' id (stage_node (Attachments msg) d)).
Proof.
  intros Hmt (pes & pb & Hp) (ses & sb & Hs) Hready. unfold save_new.
  assert (Hr : trouble ∨ pes !! id = None ∧ (∀ x, pes !! (publishTempPrefix +:+ x) = None) ∧
                         (∀ x, ses !! (".stage-" +:+ x) = None)).
  { destruct Hready as [?|(_ & pes' & ses' & pb' & sb' & [Hp' Hs'] & H)]; [by left|right].
    by simplify_eq. }
  eapply tr_bind; [by eapply h_wrapf, h_entryModeAt|]. intros k t' [-> ->].
  destruct (pes !! id) as [n|] eqn:Hid; cbn [fmap option_fmap option_map].
  { destruct Hr as [?|[? _]]; [|done]. by case_decide; apply tr_fail. }
  eapply tr_bind.
  { eapply h_create_unique; [done..|]. destruct Hr as [?|(_ & _ & ?)]; [by left|by right]. }
  intros [stage fd] t' (_ & Hstage & -> & ->). cbn [fst snd] in *.
  eapply tr_try; [eapply (h_save_stage _ id msg stage pes ses pb true)|..].
  - done.
  - split; [by rewrite get_payloads_put|by eapply get_put].
  - done.
  - destruct Hr as [?|(_ & ? & _)]; [by left|by right].
  - intros _ t' (d & Hd & Ht').
    eapply (tr_bind _ _ _ (λ _ t2, t2 = t')); [|intros _ t2 ->; apply tr_ret].
    + apply tr_ignore. intros s <-. apply reads_tree, reads_unixClose.
    + exists d. split; [done|]. by exists pes, pb.
  - intros e t' Htr. apply (tr_conseq _ _ (λ _ _, False) _ (λ _ _, trouble)); [|done..].
    intros s _. unfold bind. cbn. done.
Qed.

Lemma h_Save t id msg :
  marshal_trouble msg →
  trouble ∨ canonical_id (TrimSpace id) ∧ save_ready t (TrimSpace id) →
  hoare t (ps_Save ps id msg)
    (λ _ t', canonical_id (TrimSpace id) ∧
       ∃ d, manifest_Marshal (manifest_for msg) = inl d ∧
       published t t' (TrimSpace id) (stage_node (Attachments msg) d)).
Proof.
  intros Hmt Hready. unfold ps_Save. set (i := TrimSpace id) in *.
  destruct (validateCanonicalRecordID i) as [[]|e] eqn:Hv.
  2:{ intros s Hs. cbn. destruct Hready as [?|[Hc%validate_canonical _]]; [done|congruence]. }
  apply validate_canonical in Hv.
  eapply (tr_bind _ _ _ (λ _ t', t' = t)); [by intros s Hs|]. intros _ t' ->.
  assert (Hl : trouble ∨ root_ok t ∧ dir_at t payloads_at ∧ dir_at t staging_at).
  { destruct Hready as [?|(_ & ? & pes & ses & pb & sb & [? ?] & _)]; [by left|right].
    split; [done|]. unfold dir_at. eauto 10. }
  apply (tr_with_root trouble fault_trouble); [intros Hr|tauto].
  apply (tr_with_dir trouble fault_trouble); fold payloads_at; [intros Hp|tauto].
  apply (tr_with_dir trouble fault_trouble); fold staging_at; [intros Hs|tauto].
  eapply h_conseq; [apply h_save_new; [done..|tauto]|]. eauto.
Qed.
End save.

(** A payload that exists is never overwritten. *)
Lemma tr_Save_exists t id msg n :
  fs_get (payload_at (TrimSpace id)) t = Some n →
  triple t (ps_Save ps id msg) (λ _ _, False) (λ _ t', t' = t).
Proof.
  intros Hn. unfold ps_Save. set (i := TrimSpace id) in *.
  assert (HT : ∀ n e, sys_fault n = Some e → True) by done.
  destruct (validateCanonicalRecordID i) as [[]|e] eqn:Hv; [|by intros s Hs].
  eapply (tr_bind _ _ _ (λ _ t', t' = t)); [by intros s Hs|]. intros _ t' ->.
  apply (tr_with_root True HT); [intros _|done]. apply (tr_with_dir True HT); [|done].
  fold payloads_at. intros (es & b & Hp). apply (tr_with_dir True HT); [intros _|done].
  unfold save_new, payload_at in *. rewrite fs_get_app, Hp in Hn. cbn in Hn.
  eapply tr_bind.
  - eapply tr_wrapf; [by eapply (tr_entryModeAt _ HT)|]. by intros e t' [-> _].
  - intros k t' [-> ->]. destruct (es !! i) as [n0|]; [|done].
    cbn [fmap option_fmap option_map]. by case_decide; apply tr_fail.
Qed.

(** ** Remove *)

Section remove.
Context (trouble : Prop).
Hypothesis fault_trouble : ∀ n e, sys_fault n = Some e → trouble.
Hypothesis order_perm : ∀ l, dir_order l ≡ₚ l.

Lemma h_Remove t id :
  trouble ∨ readable_layout t (TrimSpace id) ∧
    (∀ n, fs_get (payload_at (TrimSpace id)) t = Some n → plain n) →
  hoare trouble t (ps_Remove ps id)
    (λ _ t', canonical_id (TrimSpace id) ∧ ∃ pes b,
       fs_get payloads_at t = Some (Dir pes b) ∧
       t' = put payloads_at (Dir (delete (TrimSpace id) pes) true) t).
Proof.
  intros Hok. unfold ps_Remove. set (i := TrimSpace id) in *.
  destruct (validateCanonicalRecordID i) as [[]|e] eqn:Hv.
  2:{ intros s Hs. cbn. destruct Hok as [?|[(_ & _ & Hc%validate_canonical) _]]; [done|congruence]. }
  apply validate_canonical in Hv.
  eapply (tr_bind _ _ _ (λ _ t', t' = t)); [by intros s Hs|]. intros _ t' ->.
  apply (tr_with_root trouble fault_trouble); [intros Hr|unfold readable_layout in Hok; tauto].
  apply (tr_with_dir trouble fault_trouble); fold payloads_at;
    [|unfold readable_layout in Hok; tauto]. intros (pes & b & Hp).
  eapply tr_bind; [eapply h_removeEntryTreeAt; [done..|]|].
  - intros n Hn. destruct Hok as [?|[_ Hpl]]; [by left|right]. apply Hpl.
    by eapply fs_get_entry.
  - intros _ t' [b' ->]. eapply h_conseq; [eapply h_syncFD; [done|by eapply get_put]|].
    intros _ t' ->. split; [done|]. exists pes, b. by rewrite put_put.
Qed.
End remove.

(** ** QuarantineOrphans *)

(** The k-th name [uniqueQuarantineNameAt] tries. *)
Definition quarantine_try (name : string) (k : nat) : string :=
  match k with O => name | _ => name +:+ "-" +:+ Itoa (Z.of_nat k) end.

Lemma quarantine_try_inj name j k : quarantine_try name j = quarantine_try name k → j = k.
Proof.
  assert (Hlen : ∀ x, name ≠ name +:+ "-" +:+ x).
  { intros x H%(f_equal (λ s, length (bs s))). rewrite !bs_app, !length_app in H.
    change (length (bs "-")) with 1%nat in H. lia. }
  destruct j as [|j], k as [|k]; cbn -[Itoa]; [done|by intros ?%Hlen|by intros ?%eq_sym%Hlen|].
  intros H%(f_equal bs). rewrite !bs_app in H. apply app_inv_head, app_inv_head in H.
  apply (f_equal sb) in H. rewrite !sb_bs in H. apply Itoa_inj in H. lia.
Qed.

Section quarantine.
Context (trouble : Prop).
Hypothesis fault_trouble : ∀ n e, sys_fault n = Some e → trouble.
Hypothesis rand_trouble : ∀ n e, newUUIDv4 (pay_rand n) = inr e → trouble.
Hypothesis order_perm : ∀ l, dir_order l ≡ₚ l.

Abbreviation hoare := (hoare trouble).

(** The search ends within one try more than there are entries. *)
Lemma h_quarantine_name t fd name es b n k :
  fs_get fd t = Some (Dir es b) → (k + n = S (size es))%nat →
  (∀ j, (j < k)%nat → is_Some (es !! quarantine_try name j)) →
  hoare t (quarantine_name n (Z.of_nat k + 1) fd name (quarantine_try name k))
    (λ a t', t' = t ∧ es !! a = None).
Proof.
  intros Hg. revert k. induction n as [|n IH]; intros k Hk Htried; cbn [quarantine_name].
  - exfalso. set (l := quarantine_try name <$> seq 0 k).
    assert (Hnd : NoDup l).
    { apply NoDup_fmap_2; [intros i j; apply quarantine_try_inj|apply NoDup_seq]. }
    assert (Hsub : (list_to_set l : gset string) ⊆ dom es).
    { intros x. rewrite elem_of_list_to_set. intros (j & -> & Hj%elem_of_seq)%list_elem_of_fmap.
      apply elem_of_dom, Htried. lia. }
    apply subseteq_size in Hsub. rewrite size_list_to_set in Hsub by done.
    unfold l in Hsub. rewrite length_fmap, length_seq, size_dom in Hsub. lia.
  - eapply tr_try; [by eapply (tr_Fstatat _ fault_trouble)|..].
    + intros a t' [-> Ha].
      replace (name +:+ "-" +:+ Itoa (Z.of_nat k + 1)) with (quarantine_try name (S k))
        by (cbn -[Itoa Z.of_nat]; do 3 f_equal; lia).
      replace (Z.of_nat k + 1 + 1) with (Z.of_nat (S k) + 1) by lia.
      apply IH; [lia|]. intros j Hj. destruct (decide (j = k)) as [->|]; [|apply Htried; lia].
      destruct (es !! _); [by eexists|done].
    + intros e t' (-> & [[-> Hn]|[Ht [x ->]]]); cbn; [by apply tr_ret|by apply tr_fail].
Qed.

Lemma h_uniqueQuarantineNameAt t fd name es b :
  fs_get fd t = Some (Dir es b) →
  hoare t (uniqueQuarantineNameAt fd name) (λ a t', t' = t ∧ es !! a = None).
Proof.
  intros Hg s Hs. unfold uniqueQuarantineNameAt, bind. cbn -[quarantine_name]. rewrite Hs, Hg.
  refine (h_quarantine_name t fd name es b _ 0 Hg _ _ s Hs); [done|lia].
Qed.

(** The two directories of a scan. *)
Definition scan_dirs (t : node) (pes oes : gmap string node) : Prop :=
  ∃ pb ob, fs_get payloads_at t = Some (Dir pes pb) ∧ fs_get orphans_at t = Some (Dir oes ob).

(** [n] is kept under [y], as it was or as a copy. *)
Definition kept_as (oes : gmap string node) (y : string) (n : node) : Prop :=
  oes !! y = Some n ∨ oes !! y = Some (copied n).

Lemma away_scan : away payloads_at orphans_at.
Proof. by apply away_siblings. Qed.

Lemma get_payloads_orphans n t : fs_get payloads_at (put orphans_at n t) = fs_get payloads_at t.
Proof. apply fs_get_upd_away, away_scan. Qed.
Lemma get_orphans_payloads n t : fs_get orphans_at (put payloads_at n t) = fs_get orphans_at t.
Proof. apply fs_get_upd_away, away_sym, away_scan. Qed.

(** What is moved: a directory named by an identifier, without temporary files. *)
Definition movable (name : string) (n : node) : Prop :=
  canonical_id name ∧ kind_of n = S_IFDIR ∧ tidy n.

Lemma h_move_orphan t name y n pes oes pb ob what :
  fs_get payloads_at t = Some (Dir pes pb) → fs_get orphans_at t = Some (Dir oes ob) →
  pes !! name = Some n → kind_of n = S_IFDIR → oes !! y = None → trouble ∨ tidy n →
  hoare t
    (try (renameDirectoryAt payloads_at name orphans_at y) (λ r,
       match r with
       | inl _ => ret tt
       | inr e =>
           if isCrossDeviceError e
           then wrapf what (copyAndRemoveOrphan ps payloads_at name orphans_at y)
           else fail (EWrapf what e)
       end))
    (λ _ t', scan_dirs t' (delete name pes) (<[y := n]> oes) ∨
             scan_dirs t' (delete name pes) (<[y := copied n]> oes)).
Proof.
  intros Hp Ho Hn Hk Hy Hok.
  eapply (tr_try _ _ _ (λ _ t', t' = put orphans_at (Dir (<[y := n]> oes) false)
            (put payloads_at (Dir (delete name pes) false) t))
            (λ e t', t' = t ∧ (isCrossDeviceError e = true ∨ trouble))).
  - unfold renameDirectoryAt. rewrite <- Hk. eapply tr_bind.
    + eapply tr_conseq; [by eapply (tr_requireEntryTypeAt _ fault_trouble)|exact (λ _ _ H, H)|].
      intros e t' [-> ?]. auto.
    + intros _ t' ->. eapply tr_rename_across; [done|apply away_scan|done..|]. by rewrite Hy.
  - intros _ t' ->. apply tr_ret. left. eexists _, _. split.
    + rewrite get_payloads_orphans. by eapply get_put.
    + eapply get_put. rewrite get_orphans_payloads. exact Ho.
  - intros e t' [-> He]. destruct (isCrossDeviceError e); [|apply tr_fail; by destruct He].
    apply h_wrapf. destruct n as [|es c| |]; try done. unfold copyAndRemoveOrphan.
    pose proof (fs_get_entry _ _ _ _ _ _ Hp Hn) as Hgn. eapply tr_bind.
    + eapply h_copyDirectoryTreeAt; [done..| |exact Hgn|exact Ho|].
      * apply away_sym, away_app, away_sym, away_scan.
      * destruct Hok as [?|?]; [by left|by right].
    + intros _ t' ->. apply h_on_error. eapply h_conseq.
      * eapply (h_removeEntryTreeAt _ fault_trouble order_perm);
          [rewrite get_payloads_orphans; exact Hp|].
        intros m Hm. rewrite Hn in Hm. injection Hm as <-. destruct Hok as [?|[? _]]; [by left|by right].
      * intros _ t' [b' ->]. right. eexists _, _. split.
        -- eapply get_put. rewrite get_payloads_orphans. exact Hp.
        -- rewrite get_orphans_payloads. by eapply get_put.
Qed.

Lemma h_quarantine_entry t valid name pes oes n :
  scan_dirs t pes oes → pes !! name = Some n → trouble ∨ movable name n →
  hoare t (quarantine_entry ps payloads_at orphans_at valid name)
    (λ qs t', if decide (name ∈ valid) then qs = [] ∧ t' = t
       else ∃ y oes', oes !! y = None ∧ qs = [join (ps_orphanRoot ps) y] ∧
            (oes' = <[y := n]> oes ∨ oes' = <[y := copied n]> oes) ∧
            scan_dirs t' (delete name pes) oes').
Proof.
  intros (pb & ob & Hp & Ho) Hn Hok. unfold quarantine_entry.
  destruct (validateCanonicalRecordID name) as [[]|e] eqn:Hv.
  2:{ apply tr_fail. destruct Hok as [?|[Hc%validate_canonical _]]; [done|congruence]. }
  eapply tr_bind; [by eapply h_wrapf, h_entryModeAt|]. intros k t' [-> ->]. rewrite Hn.
  cbn [fmap option_fmap option_map]. destruct (bool_decide_reflect (kind_of n = S_IFDIR)) as [Hk|Hk];
    cbn [negb]; [|apply tr_fail; destruct Hok as [?|(_ & ? & _)]; done].
  case_decide as Hin; [by apply tr_ret|].
  eapply tr_bind; [by eapply h_wrapf, h_uniqueQuarantineNameAt|]. intros y t' [-> Hy].
  eapply tr_bind; [eapply h_move_orphan; try done|].
  { destruct Hok as [?|(_ & _ & ?)]; [by left|by right]. }
  intros [] t' Hmoved.
  assert (∃ n', (n' = n ∨ n' = copied n) ∧ scan_dirs t' (delete name pes) (<[y := n']> oes))
    as (n' & Hn' & pb' & ob' & Hp' & Ho') by (destruct Hmoved; eauto).
  eapply tr_bind; [by eapply h_syncFD|]. intros _ t2 ->.
  eapply tr_bind; [eapply h_syncFD; [done|by rewrite get_orphans_payloads]|]. intros _ t2 ->.
  apply tr_ret. exists y, (<[y := n']> oes). split; [done|]. split; [done|].
  split; [destruct Hn' as [->| ->]; auto|]. eexists _, _. split.
  - rewrite get_payloads_orphans. by eapply get_put.
  - eapply get_put. by rewrite get_orphans_payloads.
Qed.

(** What a scan over [names] leaves. *)
Definition scanned (valid : gset string) (names : list string) (pes oes pes' oes' : gmap string node)
    (qs : list string) : Prop :=
  (∀ x, pes' !! x = if decide (x ∈ names ∧ x ∉ valid) then None else pes !! x) ∧
  (∀ y n, oes !! y = Some n → oes' !! y = Some n) ∧
  (∀ x n, x ∈ names → x ∉ valid → pes !! x = Some n →
     ∃ y, oes !! y = None ∧ join (ps_orphanRoot ps) y ∈ qs ∧ kept_as oes' y n) ∧
  length qs = length (filter (λ x, x ∉ valid) names).

Lemma h_quarantine_loop t valid names pes oes :
  scan_dirs t pes oes → NoDup names → (∀ x, x ∈ names → is_Some (pes !! x)) →
  trouble ∨ (∀ x n, x ∈ names → pes !! x = Some n → movable x n) →
  hoare t (quarantine_loop ps payloads_at orphans_at valid names)
    (λ qs t', ∃ pes' oes', scan_dirs t' pes' oes' ∧ scanned valid names pes oes pes' oes' qs).
Proof.
  revert t pes oes. induction names as [|name names IH]; intros t pes oes Hsd Hnd Hin Hok;
    cbn [quarantine_loop].
  { apply tr_ret. exists pes, oes. split; [done|].
    split; [intros x; by rewrite decide_False by set_solver|]. split; [done|]. split; [|done].
    intros x n Hx. by apply elem_of_nil in Hx. }
  apply NoDup_cons in Hnd as [Hnm Hnd]. destruct (Hin name) as [n Hn]; [set_solver|].
  eapply tr_bind; [eapply h_quarantine_entry; [done..|]|].
  { destruct Hok as [?|Hok]; [by left|right]. apply Hok; [set_solver|done]. }
  intros q t' Hq. case_decide as Hvalid.
  - destruct Hq as [-> ->]. eapply tr_bind.
    { apply IH; [done|done|set_solver|]. destruct Hok as [?|Hok]; [by left|right]. set_solver. }
    intros qs t2 (pes' & oes' & Hsd' & H1 & H2 & H3 & H4). apply tr_ret. exists pes', oes'.
    split; [done|]. split; [|split; [done|split]].
    + intros x. rewrite H1. clear -Hvalid. repeat case_decide; set_solver.
    + intros x n' [->|Hx]%elem_of_cons ? ?; [done|]. by eapply H3.
    + rewrite filter_cons_False by tauto. done.
  - destruct Hq as (y & oes1 & Hy & -> & Hoes1 & Hsd1). eapply tr_bind.
    { apply IH; [exact Hsd1|done|..].
      - intros x Hx. rewrite lookup_delete_ne; [apply Hin; set_solver|]. intros ->. done.
      - destruct Hok as [?|Hok]; [by left|right]. intros x m Hx [_ Hm]%lookup_delete_Some.
        apply Hok; [set_solver|done]. }
    intros qs t2 (pes' & oes' & Hsd' & H1 & H2 & H3 & H4). apply tr_ret. exists pes', oes'.
    assert (Hold : ∀ z, z ≠ y → oes1 !! z = oes !! z).
    { intros z Hz. by destruct Hoes1 as [->| ->]; rewrite lookup_insert_ne. }
    split; [done|]. split; [|split; [|split]].
    + intros x. rewrite H1. destruct (decide (x = name)) as [->|Hne].
      * rewrite decide_False by tauto. rewrite lookup_delete_eq, decide_True by set_solver. done.
      * rewrite lookup_delete_ne by done. clear -Hne. repeat case_decide; set_solver.
    + intros z m Hz. apply H2. rewrite Hold; [done|]. intros ->. congruence.
    + intros x m [->|Hx]%elem_of_cons Hxv Hm.
      * exists y. split; [done|]. split; [set_solver|]. rewrite Hn in Hm. injection Hm as <-.
        by destruct Hoes1 as [->| ->]; [left|right]; apply H2, lookup_insert_eq.
      * destruct (H3 x m Hx Hxv) as (z & Hz & Hzq & Hk).
        { rewrite lookup_delete_ne; [done|]. intros ->. done. }
        exists z. split; [|split; [set_solver|done]]. rewrite <- Hold; [done|]. intros ->.
        destruct Hoes1 as [->| ->]; by rewrite lookup_insert_eq in Hz.
    + rewrite filter_cons_True by done. cbn [app length]. by rewrite H4.
Qed.

Lemma h_Quarantine t valid :
  trouble ∨ root_ok t ∧ (∃ pes oes, scan_dirs t pes oes ∧
    (∀ x n, pes !! x = Some n → movable x n)) →
  hoare t (ps_QuarantineOrphans ps valid)
    (λ qs t', ∃ pes oes pes' oes' names, scan_dirs t pes oes ∧ scan_dirs t' pes' oes' ∧
       (∀ x, x ∈ names ↔ is_Some (pes !! x)) ∧ scanned valid names pes oes pes' oes' qs).
Proof.
  intros Hok. unfold ps_QuarantineOrphans.
  assert (Hl : trouble ∨ root_ok t ∧ dir_at t payloads_at ∧ dir_at t orphans_at).
  { destruct Hok as [?|(? & pes & oes & (? & ? & ? & ?) & _)]; [by left|right].
    split; [done|]. unfold dir_at. eauto 10. }
  apply (tr_with_root trouble fault_trouble); [intros Hr|tauto].
  apply (tr_with_dir trouble fault_trouble); fold payloads_at; [intros (pes & pb & Hp)|tauto].
  apply (tr_with_dir trouble fault_trouble); fold orphans_at; [intros (oes & ob & Ho)|tauto].
  eapply tr_bind; [by eapply h_wrapf, h_readDirectoryEntriesFD|].
  intros names t' (-> & Hnd & Hnames).
  assert (Hsd : scan_dirs t pes oes) by by eexists _, _.
  eapply h_conseq; [apply h_quarantine_loop; [exact Hsd|done|by intros x ?%Hnames|]|].
  - destruct Hok as [?|(_ & pes2 & oes2 & (? & ? & ? & ?) & Hm)]; [by left|right]. simplify_eq.
    eauto.
  - intros qs t' (pes' & oes' & ? & ?). eauto 10.
Qed.
End quarantine.
End store.
