(* ===== verification/PayloadRefine.v ===== *)
(** * The payload store keeps its promises

    The store on disk implements the interface the spool store relies on
    ([PayloadLaws]), a saved message can be loaded again, and what was saved
    survives a crash. *)
From Stdlib Require Import Ascii.
From S2P Require Import Prelude.
From S2P Require Import GoStrings.
From S2P Require Import GoTime.
From S2P Require Import GoErrors.
From S2P Require Import GoEncoding.
From S2P Require Import GoSHA256.
From S2P Require Import GoNumbers.
From S2P Require Import Email.
From S2P Require Import SpoolCommon.
From S2P Require Import SpoolStore.
From S2P Require Import PayloadFS.
From S2P Require Import PayloadTree.
From S2P Require Import PayloadHoare.
From S2P Require Import PayloadStore.
From S2P Require Import PayloadProps.
#[local] Open Scope Z_scope.
#[local] Open Scope relay_scope.

(** ** What the encodings promise *)

Definition clean_ref (r : payloadAttachmentRef) : payloadAttachmentRef :=
  MkRef (ToValidUTF8 (ar_Filename r)) (ToValidUTF8 (ar_ContentType r)) (ToValidUTF8 (ar_Path r))
    (ar_SizeBytes r) (ToValidUTF8 (ar_SHA256 r)).

(** A manifest after a round trip through JSON: strings are valid UTF-8. *)
Definition clean_manifest (m : payloadManifest) : payloadManifest :=
  MkManifest (ToValidUTF8 (pm_EnvelopeFrom m)) (ToValidUTF8 (pm_HeaderFrom m))
    (ToValidUTF8 <$> pm_ReplyTo m) (ToValidUTF8 <$> pm_To m) (ToValidUTF8 (pm_Subject m))
    (ToValidUTF8 (pm_TextBody m)) (ToValidUTF8 (pm_HTMLBody m)) (clean_ref <$> pm_Attachments m).

Class ManifestLaws `{Codec : ManifestCodec} : Prop := {
  codec_round_trip : ∀ m d,
    manifest_Marshal m = inl d → manifest_Unmarshal d = inl (clean_manifest m);
  codec_errors : ∀ d e, manifest_Unmarshal d = inr e → AsRecordCorruptionError e = None;
}.

Definition clean_attachment (a : Attachment) : Attachment :=
  MkAttachment (ToValidUTF8 (Filename a)) (ToValidUTF8 (ContentType a)) (Data a).

(** The form in which a message is read back. *)
Definition stored_message (m : Message) : Message :=
  MkMessage (TrimSpace (ToValidUTF8 (TrimSpace (EnvelopeFrom m))))
    (TrimSpace (ToValidUTF8 (TrimSpace (HeaderFrom m))))
    (ToValidUTF8 <$> ReplyTo m) (ToValidUTF8 <$> To m) (ToValidUTF8 (Subject m))
    (ToValidUTF8 (TextBody m)) (ToValidUTF8 (HTMLBody m)) (clean_attachment <$> Attachments m).

(** ** Hexadecimal digests *)

Lemma hex_value_digit z : 0 <= z < 16 → hex_value (hex_digit z) = Some z.
Proof.
  intros Hz. assert (Hall : Forall (λ z, hex_value (hex_digit z) = Some z) (Z.of_nat <$> seq 0 16)).
  { cbn. repeat constructor. }
  rewrite Forall_forall in Hall. apply Hall, list_elem_of_fmap.
  exists (Z.to_nat z). rewrite elem_of_seq. lia.
Qed.

Lemma hex_Decode_Encode l : hex_Decode (l ≫= hex_byte) = Some l.
Proof.
  induction l as [|c l IH]; [done|]. cbn -[hex_value hex_digit Z.div Z.modulo].
  pose proof (byte_val_range c).
  rewrite !hex_value_digit by (Z.div_mod_to_equations; lia). cbn -[Z.div Z.modulo].
  rewrite IH. cbn -[Z.div Z.modulo]. do 2 f_equal. rewrite <- (chr_byte_val c) at 3. f_equal.
  Z.div_mod_to_equations; lia.
Qed.

Lemma hex_graphic l : forallb graphic (l ≫= hex_byte) = true.
Proof.
  induction l as [|c l IH]; [done|]. cbn -[hex_byte]. rewrite forallb_app, IH.
  destruct c as [[] [] [] [] [] [] [] []]; done.
Qed.

Lemma graphic_ascii s : forallb graphic (bs s) = true → isASCII s = true.
Proof.
  unfold isASCII. induction (bs s) as [|c l IH]; [done|]. cbn.
  intros [Hc Hl]%andb_true_iff. rewrite IH by done.
  destruct c as [[] [] [] [] [] [] [] []]; done.
Qed.

Lemma clean_graphic s : forallb graphic (bs s) = true → TrimSpace (ToValidUTF8 s) = s.
Proof.
  intros Hs. rewrite ToValidUTF8_ascii by by apply graphic_ascii. by apply TrimSpace_graphic.
Qed.

Lemma attachment_path_graphic i : forallb graphic (bs (attachment_path i)) = true.
Proof.
  unfold attachment_path, attachment_file, join. rewrite !decide_False by done.
  rewrite !bs_app, !forallb_app. destruct (Itoa_decimal (Z.of_nat i)) as [(Hd & _) _]; [lia|].
  assert (Hg : forallb graphic (bs (Itoa (Z.of_nat i))) = true).
  { rewrite forallb_forall in Hd |- *. intros c Hc. by apply digit_graphic, Hd. }
  by rewrite Hg.
Qed.

(** ** What was staged can be read *)

Section staged.
Context `{U : UnicodeTables} `{CL : ManifestLaws}.

Lemma read_attachment_staged es i a c :
  es !! attachment_file i = Some (File (Data a) c) →
  read_attachment es i (clean_ref (MkRef (Filename a) (ContentType a) (attachment_path i)
    (Z.of_nat (String.length (Data a))) (hex_EncodeToString (sha256 (Data a))))) =
  Some (clean_attachment a).
Proof.
  intros Hi. unfold read_attachment, validateAttachmentRef. cbn [clean_ref ar_Path ar_SizeBytes ar_SHA256].
  rewrite clean_graphic by apply attachment_path_graphic. rewrite decide_False by tauto.
  destruct (Z.ltb_spec (Z.of_nat (String.length (Data a))) 0); [lia|].
  assert (Hg : forallb graphic (bs (hex_EncodeToString (sha256 (Data a)))) = true).
  { unfold hex_EncodeToString. rewrite bs_sb. apply hex_graphic. }
  rewrite clean_graphic by done. unfold hex_EncodeToString at 1. rewrite bs_sb, hex_Decode_Encode.
  rewrite decide_True by apply sha256_size. rewrite Hi. unfold attachment_intact.
  cbn [clean_ref ar_SizeBytes ar_SHA256]. rewrite Z.eqb_refl, clean_graphic by done.
  unfold EqualFold. rewrite graphic_ascii by done. by rewrite bool_decide_eq_true_2.
Qed.

Lemma read_attachments_staged es i atts :
  (∀ x n, files_of i atts !! x = Some n → es !! x = Some n) →
  read_attachments es i (clean_ref <$> refs_of i atts) = Some (clean_attachment <$> atts).
Proof.
  revert i. induction atts as [|a atts IH]; intros i Hes; cbn; [done|].
  rewrite (read_attachment_staged _ _ _ true).
  - cbn. rewrite IH; [done|]. intros x n Hx. apply Hes. cbn. rewrite lookup_insert_ne; [done|].
    intros <-. rewrite files_of_lookup_lt in Hx by lia. done.
  - apply Hes. cbn. apply lookup_insert_eq.
Qed.

Lemma read_stage msg d :
  manifest_Marshal (manifest_for msg) = inl d →
  read_payload (stage_node (Attachments msg) d) = Some (stored_message msg).
Proof.
  unfold manifest_for. intros Hm%codec_round_trip. unfold read_payload, stage_node.
  rewrite lookup_insert_eq, Hm. cbn [clean_manifest pm_Attachments manifest_of].
  pose proof (read_attachments_staged (files_of 0 (Attachments msg)) 0 (Attachments msg)
    (λ _ _ H, H)) as Hr.
  destruct (Attachments msg) as [|a atts] eqn:Ha; cbn [refs_of fmap list_fmap].
  - unfold message_of, stored_message. by rewrite Ha.
  - rewrite lookup_insert_ne by done. unfold attachment_entries. rewrite lookup_singleton_eq.
    cbn [refs_of fmap list_fmap] in Hr. rewrite Hr. cbn. unfold message_of, stored_message.
    by rewrite Ha.
Qed.
End staged.

(** ** The contract *)

(** [ReadDir] lists every name once. *)
Class FSLaws `{Env : FSEnv} : Prop := dir_order_perm : ∀ l, dir_order l ≡ₚ l.

(** A world in which no call fails and random identifiers can be drawn. *)
Class Healthy `{Env : FSEnv} : Prop := {
  no_faults : ∀ n, sys_fault n = None;
  random_ids : ∀ n, ∃ id, newUUIDv4 (pay_rand n) = inl id;
}.

Section contract.
Context `{U : UnicodeTables} `{Env : FSEnv} `{Codec : ManifestCodec}.
Context {FL : FSLaws} {CL : ManifestLaws}.
Context (ps : PayloadStore).

Definition disk_payloads : Payloads := {|
  pstate := pst;
  Save := ps_Save ps;
  Load := ps_Load ps;
  Remove := ps_Remove ps;
  QuarantineOrphans := ps_QuarantineOrphans ps;
|}.

Definition disk_view : PayloadView disk_payloads := {|
  payload (s : @pstate disk_payloads) id := stored_payload ps (p_tree (s : pst)) id;
  stored := stored_message;
|}.

Lemma dir_parent t p x : dir_at t (p ++ [x]) → dir_at t p.
Proof.
  intros (es & b & Hg). rewrite fs_get_app in Hg. unfold dir_at.
  destruct (fs_get p t) as [[]|]; cbn in Hg; eauto; done.
Qed.

(** A frame of the tree is a frame of the payloads. *)
Lemma frame_payload {A} (m : PM A) s id :
  (canonical_id id → ∀ v, kept (at_path (payload_at ps id) v) m) →
  stored_payload ps (p_tree (fst (m s))) id = stored_payload ps (p_tree s) id.
Proof.
  intros Hm. unfold stored_payload. destruct (validateCanonicalRecordID id) as [[]|] eqn:Hv; [|done].
  apply validate_canonical in Hv.
  specialize (Hm Hv (fs_get (payload_at ps id) (p_tree s)) s eq_refl). unfold at_path in Hm.
  destruct (m s) as [s' [a|e]]; cbn in *; [destruct Hm as [Hm _]|]; by rewrite Hm.
Qed.

Lemma Save_run id msg s s' :
  ps_Save ps id msg s = (s', inl tt) →
  canonical_id (TrimSpace id) ∧
  ∃ d, manifest_Marshal (manifest_for msg) = inl d ∧
       published ps (p_tree s) (p_tree s') (TrimSpace id) (stage_node (Attachments msg) d).
Proof.
  intros Hs. pose proof (h_Save ps True (λ _ _ _, I) (λ _ _ _, I) dir_order_perm
    (p_tree s) id msg (λ _ _, I) (or_introl I) s eq_refl) as H. by rewrite Hs in H.
Qed.

Lemma published_get t t' id n : published ps t t' id n → fs_get (payload_at ps id) t' = Some n.
Proof.
  intros (pes & b & _ & _ & Hp). unfold payload_at. rewrite fs_get_app, Hp. cbn.
  by rewrite lookup_insert_eq.
Qed.

Lemma Load_run id s :
  match ps_Load ps id s with
  | (s', inl m) => p_tree s' = p_tree s ∧ stored_payload ps (p_tree s) (TrimSpace id) = Some m
  | (s', inr e) =>
      p_tree s' = p_tree s ∧ AsRecordCorruptionError e = None ∧
      (is_Some (AsPayloadCorruptionError e) ∧
       stored_payload ps (p_tree s) (TrimSpace id) = None ∨
       AsPayloadCorruptionError e = None ∧
       ((∃ n x, sys_fault n = Some x) ∨ ¬ readable_layout ps (p_tree s) (TrimSpace id)))
  end.
Proof.
  refine (tr_Load ps (∃ n x, sys_fault n = Some x) _ codec_errors (p_tree s) id s eq_refl). eauto.
Qed.

(** C7. The payload store on disk implements the payload interface of the spool
    store: a message [Save] reports as stored is the one that can be read back,
    an existing payload is never overwritten, no operation changes the payload
    of another record, orphan quarantine leaves the payloads of known records
    alone, [Load] returns exactly what is readable, and it reports corruption
    only for a payload that is not. *)
Theorem payload_store_refines : @PayloadLaws disk_payloads disk_view.
Proof.
  constructor; cbn [Save Load Remove QuarantineOrphans payload stored disk_payloads disk_view pstate].
  - intros id m s s' Hs. apply Save_run in Hs as (Hc & d & Hd & Hp).
    unfold stored_payload. rewrite (proj2 (validate_canonical _) Hc), (published_get _ _ _ _ Hp).
    by apply read_stage.
  - intros id m s id' Hne. apply frame_payload. intros Hc v. by apply fr_Save.
  - intros id m s m0 Hm. unfold stored_payload in Hm.
    destruct (validateCanonicalRecordID (TrimSpace id)) as [[]|] eqn:Hv; [|done].
    destruct (fs_get _ _) as [n|] eqn:Hn; [|done].
    pose proof (tr_Save_exists ps _ id m _ Hn s eq_refl) as H.
    destruct (ps_Save ps id m s) as [s' [[]|e]] eqn:Hs; [done|]. cbn in H |- *.
    split; [|by exists e]. unfold stored_payload. by rewrite H, Hv, Hn.
  - intros id s s' m Hl. pose proof (Load_run id s) as H. rewrite Hl in H. apply H.
  - intros id s s' e Hl. pose proof (Load_run id s) as H. rewrite Hl in H. apply H.
  - intros id s id'. unfold stored_payload. by rewrite (reads_tree _ _ (reads_Load ps id)).
  - intros id s s' e x Hl Hx. pose proof (Load_run id s) as H. rewrite Hl in H.
    destruct H as (_ & _ & [[_ H]|[H _]]); [done|congruence].
  - intros id s id' Hne. apply frame_payload. intros Hc v. by apply fr_Remove.
  - intros ids s id Hid. apply frame_payload. intros Hc v. by apply fr_Quarantine.
Qed.

(** When [Save] succeeds the payload survives a crash: the payload directory
    holds one entry more than before and has been synced, and so has every file
    and directory of the new payload, from which the message is read back.
    This holds whichever way the payload was published and whatever clean-up
    failed. *)
Lemma Save_durable (id : string) (msg : Message) (s s' : pst) :
  ps_Save ps id msg s = (s', inl tt) →
  ∃ pes b n,
    fs_get (payloads_at ps) (p_tree s) = Some (Dir pes b) ∧ pes !! TrimSpace id = None ∧
    fs_get (payloads_at ps) (p_tree s') = Some (Dir (<[TrimSpace id := n]> pes) true) ∧
    settled n ∧ read_payload n = Some (stored_message msg).
Proof.
  intros (_ & d & Hd & pes & b & Hp & Hid & Hp')%Save_run.
  exists pes, b, (stage_node (Attachments msg) d). do 3 (split; [done|]).
  split; [apply stage_settled|by apply read_stage].
Qed.

(** C12. In a world without faults a message is saved and loaded again: with the
    store laid out, an unused identifier and no leftover temporary directories,
    [Save] succeeds, across devices or not, and [Load] then returns the stored
    form of the message. *)
Theorem Save_then_Load {HW : Healthy} (id : string) (msg : Message) (s : pst) :
  (∀ e, manifest_Marshal (manifest_for msg) ≠ inr e) →
  canonical_id (TrimSpace id) → save_ready ps (p_tree s) (TrimSpace id) →
  ∃ s1 s2, ps_Save ps id msg s = (s1, inl tt) ∧ ps_Load ps id s1 = (s2, inl (stored_message msg)).
Proof.
  intros Hmarshal Hc Hready.
  pose proof (h_Save ps False) as H. ospecialize* (H _ _ _ (p_tree s) id msg _ _ s eq_refl).
  { intros n e He. by rewrite no_faults in He. }
  { intros n e He. destruct (random_ids n) as [x Hx]. congruence. }
  { apply dir_order_perm. } { intros e Hm. by apply Hmarshal in Hm. } { by right. }
  destruct (ps_Save ps id msg s) as [s1 [[]|e]] eqn:Hs; [|done].
  destruct H as (_ & d & Hd & Hp). pose proof (Load_run id s1) as Hl.
  assert (Hread : stored_payload ps (p_tree s1) (TrimSpace id) = Some (stored_message msg)).
  { unfold stored_payload. rewrite (proj2 (validate_canonical _) Hc), (published_get _ _ _ _ Hp).
    by apply read_stage. }
  rewrite Hread in Hl. destruct (ps_Load ps id s1) as [s2 [m|e]] eqn:HL.
  - destruct Hl as [_ [= ->]]. exists s1, s2. split; [done|exact HL].
  - exfalso. destruct Hl as (_ & _ & [[_ ?]|[_ [(n & x & Hx)|Hlay]]]); [done|by rewrite no_faults in Hx|].
    apply Hlay. destruct Hready as ([_ Hr] & _). destruct Hp as (pes & b & _ & _ & Hp).
    assert (Hd1 : dir_at (p_tree s1) (payloads_at ps)) by by eexists _, _.
    split; [split; [by eapply dir_parent|done]|]. by split.
Qed.

(** [Remove] deletes the payload durably and nothing else; in a world without
    faults it succeeds on every payload made of files and directories, and on
    one that is gone already. *)
Lemma Remove_ok {HW : Healthy} (id : string) (s : pst) :
  readable_layout ps (p_tree s) (TrimSpace id) →
  (∀ n, fs_get (payload_at ps (TrimSpace id)) (p_tree s) = Some n → plain n) →
  ∃ s' pes b, ps_Remove ps id s = (s', inl tt) ∧
    fs_get (payloads_at ps) (p_tree s) = Some (Dir pes b) ∧
    p_tree s' = put (payloads_at ps) (Dir (delete (TrimSpace id) pes) true) (p_tree s).
Proof.
  intros Hl Hp. pose proof (h_Remove ps False) as H. ospecialize* (H _ _ (p_tree s) id _ s eq_refl).
  { intros n e He. by rewrite no_faults in He. } { apply dir_order_perm. } { by right. }
  destruct (ps_Remove ps id s) as [s' [[]|e]]; [|done].
  destruct H as (_ & pes & b & Hp1 & Ht). by exists s', pes, b.
Qed.

(** C13. In a world without faults the orphan scan succeeds whatever the records
    are, across devices or not: the payloads of known records stay, every other
    payload is gone from the payload directory and kept under a name that was
    free among the orphans, and no earlier orphan is overwritten.  The search
    for a free name ends. *)
Theorem QuarantineOrphans_ok {HW : Healthy} (valid : gset string) (s : pst)
    (pes oes : gmap string node) :
  root_ok ps (p_tree s) → scan_dirs ps (p_tree s) pes oes →
  (∀ x n, pes !! x = Some n → movable x n) →
  ∃ s' qs pes' oes',
    ps_QuarantineOrphans ps valid s = (s', inl qs) ∧ scan_dirs ps (p_tree s') pes' oes' ∧
    (∀ x, pes' !! x = if decide (x ∈ valid) then pes !! x else None) ∧
    (∀ y n, oes !! y = Some n → oes' !! y = Some n) ∧
    (∀ x n, pes !! x = Some n → x ∉ valid →
       ∃ y, oes !! y = None ∧ join (ps_orphanRoot ps) y ∈ qs ∧ kept_as oes' y n).
Proof.
  intros Hr Hsd Hm. pose proof (h_Quarantine ps False) as H.
  ospecialize* (H _ _ _ (p_tree s) valid _ s eq_refl).
  { intros n e He. by rewrite no_faults in He. }
  { intros n e He. destruct (random_ids n) as [x Hx]. congruence. }
  { apply dir_order_perm. } { right. split; [done|]. eauto. }
  destruct (ps_QuarantineOrphans ps valid s) as [s' [qs|e]]; [|done].
  destruct H as (pes0 & oes0 & pes' & oes' & names & Hsd0 & Hsd' & Hnames & H1 & H2 & H3 & _).
  destruct Hsd as (pb & ob & Hp & Ho), Hsd0 as (pb0 & ob0 & Hp0 & Ho0). simplify_eq.
  exists s', qs, pes', oes'. split; [done|]. split; [done|]. split; [|split; [done|]].
  - intros x. rewrite H1. destruct (decide (x ∈ valid)).
    + by rewrite decide_False by tauto.
    + case_decide as Hx; [done|]. apply eq_None_not_Some. rewrite <- Hnames. tauto.
  - intros x n Hx Hv. apply (H3 x n); [|done|done]. apply Hnames. by exists n.
Qed.
End contract.
