(* ===== verification/PayloadInit.v ===== *)
(** * Opening the payload store

    [NewPayloadStore] leaves the store ready for [Save]: its directories exist,
    staging is empty, no temporary directory is left among the payloads, and
    every payload that was there can be read as before. *)
From Stdlib Require Import Ascii.
From S2P Require Import Prelude.
From S2P Require Import GoStrings.
From S2P Require Import GoTime.
From S2P Require Import GoErrors.
From S2P Require Import GoEncoding.
From S2P Require Import GoSHA256.
From S2P Require Import Email.
From S2P Require Import SpoolCommon.
From S2P Require Import PayloadFS.
From S2P Require Import PayloadTree.
From S2P Require Import PayloadHoare.
From S2P Require Import PayloadStore.
From S2P Require Import PayloadProps.
From S2P Require Import PayloadRefine.
#[local] Open Scope Z_scope.
#[local] Open Scope relay_scope.

(** ** Clean paths *)

Definition no_slash (c : string) : Prop := chr 47 ∉ bs c.

Lemma Split_no_slash s : Forall no_slash (Split s (chr 47)).
Proof.
  unfold Split. apply Forall_fmap. eapply Forall_impl; [apply split_on_notin|].
  intros l Hl. unfold no_slash. cbn. by rewrite bs_sb.
Qed.

Lemma split_join_bytes c ls :
  Forall (λ l, c ∉ l) ls → ls ≠ [] → split_on c (join_bytes [c] ls) = ls.
Proof.
  induction 1 as [|l ls Hl _ IH]; [done|]. intros _. destruct ls as [|l' ls].
  - by apply split_on_single.
  - change (join_bytes [c] (l :: l' :: ls)) with (l ++ c :: join_bytes [c] (l' :: ls)).
    rewrite split_on_app by done. by rewrite IH.
Qed.

Lemma Split_Join ls : Forall no_slash ls → ls ≠ [] → Split (Join ls "/") (chr 47) = ls.
Proof.
  intros Hls Hne. unfold Split, Join. rewrite bs_sb. change (bs "/") with [chr 47].
  rewrite split_join_bytes.
  - rewrite <- list_fmap_compose, (list_fmap_ext _ id), list_fmap_id; [done|].
    intros i x _. apply sb_bs.
  - by apply Forall_fmap.
  - by destruct ls.
Qed.

Lemma clean_components_good r acc l :
  Forall no_slash l → Forall (λ c, proper c ∧ no_slash c) acc →
  Forall (λ c, proper c ∧ no_slash c) (clean_components r acc l).
Proof.
  intros Hl. revert acc. induction Hl as [|c l Hc _ IH]; intros acc Hacc; cbn.
  { by apply Forall_reverse. }
  assert (Hdd : proper ".." ∧ no_slash "..") by (split; [done|]; unfold no_slash; cbn; set_solver).
  case_decide as Hp; [by apply IH|]. case_decide as Hd.
  - destruct acc as [|h acc]; [apply IH; destruct r; repeat constructor; try done; apply Hdd|].
    apply IH. case_decide; [by constructor|]. by inversion Hacc.
  - apply IH. constructor; [|done]. split; [|done]. unfold proper. tauto.
Qed.

Lemma clean_components_id r acc l :
  Forall proper l → ".." ∉ l → clean_components r acc l = reverse acc ++ l.
Proof.
  intros Hl. revert acc. induction Hl as [|c l Hc _ IH]; intros acc Hdd; cbn.
  { by rewrite app_nil_r. }
  apply not_elem_of_cons in Hdd as [? Hdd]. unfold proper in Hc.
  rewrite decide_False by tauto. rewrite decide_False by done.
  rewrite IH by done. by rewrite reverse_cons, <- app_assoc.
Qed.

(** A path without parent traversal is clean after one cleaning. *)
Lemma filepath_Clean_idem p :
  ".." ∉ Split (filepath_Clean p) (chr 47) → filepath_Clean (filepath_Clean p) = filepath_Clean p.
Proof.
  unfold filepath_Clean at 1 3 4. set (C := clean_components (IsAbs p) [] (Split p (chr 47))).
  assert (HC : Forall (λ c, proper c ∧ no_slash c) C).
  { apply clean_components_good; [apply Split_no_slash|done]. }
  assert (Hns : Forall no_slash C) by (eapply Forall_impl; [exact HC|by intros ? [? ?]]).
  assert (Hpr : Forall proper C) by (eapply Forall_impl; [exact HC|by intros ? [? ?]]).
  assert (Hone : Split "" (chr 47) = [""]) by done.
  assert (Habs : ∀ x, Split ("/" +:+ x) (chr 47) = "" :: Split x (chr 47)) by done.
  unfold filepath_Clean. destruct (IsAbs p) eqn:Habsp.
  - rewrite !Habs. intros Hdd. assert (Hab : IsAbs ("/" +:+ Join C "/") = true) by done.
    rewrite !Hab. cbn [clean_components]. rewrite decide_True by tauto.
    destruct (decide (C = [])) as [->|Hne]; [done|].
    rewrite Split_Join in * by done. rewrite clean_components_id; [done|done|set_solver].
  - destruct (decide (C = [])) as [Hnil|Hne]; [done|]. rewrite Split_Join by done. intros Hdd.
    assert (Hrel : IsAbs (Join C "/") = false).
    { unfold IsAbs, HasPrefix. destruct C as [|c C']; [done|].
      inversion Hns as [|? ? Hc _]; inversion Hpr as [|? ? [Hc1 _] _]; subst.
      destruct (strip_prefix _ _) as [l|] eqn:Hl; [|done]. apply strip_prefix_Some in Hl.
      unfold Join in Hl. rewrite bs_sb in Hl. destruct c as [|a c]; [done|].
      assert (Ha : a = chr 47) by (cbn in Hl; destruct (bs <$> C'); by injection Hl).
      destruct Hc. rewrite Ha. cbn. set_solver. }
    rewrite !Hrel. rewrite clean_components_id by done. cbn [reverse app].
    by rewrite decide_False.
Qed.

(** ** Making directories keeps what is below them *)

Section grow.
Context `{U : UnicodeTables} `{Env : FSEnv} (q : path) (v : option node).

(** [p] leads to [q]. *)
Definition above (p : path) : Prop := ∃ y r, q = p ++ y :: r.

Lemma above_not_below p : above p → ¬ q `prefix_of` p.
Proof. intros (y & r & Hq) Hp%prefix_length. rewrite Hq, length_app in Hp. cbn in Hp. lia. Qed.

Lemma above_parent p x : above (p ++ [x]) → above p.
Proof. intros (y & r & Hq). exists x, (y :: r). by rewrite Hq, <- app_assoc. Qed.

Lemma gr_Mkdirat fd x : above (fd ++ [x]) → kept (at_path q v) (sys_Mkdirat fd x).
Proof.
  intros (y & r & Hq). unfold sys_Mkdirat. eapply st_bind; [apply st_syscall|]. intros _ _.
  intros s Hs. unfold entries_of, bind. cbn.
  destruct (fs_get fd (p_tree s)) as [[|es b| |]|] eqn:Hg; try exact Hs. cbn.
  destruct (es !! x) as [n|] eqn:Hx; cbn; [exact Hs|]. split; [|done].
  unfold at_path in *. rewrite Hq, <- app_assoc in *. cbn [app] in *.
  rewrite fs_get_upd, Hg. rewrite fs_get_app, Hg in Hs. cbn in *. rewrite Hx in Hs. cbn in Hs.
  by rewrite lookup_insert_eq.
Qed.

Lemma gr_syncFD fd p : above fd → kept (at_path q v) (syncFD fd p).
Proof. intros Ha. by apply fr_syncFD, above_not_below. Qed.

Lemma gr_ensureDirectoryAt fd pp x :
  above (fd ++ [x]) → stays (at_path q v) (ensureDirectoryAt fd pp x) (λ a, a = fd ++ [x]).
Proof.
  intros Ha. pose proof (above_parent _ _ Ha). pose proof gr_syncFD. pose proof gr_Mkdirat.
  unfold ensureDirectoryAt. eapply st_bind; [stays_tac|]. intros c _.
  eapply st_bind; [apply st_wrapf, st_openDirectoryAt|]. intros a ->. stays_tac.
Qed.

Lemma gr_walk whole fd cur comps :
  above (fd ++ filter proper comps) →
  stays (at_path q v) (walk_components true whole fd cur comps) (λ a, a = fd ++ filter proper comps).
Proof.
  revert fd cur. induction comps as [|c comps IH]; intros fd cur Ha; cbn [walk_components].
  { apply st_ret. by rewrite app_nil_r. }
  case_decide as Hc; [rewrite filter_cons_False in * by (unfold proper; tauto); by apply IH|].
  case_decide; [by eapply st_bind; [eauto with fsdb|intros; apply st_fail]|].
  rewrite filter_cons_True in * by (unfold proper; tauto).
  replace (fd ++ c :: filter proper comps) with ((fd ++ [c]) ++ filter proper comps) in *
    by by rewrite <- app_assoc.
  assert (Hc1 : above (fd ++ [c])).
  { destruct Ha as (y & r & Hq). destruct (filter proper comps) as [|z l]; [exists y, r|].
    - by rewrite Hq, app_nil_r.
    - exists z, (l ++ y :: r). by rewrite Hq, <- app_assoc. }
  pose proof (above_parent _ _ Hc1). pose proof gr_syncFD. pose proof gr_Mkdirat.
  apply (st_bind _ _ _ (λ _, True)); [stays_tac|]. intros created _.
  apply (st_bind _ _ _ (λ a, a = fd ++ [c])).
  { eapply st_on_error; [apply st_wrapf, st_openDirectoryAt|apply st_Close]. }
  intros a ->. apply (st_bind _ _ _ (λ _, True)); [stays_tac|]. intros _ _.
  apply (st_bind _ _ _ (λ _, True)); [stays_tac|]. intros _ _. by apply IH.
Qed.
End grow.

(** ** The directories afterwards *)

Section made.
Context `{U : UnicodeTables} `{Env : FSEnv}.

Definition no_trouble_fault : ∀ n e, sys_fault n = Some e → True := λ _ _ _, I.

Lemma dir_at_synced t p fd : dir_at t p → dir_at (fs_upd fd mark_synced t) p.
Proof.
  intros (es & b & Hg). unfold dir_at.
  destruct (decide (fd `prefix_of` p)) as [[r ->]|Hn].
  - rewrite fs_get_app in Hg. rewrite fs_get_upd.
    destruct (fs_get fd t) as [n|]; [|done]. cbn in Hg |- *.
    destruct n as [|es' b'| |], r; cbn in *; simplify_eq; eauto.
  - destruct (decide (p `prefix_of` fd)) as [[r ->]|Hp].
    + clear Hn. revert t Hg. induction p as [|x p IH]; intros t Hg; cbn in *.
      * injection Hg as ->. destruct r; cbn; eauto.
      * destruct t as [|es' b'| |]; try done. cbn. rewrite lookup_alter_eq.
        destruct (es' !! x) as [c|]; [|done]. cbn in *. by apply IH.
    + rewrite fs_get_upd_away by done. eauto.
Qed.

Lemma kept_dir_syncFD p fd w : kept (λ t, dir_at t p) (syncFD fd w).
Proof.
  apply st_wrapf. unfold sys_Fsync. stays_step; [apply st_syscall|].
  apply st_set_tree. intros t. apply dir_at_synced.
Qed.

(** What is kept on the way holds at the end. *)
Lemma tr_kept {A} t (m : PM A) (I : node → Prop) Q : stays I m Q → I t →
  hoare True t m (λ a t', I t' ∧ Q a).
Proof.
  intros Hm Ht s Hs. subst. specialize (Hm s Ht). by destruct (m s) as [s' [a|e]].
Qed.

Lemma tr_and {A} t (m : PM A) Q R : hoare True t m Q → hoare True t m R →
  hoare True t m (λ a t', Q a t' ∧ R a t').
Proof.
  intros HQ HR s Hs. specialize (HQ s Hs). specialize (HR s Hs). by destruct (m s) as [s' [a|e]].
Qed.

Lemma h_made_ensure t fd pp x :
  hoare True t (ensureDirectoryAt fd pp x) (λ a t', a = fd ++ [x] ∧ dir_at t' (fd ++ [x])).
Proof.
  unfold ensureDirectoryAt. apply (tr_bind _ _ _ (λ _ _, True)).
  { intros s Hs. by destruct (try _ _ s) as [s' [a|e]]. }
  intros c t1 _. eapply tr_bind; [apply h_wrapf, (h_open _ no_trouble_fault); done|].
  intros a t' (-> & -> & Hd).
  apply (tr_bind _ _ _ (λ _ t', dir_at t' (fd ++ [x]))); [|intros _ t' ?; by apply tr_ret].
  eapply h_conseq; [apply (tr_kept _ _ (λ t, dir_at t (fd ++ [x])) (λ _, True))|by intros ? ? [? _]].
  - pose proof kept_dir_syncFD. stays_tac.
  - done.
Qed.

Lemma h_made_walk t whole fd cur comps :
  dir_at t fd →
  hoare True t (walk_components true whole fd cur comps)
    (λ a t', a = fd ++ filter proper comps ∧ dir_at t' a ∧ ".." ∉ comps).
Proof.
  revert t fd cur. induction comps as [|c comps IH]; intros t fd cur Hd; cbn [walk_components].
  { apply tr_ret. rewrite app_nil_r, elem_of_nil. tauto. }
  case_decide as Hc.
  { rewrite filter_cons_False by (unfold proper; tauto). eapply h_conseq; [by apply IH|].
    intros a t' (? & ? & Hn). do 2 (split; [done|]). rewrite elem_of_cons.
    intros [<-|?]; [by destruct Hc|done]. }
  case_decide as Hdd; [by intros s Hs; cbn|].
  rewrite filter_cons_True by (unfold proper; tauto).
  apply (tr_bind _ _ _ (λ _ _, True)).
  { intros s Hs. by destruct (try _ _ s) as [s' [a|e]]. }
  intros created t1 _. apply (tr_bind _ _ _ (λ a t', a = fd ++ [c] ∧ dir_at t' (fd ++ [c]))).
  { apply h_on_error, h_wrapf. eapply h_conseq; [by apply (h_open _ no_trouble_fault)|].
    by intros a t' (-> & -> & ?). }
  intros a t2 [-> Hdc]. set (I := λ t, dir_at t (fd ++ [c])).
  pose proof kept_dir_syncFD.
  apply (tr_bind _ _ _ (λ _ t', I t' ∧ True)); [apply tr_kept; [stays_tac|done]|].
  intros _ t3 [Ht3 _].
  apply (tr_bind _ _ _ (λ _ t', I t' ∧ True)); [apply tr_kept; [stays_tac|done]|].
  intros _ t4 [Ht4 _].
  replace (fd ++ c :: filter proper comps) with ((fd ++ [c]) ++ filter proper comps)
    by by rewrite <- app_assoc.
  eapply h_conseq; [by apply IH|]. intros a t' (? & ? & Hn). do 2 (split; [done|]).
  rewrite elem_of_cons. by intros [<-|?].
Qed.
End made.

(** ** NewPayloadStore *)

Section new.
Context `{U : UnicodeTables} `{Env : FSEnv} `{Codec : ManifestCodec}.

Definition store_at (root : string) : PayloadStore :=
  let clean := filepath_Clean root in
  MkPayloadStore clean (join clean payloadsDirName) (join clean payloadOrphansDirName)
    (join clean stagingDirName).

Lemma HasPrefix_true x p : HasPrefix x p = true ↔ ∃ y, x = p +:+ y.
Proof.
  unfold HasPrefix. destruct (strip_prefix (bs p) (bs x)) as [l|] eqn:Hs.
  - split; [intros _|done]. apply strip_prefix_Some in Hs. exists (sb l).
    rewrite <- (sb_bs x), Hs, sb_app. by rewrite !sb_bs.
  - split; [done|]. intros [y ->]. exfalso. rewrite bs_app in Hs.
    destruct (strip_prefix _ _) as [l|] eqn:E in Hs; [done|].
    assert (strip_prefix (bs p) (bs p ++ bs y) = Some (bs y)) by by apply strip_prefix_Some.
    congruence.
Qed.

Lemma h_cleanupPayloadTemps ps t pes b :
  (∀ l, dir_order l ≡ₚ l) →
  fs_get (payloads_at ps) t = Some (Dir pes b) →
  hoare True t (cleanupPayloadTemps ps (payloads_at ps))
    (λ _ t', ∃ pes' b', t' = put (payloads_at ps) (Dir pes' b') t ∧
       ∀ x, pes' !! (publishTempPrefix +:+ x) = None).
Proof.
  intros Hperm Hg. eapply tr_bind;
    [apply h_wrapf, (h_readDirectoryEntriesFD _ no_trouble_fault Hperm _ _ _ _ Hg)|].
  intros names t' (-> & _ & Hnames). set (temps := filter _ names).
  assert (Hclean : ∀ pes' : gmap string node, (∀ y, pes' !! y = if decide (y ∈ temps) then None else pes !! y) →
    ∀ x, pes' !! (publishTempPrefix +:+ x) = None).
  { intros pes' Hpes x. rewrite Hpes. case_decide as Hin; [done|].
    apply eq_None_not_Some. rewrite <- Hnames. intros Hn. apply Hin. unfold temps.
    apply list_elem_of_filter. split; [|done]. apply HasPrefix_true. eauto. }
  eapply tr_bind.
  { eapply (h_remove_names True _ _ (λ _, True)); [|exact Hg|done].
    intros t1 x es b1 Hg1 _. apply h_wrapf.
    refine (h_removeEntryTreeAt _ no_trouble_fault Hperm _ _ _ _ _ _ Hg1 _). by left. }
  intros _ t' (pes' & b' & -> & Hpes). case_decide.
  - apply tr_ret. exists pes', b'. eauto.
  - eapply h_conseq; [eapply (h_syncFD _ no_trouble_fault); by eapply get_put|].
    intros _ t' ->. exists pes', true. rewrite put_put. eauto.
Qed.

Lemma fr_cleanupPayloadTemps ps id v :
  canonical_id id → kept (at_path (payload_at ps id) v) (cleanupPayloadTemps ps (payloads_at ps)).
Proof.
  intros Hc. unfold cleanupPayloadTemps. eapply st_bind; [eauto with fsdb|]. intros names _.
  set (temps := filter _ names).
  assert (Ht : ∀ x, x ∈ temps → id ≠ x).
  { intros x [[y ->]%HasPrefix_true _]%list_elem_of_filter. by apply canonical_not_dotted. }
  apply (st_bind _ _ _ (λ _, True)).
  - clearbody temps. induction temps as [|x temps IH]; cbn; [by apply st_ret|].
    apply (st_bind _ _ _ (λ _, True)); [|intros; apply IH; set_solver].
    apply st_wrapf, fr_removeEntryTreeAt, away_entry_of. apply Ht. set_solver.
  - intros. case_decide; [by apply st_ret|]. apply fr_syncFD, not_above_payloads.
Qed.

Section payload_frame.
Context (root id : string) (v : option node).
Hypothesis canonical : canonical_id id.
Abbreviation ps := (store_at (TrimSpace root)).

(** The root as the walk sees it is the root as the store sees it. *)
Hypothesis clean_root : store_root ps =
  let c := filepath_Clean (TrimSpace root) in
  (if IsAbs c then [] else cwd) ++
  filter proper (if IsAbs c then tail (Split c (chr 47)) else Split c (chr 47)).

Lemma above_root : above (payload_at ps id) (store_root ps).
Proof. exists payloadsDirName, [id]. unfold payload_at, payloads_at. by rewrite <- app_assoc. Qed.
Lemma above_payloads : above (payload_at ps id) (store_root ps ++ [payloadsDirName]).
Proof. by exists id, []. Qed.

Lemma fr_ensure_root :
  stays (at_path (payload_at ps id) v) (ensureDirectoryPathNoFollow (TrimSpace root))
    (λ r, r = (store_root ps, filepath_Clean (TrimSpace root))).
Proof.
  unfold ensureDirectoryPathNoFollow, walkDirectoryPathNoFollow.
  eapply st_bind; [apply st_wrapf, st_openDirectoryNoFollow|]. intros fd ->.
  eapply st_bind; [apply gr_walk; cbn zeta in clean_root; rewrite <- clean_root; apply above_root|].
  intros a ->. apply st_ret. by rewrite clean_root.
Qed.

Lemma fr_NewPayloadStore :
  kept (at_path (payload_at ps id) v) (NewPayloadStore root).
Proof.
  unfold NewPayloadStore. case_decide; [apply st_fail|].
  apply (st_bind _ _ _ (λ r, r = (store_root ps, filepath_Clean (TrimSpace root)))).
  { apply st_wrapf, fr_ensure_root. }
  intros r ->. cbn [fst snd]. change (MkPayloadStore _ _ _ _) with ps.
  eapply st_finally; [|apply st_unixClose].
  eapply st_bind; [apply gr_ensureDirectoryAt, above_payloads|]. intros pfd ->.
  fold (payloads_at ps). eapply st_finally; [|apply st_unixClose].
  eapply st_bind; [apply fr_ensureDirectoryAt; fold (orphans_at ps);
    rewrite <- (app_nil_r (orphans_at ps)); apply away_orphans|]. intros ofd ->.
  eapply st_finally; [|apply st_unixClose].
  assert (Hst : away (payload_at ps id) (staging_at ps))
    by (rewrite <- (app_nil_r (staging_at ps)); apply away_staging).
  eapply st_bind; [by apply fr_ensureDirectoryAt|]. intros sfd ->. fold (staging_at ps).
  eapply st_finally; [|apply st_unixClose].
  eapply st_bind; [by apply st_wrapf, fr_removeTreeContentsFD|]. intros _ _.
  eapply st_bind; [by apply fr_syncFD, away_self|]. intros _ _.
  eapply st_bind; [by apply fr_cleanupPayloadTemps|]. intros _ _. by apply st_ret.
Qed.
End payload_frame.

(** The components of a clean path, as the walk sees them. *)
Definition walked (c : string) : list string :=
  if IsAbs c then tail (Split c (chr 47)) else Split c (chr 47).

Lemma IsAbs_inv c : IsAbs c = true → ∃ x, c = "/" +:+ x.
Proof. unfold IsAbs. by intros ?%HasPrefix_true. Qed.

Lemma walked_dotdot c : ".." ∉ walked c → ".." ∉ Split c (chr 47).
Proof.
  unfold walked. destruct (IsAbs c) eqn:Ha; [|done]. apply IsAbs_inv in Ha as [x ->].
  change (Split ("/" +:+ x) (chr 47)) with ("" :: Split x (chr 47)). cbn [tail].
  rewrite elem_of_cons. by intros ? [?|?].
Qed.

Lemma store_root_clean r :
  ".." ∉ walked (filepath_Clean r) →
  root_components (store_at r) = walked (filepath_Clean r) ∧
  store_root (store_at r) =
    (if IsAbs (filepath_Clean r) then [] else cwd) ++ filter proper (walked (filepath_Clean r)).
Proof.
  intros Hdd. pose proof (filepath_Clean_idem r (walked_dotdot _ Hdd)) as Hid.
  unfold store_root, root_components, walked. cbn [ps_root store_at]. by rewrite Hid.
Qed.

Definition fresh_store (ps : PayloadStore) (t : node) : Prop :=
  root_ok ps t ∧ dir_at t (orphans_at ps) ∧
  ∃ pes pb sb, layout ps t pes ∅ pb sb ∧ ∀ x, pes !! (publishTempPrefix +:+ x) = None.

Lemma h_ensure_keeping t fd pp x q :
  away q (fd ++ [x]) →
  hoare True t (ensureDirectoryAt fd pp x)
    (λ a t', (a = fd ++ [x] ∧ dir_at t' (fd ++ [x])) ∧ fs_get q t' = fs_get q t).
Proof.
  intros Ha. apply tr_and; [apply h_made_ensure|].
  eapply h_conseq; [apply (tr_kept _ _ (at_path q (fs_get q t)) (λ _, True)); [|done]|].
  - eapply st_conseq; [by apply fr_ensureDirectoryAt|done].
  - by intros a t' [? _].
Qed.

Lemma h_ensure_root t r :
  hoare True t (ensureDirectoryPathNoFollow r)
    (λ a t', a = (store_root (store_at r), filepath_Clean r) ∧
             dir_at t' (store_root (store_at r)) ∧ ".." ∉ walked (filepath_Clean r)).
Proof.
  unfold ensureDirectoryPathNoFollow, walkDirectoryPathNoFollow. set (c := filepath_Clean r).
  apply (tr_bind _ _ _ (λ a t', a = (if IsAbs c then [] else cwd) ∧ dir_at t' a)).
  { eapply (tr_wrapf _ _ _ _ (λ _ _, True)); [|done].
    eapply tr_conseq; [apply (tr_open_start _ no_trouble_fault)| |done].
    by intros a t' (-> & -> & ?). }
  intros a t1 [-> Hd]. fold (walked c). eapply tr_bind; [by apply h_made_walk|].
  intros a t2 (-> & Hd2 & Hdd). apply tr_ret.
  destruct (store_root_clean r Hdd) as [_ Hroot]. fold c in Hroot. by rewrite Hroot.
Qed.

Lemma h_NewPayloadStore t root :
  (∀ l, dir_order l ≡ₚ l) →
  hoare True t (NewPayloadStore root)
    (λ ps t', ps = store_at (TrimSpace root) ∧ fresh_store ps t' ∧
              ".." ∉ walked (filepath_Clean (TrimSpace root))).
Proof.
  intros Hperm. unfold NewPayloadStore. set (r := TrimSpace root). case_decide; [by apply tr_fail|].
  set (c := filepath_Clean r).
  apply (tr_bind _ _ _ (λ a t', a = (store_root (store_at r), c) ∧
    dir_at t' (store_root (store_at r)) ∧ ".." ∉ walked c)).
  { apply h_wrapf, h_ensure_root. }
  intros a t1 (-> & Hroot & Hdd). cbn [fst snd]. change (MkPayloadStore _ _ _ _) with (store_at r).
  set (ps := store_at r) in *.
  apply tr_finally; [apply reads_unixClose|].
  eapply tr_bind; [apply h_made_ensure|]. intros p t2 [-> Hp2]. fold (payloads_at ps) in *.
  apply tr_finally; [apply reads_unixClose|].
  eapply tr_bind; [apply (h_ensure_keeping _ _ _ _ (payloads_at ps)), away_scan|].
  intros o t3 [[-> Ho3] Hp3]. fold (orphans_at ps) in *.
  apply tr_finally; [apply reads_unixClose|].
  eapply tr_bind.
  { apply tr_and; [apply (h_ensure_keeping _ _ _ _ (payloads_at ps)), away_sym, away_dirs|].
    apply (h_ensure_keeping _ _ _ _ (orphans_at ps)). by apply away_siblings. }
  intros g t4 [[[-> (ses & sb & Hs4)] Hp4] [_ Ho4]]. fold (staging_at ps) in *.
  apply tr_finally; [apply reads_unixClose|].
  destruct Hp2 as (pes & pb & Hp2). rewrite Hp3, Hp2 in Hp4.
  destruct Ho3 as (oes & ob & Ho3). rewrite Ho3 in Ho4.
  assert (Hao : away (orphans_at ps) (staging_at ps)) by by apply away_siblings.
  eapply tr_bind.
  { apply h_wrapf, (h_removeTreeContentsFD _ no_trouble_fault Hperm _ _ _ _ _ Hs4). by left. }
  intros _ t5 [sb' ->].
  eapply tr_bind; [eapply (h_syncFD _ no_trouble_fault); by eapply get_put|].
  intros _ t6 ->. rewrite put_put. cbn [mark_synced].
  eapply tr_bind.
  { eapply (h_cleanupPayloadTemps ps _ pes pb Hperm). by rewrite get_payloads_put. }
  intros _ t7 (pes' & pb' & -> & Hnone). apply tr_ret. split; [done|]. split; [|done].
  set (t8 := put (payloads_at ps) _ _).
  assert (Hp8 : fs_get (payloads_at ps) t8 = Some (Dir pes' pb')).
  { eapply get_put. by rewrite get_payloads_put. }
  destruct (store_root_clean r Hdd) as [Hcomps _]. fold c in Hcomps.
  split; [split; [eapply dir_parent; by eexists _, _|by rewrite <- Hcomps in Hdd]|].
  split; [|exists pes', pb', true; split; [split; [done|]|done]].
  - exists oes, ob. unfold t8. rewrite get_orphans_payloads.
    unfold put. rewrite fs_get_upd_away by done. done.
  - unfold t8. rewrite get_staging_put. by eapply get_put.
Qed.

(** A fresh store accepts every identifier that is not in use. *)
Lemma fresh_ready ps t id :
  fresh_store ps t → fs_get (payload_at ps id) t = None → save_ready ps t id.
Proof.
  intros (Hr & _ & pes & pb & sb & Hl & Hnone) Hid. split; [done|].
  exists pes, ∅, pb, sb. split; [done|]. split; [|done].
  destruct Hl as [Hp _]. unfold payload_at in Hid. rewrite fs_get_app, Hp in Hid. cbn in Hid.
  by destruct (pes !! id).
Qed.

(** Opening the store succeeds only with the store ready: the directories of
    the root exist, staging is empty, no publish directory is left behind and
    every unused identifier can be saved; what could be read before can be read
    now. *)
Lemma NewPayloadStore_ok {FL : FSLaws} (root : string) (s s' : pst) (ps : PayloadStore) :
  NewPayloadStore root s = (s', inl ps) →
  ps = store_at (TrimSpace root) ∧ fresh_store ps (p_tree s') ∧
  (∀ id, fs_get (payload_at ps id) (p_tree s') = None → save_ready ps (p_tree s') id) ∧
  ∀ id, stored_payload ps (p_tree s') id = stored_payload ps (p_tree s) id.
Proof.
  intros Hn. pose proof (h_NewPayloadStore (p_tree s) root dir_order_perm s eq_refl) as H.
  rewrite Hn in H. destruct H as (-> & Hfresh & Hdd). split; [done|]. split; [done|].
  split; [intros id; by apply fresh_ready|]. intros id.
  pose proof (frame_payload (store_at (TrimSpace root)) (NewPayloadStore root) s id) as Hf.
  rewrite Hn in Hf. apply Hf. intros Hc v. apply fr_NewPayloadStore; [done|].
  apply store_root_clean, Hdd.
Qed.
End new.
