(* ===== verification/PayloadCodec.v ===== *)
(** * The manifest of a payload as JSON

    [json.Marshal] and [json.Unmarshal] of [payloadManifest] by its struct tags,
    and that they keep the promises of [ManifestLaws].  An attachment size that
    no [int64] holds, which the struct cannot contain, is refused. *)
From Stdlib Require Import Ascii.
From S2P Require Import Prelude.
From S2P Require Import GoStrings.
From S2P Require Import GoErrors.
From S2P Require Import GoEncoding.
From S2P Require Import GoNumbers.
From S2P Require Import GoJSON.
From S2P Require Import PayloadStore.
From S2P Require Import PayloadRefine.
#[local] Open Scope Z_scope.

(** ** Encoding *)

Definition field (name : string) (v : json) : list (bytes * json) := [(bs name, v)].

(** [omitempty] on strings and slices. *)
Definition omit_string (name s : string) : list (bytes * json) :=
  if decide (s = "") then [] else field name (JString (bs s)).
Definition omit_slice {A} (name : string) (f : A → json) (l : list A) : list (bytes * json) :=
  match l with [] => [] | _ => field name (JArray (f <$> l)) end.

Definition json_str (s : string) : json := JString (bs s).

Definition ref_json (r : payloadAttachmentRef) : json :=
  JObject (omit_string "filename" (ar_Filename r) ++ omit_string "contentType" (ar_ContentType r)
    ++ field "path" (json_str (ar_Path r)) ++ field "sizeBytes" (JNumber (bs (Itoa (ar_SizeBytes r))))
    ++ field "sha256" (json_str (ar_SHA256 r))).

Definition manifest_json (m : payloadManifest) : json :=
  JObject (omit_string "envelopeFrom" (pm_EnvelopeFrom m) ++ omit_string "headerFrom" (pm_HeaderFrom m)
    ++ omit_slice "replyTo" json_str (pm_ReplyTo m) ++ omit_slice "to" json_str (pm_To m)
    ++ omit_string "subject" (pm_Subject m) ++ omit_string "textBody" (pm_TextBody m)
    ++ omit_string "htmlBody" (pm_HTMLBody m) ++ omit_slice "attachments" ref_json (pm_Attachments m)).

Definition int64 (z : Z) : Prop := - 2 ^ 63 <= z < 2 ^ 63.

Definition json_manifest_Marshal (m : payloadManifest) : string + goerr :=
  if decide (Forall (λ r, int64 (ar_SizeBytes r)) (pm_Attachments m))
  then inl (sb (print (manifest_json m))) else inr (EText "size out of range").

(** ** Decoding *)

Definition ref_names : list string := ["filename"; "contentType"; "path"; "sizeBytes"; "sha256"].

Definition set_ref (name : string) (v : json) (r : payloadAttachmentRef)
    : decoded payloadAttachmentRef :=
  let '(MkRef f c p z h) := r in
  if decide (name = "filename") then let '(x, e) := decode_string v f in (MkRef x c p z h, e)
  else if decide (name = "contentType") then let '(x, e) := decode_string v c in (MkRef f x p z h, e)
  else if decide (name = "path") then let '(x, e) := decode_string v p in (MkRef f c x z h, e)
  else if decide (name = "sizeBytes") then let '(x, e) := decode_int64 v z in (MkRef f c p x h, e)
  else let '(x, e) := decode_string v h in (MkRef f c p z x, e).

Definition decode_ref : json → payloadAttachmentRef → decoded payloadAttachmentRef :=
  decode_struct ref_names set_ref.

(** The manifest while it is being decoded: slices keep their arrays. *)
Record manifest_state := MkMS {
  ms_EnvelopeFrom : string; ms_HeaderFrom : string;
  ms_ReplyTo : slice_of string; ms_To : slice_of string;
  ms_Subject : string; ms_TextBody : string; ms_HTMLBody : string;
  ms_Attachments : slice_of payloadAttachmentRef;
}.

Definition manifest_names : list string :=
  ["envelopeFrom"; "headerFrom"; "replyTo"; "to"; "subject"; "textBody"; "htmlBody"; "attachments"].

Definition set_manifest (name : string) (v : json) (m : manifest_state) : decoded manifest_state :=
  let '(MkMS a b c d e f g h) := m in
  if decide (name = "envelopeFrom") then
    let '(x, er) := decode_string v a in (MkMS x b c d e f g h, er)
  else if decide (name = "headerFrom") then
    let '(x, er) := decode_string v b in (MkMS a x c d e f g h, er)
  else if decide (name = "replyTo") then
    let '(x, er) := decode_slice decode_string "" v c in (MkMS a b x d e f g h, er)
  else if decide (name = "to") then
    let '(x, er) := decode_slice decode_string "" v d in (MkMS a b c x e f g h, er)
  else if decide (name = "subject") then
    let '(x, er) := decode_string v e in (MkMS a b c d x f g h, er)
  else if decide (name = "textBody") then
    let '(x, er) := decode_string v f in (MkMS a b c d e x g h, er)
  else if decide (name = "htmlBody") then
    let '(x, er) := decode_string v g in (MkMS a b c d e f x h, er)
  else
    let '(x, er) := decode_slice decode_ref (MkRef "" "" "" 0 "") v h in
    (MkMS a b c d e f g x, er).

Definition manifest_of_state (m : manifest_state) : payloadManifest :=
  MkManifest (ms_EnvelopeFrom m) (ms_HeaderFrom m) (ms_ReplyTo m).1 (ms_To m).1 (ms_Subject m)
    (ms_TextBody m) (ms_HTMLBody m) (ms_Attachments m).1.

Definition json_manifest_Unmarshal (data : string) : payloadManifest + goerr :=
  match Unmarshal (decode_struct manifest_names set_manifest)
          (MkMS "" "" ([], []) ([], []) "" "" "" ([], [])) data with
  | inl m => inl (manifest_of_state m)
  | inr e => inr e
  end.

Definition json_codec : ManifestCodec := {|
  manifest_Marshal := json_manifest_Marshal;
  manifest_Unmarshal := json_manifest_Unmarshal;
|}.

(** ** The laws *)

Lemma decode_members_app {A} names (set : string → json → A → decoded A) ms1 ms2 x y :
  decode_members names set ms1 x = (y, None) →
  decode_members names set (ms1 ++ ms2) x = decode_members names set ms2 y.
Proof.
  revert x. induction ms1 as [|[k v] ms1 IH]; intros x; cbn; [by intros [= ->]|].
  destruct (match match_key names k with Some n => set n v x | None => (x, None) end) as [z e].
  destruct (decode_members names set ms1 z) as [y' e'] eqn:Hd.
  intros [= <- He]. destruct e; [done|]. cbn in He. subst. rewrite (IH z Hd).
  by destruct (decode_members names set ms2 y').
Qed.

Definition normal_fields (ms : list (bytes * json)) : list (bytes * json) := normal_member <$> ms.

Lemma normal_str s : normal (json_str s) = json_str (ToValidUTF8 s).
Proof. unfold json_str, ToValidUTF8. cbn. by rewrite bs_sb. Qed.

Lemma decode_normal_str s old : decode_string (normal (json_str s)) old = (ToValidUTF8 s, None).
Proof. rewrite normal_str. cbn. by rewrite sb_bs. Qed.

(** One field: absent when empty, which is what decoding starts from. *)
Lemma decode_omit_string {A} names (set : string → json → A → decoded A) name s x y :
  match_key names (bs name) = Some name → valid_runes (length (bs name)) (bs name) = bs name →
  (s = "" → y = x) → set name (normal (json_str s)) x = (y, None) →
  decode_members names set (normal_fields (omit_string name s)) x = (y, None).
Proof.
  intros Hk Hv H0 Hs. unfold omit_string. case_decide as He; [by rewrite (H0 He)|].
  cbn -[normal]. rewrite Hv, Hk. fold (json_str s). by rewrite Hs.
Qed.

Lemma decode_elements_all {A B} (f : json → A → decoded A) (g : B → json) (h : B → A) zero vs :
  Forall (λ b, f (g b) zero = (h b, None)) vs →
  decode_elements f zero (g <$> vs) [] = (h <$> vs, [], None).
Proof. induction 1 as [|b vs Hb _ IH]; cbn; [done|]. by rewrite Hb, IH. Qed.

Lemma decode_omit_slice {A B C} names (set : string → json → A → decoded A) name (g : B → json)
    (f : json → C → decoded C) (h : B → C) zero l x y :
  match_key names (bs name) = Some name → valid_runes (length (bs name)) (bs name) = bs name →
  Forall (λ b, f (normal (g b)) zero = (h b, None)) l →
  (l = [] → y = x) →
  (∀ v, decode_slice f zero v ([], []) = ((h <$> l, []), None) → set name v x = (y, None)) →
  decode_members names set (normal_fields (omit_slice name g l)) x = (y, None).
Proof.
  intros Hk Hv Hf H0 Hs. destruct l as [|b l]; [by rewrite (H0 eq_refl)|].
  cbn -[normal]. rewrite Hv, Hk. rewrite Hs; [done|]. cbn -[decode_elements].
  pose proof (decode_elements_all f (normal ∘ g) h zero (b :: l) Hf) as Hd.
  rewrite (list_fmap_compose g normal) in Hd. cbn -[decode_elements] in Hd. by rewrite Hd.
Qed.

Lemma decode_field {A} names (set : string → json → A → decoded A) name v x y :
  match_key names (bs name) = Some name → valid_runes (length (bs name)) (bs name) = bs name →
  set name (normal v) x = (y, None) →
  decode_members names set (normal_fields (field name v)) x = (y, None).
Proof. intros Hk Hv Hs. cbn -[normal]. by rewrite Hv, Hk, Hs. Qed.

Ltac decode_str :=
  eapply decode_omit_string; [done|done| |cbn -[normal]; rewrite decode_normal_str; reflexivity];
  by intros ->.

Lemma decode_ref_json r :
  int64 (ar_SizeBytes r) →
  decode_ref (normal (ref_json r)) (MkRef "" "" "" 0 "") = (clean_ref r, None).
Proof.
  intros Hz. destruct r as [f c p z h]. cbn [ar_SizeBytes] in Hz.
  unfold decode_ref, ref_json. cbn [normal decode_struct ar_Filename ar_ContentType ar_Path ar_SizeBytes ar_SHA256].
  fold normal_member. change (normal_member <$> ?l) with (normal_fields l). unfold normal_fields.
  rewrite !fmap_app. fold normal_fields.
  erewrite decode_members_app; [|decode_str].
  erewrite decode_members_app; [|decode_str].
  erewrite decode_members_app.
  2:{ apply (decode_field _ _ "path"); [done|done|].
      cbn -[normal]. rewrite decode_normal_str. reflexivity. }
  erewrite decode_members_app.
  2:{ apply (decode_field _ _ "sizeBytes"); [done|done|].
      cbn -[ParseInt64 bs]. destruct (ParseInt64_Itoa z Hz) as [_ ->]. reflexivity. }
  apply (decode_field _ _ "sha256" (json_str h)); [done|done|].
  cbn -[normal]. by rewrite decode_normal_str.
Qed.

Lemma decode_manifest_json m :
  Forall (λ r, int64 (ar_SizeBytes r)) (pm_Attachments m) →
  ∃ ms, decode_struct manifest_names set_manifest (normal (manifest_json m))
          (MkMS "" "" ([], []) ([], []) "" "" "" ([], [])) = (ms, None) ∧
        manifest_of_state ms = clean_manifest m.
Proof.
  intros Hz. destruct m as [a b c d e f g h]. cbn [pm_Attachments] in Hz.
  exists (MkMS (ToValidUTF8 a) (ToValidUTF8 b) (ToValidUTF8 <$> c, []) (ToValidUTF8 <$> d, [])
    (ToValidUTF8 e) (ToValidUTF8 f) (ToValidUTF8 g) (clean_ref <$> h, [])).
  split; [|done]. unfold manifest_json. cbn [normal decode_struct pm_EnvelopeFrom pm_HeaderFrom
    pm_ReplyTo pm_To pm_Subject pm_TextBody pm_HTMLBody pm_Attachments].
  fold normal_member. change (normal_member <$> ?l) with (normal_fields l). unfold normal_fields.
  rewrite !fmap_app. fold normal_fields.
  assert (Hstr : ∀ l, Forall (λ s, decode_string (normal (json_str s)) "" = (ToValidUTF8 s, None)) l).
  { intros l. apply Forall_forall. intros s _. apply decode_normal_str. }
  erewrite decode_members_app; [|decode_str].
  erewrite decode_members_app; [|decode_str].
  erewrite decode_members_app.
  2:{ eapply decode_omit_slice; [done|done|apply (Hstr c)| |]; cycle 1.
      - intros v Hv. unfold set_manifest. rewrite Hv. cbn -[decode_string]. reflexivity.
      - by intros ->. }
  erewrite decode_members_app.
  2:{ eapply decode_omit_slice; [done|done|apply (Hstr d)| |]; cycle 1.
      - intros v Hv. unfold set_manifest. rewrite Hv. cbn -[decode_string]. reflexivity.
      - by intros ->. }
  erewrite decode_members_app; [|decode_str].
  erewrite decode_members_app; [|decode_str].
  erewrite decode_members_app; [|decode_str].
  eapply decode_omit_slice; [done|done| | |].
  - eapply Forall_impl; [exact Hz|]. apply decode_ref_json.
  - by intros ->.
  - intros v Hv. cbn -[decode_slice]. rewrite Hv. reflexivity.
Qed.

Lemma omit_string_facts name s :
  Forall (λ f, decimals f.2) (omit_string name s) ∧
  Forall (λ f, nesting f.2 <= 2)%nat (omit_string name s).
Proof. unfold omit_string. case_decide; repeat constructor. Qed.

Lemma ref_facts r : int64 (ar_SizeBytes r) → decimals (ref_json r) ∧ (nesting (ref_json r) <= 1)%nat.
Proof.
  intros Hz. destruct (ParseInt64_Itoa _ Hz) as [Hi _]. unfold ref_json, omit_string.
  repeat case_decide; cbn -[bs integral]; (split; [tauto|lia]).
Qed.

Lemma omit_slice_facts {A} name (g : A → json) l :
  Forall (λ x, decimals (g x) ∧ (nesting (g x) <= 1)%nat) l →
  Forall (λ f, decimals f.2) (omit_slice name g l) ∧
  Forall (λ f, nesting f.2 <= 2)%nat (omit_slice name g l).
Proof.
  intros Hl. destruct l as [|x l]; [done|].
  split; (constructor; [|constructor]).
  - change (foldr and True (decimals <$> (g <$> x :: l))). apply (fold_and decimals (g <$> x :: l)), Forall_fmap.
    eapply Forall_impl; [exact Hl|]. by intros ? [? _].
  - change (S (foldr Nat.max O (nesting <$> (g <$> x :: l))) <= 2)%nat.
    enough (foldr Nat.max O (nesting <$> (g <$> x :: l)) <= 1)%nat by lia.
    apply fold_max_le. rewrite <- list_fmap_compose. apply Forall_fmap.
    eapply Forall_impl; [exact Hl|]. by intros ? [_ ?].
Qed.

Lemma manifest_facts m :
  Forall (λ r, int64 (ar_SizeBytes r)) (pm_Attachments m) →
  decimals (manifest_json m) ∧ (nesting (manifest_json m) <= 3)%nat.
Proof.
  intros Hz.
  assert (Hs : ∀ l, Forall (λ s, decimals (json_str s) ∧ (nesting (json_str s) <= 1)%nat) l).
  { intros l. apply Forall_forall. intros s _. split; [done|cbn; lia]. }
  assert (Hr : Forall (λ r, decimals (ref_json r) ∧ (nesting (ref_json r) <= 1)%nat) (pm_Attachments m)).
  { eapply Forall_impl; [exact Hz|]. apply ref_facts. }
  unfold manifest_json. set (l := omit_string "envelopeFrom" _ ++ _).
  assert (Hl : Forall (λ f, decimals f.2) l ∧ Forall (λ f, nesting f.2 <= 2)%nat l).
  { unfold l. rewrite !Forall_app.
    repeat match goal with
    | |- context [omit_string ?n ?s] => destruct (omit_string_facts n s) as [??];
        generalize dependent (omit_string n s); intros
    end.
    destruct (omit_slice_facts "replyTo" json_str (pm_ReplyTo m) (Hs _)).
    destruct (omit_slice_facts "to" json_str (pm_To m) (Hs _)).
    destruct (omit_slice_facts "attachments" ref_json (pm_Attachments m) Hr). tauto. }
  destruct Hl as [H1 H2]. split.
  - change (foldr and True ((λ f : bytes * json, decimals f.2) <$> l)).
    by apply (fold_and (λ f : bytes * json, decimals f.2)).
  - change (S (foldr Nat.max O ((λ f : bytes * json, nesting f.2) <$> l)) <= 3)%nat. enough (foldr Nat.max O ((λ f : bytes * json, nesting f.2) <$> l) <= 2)%nat by lia.
    apply fold_max_le. by apply Forall_fmap.
Qed.

(** Decoding reports type errors only. *)
Definition type_errors {A} (f : json → A → decoded A) : Prop :=
  ∀ v x, (f v x).2 = None ∨ (f v x).2 = type_error.

Lemma te_string : type_errors decode_string.
Proof. intros [] x; cbn; auto. Qed.
Lemma te_int64 : type_errors decode_int64.
Proof. intros [] x; cbn -[ParseInt64]; auto. case_match; auto. Qed.

Lemma te_slice {A} (f : json → A → decoded A) zero : type_errors f → type_errors (decode_slice f zero).
Proof.
  intros Hf. assert (He : ∀ vs old, (decode_elements f zero vs old).2 = None ∨
    (decode_elements f zero vs old).2 = type_error).
  { induction vs as [|v vs IH]; intros old; cbn; [auto|].
    pose proof (Hf v (default zero (head old))) as Hv. destruct (f v _) as [x e].
    specialize (IH (tail old)). destruct (decode_elements f zero vs (tail old)) as [[xs h] e'].
    cbn in *. destruct Hv as [->| ->]; cbn; auto. }
  intros [| | | |[|v vs]|] x; cbn -[decode_elements]; auto.
  specialize (He (v :: vs) (x.1 ++ x.2)). by destruct (decode_elements _ _ _ _) as [[xs h] e].
Qed.

Lemma te_struct {A} names (set : string → json → A → decoded A) :
  (∀ n, type_errors (set n)) → type_errors (decode_struct names set).
Proof.
  intros Hs [| | | | |ms] x; cbn; auto. revert x.
  induction ms as [|[k v] ms IH]; intros x; cbn; [auto|].
  assert (Hv : let r := match match_key names k with Some n => set n v x | None => (x, None) end in
    r.2 = None ∨ r.2 = type_error) by (cbn; destruct (match_key names k); [apply Hs|auto]).
  cbn in Hv. destruct (match match_key names k with Some n => _ | None => _ end) as [y e].
  specialize (IH y). destruct (decode_members names set ms y) as [z e']. cbn in *.
  destruct Hv as [->| ->]; cbn; auto.
Qed.

Ltac te_field H :=
  match goal with |- context [let '(_, _) := ?f ?v ?x in _] =>
    pose proof (H v x); destruct (f v x); done end.

Lemma te_ref n : type_errors (set_ref n).
Proof.
  intros v [f c p z h]. unfold set_ref. pose proof te_string as Hs. pose proof te_int64 as Hi.
  repeat case_decide; first [te_field Hs|te_field Hi].
Qed.

Lemma te_manifest n : type_errors (set_manifest n).
Proof.
  intros v [a b c d e f g h]. unfold set_manifest. pose proof te_string as Hs.
  pose proof (te_slice _ "" Hs) as Hl.
  pose proof (te_slice _ (MkRef "" "" "" 0 "") (te_struct ref_names _ te_ref)) as Hr.
  fold decode_ref in Hr. repeat case_decide; first [te_field Hs|te_field Hl|te_field Hr].
Qed.

#[export] Instance json_codec_laws : @ManifestLaws json_codec.
Proof.
  split; cbn [manifest_Marshal manifest_Unmarshal json_codec].
  - intros m d. unfold json_manifest_Marshal. case_decide as Hz; [|done]. intros H.
    assert (d = sb (print (manifest_json m))) as -> by congruence. clear H.
    destruct (manifest_facts m Hz) as [Hd Hn].
    unfold json_manifest_Unmarshal, Unmarshal. rewrite bs_sb, parse_print; [|done|].
    + destruct (decode_manifest_json m Hz) as (ms & -> & ->). done.
    + unfold maxNestingDepth. lia.
  - intros d e. unfold json_manifest_Unmarshal, Unmarshal.
    destruct (parse (bs d)) as [v|]; [|by intros [= <-]].
    pose proof (te_struct manifest_names _ te_manifest v
      (MkMS "" "" ([], []) ([], []) "" "" "" ([], []))) as He.
    destruct (decode_struct _ _ v _) as [ms [e'|]]; cbn in He |- *; [|done].
    intros [= <-]. by destruct He as [?|[= ->]].
Qed.
