(* ===== verification/DiskSpool.v ===== *)
(** * The spool on disk

    The two stores together: what [SpoolStore.Enqueue] promises when payloads
    are directories on disk and manifests are JSON. *)
From S2P Require Import Prelude.
From S2P Require Import GoStrings.
From S2P Require Import GoTime.
From S2P Require Import GoErrors.
From S2P Require Import GoEncoding.
From S2P Require Import Email.
From S2P Require Import SpoolCommon.
From S2P Require Import Records.
From S2P Require Import RecordsProps.
From S2P Require Import SpoolStore.
From S2P Require Import SpoolStoreProps.
From S2P Require Import PayloadFS.
From S2P Require Import PayloadTree.
From S2P Require Import PayloadStore.
From S2P Require Import PayloadProps.
From S2P Require Import PayloadRefine.
From S2P Require Import PayloadCodec.
#[local] Open Scope Z_scope.
#[local] Open Scope relay_scope.

#[local] Existing Instance json_codec.

Section disk.
Context `{U : UnicodeTables} `{Env : RecordEnv} `{Rnd : IDSource} `{FS : FSEnv} {FL : FSLaws}.
Context (ps : PayloadStore).

#[local] Existing Instance disk_payloads.

(** The spool with payloads on disk. *)
Definition disk_spool : Type := @spool (disk_payloads ps).
Definition tree (s : disk_spool) : node := p_tree (sp_payloads s : pst).

(** When [Enqueue] reports success the message survives a crash: its record is
    committed in state [queued], and the payload directory, synced, has one
    entry more, a directory of synced files from which the message is read
    back.  No other payload has changed. *)
Lemma Enqueue_survives_crash (ctx : option goerr) (msg : Message) (s s' : disk_spool)
    (rec : SpoolRecord) :
  Enqueue ctx msg s = (s', inl rec) →
  canonical_id (rec_ID rec) ∧
  durable (sp_records s') = <[rec_ID rec := rowOf rec]> (durable (sp_records s)) ∧
  r_state (rowOf rec) = StateQueued ∧
  ∃ pes b n,
    fs_get (payloads_at ps) (tree s) = Some (Dir pes b) ∧ pes !! rec_ID rec = None ∧
    fs_get (payloads_at ps) (tree s') = Some (Dir (<[rec_ID rec := n]> pes) true) ∧
    settled n ∧ read_payload n = Some (stored_message msg) ∧
    ∀ id, id ≠ rec_ID rec → stored_payload ps (tree s') id = stored_payload ps (tree s) id.
Proof.
  intros (_ & Hrec & Hc & _ & Ht & _ & Hs)%Enqueue_run.
  split; [exact Hc|]. split; [exact Ht|]. split; [by rewrite Hrec|].
  pose proof (Save_durable ps (rec_ID rec) msg _ _ Hs) as Hd.
  rewrite (canonical_id_trim _ Hc) in Hd.
  destruct Hd as (pes & b & n & Hp & Hid & Hp' & Hset & Hread).
  exists pes, b, n. do 5 (split; [done|]). intros id Hne. unfold tree.
  pose proof (frame_payload ps (ps_Save ps (rec_ID rec) msg) (sp_payloads s : pst) id) as Hf.
  change (ps_Save ps (rec_ID rec) msg (sp_payloads s)) with
    (Save (rec_ID rec) msg (sp_payloads s)) in Hf.
  rewrite Hs in Hf. apply Hf. intros Hcan v. apply fr_Save; [done|].
  by rewrite (canonical_id_trim _ Hc).
Qed.
End disk.

(** The manifest of a message is encoded and decoded without loss: what is
    written decodes to the manifest with its strings made valid UTF-8, and to
    the manifest itself when they are valid already. *)
Lemma manifest_round_trip (m : payloadManifest) (d : string) :
  json_manifest_Marshal m = inl d →
  json_manifest_Unmarshal d = inl (clean_manifest m) ∧
  (clean_manifest m = m → json_manifest_Unmarshal d = inl m).
Proof.
  intros Hm. pose proof (codec_round_trip (Codec := json_codec) m d Hm) as H.
  split; [exact H|]. intros Hc. rewrite <- Hc. exact H.
Qed.
