(* ===== verification/SpoolOpen.v ===== *)
(** * Opening the spool: [newSQLiteRecordStore], [NewSpoolStore], [Close]

    The two stores of one spool directory: the payload tree and the database
    file below the same root.  [NewSpoolStore] makes the root, opens and checks
    the database, and prepares the payload directories. *)
From S2P Require Import Prelude.
From S2P Require Import GoStrings.
From S2P Require Import GoTime.
From S2P Require Import GoErrors.
From S2P Require Import Email.
From S2P Require Import SpoolCommon.
From S2P Require Import Records.
From S2P Require Import Schema.
From S2P Require Import RecordsProps.
From S2P Require Import SchemaProps.
From S2P Require Import SpoolStore.
From S2P Require Import PayloadFS.
From S2P Require Import PayloadTree.
From S2P Require Import PayloadHoare.
From S2P Require Import PayloadStore.
From S2P Require Import PayloadProps.
From S2P Require Import PayloadRefine.
From S2P Require Import PayloadInit.
From S2P Require Import PayloadCodec.
From S2P Require Import DiskSpool.
#[local] Open Scope Z_scope.
#[local] Open Scope relay_scope.

#[local] Existing Instance json_codec.

Section opening.
Context `{U : UnicodeTables} `{Env : RecordEnv} `{FS : FSEnv}.
Context (order : list (string * string) → list (string * string)).

(** The file system with the payload directories, and the database file. *)
Record volume := MkVolume { v_fs : pst; v_db : database dbfile }.

Abbreviation VM := (io goerr volume).

Definition on_fs {A} (m : PM A) : VM A := λ v,
  match m (v_fs v) with (p, r) => (MkVolume p (v_db v), r) end.
Definition on_db {A} (m : io goerr (database dbfile) A) : VM A := λ v,
  match m (v_db v) with (d, r) => (MkVolume (v_fs v) d, r) end.

(** The handle keeps its root; the database is the volume's. *)
Record sqliteRecordStore := MkRecordStore { rs_root : string }.

(** After [sql.Open] the pool is limited to one connection. *)
Definition newSQLiteRecordStore (root : string) : VM sqliteRecordStore :=
  let root := TrimSpace root in
  if decide (root = "") then fail (EText "spool root cannot be empty")
  else
    let! r := on_fs (wrapf ("ensure spool root " +:+ root) (ensureDirectoryPathNoFollow root)) in
    let cleanRoot := r.2 in
    finally
      (on_db (wrapped "open sqlite database" drv) ;;!
       try (on_db (schema_init cleanRoot order)) (λ r,
         match r with
         | inr e => ignore (on_db db_Close) ;;! fail e
         | inl _ => ret (MkRecordStore cleanRoot)
         end))
      (on_fs (unixClose r.1)).

(** A nil receiver is [None]. *)
Definition close (s : option sqliteRecordStore) : VM unit :=
  match s with
  | None => ret tt
  | Some _ => on_db db_Close
  end.

(** The two parts of a [SpoolStore]. *)
Record SpoolHandle := MkSpoolHandle {
  ss_records : option sqliteRecordStore;
  ss_payloads : PayloadStore;
}.

Definition NewSpoolStore (root : string) : VM SpoolHandle :=
  let! records := newSQLiteRecordStore root in
  try (on_fs (NewPayloadStore (rs_root records))) (λ r,
    match r with
    | inr e => ignore (close (Some records)) ;;! fail e
    | inl payloads => ret (MkSpoolHandle (Some records) payloads)
    end).

(** A nil receiver, or one without a record store, is [None]. *)
Definition SpoolStore_Close (s : option SpoolHandle) : VM unit :=
  match s ≫= ss_records with
  | None => ret tt
  | Some records => close (Some records)
  end.

(** The state the operations of the store work on. *)
Definition spool_of_volume (ps : PayloadStore) (v : volume) : disk_spool ps :=
  @MkSpool (disk_payloads ps)
    (MkDB (f_rows (db_cur (v_db v))) (f_rows <$> db_txn (v_db v)) (db_conn (v_db v))
       (db_calls (v_db v)) (db_ticks (v_db v)))
    (v_fs v) 0.

(** ** What opening does *)

Hypothesis order_perm : ∀ l, order l ≡ₚ l.

(** The database after any call, successful or not. *)
Definition db_opened (v v' : volume) : Prop :=
  db_txn (v_db v) = None → opened (durable (v_db v)) (durable (v_db v')).

Lemma on_fs_db {A} (m : PM A) v : v_db (on_fs m v).1 = v_db v.
Proof. unfold on_fs. by destruct (m (v_fs v)). Qed.
Lemma on_db_fs {A} (m : io goerr (database dbfile) A) v : v_fs (on_db m v).1 = v_fs v.
Proof. unfold on_db. by destruct (m (v_db v)). Qed.
Lemma on_db_db {A} (m : io goerr (database dbfile) A) v : v_db (on_db m v).1 = (m (v_db v)).1.
Proof. unfold on_db. by destruct (m (v_db v)). Qed.

Lemma db_Close_durable s : durable (db_Close s).1 = durable s.
Proof. unfold db_Close. cbn. rewrite <- (undo_durable s). done. Qed.

(** Opening the database of a root that is there. *)
Definition open_database (cleanRoot : string) : VM sqliteRecordStore :=
  on_db (wrapped "open sqlite database" drv) ;;!
  try (on_db (schema_init cleanRoot order)) (λ r,
    match r with
    | inr e => ignore (on_db db_Close) ;;! fail e
    | inl _ => ret (MkRecordStore cleanRoot)
    end).

Lemma open_database_run cleanRoot v :
  let '(v', r) := open_database cleanRoot v in
  v_fs v' = v_fs v ∧
  (∃ s1, same_db (v_db v) s1 ∧
    (durable (v_db v') = durable s1 ∨
     durable (v_db v') = durable (schema_init cleanRoot order s1).1) ∧
    ∀ x, r = inl x → x = MkRecordStore cleanRoot ∧
                     schema_init cleanRoot order s1 = (v_db v', inl tt)).
Proof.
  destruct (open_database cleanRoot v) as [v' r] eqn:Hr.
  unfold open_database, bind, try, ignore, on_db, wrapped, drv in Hr.
  unfold try in Hr. cbn in Hr.
  destruct (drv_fault (db_calls (v_db v))); cbn in Hr.
  - injection Hr as <- <-. split; [done|]. exists (v_db v). split; [reflexivity|]. split; [by left|].
    done.
  - set (s1 := MkDB _ _ _ _ _) in Hr. assert (Hs1 : same_db (v_db v) s1) by done.
    destruct (schema_init cleanRoot order s1) as [s2 [[]|e]] eqn:Hi; cbn in Hr.
    + injection Hr as <- <-. split; [done|]. exists s1. rewrite Hi. split; [done|].
      split; [by right|]. by intros x [= <-].
    + injection Hr as <- <-. split; [done|]. exists s1. rewrite Hi. split; [done|].
      split; [|done]. right. cbn [v_db fst]. rewrite <- (undo_durable s2). done.
Qed.

Lemma newSQLiteRecordStore_db root v : db_opened v (newSQLiteRecordStore root v).1.
Proof.
  intros Hn. unfold newSQLiteRecordStore. case_decide; [by left|]. fold open_database.
  unfold bind at 1. destruct (on_fs _ v) as [v1 [r|e]] eqn:H1;
    apply (f_equal fst) in H1 as Hv1; apply (f_equal v_db) in Hv1; rewrite on_fs_db in Hv1;
    cbn in Hv1; [|left; cbn; by rewrite Hv1].
  unfold finally. fold (open_database r.2). rewrite Hv1 in *.
  pose proof (open_database_run r.2 v1) as Ho.
  destruct (open_database r.2 v1) as [v2 r2]. cbn [fst]. rewrite on_fs_db.
  destruct Ho as (_ & s1 & Hs & Hd & _). rewrite <- (same_durable _ _ Hs).
  destruct Hd as [->| ->]; [by left|]. apply schema_init_atomic. by destruct Hs as (_ & -> & _).
Qed.

(** A success: the schema has been checked, and the root made without
    touching a payload. *)
Lemma newSQLiteRecordStore_ok root v v' rs :
  let r := TrimSpace root in
  newSQLiteRecordStore root v = (v', inl rs) →
  (∃ s1, same_db (v_db v) s1 ∧
         schema_init (filepath_Clean r) order s1 = (v_db v', inl tt)) ∧
  rs = MkRecordStore (filepath_Clean r) ∧ ".." ∉ walked (filepath_Clean r) ∧
  ∀ id, stored_payload (store_at r) (p_tree (v_fs v')) id =
        stored_payload (store_at r) (p_tree (v_fs v)) id.
Proof.
  intros r. unfold newSQLiteRecordStore. fold r. case_decide; [done|]. intros Hn.
  apply bind_ok in Hn as ([fd c] & v1 & H1 & Hf). unfold on_fs in H1.
  destruct (wrapf _ _ (v_fs v)) as [p o] eqn:Hw. injection H1 as <- ->.
  assert (He : ensureDirectoryPathNoFollow r (v_fs v) = (p, inl (fd, c))).
  { unfold wrapf, try in Hw. by destruct (ensureDirectoryPathNoFollow r (v_fs v)) as [? [?|?]];
      cbn in Hw; simplify_eq. }
  pose proof (h_ensure_root (p_tree (v_fs v)) r (v_fs v) eq_refl) as Hh. rewrite He in Hh.
  destruct Hh as ([= -> ->] & _ & Hdd). cbn [fst snd] in Hf.
  unfold finally in Hf. fold (open_database (filepath_Clean r)) in Hf.
  pose proof (open_database_run (filepath_Clean r) (MkVolume p (v_db v))) as Ho.
  destruct (open_database _ _) as [v2 o2]. injection Hf as <- ->.
  destruct Ho as (Hfs & s1 & Hs & _ & Hok). destruct (Hok rs eq_refl) as [-> Hi].
  split; [exists s1; by rewrite on_fs_db|]. split; [done|]. split; [done|]. intros id.
  assert (p_tree (v_fs (on_fs (unixClose (store_root (store_at r))) v2).1) = p_tree p) as ->.
  { pose proof (reads_tree _ (v_fs v2) (reads_unixClose (store_root (store_at r)))) as Ht.
    unfold on_fs. destruct (unixClose _ (v_fs v2)). cbn in *. by rewrite Ht, Hfs. }
  pose proof (frame_payload (store_at r) (ensureDirectoryPathNoFollow r) (v_fs v) id) as Hfr.
  rewrite He in Hfr. apply Hfr. intros Hc w. eapply st_conseq.
  - apply fr_ensure_root. apply store_root_clean, Hdd.
  - done.
Qed.

Lemma NewSpoolStore_db root v : db_opened v (NewSpoolStore root v).1.
Proof.
  intros Hn. pose proof (newSQLiteRecordStore_db root v Hn) as H1. unfold NewSpoolStore, bind.
  destruct (newSQLiteRecordStore root v) as [v1 [rs|e]]; cbn [fst] in *; [|done].
  unfold try. destruct (on_fs _ v1) as [v2 o] eqn:H2.
  apply (f_equal (λ x, v_db x.1)) in H2. rewrite on_fs_db in H2. cbn in H2.
  destruct o as [ps|e]; [cbn; by rewrite <- H2|].
  change (opened (durable (v_db v)) (durable (v_db (on_db db_Close v2).1))).
  by rewrite on_db_db, db_Close_durable, <- H2.
Qed.
End opening.

(** What every run of [NewSpoolStore] does. *)
Lemma NewSpoolStore_run `{U : UnicodeTables} `{Env : RecordEnv} `{FS : FSEnv} {FL : FSLaws}
    (order : list (string * string) → list (string * string)) (root : string)
    (v v' : volume) (r : SpoolHandle + goerr) :
  (∀ l, order l ≡ₚ l) → db_txn (v_db v) = None →
  NewSpoolStore order root v = (v', r) →
  let f := durable (v_db v) in
  let f' := durable (v_db v') in
  opened f f' ∧
  (refused f → f' = f ∧ ∃ e, r = inr e) ∧
  ∀ store, r = inl store →
    accepted f f' ∧ f_version f' = spoolSchemaVersion ∧
    (f_version f = 0 → unclaimed f → schema_v1 f' ∧ f_rows f' = ∅) ∧
    let c := filepath_Clean (TrimSpace root) in
    TrimSpace c = c →
    let ps := ss_payloads store in
    ps = store_at c ∧ ss_records store = Some (MkRecordStore c) ∧
    durable (sp_records (spool_of_volume ps v')) = f_rows f' ∧
    fresh_store ps (p_tree (v_fs v')) ∧
    (∀ id, fs_get (payload_at ps id) (p_tree (v_fs v')) = None →
           save_ready ps (p_tree (v_fs v')) id) ∧
    ∀ id, stored_payload ps (p_tree (v_fs v')) id = stored_payload ps (p_tree (v_fs v)) id.
Proof.
  intros Hp Hn Hr f f'.
  assert (Hop : opened f f').
  { pose proof (NewSpoolStore_db order root v Hn) as H. by rewrite Hr in H. }
  assert (Hsucc : ∀ store, r = inl store → ∃ v1 s1, newSQLiteRecordStore order root v =
      (v1, inl (MkRecordStore (filepath_Clean (TrimSpace root)))) ∧ durable (v_db v1) = f' ∧
      db_txn (v_db v1) = None ∧ v_db v1 = v_db v' ∧ accepted f f' ∧
      schema_init (filepath_Clean (TrimSpace root)) order s1 = (v_db v1, inl tt)).
  { intros store ->. unfold NewSpoolStore in Hr.
    apply bind_ok in Hr as (rs & v1 & H1 & H2). pose proof H1 as H1'.
    apply newSQLiteRecordStore_ok in H1 as ((s1 & Hs & Hi) & -> & _).
    assert (Hdb : v_db v1 = v_db v').
    { unfold try, on_fs in H2. destruct (NewPayloadStore _ (v_fs v1)) as [p [ps'|e]]; cbn in H2;
        [by injection H2 as <- _|done]. }
    destruct (schema_init_accepts _ order Hp s1 (v_db v1) Hi) as [Hn1 Hacc].
    { by destruct Hs as (_ & -> & _). }
    rewrite (same_durable _ _ Hs), Hdb in Hacc.
    exists v1, s1. rewrite Hdb in *. done. }
  split; [done|]. split.
  { intros Href. split; [by eapply opened_refused|]. destruct r as [store|e]; [|by eexists].
    destruct (Hsucc store eq_refl) as (? & ? & _ & _ & _ & _ & Hacc & _).
    by destruct (accepted_not_refused _ _ Hacc). }
  intros store ->. destruct (Hsucc store eq_refl) as (v1 & s1 & H1 & Hd1 & Hn1 & Hdb & Hacc & _).
  split; [done|]. split.
  { destruct Hacc as [(? & _ & ->)|(_ & _ & Hb)]; [done|by eapply bootstrap_version]. }
  split.
  { intros Hv0 Hu. destruct (accepted_v1 _ _ Hacc (λ _, Hu)) as (_ & Hs1 & Heq).
    split; [done|]. rewrite Heq, Hv0. done. }
  intros c Hc ps. unfold NewSpoolStore, bind in Hr. rewrite H1 in Hr.
  apply newSQLiteRecordStore_ok in H1 as (_ & _ & Hdd & Hpay). fold c in Hr, Hdd.
  cbn [rs_root] in Hr. unfold try, on_fs in Hr.
  destruct (NewPayloadStore c (v_fs v1)) as [p [ps'|e]] eqn:Hps; cbn in Hr; [|done].
  injection Hr as <- <-. apply NewPayloadStore_ok in Hps as (Hat & Hfresh & Hready & Hkeep).
  rewrite Hc in Hat. cbn [v_db v_fs ss_payloads] in *. subst ps. cbn [ss_payloads].
  assert (store_at c = store_at (TrimSpace root)) as Heq.
  { unfold store_at. unfold c. by rewrite (filepath_Clean_idem _ (walked_dotdot _ Hdd)). }
  split; [done|]. split; [done|]. split.
  { unfold spool_of_volume, f', durable. cbn [sp_records v_db db_cur db_txn]. by rewrite Hn1. }
  split; [done|]. split; [done|]. intros id. rewrite Hkeep, Hat, Heq. apply Hpay.
Qed.

(** C14. Opening the spool.  Whatever fails, the database file is left as it was
    or, if it had version 0 and no [records] table, with the schema statements
    run on it.  A [records] table without a version, a version 1 whose schema is
    not that of version 1, and any other version are refused and left alone.  On
    success the file has version 1 and is either unchanged, with a schema that
    passes the validation, or the result of the schema statements, and then, if
    no object used the store's names before, it has the schema and no rows; the
    records of the store are the rows of that file.  For a root whose clean form
    does not begin or end in blanks the payload directories are ready for every
    unused identifier, and every payload that could be read before can be read
    now. *)
Theorem NewSpoolStore_ok `{U : UnicodeTables} `{Env : RecordEnv} `{FS : FSEnv} {FL : FSLaws}
    (order : list (string * string) → list (string * string)) (root : string)
    (v v' : volume) (r : SpoolHandle + goerr) :
  (∀ l, order l ≡ₚ l) → db_txn (v_db v) = None →
  NewSpoolStore order root v = (v', r) →
  let f := durable (v_db v) in
  let f' := durable (v_db v') in
  opened f f' ∧
  (refused f → f' = f ∧ ∃ e, r = inr e) ∧
  ∀ store, r = inl store →
    accepted f f' ∧ f_version f' = spoolSchemaVersion ∧
    (f_version f = 0 → unclaimed f → schema_v1 f' ∧ f_rows f' = ∅) ∧
    let c := filepath_Clean (TrimSpace root) in
    TrimSpace c = c →
    let ps := ss_payloads store in
    ps = store_at c ∧ ss_records store = Some (MkRecordStore c) ∧
    durable (sp_records (spool_of_volume ps v')) = f_rows f' ∧
    fresh_store ps (p_tree (v_fs v')) ∧
    (∀ id, fs_get (payload_at ps id) (p_tree (v_fs v')) = None →
           save_ready ps (p_tree (v_fs v')) id) ∧
    ∀ id, stored_payload ps (p_tree (v_fs v')) id = stored_payload ps (p_tree (v_fs v)) id.
Proof. apply NewSpoolStore_run. Qed.
