(* ===== verification/Worker.v ===== *)
(** * internal/spool/worker.go

    The background delivery loop: one due submitted record is polled, then one
    due queued record is submitted, and what the provider said is persisted.
    The worker uses the spool through [Store] and the outside world (provider,
    clock, context, timer) through oracles indexed by the number of uses. *)
From S2P Require Import Prelude.
From S2P Require Import GoStrings.
From S2P Require Import GoTime.
From S2P Require Import GoErrors.
From S2P Require Import Email.
From S2P Require Import SpoolCommon.
From S2P Require Import Records.
From S2P Require Import SpoolStore.
#[local] Open Scope Z_scope.
#[local] Open Scope relay_scope.

Definition DefaultPollInterval : duration := Second.
Definition DefaultFinalizeTimeout : duration := 5 * Second.
Definition DefaultSubmittedTimeout : duration := 24 * Hour.

Record WorkerConfig := MkWorkerConfig {
  SubmitTimeout : duration;
  FinalizeTimeout : duration;
  PollInterval : duration;
  RetryAttempts : Z;
  RetryBaseDelay : duration;
  SubmittedTimeout : duration;
  ProviderName : string;
}.

(** [store] and [provider] say whether the interface values are non-nil. *)
Definition NewWorker (store provider : bool) (cfg : WorkerConfig) : WorkerConfig + goerr :=
  if negb store then inr (EText "spool worker store cannot be nil")
  else if negb provider then inr (EText "spool worker provider cannot be nil")
  else if SubmitTimeout cfg <=? 0 then inr (EText "spool worker submit timeout must be > 0")
  else if FinalizeTimeout cfg <=? 0 then inr (EText "spool worker finalize timeout must be > 0")
  else if PollInterval cfg <=? 0 then inr (EText "spool worker poll interval must be > 0")
  else if RetryAttempts cfg <? 1 then inr (EText "spool worker retry attempts must be >= 1")
  else if RetryBaseDelay cfg <=? 0 then inr (EText "spool worker retry base delay must be > 0")
  else if SubmittedTimeout cfg <=? 0 then inr (EText "spool worker submitted timeout must be > 0")
  else inl cfg.

(** ** Decisions *)

Definition submitRetryAllowed (cfg : WorkerConfig) (rec : SpoolRecord) : bool :=
  rec_Attempt rec <? RetryAttempts cfg.

(** [w.cfg.RetryBaseDelay * time.Duration(1<<shift)], in 64 bits. *)
Definition submitRetryDelay (cfg : WorkerConfig) (currentAttempt : Z) : duration :=
  let shift := currentAttempt in
  let shift := if shift <? 0 then 0 else shift in
  let shift := if 30 <? shift then 30 else shift in
  wrap64 (RetryBaseDelay cfg * wrap64 (Z.shiftl 1 shift)).

Definition observabilityRetryStageSubmit : string := "submit".
Definition observabilityRetryStagePoll : string := "poll".
Definition observabilityOutcomePermanentError : string := "permanent_error".

Definition submissionOutcomeFromError (e : goerr) : string :=
  match AsDeliveryError e with
  | Some d => if de_temporary d then "temporary_error" else observabilityOutcomePermanentError
  | None =>
      if errors_Is is_Canceled e || errors_Is is_DeadlineExceeded e then "temporary_error"
      else observabilityOutcomePermanentError
  end.

Definition pollOutcomeFromError (e : goerr) : string := submissionOutcomeFromError e.

Definition lastErrorFromSubmissionFailure (failure : option SubmissionFailure) (now : time)
    (fallback : string) : LastError :=
  match failure with
  | None => MkLastError fallback spoolProviderName false now
  | Some f =>
      let message := sf_Message f in
      let message := if decide (message = "") then fallback else message in
      MkLastError message spoolProviderName (sf_Temporary f) now
  end.

Definition submissionFailureMessage (state : SubmissionState) : string :=
  if decide (state = SubmissionStateCanceled) then "provider canceled submitted operation"
  else "provider failed submitted operation".

(** ** The worker *)

(** What the worker shows the outside: provider calls and metric updates. *)
Inductive event :=
  | CallSubmit (msg : Message) (id : string)
  | CallPoll (operationID : string)
  | ObserveSubmission (provider outcome : string)
  | ObservePoll (provider outcome : string)
  | IncRetry (stage : string).

(** The n-th look at [ctx.Err()], the n-th [time.Now], the n-th sleep. *)
Class WorkerEnv := {
  ctx_Err : nat → option goerr;
  time_Now : nat → time;
  timer : nat → option goerr;
}.

Section worker.
Context `{U : UnicodeTables} `{St : Store} `{Prov : Provider} `{WEnv : WorkerEnv}.
Context (cfg : WorkerConfig).

Record wstate := MkW {
  w_store : sstate;
  w_calls : nat;
  w_looks : nat;
  w_trace : list event;
}.

Definition W := io goerr wstate.

Definition onStore {A} (m : io goerr sstate A) : W A := λ s,
  match m (w_store s) with (st, r) => (MkW st (w_calls s) (w_looks s) (w_trace s), r) end.

Definition emit (e : event) : W unit := λ s,
  (MkW (w_store s) (w_calls s) (w_looks s) (w_trace s ++ [e]), inl tt).

Definition look {A} (f : nat → A) : W A := λ s,
  (MkW (w_store s) (w_calls s) (S (w_looks s)) (w_trace s), inl (f (w_looks s))).

Definition callSubmit (msg : Message) (id : string) : W (SubmissionResult + goerr) := λ s,
  (MkW (w_store s) (S (w_calls s)) (w_looks s) (w_trace s ++ [CallSubmit msg id]),
   inl (Submit (w_calls s) msg id)).

Definition callPoll (operationID : string) : W (SubmissionStatus + goerr) := λ s,
  (MkW (w_store s) (S (w_calls s)) (w_looks s) (w_trace s ++ [CallPoll operationID]),
   inl (Poll (w_calls s) operationID)).

(** [DeliveryError.Error()] of the first delivery error, or [err.Error()]. *)
Definition lastErrorFromProviderError (e : goerr) (now : time) : LastError :=
  match AsDeliveryError e with
  | Some d => MkLastError (err_Error (de_self d)) (de_provider d) (de_temporary d) now
  | None =>
      if errors_Is is_DeadlineExceeded e || errors_Is is_Canceled e then
        MkLastError (err_Error e) spoolProviderName true now
      else MkLastError (err_Error e) spoolProviderName false now
  end.

Definition finalizeRecord {A} (action recordID : string) (fn : io goerr sstate A) : W unit :=
  try (onStore fn) (λ r,
    match r with
    | inr e => fail (EWrapf (action +:+ " for record " +:+ Quote recordID) e)
    | inl _ => ret tt
    end).

Definition set_ProviderMessageID (v : string) (rec : SpoolRecord) : SpoolRecord :=
  MkRecord (rec_ID rec) (rec_Message rec) (rec_State rec) (rec_Attempt rec)
    (rec_NextAttemptAt rec) (rec_OperationID rec) (rec_OperationLocation rec) v
    (rec_FirstSubmittedAt rec) (rec_LastError rec) (rec_CreatedAt rec) (rec_UpdatedAt rec).

Definition spool_error (message : string) (now : time) : option LastError :=
  Some (MkLastError message spoolProviderName false now).

(** The retry-or-dead-letter branch shared by the two failing submit arms. *)
Definition retry_or_dead (retryAction deadAction : string) (rec : SpoolRecord)
    (lastErr : LastError) (now : time) : W bool :=
  if le_Temporary lastErr && submitRetryAllowed cfg rec then
    emit (IncRetry observabilityRetryStageSubmit) ;;!
    finalizeRecord retryAction (rec_ID rec)
      (store_MarkRetry rec (time_Add now (submitRetryDelay cfg (rec_Attempt rec)))
         (Some lastErr)) ;;!
    ret true
  else
    finalizeRecord deadAction (rec_ID rec) (store_MarkDeadLetter rec (Some lastErr)) ;;!
    ret true.

(** What [processQueuedOnce] does with the provider's answer. *)
Definition settle_submit (now : time) (rec : SpoolRecord) (answer : SubmissionResult + goerr)
    : W bool :=
  match answer with
  | inr submitErr =>
      emit (ObserveSubmission (ProviderName cfg) (submissionOutcomeFromError submitErr)) ;;!
      let lastErr := lastErrorFromProviderError submitErr now in
      retry_or_dead "retry queued record" "dead-letter queued record after submit error"
        rec lastErr now
  | inl result =>
      if decide (sr_State result = SubmissionStateSucceeded) then
        emit (ObserveSubmission (ProviderName cfg) SubmissionStateSucceeded) ;;!
        let rec := set_ProviderMessageID (sr_ProviderMessageID result) rec in
        finalizeRecord "mark queued record succeeded" (rec_ID rec) (store_MarkSucceeded rec) ;;!
        ret true
      else if decide (sr_State result = SubmissionStateRunning) then
        emit (ObserveSubmission (ProviderName cfg) SubmissionStateRunning) ;;!
        if decide (sr_OperationID result = "") then
          finalizeRecord "dead-letter queued record without operation id" (rec_ID rec)
            (store_MarkDeadLetter rec
               (spool_error "provider submit accepted without operation id" now)) ;;!
          ret true
        else
          let nextAttemptAt := time_Add now (PollInterval cfg) in
          let nextAttemptAt := if 0 <? sr_RetryAfter result
                               then time_Add now (sr_RetryAfter result) else nextAttemptAt in
          finalizeRecord "mark queued record submitted" (rec_ID rec)
            (store_MarkSubmitted rec result nextAttemptAt) ;;!
          ret true
      else if decide (sr_State result = SubmissionStateFailed
                      ∨ sr_State result = SubmissionStateCanceled) then
        emit (ObserveSubmission (ProviderName cfg) (sr_State result)) ;;!
        let lastErr := lastErrorFromSubmissionFailure (sr_Failure result) now
                         (submissionFailureMessage (sr_State result)) in
        retry_or_dead "retry queued record after terminal submit state"
          "dead-letter queued record after terminal submit state" rec lastErr now
      else
        emit (ObserveSubmission (ProviderName cfg) observabilityOutcomePermanentError) ;;!
        finalizeRecord "dead-letter queued record after unsupported submit state" (rec_ID rec)
          (store_MarkDeadLetter rec
             (spool_error ("provider returned unsupported submission state "
                           +:+ Quote (sr_State result)) now)) ;;!
        ret true
  end.

Definition processQueuedOnce (now : time) : W bool :=
  let! ctx := look ctx_Err in
  let! o := onStore (store_ClaimReady ctx now) in
  match o with
  | None => ret false
  | Some rec =>
      let! answer := callSubmit (rec_Message rec) (rec_ID rec) in
      settle_submit now rec answer
  end.

(** What [processSubmittedOnce] does with the provider's answer. *)
Definition settle_poll (now : time) (rec : SpoolRecord) (answer : SubmissionStatus + goerr)
    : W bool :=
  match answer with
  | inr pollErr =>
      emit (ObservePoll (ProviderName cfg) (pollOutcomeFromError pollErr)) ;;!
      let lastErr := lastErrorFromProviderError pollErr now in
      if le_Temporary lastErr then
        emit (IncRetry observabilityRetryStagePoll) ;;!
        finalizeRecord "reschedule submitted record after poll error" (rec_ID rec)
          (store_MarkRetry rec (time_Add now (PollInterval cfg)) (Some lastErr)) ;;!
        ret true
      else
        finalizeRecord "dead-letter submitted record after poll error" (rec_ID rec)
          (store_MarkDeadLetter rec (Some lastErr)) ;;!
        ret true
  | inl status =>
      let rec := if decide (ss_ProviderMessageID status = "") then rec
                 else set_ProviderMessageID (ss_ProviderMessageID status) rec in
      if decide (ss_State status = SubmissionStateRunning) then
        emit (ObservePoll (ProviderName cfg) SubmissionStateRunning) ;;!
        let nextAttemptAt := time_Add now (PollInterval cfg) in
        let nextAttemptAt := if 0 <? ss_RetryAfter status
                             then time_Add now (ss_RetryAfter status) else nextAttemptAt in
        emit (IncRetry observabilityRetryStagePoll) ;;!
        finalizeRecord "reschedule submitted record after running poll status" (rec_ID rec)
          (store_MarkRetry rec nextAttemptAt None) ;;!
        ret true
      else if decide (ss_State status = SubmissionStateSucceeded) then
        emit (ObservePoll (ProviderName cfg) SubmissionStateSucceeded) ;;!
        finalizeRecord "mark submitted record succeeded" (rec_ID rec)
          (store_MarkSucceeded rec) ;;!
        ret true
      else if decide (ss_State status = SubmissionStateFailed
                      ∨ ss_State status = SubmissionStateCanceled) then
        emit (ObservePoll (ProviderName cfg) (ss_State status)) ;;!
        finalizeRecord "dead-letter submitted record after terminal poll state" (rec_ID rec)
          (store_MarkDeadLetter rec
             (Some (lastErrorFromSubmissionFailure (ss_Failure status) now
                      (submissionFailureMessage (ss_State status))))) ;;!
        ret true
      else
        emit (ObservePoll (ProviderName cfg) observabilityOutcomePermanentError) ;;!
        finalizeRecord "dead-letter submitted record after unsupported poll state" (rec_ID rec)
          (store_MarkDeadLetter rec
             (spool_error ("provider returned unsupported poll state "
                           +:+ Quote (ss_State status)) now)) ;;!
        ret true
  end.

(** [!rec.FirstSubmittedAt.IsZero() &&
    !rec.FirstSubmittedAt.Add(SubmittedTimeout).After(now)] *)
Definition submitted_expired (now : time) (rec : SpoolRecord) : bool :=
  negb (IsZero (rec_FirstSubmittedAt rec)) &&
  negb (time_After (time_Add (rec_FirstSubmittedAt rec) (SubmittedTimeout cfg)) now).

Definition processSubmittedOnce (now : time) : W bool :=
  let! o := onStore (store_NextSubmittedReady now) in
  match o with
  | None => ret false
  | Some rec =>
      if submitted_expired now rec then
        finalizeRecord "dead-letter submitted record after timeout" (rec_ID rec)
          (store_MarkDeadLetter rec
             (spool_error ("submitted operation exceeded "
                           +:+ Duration_String (SubmittedTimeout cfg) +:+ " timeout") now)) ;;!
        ret true
      else
        let! answer := callPoll (rec_OperationID rec) in
        settle_poll now rec answer
  end.

Definition sleepWithContext (d : duration) : W unit :=
  if d <=? 0 then ret tt
  else let! r := look timer in
       match r with Some e => fail e | None => ret tt end.

(** [if errors.Is(err, context.Canceled) { return nil }; return err] *)
Definition stop (e : goerr) : option goerr := if errors_Is is_Canceled e then None else Some e.

(** One turn of [Start]'s loop: [None] goes on, [Some r] returns [r]. *)
Definition start_turn : W (option (option goerr)) :=
  let! c := look ctx_Err in
  match c with
  | Some e => ret (Some (stop e))
  | None =>
      let! now := look time_Now in
      try (processSubmittedOnce now) (λ r1,
        match r1 with
        | inr e => ret (Some (stop e))
        | inl submittedWorked =>
            try (processQueuedOnce now) (λ r2,
              match r2 with
              | inr e => ret (Some (stop e))
              | inl queuedWorked =>
                  if submittedWorked || queuedWorked then ret None
                  else try (sleepWithContext (PollInterval cfg)) (λ r3,
                    match r3 with
                    | inr e => ret (Some (stop e))
                    | inl _ => ret None
                    end)
              end)
        end)
  end.

(** [Start] for at most [n] turns; [None] when it is still running. *)
Fixpoint Start (n : nat) : W (option (option goerr)) :=
  match n with
  | O => ret None
  | S n =>
      let! r := start_turn in
      match r with
      | Some e => ret (Some e)
      | None => Start n
      end
  end.

(** [Worker.Recover] *)
Definition worker_Recover (ctx : option goerr) (now : time) : W RecoveryResult :=
  onStore (store_Recover ctx now).
End worker.

#[global] Arguments wstate {St}.
#[global] Arguments W {St} A.
