(* ===== verification/WorkerProps.v ===== *)
(** * Properties of the worker

    Proved against the [Store] contract: what one submission and one poll do to
    the record they concern, how often a record can be submitted, and the
    retry delay. *)
From S2P Require Import Prelude.
From S2P Require Import GoStrings.
From S2P Require Import GoTime.
From S2P Require Import GoErrors.
From S2P Require Import Email.
From S2P Require Import SpoolCommon.
From S2P Require Import Records.
From S2P Require Import SpoolStore.
From S2P Require Import Worker.
#[local] Open Scope Z_scope.
#[local] Open Scope relay_scope.

Section props.
Context `{U : UnicodeTables} {St : Store} {SL : StoreLaws St} `{Prov : Provider}
  `{WEnv : WorkerEnv}.
Context (cfg : WorkerConfig).

Abbreviation led s := (ledger (w_store s)).

(** What the two queries say of the ledger. *)
Lemma claim_some_ledger ctx t st st' rec :
  store_ClaimReady ctx t st = (st', inl (Some rec)) →
  rec_State rec = StateWorking ∧ ledger st !! rec_ID rec = Some (StateQueued, rec_Attempt rec) ∧
  ledger st' !! rec_ID rec = Some (StateWorking, rec_Attempt rec).
Proof.
  intros (r & Hc & Hq & _ & _ & Hrec & Hl)%claim_some.
  destruct (committed_ledger _ _ _ Hc) as [_ Hled].
  assert (Ha : rec_Attempt rec = rec_Attempt r) by by rewrite Hrec.
  split; [by rewrite Hrec|]. split; [by rewrite Hled, Hq, Ha|done].
Qed.

Lemma next_submitted_ledger t st st' rec :
  store_NextSubmittedReady t st = (st', inl (Some rec)) →
  rec_State rec = StateSubmitted ∧
  (settled st' → ledger st !! rec_ID rec = Some (StateSubmitted, rec_Attempt rec)).
Proof.
  intros (Hs & _ & Hc)%next_submitted_some. split; [done|]. intros Hset.
  destruct (committed_ledger _ _ _ (Hc Hset)) as [_ ->]. by rewrite Hs.
Qed.

(** ** The finalising step *)

(** Not a provider call. *)
Definition silent (e : event) : Prop :=
  match e with CallSubmit _ _ | CallPoll _ => False | _ => True end.

(** [m] leaves the provider alone and, on the ledger, either fails without
    effect or writes [x] for record [id]; a success always writes. *)
Definition settles {A} (m : W A) (id : string) (x : State * Z) : Prop :=
  ∀ s, (∃ es, w_trace (fst (m s)) = w_trace s ++ es ∧
              Forall silent es) ∧
       w_calls (fst (m s)) = w_calls s ∧ w_looks (fst (m s)) = w_looks s ∧
       ((led (fst (m s)) = led s ∧ ∃ e, snd (m s) = inr e) ∨
        (settled (w_store s) ∧ ledger_put (led s) id x (led (fst (m s))))).

Lemma settles_finalize {A} action (m : io goerr sstate A) id id' x (b : bool) :
  writes ledger settled m id x → settles (finalizeRecord action id' m ;;! ret b) id x.
Proof.
  intros Hw s. specialize (Hw (w_store s)).
  unfold bind, finalizeRecord, try, onStore. destruct (m (w_store s)) as [st [a|e]]; cbn in *;
    (split; [exists []; by rewrite app_nil_r|]); split_and!; try done.
  - destruct Hw as [[_ [e He]]|Hw]; [done|by right].
  - destruct Hw as [[Hl _]|Hw]; [left; eauto|by right].
Qed.

Lemma settles_emit {A} e (m : W A) id x :
  silent e → settles m id x → settles (emit e ;;! m) id x.
Proof.
  intros He Hm s. unfold bind, emit.
  destruct (Hm (MkW (w_store s) (w_calls s) (w_looks s) (w_trace s ++ [e])))
    as ((es & Htr & Hes) & Hrest).
  split; [|exact Hrest]. exists (e :: es). split; [|by constructor].
  rewrite Htr. cbn. by rewrite <- app_assoc.
Qed.

(** ** Submission *)

(** An error worth another attempt: what the provider's delivery error says, and
    without one a cancelled or expired context. *)
Definition temporary_error (e : goerr) : bool :=
  match AsDeliveryError e with
  | Some d => de_temporary d
  | None => errors_Is is_DeadlineExceeded e || errors_Is is_Canceled e
  end.

(** The state a record claimed after [a] attempts ends in, given the provider's
    answer. *)
Definition retry_verdict (temporary : bool) (a : Z) : State :=
  if temporary && (a <? RetryAttempts cfg) then StateQueued else StateDeadLetter.

Definition submit_verdict (a : Z) (answer : SubmissionResult + goerr) : State :=
  match answer with
  | inr e => retry_verdict (temporary_error e) a
  | inl result =>
      if decide (sr_State result = SubmissionStateSucceeded) then StateSucceeded
      else if decide (sr_State result = SubmissionStateRunning) then
        if decide (sr_OperationID result = "") then StateDeadLetter else StateSubmitted
      else if decide (sr_State result = SubmissionStateFailed
                      ∨ sr_State result = SubmissionStateCanceled) then
        retry_verdict (match sr_Failure result with Some f => sf_Temporary f | None => false end) a
      else StateDeadLetter
  end.

Lemma lastError_temporary e t : le_Temporary (lastErrorFromProviderError e t) = temporary_error e.
Proof.
  unfold lastErrorFromProviderError, temporary_error. destruct (AsDeliveryError e); [done|].
  by destruct (_ || _).
Qed.

Lemma retry_or_dead_settles a1 a2 rec lastErr now :
  rec_State rec = StateWorking →
  settles (retry_or_dead cfg a1 a2 rec lastErr now) (rec_ID rec)
    (retry_verdict (le_Temporary lastErr) (rec_Attempt rec), wrap64 (rec_Attempt rec + 1)).
Proof.
  intros Hw. assert (Hin : rec_State rec ∈ [StateWorking; StateSubmitted]) by (rewrite Hw; set_solver).
  unfold retry_or_dead, retry_verdict, submitRetryAllowed. destruct (le_Temporary lastErr && _).
  - apply settles_emit; [done|]. apply settles_finalize.
    pose proof (mark_retry_writes rec (time_Add now (submitRetryDelay cfg (rec_Attempt rec)))
                  (Some lastErr) Hin) as H.
    unfold retry_entry, final_entry in H. by rewrite decide_True in H.
  - apply settles_finalize. pose proof (mark_dead_writes rec (Some lastErr) Hin) as H.
    unfold dead_entry, final_entry in H. by rewrite decide_True in H.
Qed.

Lemma dead_settles action rec lastErr :
  rec_State rec = StateWorking →
  settles (finalizeRecord action (rec_ID rec) (store_MarkDeadLetter rec lastErr) ;;! ret true)
    (rec_ID rec) (StateDeadLetter, wrap64 (rec_Attempt rec + 1)).
Proof.
  intros Hw. apply settles_finalize.
  pose proof (mark_dead_writes rec lastErr ltac:(rewrite Hw; set_solver)) as H.
  unfold dead_entry, final_entry in H. by rewrite decide_True in H.
Qed.

Lemma settle_submit_settles now rec answer :
  rec_State rec = StateWorking →
  settles (settle_submit cfg now rec answer) (rec_ID rec)
    (submit_verdict (rec_Attempt rec) answer, wrap64 (rec_Attempt rec + 1)).
Proof.
  intros Hw. destruct answer as [result|e]; cbn [settle_submit submit_verdict].
  - case_decide as H1; [|case_decide as H2; [case_decide as H3|case_decide as H4]].
    + apply settles_emit; [done|]. apply settles_finalize.
      pose proof (mark_succeeded_writes (set_ProviderMessageID (sr_ProviderMessageID result) rec)
                    ltac:(cbn; rewrite Hw; set_solver)) as H.
      unfold succeeded_entry, final_entry in H. by rewrite decide_True in H.
    + apply settles_emit; [done|]. by apply dead_settles.
    + apply settles_emit; [done|]. apply settles_finalize.
      by apply mark_submitted_writes.
    + apply settles_emit; [done|].
      pose proof (retry_or_dead_settles "retry queued record after terminal submit state"
        "dead-letter queued record after terminal submit state" rec
        (lastErrorFromSubmissionFailure (sr_Failure result) now
           (submissionFailureMessage (sr_State result))) now Hw) as H.
      by destruct (sr_Failure result).
    + apply settles_emit; [done|]. by apply dead_settles.
  - apply settles_emit; [done|]. rewrite <- (lastError_temporary e now).
    by apply retry_or_dead_settles.
Qed.

(** *** One turn of the queue *)

(** Every success of [m] reports work done. *)
Definition worked (m : W bool) : Prop := ∀ s s' b, m s = (s', inl b) → b = true.

Lemma worked_bind {A} (m : W A) (k : A → W bool) :
  (∀ a, worked (k a)) → worked (bind m k).
Proof. intros Hk s s' b Hr. bind_inv Hr as a s1 Hm. by eapply Hk. Qed.

Lemma worked_true : worked (ret true).
Proof. by intros s s' b [= _ <-]. Qed.

Ltac prove_worked :=
  repeat first [apply worked_true | apply worked_bind; intros | case_decide
               | progress cbv beta iota zeta
               | match goal with |- worked (if ?b then _ else _) => destruct b end].

Lemma settle_submit_worked now rec answer : worked (settle_submit cfg now rec answer).
Proof. destruct answer; unfold settle_submit, retry_or_dead; prove_worked. Qed.

Lemma settle_poll_worked now rec answer : worked (settle_poll cfg now rec answer).
Proof. destruct answer; unfold settle_poll; prove_worked. Qed.

Definition is_submit (id : string) (e : event) : bool :=
  match e with CallSubmit _ i => bool_decide (i = id) | _ => false end.

(** How often record [id] was handed to the provider. *)
Definition submits (id : string) (s : wstate) : Z :=
  Z.of_nat (length (List.filter (is_submit id) (w_trace s))).

Lemma submits_app id tr es :
  length (List.filter (is_submit id) (tr ++ es)) =
  (length (List.filter (is_submit id) tr) + length (List.filter (is_submit id) es))%nat.
Proof. by rewrite List.filter_app, List.length_app. Qed.

Lemma submits_silent id es :
  Forall silent es →
  List.filter (is_submit id) es = [].
Proof. induction 1 as [|e es He _ IH]; [done|]. cbn. by destruct e. Qed.

(** C8. When [processQueuedOnce] reports work done, the record it submitted is the
    one [ClaimReady] handed out: a committed record that was [queued] and due,
    with the message that is stored for it.  That message was given to the
    provider exactly once, under the record's identifier, no other provider call
    was made, and the record has the state the answer calls for, with one more
    attempt counted: [succeeded], [submitted] for a running operation that has an
    identifier, [queued] for a temporary failure with attempts left,
    [dead-letter] for the rest.  Of the other records claiming can only have
    taken unreadable ones off the queue.  When it reports no work, the provider
    was not called. *)
Theorem processQueuedOnce_ok (now : time) (s s' : wstate) (did : bool) :
  processQueuedOnce cfg now s = (s', inl did) →
  if did then
    ∃ st rec r,
      store_ClaimReady (ctx_Err (w_looks s)) now (w_store s) = (st, inl (Some rec)) ∧
      committed (w_store s) (rec_ID rec) = Some r ∧ rec_State r = StateQueued ∧ due_by now r ∧
      mail (w_store s) (rec_ID rec) = Some (rec_Message rec) ∧
      led s' !! rec_ID rec =
        Some (submit_verdict (rec_Attempt r) (Submit (w_calls s) (rec_Message rec) (rec_ID rec)),
              wrap64 (rec_Attempt r + 1)) ∧
      (∃ es, w_trace s' = w_trace s ++ CallSubmit (rec_Message rec) (rec_ID rec) :: es ∧
             Forall silent es) ∧
      ∀ id, id ≠ rec_ID rec → claim_step (led s !! id) (led s' !! id)
  else w_trace s' = w_trace s ∧ ∀ id, claim_step (led s !! id) (led s' !! id).
Proof.
  unfold processQueuedOnce. intros Hr. bind_inv Hr as ctx s1 Hl. injection Hl as <- <-.
  unfold bind at 1, onStore in Hr. cbn in Hr.
  pose proof (claim_any (ctx_Err (w_looks s)) now (w_store s)) as Hany.
  destruct (store_ClaimReady _ now (w_store s)) as [st [[rec|]|e]] eqn:Hc; cbn in Hr, Hany; [| |done].
  2:{ injection Hr as <- <-. done. }
  destruct (claim_some_ledger _ _ _ _ _ Hc) as (Hw & _).
  destruct (claim_some _ _ _ _ _ Hc) as (r & Hcom & Hq & Hdue & Hmail & Hrec & _).
  assert (Ha : rec_Attempt rec = rec_Attempt r) by by rewrite Hrec.
  unfold bind, callSubmit in Hr. cbn in Hr.
  pose proof (settle_submit_settles now rec
    (Submit (w_calls s) (rec_Message rec) (rec_ID rec)) Hw) as Hset.
  match type of Hr with settle_submit _ _ _ _ ?s2 = _ => specialize (Hset s2) end.
  rewrite Hr in Hset. cbn in Hset.
  destruct Hset as ((es & Htr & Hes) & _ & _ & [[_ [e He]]|(_ & _ & Hput)]); [done|].
  assert (did = true) as -> by (by eapply settle_submit_worked).
  exists st, rec, r. rewrite Hput, <- Ha. do 5 (split; [done|]).
  split; [by rewrite lookup_insert_eq|]. split.
  - exists es. by rewrite Htr, <- app_assoc.
  - intros id Hne. by rewrite lookup_insert_ne.
Qed.

(** ** Polling *)

Definition poll_verdict (answer : SubmissionStatus + goerr) : State :=
  match answer with
  | inr e => if temporary_error e then StateSubmitted else StateDeadLetter
  | inl status =>
      if decide (ss_State status = SubmissionStateRunning) then StateSubmitted
      else if decide (ss_State status = SubmissionStateSucceeded) then StateSucceeded
      else StateDeadLetter
  end.

(** The mark operations on a submitted record. *)
Lemma submitted_writes rec :
  rec_State rec = StateSubmitted →
  (∀ next le, writes ledger settled (store_MarkRetry rec next le) (rec_ID rec)
                (StateSubmitted, rec_Attempt rec)) ∧
  writes ledger settled (store_MarkSucceeded rec) (rec_ID rec) (StateSucceeded, rec_Attempt rec) ∧
  (∀ le, writes ledger settled (store_MarkDeadLetter rec le) (rec_ID rec)
           (StateDeadLetter, rec_Attempt rec)).
Proof.
  intros Hs. assert (Hin : rec_State rec ∈ [StateWorking; StateSubmitted]) by (rewrite Hs; set_solver).
  assert (Hne : rec_State rec ≠ StateWorking) by (by rewrite Hs).
  assert (Hf : ∀ a b, final_entry a b rec = (b, rec_Attempt rec)).
  { intros a b. unfold final_entry. by rewrite decide_False. }
  split_and!; intros.
  - rewrite <- (Hf StateQueued). by apply mark_retry_writes.
  - rewrite <- (Hf StateSucceeded). by apply mark_succeeded_writes.
  - rewrite <- (Hf StateDeadLetter). by apply mark_dead_writes.
Qed.

Lemma settle_poll_settles now rec answer :
  rec_State rec = StateSubmitted →
  settles (settle_poll cfg now rec answer) (rec_ID rec) (poll_verdict answer, rec_Attempt rec).
Proof.
  intros Hs. destruct answer as [status|e]; cbn [settle_poll poll_verdict].
  - set (rec' := if decide _ then rec else _).
    assert (Hr : rec_State rec' = StateSubmitted ∧ rec_ID rec' = rec_ID rec ∧
                 rec_Attempt rec' = rec_Attempt rec) by (unfold rec'; by case_decide).
    clearbody rec'. destruct Hr as (Hs' & <- & <-).
    destruct (submitted_writes rec' Hs') as (Hr & Ho & Hd).
    case_decide as H1; [|case_decide as H2; [|case_decide as H3]];
      repeat (apply settles_emit; [done|]); by apply settles_finalize.
  - destruct (submitted_writes rec Hs) as (Hr & Ho & Hd).
    rewrite (lastError_temporary e now). apply settles_emit; [done|].
    destruct (temporary_error e); [apply settles_emit; [done|]|]; by apply settles_finalize.
Qed.

(** The operation was first submitted [SubmittedTimeout] ago or longer. *)
Definition overdue (now : time) (rec : SpoolRecord) : Prop :=
  rec_FirstSubmittedAt rec ≠ zeroTime ∧ rec_FirstSubmittedAt rec + SubmittedTimeout cfg <= now.
#[local] Instance overdue_dec now rec : Decision (overdue now rec).
Proof. unfold overdue. apply _. Defined.

Lemma submitted_expired_overdue now rec :
  submitted_expired cfg now rec = bool_decide (overdue now rec).
Proof.
  unfold submitted_expired, IsZero, time_After, time_Add. symmetry.
  destruct (Z.eqb_spec (rec_FirstSubmittedAt rec) zeroTime) as [Hz|Hz]; cbn [negb andb].
  - apply bool_decide_eq_false. by intros [? _].
  - destruct (Z.ltb_spec now (rec_FirstSubmittedAt rec + SubmittedTimeout cfg)); cbn [negb].
    + apply bool_decide_eq_false. intros [_ ?]. lia.
    + by apply bool_decide_eq_true.
Qed.

(** C26. When [processSubmittedOnce] reports work done, it took the record that
    [NextSubmittedReady] handed out: a committed record, field by field, that is
    [submitted] and due.  If its operation was first submitted
    [SubmittedTimeout] ago or longer the record is a dead letter now and the
    provider was not asked.  Otherwise the provider was asked once, for the
    operation identifier of the record, and the record has the state the answer
    calls for: still [submitted] while running or after a temporary error,
    [succeeded], or [dead-letter].  Its attempt count and every other record are
    unchanged, and nothing was submitted.  When it reports no work, nothing has
    changed. *)
Theorem processSubmittedOnce_ok (now : time) (s s' : wstate) (did : bool) :
  processSubmittedOnce cfg now s = (s', inl did) →
  if did then
    ∃ st rec, store_NextSubmittedReady now (w_store s) = (st, inl (Some rec)) ∧
      committed (w_store s) (rec_ID rec) = Some rec ∧ rec_State rec = StateSubmitted ∧
      due_by now rec ∧
      if decide (overdue now rec) then
        led s' = <[rec_ID rec := (StateDeadLetter, rec_Attempt rec)]> (led s) ∧
        w_trace s' = w_trace s
      else
        led s' = <[rec_ID rec :=
          (poll_verdict (Poll (w_calls s) (rec_OperationID rec)), rec_Attempt rec)]> (led s) ∧
        ∃ es, w_trace s' = w_trace s ++ CallPoll (rec_OperationID rec) :: es ∧ Forall silent es
  else led s' = led s ∧ w_trace s' = w_trace s.
Proof.
  unfold processSubmittedOnce, bind at 1, onStore. cbn. intros Hr.
  pose proof (next_submitted_any now (w_store s)) as Hany.
  destruct (store_NextSubmittedReady now (w_store s)) as [st [[rec|]|e]] eqn:Hc;
    cbn in Hr, Hany; [| |done].
  2:{ injection Hr as <- <-. cbn. by rewrite Hany. }
  destruct (next_submitted_some _ _ _ _ Hc) as (Hs & Hdue & Hcom).
  rewrite submitted_expired_overdue in Hr. case_bool_decide as Hx.
  - destruct (submitted_writes rec Hs) as (_ & _ & Hd).
    match type of Hr with (finalizeRecord ?a _ ?m ;;! _) ?s1 = _ =>
      pose proof (settles_finalize a m (rec_ID rec) (rec_ID rec) _ true (Hd _) s1) as Hset;
      unfold finalizeRecord, bind, try, onStore in Hr, Hset
    end.
    cbn in Hr, Hset. destruct (store_MarkDeadLetter _ _ st) as [st' [x|e]]; cbn in Hr, Hset; [|done].
    injection Hr as <- <-. cbn. destruct Hset as (_ & _ & _ & [[_ [? ?]]|(Hst & _ & Hput)]); [done|].
    exists st, rec. rewrite decide_True by done. do 4 (split; [by auto|]). split; [|done].
    by rewrite Hput, Hany.
  - unfold bind, callPoll in Hr. cbn in Hr.
    assert (did = true) as -> by (by eapply settle_poll_worked).
    pose proof (settle_poll_settles now rec (Poll (w_calls s) (rec_OperationID rec)) Hs) as Hset.
    match type of Hr with settle_poll _ _ _ _ ?s2 = _ => specialize (Hset s2) end.
    rewrite Hr in Hset. cbn in Hset.
    destruct Hset as ((es & Htr & Hes) & Hcalls & _ & [[_ [e He]]|(Hst & _ & Hput)]); [done|].
    exists st, rec. rewrite decide_False by done. do 4 (split; [by auto|]). split.
    + by rewrite Hput, Hany.
    + exists es. by rewrite Htr, <- app_assoc.
Qed.

(** ** How often a record can be submitted *)

Section bound.
(** [RetryAttempts] is a Go [int]. *)
Hypothesis Hattempts : RetryAttempts cfg < two63.

(** The submissions a record may still get: one for a queued record whose
    attempts are already used up, as after a restart with a lower limit. *)
Definition budget (o : option (State * Z)) : Z :=
  match o with
  | Some (st, a) => if decide (st = StateQueued) then Z.max 1 (RetryAttempts cfg + 1 - a) else 0
  | None => 0
  end.

Lemma budget_queued a : budget (Some (StateQueued, a)) = Z.max 1 (RetryAttempts cfg + 1 - a).
Proof. unfold budget. by rewrite decide_True. Qed.
Lemma budget_other st a : st ≠ StateQueued → budget (Some (st, a)) = 0.
Proof. intros H. unfold budget. by rewrite decide_False. Qed.
Lemma budget_nonneg o : 0 <= budget o.
Proof. unfold budget. destruct o as [[st a]|]; [case_decide|]; lia. Qed.

(** Submissions are paid for: what a run adds, the budget loses. *)
Definition pays (s s' : wstate) : Prop :=
  ∀ id, submits id s' + budget (led s' !! id) <= submits id s + budget (led s !! id).

#[local] Instance pays_preorder : PreOrder pays.
Proof.
  split; [intros s id; lia|]. intros s1 s2 s3 H12 H23 id. specialize (H12 id). specialize (H23 id). lia.
Qed.

Lemma pays_same s s' : led s' = led s → (∀ id, submits id s' = submits id s) → pays s s'.
Proof. intros Hl Hs id. rewrite Hl, Hs. lia. Qed.

Lemma claim_step_budget o o' : claim_step o o' → budget o' <= budget o.
Proof.
  intros [-> |(a & -> & Ho')]; [lia|]. pose proof (budget_nonneg (Some (StateQueued, a))).
  by destruct Ho' as [-> | ->]; rewrite (budget_other _ a) by done.
Qed.

Lemma claim_pays s s' :
  (∀ id, claim_step (led s !! id) (led s' !! id)) →
  (∀ id, submits id s' = submits id s) → pays s s'.
Proof. intros Hstep Hsub id. rewrite Hsub. pose proof (claim_step_budget _ _ (Hstep id)). lia. Qed.

Lemma submit_verdict_queued a answer :
  submit_verdict a answer = StateQueued → a < RetryAttempts cfg.
Proof.
  assert (Hr : ∀ b, retry_verdict b a = StateQueued → a < RetryAttempts cfg).
  { intros b. unfold retry_verdict. destruct b; cbn; [|done].
    destruct (a <? RetryAttempts cfg) eqn:E; [|done]. intros _. by apply Z.ltb_lt. }
  destruct answer as [result|e]; cbn; [|apply Hr].
  repeat case_decide; try done. apply Hr.
Qed.

(** The attempt count wraps upwards below the largest [int], so a record that
    goes back to the queue has lost at least one submission. *)
Lemma submit_budget a answer :
  1 + budget (Some (submit_verdict a answer, wrap64 (a + 1))) <= budget (Some (StateQueued, a)).
Proof.
  rewrite budget_queued. unfold budget. case_decide as Hq; [|lia].
  apply submit_verdict_queued in Hq.
  assert (a + 1 <= wrap64 (a + 1)).
  { destruct (Z.le_gt_cases (- two63) (a + 1)).
    - rewrite wrap64_id; [done|]. unfold in_int64. lia.
    - pose proof (wrap64_range (a + 1)). unfold in_int64 in *. lia. }
  lia.
Qed.

Lemma queued_pays now : keeps pays (processQueuedOnce cfg now).
Proof.
  intros s. unfold processQueuedOnce, bind, look, onStore. cbn.
  pose proof (claim_any (ctx_Err (w_looks s)) now (w_store s)) as Hany.
  destruct (store_ClaimReady _ now (w_store s)) as [st [[rec|]|e]] eqn:Hc; cbn in Hany |- *;
    [|by apply claim_pays|by apply claim_pays].
  destruct (claim_some_ledger _ _ _ _ _ Hc) as (Hw & Hq & Hw').
  unfold callSubmit. cbn. set (answer := Submit _ _ _).
  pose proof (settle_submit_settles now rec answer Hw) as Hset.
  match goal with |- context [settle_submit _ _ _ _ ?s2] => specialize (Hset s2) end.
  destruct (settle_submit cfg now rec answer _) as [s' r]. cbn in *.
  destruct Hset as ((es & Htr & Hes) & _ & _ & Hled). intros id.
  assert (Hsub : submits id s' = submits id s + if decide (id = rec_ID rec) then 1 else 0).
  { unfold submits. rewrite Htr, !submits_app, (submits_silent id es Hes). cbn.
    rewrite (bool_decide_ext _ (id = rec_ID rec)) by (split; congruence).
    destruct (decide (id = rec_ID rec));
      [rewrite bool_decide_true by done|rewrite bool_decide_false by done]; cbn; lia. }
  rewrite Hsub. pose proof (claim_step_budget _ _ (Hany id)) as Hstep.
  destruct (decide (id = rec_ID rec)) as [-> |Hne].
  - pose proof (submit_budget (rec_Attempt rec) answer) as Hb. rewrite Hq.
    destruct Hled as [[-> _]|(_ & _ & ->)].
    + rewrite Hw', budget_other, budget_queued by done. lia.
    + rewrite lookup_insert_eq. lia.
  - destruct Hled as [[-> _]|(_ & _ & ->)]; [lia|]. rewrite lookup_insert_ne by done. lia.
Qed.

Lemma submitted_pays now : keeps pays (processSubmittedOnce cfg now).
Proof.
  intros s. unfold processSubmittedOnce, bind at 1, onStore. cbn.
  pose proof (next_submitted_any now (w_store s)) as Hany.
  destruct (store_NextSubmittedReady now (w_store s)) as [st [[rec|]|e]] eqn:Hc;
    cbn in Hany |- *; [|by apply pays_same|by apply pays_same].
  destruct (next_submitted_ledger _ _ _ _ Hc) as (Hs & Hl).
  (* a run that settles the record without submitting anything *)
  assert (Hput : ∀ x (m : W bool) s1, w_store s1 = st → (∀ id, submits id s1 = submits id s) →
            x ≠ StateQueued → settles m (rec_ID rec) (x, rec_Attempt rec) → pays s (fst (m s1))).
  { intros x m s1 Hst Hs1 Hx Hset. destruct (Hset s1) as ((es & Htr & Hes) & _ & _ & Hled).
    assert (Hsub : ∀ id, submits id (fst (m s1)) = submits id s).
    { intros id. rewrite <- Hs1. unfold submits.
      rewrite Htr, submits_app, (submits_silent id es Hes). cbn. lia. }
    rewrite Hst, Hany in Hled. destruct Hled as [[Hle _]|(Hset' & _ & Hp)]; [by apply pays_same|].
    intros id. rewrite Hsub, Hp. destruct (decide (id = rec_ID rec)) as [-> |Hne].
    - rewrite lookup_insert_eq, (Hl Hset'), !budget_other by done. lia.
    - rewrite lookup_insert_ne by done. lia. }
  destruct (submitted_expired cfg now rec).
  - destruct (submitted_writes rec Hs) as (_ & _ & Hd).
    by apply (Hput StateDeadLetter); [..|apply settles_finalize, Hd].
  - unfold bind, callPoll. cbn. set (answer := Poll _ _).
    eapply (Hput (poll_verdict answer)); [done| | |by apply settle_poll_settles].
    + intros id. unfold submits. cbn. rewrite submits_app. cbn. lia.
    + unfold poll_verdict. by repeat case_match.
Qed.

Lemma look_pays {A} (f : nat → A) : keeps pays (look f).
Proof. intros s. by apply pays_same. Qed.

#[local] Hint Resolve queued_pays submitted_pays look_pays : goeff.

Lemma start_turn_pays : keeps pays (start_turn cfg).
Proof.
  apply keeps_bind; [apply _|auto with goeff|]. intros [e|]; [auto with goeff|].
  apply keeps_bind; [apply _|auto with goeff|]. intros now.
  apply keeps_try; [apply _|auto with goeff|]. intros [b1|e]; [|auto with goeff].
  apply keeps_try; [apply _|auto with goeff|]. intros [b2|e]; [|auto with goeff].
  destruct (b1 || b2); [auto with goeff|].
  apply keeps_try; [apply _| |intros [[]|e]; auto with goeff].
  unfold sleepWithContext. destruct (_ <=? 0); [auto with goeff|].
  apply keeps_bind; [apply _|auto with goeff|]. intros [e|]; auto with goeff.
Qed.

Lemma Start_pays n : keeps pays (Start cfg n).
Proof.
  induction n as [|n IH]; cbn; [auto with goeff|].
  apply keeps_bind; [apply _|apply start_turn_pays|]. intros [e|]; auto with goeff.
Qed.

(** C9. However long the worker runs and whatever store, provider and clock do, one
    run hands a queued record that has made [a] attempts to the provider at most
    [RetryAttempts + 1 - a] more times, so a new message at most
    [RetryAttempts + 1] times; a queued record whose attempts are already used up,
    as after a restart with a lower limit, at most once; and a record that is not
    queued never. *)
Theorem submissions_bounded (n : nat) (s : wstate) (id : string) :
  submits id (fst (Start cfg n s)) - submits id s <= budget (led s !! id).
Proof.
  pose proof (Start_pays n s id). pose proof (budget_nonneg (led (fst (Start cfg n s)) !! id)). lia.
Qed.
End bound.
End props.

(** ** The retry delay *)

Lemma submitRetryDelay_exact cfg a :
  0 <= RetryBaseDelay cfg < 2 ^ 33 →
  submitRetryDelay cfg a = RetryBaseDelay cfg * 2 ^ (Z.min (Z.max a 0) 30).
Proof.
  intros Hb. unfold submitRetryDelay.
  set (sh := if 30 <? _ then 30 else _).
  assert (Hsh : sh = Z.min (Z.max a 0) 30).
  { unfold sh. destruct (Z.ltb_spec a 0) as [?|?].
    - change (30 <? 0) with false. cbv iota. lia.
    - destruct (Z.ltb_spec 30 a); lia. }
  rewrite Hsh. set (k := Z.min _ _). assert (Hk : 0 <= k <= 30) by lia.
  assert (Hp : 1 <= 2 ^ k <= 2 ^ 30) by (split; [apply (Z.pow_le_mono_r 2 0)|apply Z.pow_le_mono_r]; lia).
  rewrite Z.shiftl_mul_pow2, Z.mul_1_l by lia.
  rewrite (wrap64_id (2 ^ k)) by (unfold in_int64, two63; lia).
  apply wrap64_id. unfold in_int64, two63. nia.
Qed.

(** For a base delay below 8.58 seconds (the default is one second) the submit
    retry delay is exponential in the attempt count, capped at [2^30] times the
    base: it is positive, grows with the attempts, and never overflows the
    64-bit duration. *)
Lemma submitRetryDelay_growth (cfg : WorkerConfig) (a a' : Z) :
  0 < RetryBaseDelay cfg < 2 ^ 33 → a <= a' →
  submitRetryDelay cfg a = RetryBaseDelay cfg * 2 ^ (Z.min (Z.max a 0) 30) ∧
  RetryBaseDelay cfg <= submitRetryDelay cfg a <= submitRetryDelay cfg a' ∧
  in_int64 (submitRetryDelay cfg a).
Proof.
  intros Hb Ha. rewrite !submitRetryDelay_exact by lia. split; [done|].
  assert (Hp : 1 <= 2 ^ (Z.min (Z.max a 0) 30) <= 2 ^ (Z.min (Z.max a' 0) 30)).
  { split; [apply (Z.pow_le_mono_r 2 0)|apply Z.pow_le_mono_r]; lia. }
  assert (Hq : 2 ^ (Z.min (Z.max a 0) 30) <= 2 ^ 30) by (apply Z.pow_le_mono_r; lia).
  unfold in_int64, two63. nia.
Qed.

Definition demo_worker : WorkerConfig :=
  MkWorkerConfig (32 * Second) DefaultFinalizeTimeout DefaultPollInterval 3 Second
    DefaultSubmittedTimeout "acs".

Lemma submitRetryDelay_growth_witness :
  submitRetryDelay demo_worker 2 = 4 * Second ∧
  submitRetryDelay demo_worker 2 <= submitRetryDelay demo_worker 3.
Proof.
  destruct (submitRetryDelay_growth demo_worker 2 3) as (H & [_ Hm] & _);
    [vm_compute; split; reflexivity|lia|].
  split; [exact H|exact Hm].
Defined.
