(* ===== verification/Observability.v ===== *)
(** * internal/observability: metrics.go and http.go

    The registry as its counters and gauges, a nil [*Metrics] as [None], and the
    three endpoints.  Prometheus keeps floating-point numbers; counts are exact
    here.  Rendering the registry is Prometheus' own. *)
From S2P Require Import Prelude.
From S2P Require Import GoStrings.
From S2P Require Import GoTime.
From S2P Require Import GoErrors.
From S2P Require Import Email.
From S2P Require Import SpoolCommon.
From S2P Require Import Records.
From S2P Require Import RecordsProps.
From S2P Require Import SpoolStore.
From S2P Require Import Worker.
#[local] Open Scope Z_scope.
#[local] Open Scope relay_scope.

(** ** metrics.go *)

Definition outcomeRunning : string := "running".
Definition outcomeSucceeded : string := "succeeded".
Definition outcomeFailed : string := "failed".
Definition outcomeCanceled : string := "canceled".
Definition outcomeTemporaryError : string := "temporary_error".
Definition outcomePermanentError : string := "permanent_error".
Definition retryStageSubmit : string := "submit".
Definition retryStagePoll : string := "poll".

Definition spoolStates : list string := ["queued"; "working"; "submitted"; "succeeded"; "dead-letter"].

(** A labelled counter that was never incremented has no entry. *)
Record Metrics := MkMetrics {
  mt_sessionsDenied : Z;
  mt_authFailures : Z;
  mt_enqueued : Z;
  mt_enqueueFailures : Z;
  mt_spoolRecords : gmap string Z;
  mt_deliverySubmits : gmap (string * string) Z;
  mt_deliveryPolls : gmap (string * string) Z;
  mt_deliveryRetries : gmap string Z;
}.

Definition NewMetrics : Metrics := MkMetrics 0 0 0 0 ∅ ∅ ∅ ∅.

Definition normalizeProvider (provider : string) : string :=
  if decide (provider = "") then "unknown" else provider.

Definition outcomes : list string :=
  [outcomeRunning; outcomeSucceeded; outcomeFailed; outcomeCanceled; outcomeTemporaryError;
   outcomePermanentError].

Definition normalizeOutcome (outcome : string) : string :=
  if decide (outcome ∈ outcomes) then outcome else outcomePermanentError.

Definition normalizeRetryStage (stage : string) : string :=
  if decide (stage ∈ [retryStageSubmit; retryStagePoll]) then stage else retryStageSubmit.

(** [WithLabelValues(...).Inc()] *)
Definition inc_label `{Countable K} (k : K) (m : gmap K Z) : gmap K Z :=
  <[k := default 0 (m !! k) + 1]> m.

Definition IncSessionsDenied : option Metrics → option Metrics := fmap (λ m,
  MkMetrics (mt_sessionsDenied m + 1) (mt_authFailures m) (mt_enqueued m) (mt_enqueueFailures m)
    (mt_spoolRecords m) (mt_deliverySubmits m) (mt_deliveryPolls m) (mt_deliveryRetries m)).

Definition IncAuthFailures : option Metrics → option Metrics := fmap (λ m,
  MkMetrics (mt_sessionsDenied m) (mt_authFailures m + 1) (mt_enqueued m) (mt_enqueueFailures m)
    (mt_spoolRecords m) (mt_deliverySubmits m) (mt_deliveryPolls m) (mt_deliveryRetries m)).

Definition IncEnqueued : option Metrics → option Metrics := fmap (λ m,
  MkMetrics (mt_sessionsDenied m) (mt_authFailures m) (mt_enqueued m + 1) (mt_enqueueFailures m)
    (mt_spoolRecords m) (mt_deliverySubmits m) (mt_deliveryPolls m) (mt_deliveryRetries m)).

Definition IncEnqueueFailures : option Metrics → option Metrics := fmap (λ m,
  MkMetrics (mt_sessionsDenied m) (mt_authFailures m) (mt_enqueued m) (mt_enqueueFailures m + 1)
    (mt_spoolRecords m) (mt_deliverySubmits m) (mt_deliveryPolls m) (mt_deliveryRetries m)).

Definition metrics_ObserveSubmission (provider outcome : string)
    : option Metrics → option Metrics := fmap (λ m,
  MkMetrics (mt_sessionsDenied m) (mt_authFailures m) (mt_enqueued m) (mt_enqueueFailures m)
    (mt_spoolRecords m)
    (inc_label (normalizeProvider provider, normalizeOutcome outcome) (mt_deliverySubmits m))
    (mt_deliveryPolls m) (mt_deliveryRetries m)).

Definition metrics_ObservePoll (provider outcome : string)
    : option Metrics → option Metrics := fmap (λ m,
  MkMetrics (mt_sessionsDenied m) (mt_authFailures m) (mt_enqueued m) (mt_enqueueFailures m)
    (mt_spoolRecords m) (mt_deliverySubmits m)
    (inc_label (normalizeProvider provider, normalizeOutcome outcome) (mt_deliveryPolls m))
    (mt_deliveryRetries m)).

Definition metrics_IncRetry (stage : string) : option Metrics → option Metrics := fmap (λ m,
  MkMetrics (mt_sessionsDenied m) (mt_authFailures m) (mt_enqueued m) (mt_enqueueFailures m)
    (mt_spoolRecords m) (mt_deliverySubmits m) (mt_deliveryPolls m)
    (inc_label (normalizeRetryStage stage) (mt_deliveryRetries m))).

Definition set_spoolRecords (g : gmap string Z) (m : Metrics) : Metrics :=
  MkMetrics (mt_sessionsDenied m) (mt_authFailures m) (mt_enqueued m) (mt_enqueueFailures m)
    g (mt_deliverySubmits m) (mt_deliveryPolls m) (mt_deliveryRetries m).

(** [spoolStateCounts] is the result of the callback, [None] when it is nil. *)
Definition refreshSpoolStateCounts (spoolStateCounts : option (gmap string Z + goerr))
    : option Metrics → option Metrics := fmap (λ m,
  match spoolStateCounts with
  | Some (inl counts) =>
      let zeroed := foldr (λ st g, <[st := 0]> g) (mt_spoolRecords m) spoolStates in
      set_spoolRecords (counts ∪ zeroed) m
  | _ => m
  end).

(** ** http.go *)

Record http_response := MkResponse { rp_status : Z; rp_body : string }.

Definition newline : string := sb [chr 10].

(** The mux of [NewServer]: [ready] is the value of [ReadyFn], [None] when it is
    nil, [scrape] what the metrics handler answers. *)
Definition obs_serve (path : string) (ready : option bool) (scrape : http_response)
    : http_response :=
  if decide (path = "/healthz") then MkResponse 200 ("ok" +:+ newline)
  else if decide (path = "/readyz") then
    match ready with
    | Some false => MkResponse 503 ("not ready" +:+ newline)
    | _ => MkResponse 200 ("ready" +:+ newline)
    end
  else if decide (path = "/metrics") then scrape
  else MkResponse 404 ("404 page not found" +:+ newline).

(** ** What the worker reports *)

Definition record_event (m : option Metrics) (e : event) : option Metrics :=
  match e with
  | ObserveSubmission provider outcome => metrics_ObserveSubmission provider outcome m
  | ObservePoll provider outcome => metrics_ObservePoll provider outcome m
  | IncRetry stage => metrics_IncRetry stage m
  | _ => m
  end.

(** ** Properties *)

(** The number of rows in a state. *)
Definition count_state (t : gmap string row) (st : State) : Z :=
  Z.of_nat (length (filter (λ x : string * row, r_state x.2 = st) (map_to_list t))).

Lemma count_state_list t st :
  Z.of_nat (length (filter (λ s, s = st) ((λ x : string * row, r_state x.2) <$> map_to_list t)))
  = count_state t st.
Proof.
  unfold count_state. f_equal. induction (map_to_list t) as [|x l IH]; [done|].
  rewrite fmap_cons, !filter_cons. repeat case_decide; cbn [length]; first [contradiction|exact IH|by apply f_equal].
Qed.

Section scrape.
Context `{U : UnicodeTables} `{Env : RecordEnv} `{P : Payloads}.

Lemma scan_counts_ok gs c s s' counts st :
  NoDup gs.*1 → scan_counts gs c s = (s', inl counts) →
  counts !! st = match list_find (λ g, g.1 = st) gs with
                 | Some (_, g) => Some g.2
                 | None => c !! st
                 end.
Proof.
  revert c s. induction gs as [|[st' n] gs IH]; intros c s Hnd H; cbn [scan_counts] in H;
    bind_inv H as u s1 Hd; cbn in *.
  - injection H as _ <-. done.
  - destruct (isValidState st'); [|done]. apply NoDup_cons in Hnd as [Hni Hnd].
    rewrite (IH _ _ Hnd H). case_decide as He; cbn.
    + subst st'. destruct (list_find (λ g, g.1 = st) gs) as [[i g]|] eqn:Hf; cbn.
      * apply list_find_Some in Hf as (Hl & Hg & _). destruct Hni.
        apply list_elem_of_fmap. exists g. split; [done|]. by eapply list_elem_of_lookup_2.
      * apply lookup_insert_eq.
    + destruct (list_find (λ g, g.1 = st) gs) as [[i g]|]; cbn; [done|].
      by rewrite lookup_insert_ne.
Qed.

Lemma group_counts_nodup t : NoDup (group_counts t).*1.
Proof.
  unfold group_counts. rewrite <- list_fmap_compose. cbn.
  rewrite list_fmap_id. apply NoDup_remove_dups.
Qed.

Lemma count_state_zero t st :
  st ∉ (group_counts t).*1 → count_state t st = 0.
Proof.
  unfold group_counts. rewrite <- list_fmap_compose. cbn. rewrite list_fmap_id.
  rewrite elem_of_remove_dups. intros Hn. rewrite <- count_state_list.
  destruct (filter _ _) as [|x l] eqn:Hf; [done|].
  assert (Hx : x ∈ filter (λ s, s = st) ((λ x : string * row, r_state x.2) <$> map_to_list t))
    by (rewrite Hf; left).
  apply list_elem_of_filter in Hx as [-> Hx]. done.
Qed.

Lemma stateCounts_ok s s' counts (st : string) :
  stateCounts s = (s', inl counts) →
  default 0 (counts !! st) = count_state (db_cur s) st.
Proof.
  unfold stateCounts. intros H. bind_inv H as u s1 Hd. destruct u. apply wrapped_ok, drv_ok in Hd as (Hs & _).
  bind_inv H as s2 s3 Hg. injection Hg as <- <-.
  rewrite (scan_counts_ok _ _ _ _ _ _ (group_counts_nodup _) H).
  destruct (list_find _ _) as [[i [st' n]]|] eqn:Hf; cbn.
  - apply list_find_Some in Hf as (Hl & Hg & _). cbn in Hg. subst st'.
    apply list_elem_of_lookup_2, list_elem_of_fmap in Hl as (st' & [= <- ->] & _).
    rewrite <- Hs. apply count_state_list.
  - rewrite <- Hs. symmetry. apply count_state_zero.
    intros Hin. apply list_elem_of_fmap in Hin as (g & -> & Hin).
    apply list_find_None in Hf. eapply (proj1 (Forall_forall _ _) Hf); done.
Qed.

(** C24. A scrape shows the table: when the count query succeeds, the gauge of each
    state is the number of records the database holds in it, also for the states
    that no record is in; when it fails, the gauges keep their values. *)
Theorem scrape_counts (s s' : spool) (r : gmap string Z + goerr) (m : Metrics) (st : string) :
  StateCounts s = (s', r) → st ∈ spoolStates →
  ∃ m', refreshSpoolStateCounts (Some r) (Some m) = Some m' ∧
        match r with
        | inl _ => mt_spoolRecords m' !! st = Some (count_state (db_cur (sp_records s)) st)
        | inr _ => m' = m
        end.
Proof.
  intros H Hst. eexists. split; [reflexivity|]. destruct r as [counts|e]; [|done].
  unfold StateCounts, records in H.
  destruct (stateCounts (sp_records s)) as [s1 r1] eqn:Hc. injection H as <- ->.
  pose proof (stateCounts_ok _ _ _ st Hc) as Hd. cbn -[spoolStates].
  rewrite <- Hd. rewrite lookup_union. destruct (counts !! st) as [n|]; cbn -[spoolStates].
  - by destruct (foldr _ _ _ !! st).
  - rewrite (left_id_L None _).
    unfold spoolStates in Hst. set_unfold in Hst. cbn [foldr spoolStates].
    destruct_or! Hst; subst st; repeat first [rewrite lookup_insert_eq; done|rewrite lookup_insert_ne by done].
Qed.
End scrape.
