(* ===== verification/Relay.v ===== *)
(** * internal/relay/handler.go, internal/smtp/delivery_status.go and the
    enqueue adapter of cmd/relay/main.go

    The accept path: sender policy, the bounded number of enqueues in flight,
    the durable enqueue, and the SMTP reply.  Sessions call the handler
    concurrently; [hstep] interleaves them at the two points where the handler
    touches shared state. *)
From S2P Require Import Prelude.
From S2P Require Import GoStrings.
From S2P Require Import GoTime.
From S2P Require Import GoErrors.
From S2P Require Import Email.
From S2P Require Import SenderPolicy.
From S2P Require Import SpoolCommon.
From S2P Require Import Records.
From S2P Require Import SpoolStore.
#[local] Open Scope Z_scope.
#[local] Open Scope relay_scope.

(** ** handler.go *)

Record Handler := MkHandler {
  h_policyMode : string;
  h_senderPolicy : SenderPolicy;
  h_maxInflight : Z;  (** [cap(h.inflight)] *)
}.

(** [store] says whether the interface value is non-nil. *)
Definition NewHandler (policyMode : string) (policy : SenderPolicy) (store : bool)
    (maxInflight : Z) : Handler + goerr :=
  if negb store then inr (EText "spool store is required")
  else if maxInflight <=? 0 then inr (EText "max inflight must be positive")
  else inl (MkHandler policyMode policy maxInflight).

Section handler.
Context `{U : UnicodeTables} `{Rx : MailRegexp} `{St : Store}.
Context (h : Handler).

(** The channel's length, the store, and the two enqueue metrics. *)
Record hstate := MkH {
  hs_inflight : Z;
  hs_store : sstate;
  hs_enqueued : Z;
  hs_failures : Z;
}.

Definition H := io goerr hstate.

(** [HandleMessage] up to and including the non-blocking send on the inflight
    channel: the message to enqueue, with a slot taken. *)
Definition handle_admit (ctx : option goerr) (msg : Message) : H Message := λ s,
  match ctx with
  | Some e => (s, inr e)
  | None =>
      match ApplySenderPolicy msg (h_senderPolicy h) with
      | (_, Some e) => (s, inr e)
      | (res, None) =>
          if hs_inflight s <? h_maxInflight h then
            (MkH (hs_inflight s + 1) (hs_store s) (hs_enqueued s) (hs_failures s),
             inl (pr_Message res))
          else (s, inr (BusyError (h_maxInflight h)))
      end
  end.

(** The rest: enqueue, count, and the deferred receive. *)
Definition handle_enqueue (ctx : option goerr) (msg : Message) : H unit := λ s,
  match store_Enqueue ctx msg (hs_store s) with
  | (st, inl _) => (MkH (hs_inflight s - 1) st (hs_enqueued s + 1) (hs_failures s), inl tt)
  | (st, inr e) =>
      let failures := match AsStoreError e with
                      | Some _ => hs_failures s + 1
                      | None => hs_failures s
                      end in
      (MkH (hs_inflight s - 1) st (hs_enqueued s) failures, inr e)
  end.

(** [ctx] when the call starts and [ctx'] when the enqueue starts. *)
Definition HandleMessage (ctx ctx' : option goerr) (msg : Message) : H unit :=
  let! msg := handle_admit ctx msg in
  handle_enqueue ctx' msg.

(** ** main.go: newEnqueueMessageHandler *)

Definition senderPolicyRejectedError : goerr :=
  SMTPError 554 (5, 7, 1) "sender rejected by relay policy".
Definition relayBusyError : goerr := SMTPError 451 (4, 3, 2) "relay busy, try again later".
Definition temporaryRelayError : goerr := SMTPError 451 (4, 3, 0) "temporary relay failure".

Definition enqueue_reply (e : goerr) : goerr :=
  match AsSenderPolicyError e with
  | Some _ => senderPolicyRejectedError
  | None =>
      match AsBusyError e with
      | Some _ => relayBusyError
      | None =>
          match AsStoreError e with
          | Some _ => temporaryRelayError
          | None =>
              if errors_Is is_Canceled e || errors_Is is_DeadlineExceeded e
              then temporaryRelayError else temporaryRelayError
          end
      end
  end.

Definition newEnqueueMessageHandler (ctx ctx' : option goerr) (msg : Message) : H unit :=
  try (HandleMessage ctx ctx' msg) (λ r,
    match r with
    | inl _ => ret tt
    | inr e => fail (enqueue_reply e)
    end).

(** ** Concurrent sessions

    A session is a number; [p_running] holds the sessions that took a slot
    and have not enqueued yet, with the message they will enqueue, and
    [p_replies] the answers given. *)
Record process := MkProcess {
  p_state : hstate;
  p_running : gmap nat Message;
  p_replies : gmap nat (option goerr);
}.

Inductive hstep : process → process → Prop :=
  | step_admit i ctx msg msg' p s' :
      p_running p !! i = None → p_replies p !! i = None →
      handle_admit ctx msg (p_state p) = (s', inl msg') →
      hstep p (MkProcess s' (<[i := msg']> (p_running p)) (p_replies p))
  | step_refuse i ctx msg e p s' :
      p_running p !! i = None → p_replies p !! i = None →
      handle_admit ctx msg (p_state p) = (s', inr e) →
      hstep p (MkProcess s' (p_running p) (<[i := Some (enqueue_reply e)]> (p_replies p)))
  | step_enqueue i ctx msg p s' r :
      p_running p !! i = Some msg →
      handle_enqueue ctx msg (p_state p) = (s', r) →
      hstep p (MkProcess s' (delete i (p_running p))
                 (<[i := match r with inl _ => None | inr e => Some (enqueue_reply e) end]>
                    (p_replies p))).

Definition initial (st : sstate) : process := MkProcess (MkH 0 st 0 0) ∅ ∅.
End handler.

#[global] Arguments hstate {St}.
#[global] Arguments H {St} A.
#[global] Arguments process {St}.

(** ** delivery_status.go *)

Definition temporaryDeliveryError : goerr := SMTPError 451 (4, 3, 0) "temporary relay failure".
Definition permanentDeliveryError : goerr := SMTPError 554 (5, 0, 0) "permanent relay failure".

Definition MapDeliveryError (err : option goerr) : option goerr :=
  match err with
  | None => None
  | Some e =>
      match AsSMTPError e with
      | Some (code, enh, msg) => Some (SMTPError code enh msg)
      | None =>
          match AsDeliveryError e with
          | None => Some temporaryDeliveryError
          | Some d => Some (if de_temporary d then temporaryDeliveryError else permanentDeliveryError)
          end
      end
  end.

(** ** Properties *)

Section props.
Context `{U : UnicodeTables} `{Rx : MailRegexp} {St : Store} {SL : StoreLaws St}.
Context (h : Handler).

Lemma handle_admit_inflight ctx msg s s' r :
  handle_admit h ctx msg s = (s', r) →
  hs_store s' = hs_store s ∧ hs_enqueued s' = hs_enqueued s ∧
  match r with
  | inl _ => hs_inflight s' = hs_inflight s + 1 ∧ hs_inflight s < h_maxInflight h
  | inr _ => s' = s
  end.
Proof.
  unfold handle_admit. destruct ctx; [by intros [= <- <-]|].
  destruct (ApplySenderPolicy _ _) as [res [e|]]; [by intros [= <- <-]|].
  destruct (Z.ltb_spec (hs_inflight s) (h_maxInflight h)); by intros [= <- <-].
Qed.

Lemma handle_enqueue_inflight ctx msg s s' r :
  handle_enqueue ctx msg s = (s', r) → hs_inflight s' = hs_inflight s - 1.
Proof.
  unfold handle_enqueue. destruct (store_Enqueue ctx msg (hs_store s)) as [st [rec|e]];
    by intros [= <- <-].
Qed.

(** A message the adapter accepts was enqueued as the sender policy left it. *)
Lemma handler_success ctx ctx' msg s s' :
  newEnqueueMessageHandler h ctx ctx' msg s = (s', inl tt) →
  snd (ApplySenderPolicy msg (h_senderPolicy h)) = None ∧ hs_inflight s' = hs_inflight s ∧
  ∃ rec, store_Enqueue ctx' (pr_Message (ApplySenderPolicy msg (h_senderPolicy h)).1) (hs_store s)
         = (hs_store s', inl rec).
Proof.
  unfold newEnqueueMessageHandler, try.
  destruct (HandleMessage h ctx ctx' msg s) as [s1 [[]|e]] eqn:Hh; cbn; [|done]. intros [= <-].
  unfold HandleMessage in Hh. bind_inv Hh as m s0 Ha.
  pose proof (handle_enqueue_inflight _ _ _ _ _ Hh) as Hi.
  apply handle_admit_inflight in Ha as Hin. destruct Hin as (Hst & _ & Hin & _).
  unfold handle_admit in Ha. destruct ctx; [done|].
  destruct (ApplySenderPolicy _ _) as [res [e|]]; [done|].
  destruct (_ <? _); [|done]. injection Ha as <- <-. cbn in *. split_and!; [done|lia|].
  unfold handle_enqueue in Hh. cbn in Hh.
  destruct (store_Enqueue ctx' (pr_Message res) (hs_store s)) as [st [rec|e]] eqn:He; [|done].
  injection Hh as <-. by exists rec.
Qed.

(** The channel counts the sessions that hold a slot. *)
Definition slots_ok (p : process) : Prop :=
  hs_inflight (p_state p) = Z.of_nat (size (p_running p)) ∧
  hs_inflight (p_state p) <= h_maxInflight h ∧
  ∀ i, is_Some (p_running p !! i) → p_replies p !! i = None.

Lemma hstep_slots p p' : hstep h p p' → slots_ok p → slots_ok p'.
Proof.
  intros Hs (Hn & Hc & Hd). destruct Hs as [i ctx msg msg' p s' Hi Hr Ha
    |i ctx msg e p s' Hi Hr Ha|i ctx msg p s' r Hi He]; cbn in *.
  - apply handle_admit_inflight in Ha as (_ & _ & Hin & Hlt). split_and!; cbn.
    + rewrite map_size_insert_None by done. lia.
    + lia.
    + intros j. destruct (decide (j = i)) as [-> |Hne]; [done|].
      rewrite lookup_insert_ne by done. apply Hd.
  - apply handle_admit_inflight in Ha as (_ & _ & ->). split_and!; cbn; [done|done|].
    intros j Hj. rewrite lookup_insert_ne; [by apply Hd|].
    intros ->. rewrite Hi in Hj. by apply is_Some_None in Hj.
  - apply handle_enqueue_inflight in He as Hin.
    assert (Hpos : (0 < size (p_running p))%nat).
    { rewrite Nat.lt_nge. intros Hz. apply Nat.le_0_r, map_size_empty_iff in Hz.
      by rewrite Hz, lookup_empty in Hi. }
    split_and!; cbn.
    + rewrite map_size_delete_Some by eauto. lia.
    + lia.
    + intros j Hj. destruct (decide (j = i)) as [-> |Hne].
      * rewrite lookup_delete_eq in Hj. by apply is_Some_None in Hj.
      * rewrite lookup_insert_ne by done. apply Hd. by rewrite lookup_delete_ne in Hj.
Qed.

(** C30. In every interleaving of any number of sessions, the number of messages being
    enqueued at once never exceeds the configured limit, and the slots in use
    are exactly those of the sessions still running: every way out of the
    handler gives its slot back. *)
Theorem inflight_bounded (st : sstate) (p : process) :
  0 <= h_maxInflight h → rtc (hstep h) (initial st) p →
  hs_inflight (p_state p) = Z.of_nat (size (p_running p)) ∧
  Z.of_nat (size (p_running p)) <= h_maxInflight h.
Proof.
  intros Hm Hp. assert (Hok : slots_ok p).
  { apply (rtc_invariant (hstep h) _ _ _ hstep_slots Hp).
    split_and!; [done|done|by intros i [? ?]]. }
  destruct Hok as (Hn & Hc & _). lia.
Qed.

(** Sessions that were told their message was accepted. *)
Definition accepted (p : process) : nat :=
  size (filter (λ x, x.2 = @None goerr) (p_replies p)).

(** What enqueueing adds to the ledger and to the metric. *)
Lemma handle_enqueue_ledger ctx msg s s' r :
  handle_enqueue ctx msg s = (s', r) →
  (size (ledger (hs_store s)) + (match r with inl _ => 1 | inr _ => 0 end) <= size (ledger (hs_store s')))%nat ∧
  hs_enqueued s' = hs_enqueued s + (match r with inl _ => 1 | inr _ => 0 end).
Proof.
  unfold handle_enqueue. pose proof (enqueue_any ctx msg (hs_store s)) as Hany.
  destruct (store_Enqueue ctx msg (hs_store s)) as [st [rec|e]] eqn:He; intros [= <- <-]; cbn in *.
  - destruct (enqueue_ok _ _ _ _ _ He) as (_ & Hn & ->).
    rewrite map_size_insert_None by done. lia.
  - split; [|lia]. rewrite Nat.add_0_r. by apply map_subseteq_size.
Qed.

Lemma accepted_reply (p : process) i r s' run :
  p_replies p !! i = None →
  accepted (MkProcess s' run (<[i := r]> (p_replies p))) =
  (accepted p + if r is Some _ then 0 else 1)%nat.
Proof.
  intros Hi. unfold accepted. cbn. destruct r as [e|].
  - rewrite map_filter_insert_False by (cbn; done). rewrite delete_id by done. lia.
  - rewrite map_filter_insert_True by done. rewrite map_size_insert_None; [lia|].
    apply map_lookup_filter_None. by left.
Qed.

Definition counts_ok (st : sstate) (p : process) : Prop :=
  slots_ok p ∧ hs_enqueued (p_state p) = Z.of_nat (accepted p) ∧
  (size (ledger st) + accepted p <= size (ledger (hs_store (p_state p))))%nat.

Lemma hstep_counts st p p' : hstep h p p' → counts_ok st p → counts_ok st p'.
Proof.
  intros Hs (Hok & He & Hl). split; [by eapply hstep_slots|].
  destruct Hok as (_ & _ & Hd).
  destruct Hs as [i ctx msg msg' p s' Hi Hr Ha|i ctx msg e p s' Hi Hr Ha|i ctx msg p s' r Hi Hq]; cbn in *.
  - apply handle_admit_inflight in Ha as (-> & -> & _). done.
  - rewrite accepted_reply by done. apply handle_admit_inflight in Ha as (_ & _ & ->).
    rewrite Nat.add_0_r. done.
  - rewrite accepted_reply by (apply Hd; eauto).
    apply handle_enqueue_ledger in Hq as [Hl' He']. destruct r; cbn in *; lia.
Qed.

(** C11. In every interleaving of sessions, each message reported as accepted has a
    committed record of its own: the spool has grown by at least the number
    of acceptances, which is also what the enqueue metric shows. *)
Theorem accepted_have_records (st : sstate) (p : process) :
  0 <= h_maxInflight h → rtc (hstep h) (initial st) p →
  (size (ledger st) + accepted p <= size (ledger (hs_store (p_state p))))%nat ∧
  hs_enqueued (p_state p) = Z.of_nat (accepted p).
Proof.
  intros Hm Hp. assert (Hok : counts_ok st p).
  { apply (rtc_invariant (hstep h) _ _ _ (hstep_counts st) Hp).
    split; [split_and!; [done|done|by intros i [? ?]]|]. cbn. split; [done|].
    unfold accepted. cbn. rewrite map_filter_empty, map_size_empty. lia. }
  destruct Hok as (_ & He & Hl). done.
Qed.

(** C10. The adapter's reply: success only when the store committed a new queued
    record for the policy-normalised message; a permanent 554 only for an
    error that is a sender-policy rejection; anything else is a temporary
    451, so the client keeps the message. *)
Theorem newEnqueueMessageHandler_reply (ctx ctx' : option goerr) (msg : Message)
    (s s' : hstate) (r : unit + goerr) :
  newEnqueueMessageHandler h ctx ctx' msg s = (s', r) →
  match r with
  | inl _ =>
      (∃ st rec, store_Enqueue ctx' (pr_Message (ApplySenderPolicy msg (h_senderPolicy h)).1)
                   (hs_store s) = (st, inl rec) ∧ hs_store s' = st ∧
         ledger (hs_store s') = <[rec_ID rec := (StateQueued, 0)]> (ledger (hs_store s)) ∧
         ledger (hs_store s) !! rec_ID rec = None) ∧
      snd (ApplySenderPolicy msg (h_senderPolicy h)) = None
  | inr e =>
      ∃ cause s1, HandleMessage h ctx ctx' msg s = (s1, inr cause) ∧
        (e = senderPolicyRejectedError ∧ is_Some (AsSenderPolicyError cause) ∨
         ∃ enh m, e = SMTPError 451 enh m ∧ AsSenderPolicyError cause = None)
  end ∧ hs_inflight s' = hs_inflight s.
Proof.
  intros Hr. destruct r as [[]|e'].
  { destruct (handler_success _ _ _ _ _ Hr) as (Hp & Hi & rec & He).
    destruct (enqueue_ok _ _ _ _ _ He) as (_ & ? & ?). split; [|done]. split; [|done].
    by exists (hs_store s'), rec. }
  unfold newEnqueueMessageHandler, try in Hr.
  destruct (HandleMessage h ctx ctx' msg s) as [s1 [[]|e]] eqn:Hh; cbn in Hr; [done|].
  injection Hr as <- <-.
  split.
  - exists e, s1. split; [done|]. unfold enqueue_reply.
    destruct (AsSenderPolicyError e); [left; split; [done|by eexists]|right].
    destruct (AsBusyError e); [by do 2 eexists|].
    destruct (AsStoreError e); [by do 2 eexists|]. destruct (_ || _); by do 2 eexists.
  - unfold HandleMessage, bind in Hh.
    destruct (handle_admit h ctx msg s) as [s0 [m|e0]] eqn:Ha;
      apply handle_admit_inflight in Ha as (_ & _ & Hin).
    + apply handle_enqueue_inflight in Hh. lia.
    + injection Hh as <- <-. by subst.
Qed.

(** A reply the adapter makes reaches the client unchanged. *)
Lemma MapDeliveryError_reply e : MapDeliveryError (Some (enqueue_reply e)) = Some (enqueue_reply e).
Proof.
  unfold enqueue_reply. destruct (AsSenderPolicyError e); [done|].
  destruct (AsBusyError e); [done|]. destruct (AsStoreError e); [done|]. by destruct (_ || _).
Qed.
End props.
