(* ===== verification/Config.v ===== *)
(** * internal/config/config.go

    Configuration from environment variables and mounted files, and its
    validation.  [os.LookupEnv] and [os.ReadFile] are parameters. *)
From Stdlib Require Import Ascii.
From S2P Require Import Prelude.
From S2P Require Import GoStrings.
From S2P Require Import GoTime.
From S2P Require Import GoErrors.
From S2P Require Import GoNetip.
From S2P Require Import Worker.
#[local] Open Scope Z_scope.
#[local] Open Scope relay_scope.

Definition defaultSMTPListenAddr : string := "0.0.0.0:2525".
Definition defaultHTTPListenAddr : string := "0.0.0.0:8080".
Definition defaultDeliveryRetryAttempts : Z := 3.
Definition maxDeliveryRetryAttempts : Z := 10.
Definition defaultDeliveryRetryBaseDelayMS : Z := 1000.
Definition defaultDeliveryMode : string := "acs".
Definition defaultSMTPRequireAuth : bool := true.
Definition defaultSMTPAuthProvider : string := "static".
Definition defaultSMTPStartTLSEnabled : bool := true.
Definition defaultSMTPRequireTLS : bool := false.
Definition defaultSMTPMaxInflightSends : Z := 200.
Definition defaultDeliveryHTTPTimeoutMS : Z := 30000.
Definition defaultDeliveryHTTPMaxIdleConns : Z := 200.
Definition defaultDeliveryHTTPMaxIdleConnsPerHost : Z := 50.
Definition defaultDeliveryHTTPIdleConnTimeoutMS : Z := 90000.
Definition defaultSenderPolicyMode : string := "rewrite".
Definition defaultSpoolDir : string := "/var/lib/smtp-cloud-relay/spool".
Definition defaultSpoolPollIntervalMS : Z := DefaultPollInterval / Millisecond.

Record Config := MkConfig {
  SMTPListenAddr : string;
  HTTPListenAddr : string;
  DeliveryMode : string;
  SMTPAllowedCIDRs : list string;
  SMTPRequireAuth : bool;
  SMTPAuthProvider : string;
  SMTPAuthUsername : string;
  SMTPAuthPassword : string;
  SMTPStartTLSEnabled : bool;
  SMTPRequireTLS : bool;
  SMTPSListenAddr : string;
  SMTPTLSCertFile : string;
  SMTPTLSKeyFile : string;
  SMTPMaxInflightSends : Z;
  SenderPolicyMode : string;
  SenderAllowedDomains : list string;
  DeliveryRetryAttempts : Z;
  DeliveryRetryBaseDelayMS : Z;
  DeliveryHTTPTimeoutMS : Z;
  DeliveryHTTPMaxIdleConns : Z;
  DeliveryHTTPMaxIdleConnsPerHost : Z;
  DeliveryHTTPIdleConnTimeoutMS : Z;
  SpoolDir : string;
  SpoolPollIntervalMS : Z;
  ACSEndpoint : string;
  ACSConnectionString : string;
  ACSSender : string;
  OutboundTLSCAFile : string;
  OutboundTLSCAPEM : string;
  SESRegion : string;
  SESSender : string;
  SESEndpoint : string;
  SESConfigurationSet : string;
  SESAccessKeyID : string;
  SESSecretAccessKey : string;
  SESSessionToken : string;
}.

(** ** strconv *)

Definition digit_val (c : ascii) : option Z :=
  if between 48 57 c then Some (byte_val c - 48) else None.

Fixpoint decimal (acc : Z) (l : bytes) : option Z :=
  match l with
  | [] => Some acc
  | c :: l => match digit_val c with Some d => decimal (10 * acc + d) l | None => None end
  end.

(** [strconv.Atoi]: an optional sign and decimal digits, in the range of
    [int]. *)
Definition Atoi `{UnicodeTables} (s : string) : Z + goerr :=
  let syntax := inr (EText ("strconv.Atoi: parsing " +:+ Quote s +:+ ": invalid syntax")) in
  let range := inr (EText ("strconv.Atoi: parsing " +:+ Quote s +:+ ": value out of range")) in
  let '(neg, l) := match bs s with
                   | c :: l => if Ascii.eqb c (chr 45) then (true, l)
                               else if Ascii.eqb c (chr 43) then (false, l) else (false, c :: l)
                   | [] => (false, [])
                   end in
  match l with
  | [] => syntax
  | _ => match decimal 0 l with
         | None => syntax
         | Some v =>
             let v := if neg : bool then - v else v in
             if (- two63 <=? v) && (v <? two63) then inl v else range
         end
  end.

Definition ParseBool `{UnicodeTables} (s : string) : bool + goerr :=
  if existsb (λ x, bool_decide (s = x)) ["1"; "t"; "T"; "TRUE"; "true"; "True"] then inl true
  else if existsb (λ x, bool_decide (s = x)) ["0"; "f"; "F"; "FALSE"; "false"; "False"] then inl false
  else inr (EText ("strconv.ParseBool: parsing " +:+ Quote s +:+ ": invalid syntax")).

(** [strings.FieldsFunc] for a predicate on single bytes: the maximal runs of
    bytes that do not satisfy it. *)
Fixpoint FieldsFunc (p : ascii → bool) (cur : bytes) (l : bytes) : list bytes :=
  match l with
  | [] => match cur with [] => [] | _ => [cur] end
  | c :: l =>
      if p c then match cur with [] => FieldsFunc p [] l | _ => cur :: FieldsFunc p [] l end
      else FieldsFunc p (cur ++ [c]) l
  end.

(** ** Reading the environment *)

(** [os.LookupEnv] and [os.ReadFile]. *)
Class Environment := {
  LookupEnv : string → option string;
  ReadFile : string → string + goerr;
}.

Section load.
Context `{U : UnicodeTables} `{Env : Environment}.

Definition envOrFile (key : string) : string + goerr :=
  let from_file :=
    match LookupEnv (key +:+ "_FILE") with
    | Some path =>
        match ReadFile path with
        | inr e => inr (EWrapf ("read " +:+ key +:+ " from file " +:+ Quote path) e)
        | inl b => inl (TrimSpace b)
        end
    | None => inl ""
    end in
  match LookupEnv key with
  | Some val =>
      let trimmed := TrimSpace val in
      if decide (trimmed = "") then from_file else inl trimmed
  | None => from_file
  end.

Fixpoint first_set (keys : list string) : string + goerr :=
  match keys with
  | [] => inl ""
  | key :: keys =>
      let* val := envOrFile key in
      if decide (val = "") then first_set keys else inl val
  end.

Definition envOrFileCompat (primary : string) (aliases : list string) : string + goerr :=
  first_set (primary :: aliases).

Definition list_separator (c : ascii) : bool :=
  existsb (Ascii.eqb c) [chr 44; chr 10; chr 13; chr 9; chr 32].

Definition envOrFileList (key : string) : list string + goerr :=
  let* raw := envOrFile key in
  if decide (raw = "") then inl []
  else
    let fields := sb <$> FieldsFunc list_separator [] (bs raw) in
    inl (filter (λ f, f ≠ "") (TrimSpace <$> fields)).

Definition envOrFileInt (key : string) (defaultValue : Z) : Z + goerr :=
  let* raw := envOrFile key in
  if decide (raw = "") then inl defaultValue
  else match Atoi raw with
       | inr e => inr (EWrapf (key +:+ " must be an integer") e)
       | inl v => if v <? 1 then inr (EText (key +:+ " must be >= 1")) else inl v
       end.

Definition envOrFileBool (key : string) (defaultValue : bool) : bool + goerr :=
  let* raw := envOrFile key in
  if decide (raw = "") then inl defaultValue
  else match ParseBool raw with
       | inr e => inr (EWrapf (key +:+ " must be a boolean") e)
       | inl v => inl v
       end.

(** ** Validation *)

Fixpoint parse_cidrs (values : list string) : list Prefix + goerr :=
  match values with
  | [] => inl []
  | raw :: values =>
      let raw := TrimSpace raw in
      if decide (raw = "") then parse_cidrs values
      else match ParsePrefix raw with
           | inr e => inr (EWrapf ("invalid CIDR in SMTP_ALLOWED_CIDRS: " +:+ Quote raw) e)
           | inl pfx => let* out := parse_cidrs values in inl (pfx :: out)
           end
  end.

Definition ParseCIDRs (values : list string) : list Prefix + goerr :=
  let* out := parse_cidrs values in
  match out with
  | [] => inr (EText "SMTP_ALLOWED_CIDRS contains no valid entries")
  | _ => inl out
  end.

Definition blank_setting (s : string) : bool := bool_decide (TrimSpace s = "").

Definition require (bad : bool) (message : string) : unit + goerr :=
  if bad then inr (EText message) else inl tt.

(** The delivery-mode switches of [Validate]. *)
Definition Validate_mode (c : Config) : unit + goerr :=
  if decide (DeliveryMode c = "acs") then
    let* _ := require (blank_setting (ACSConnectionString c))
                "ACS_CONNECTION_STRING is required when DELIVERY_MODE=acs" in
    require (blank_setting (ACSSender c)) "ACS_SENDER is required when DELIVERY_MODE=acs"
  else if decide (DeliveryMode c = "ses") then
    let* _ := require (blank_setting (SESRegion c))
                "SES_REGION is required when DELIVERY_MODE=ses" in
    let* _ := require (blank_setting (SESSender c))
                "SES_SENDER is required when DELIVERY_MODE=ses" in
    let hasAccess := negb (blank_setting (SESAccessKeyID c)) in
    let hasSecret := negb (blank_setting (SESSecretAccessKey c)) in
    let* _ := require (xorb hasAccess hasSecret)
                "SES_ACCESS_KEY_ID and SES_SECRET_ACCESS_KEY must both be set or both be empty" in
    require (negb (blank_setting (SESSessionToken c)) && (negb hasAccess || negb hasSecret))
      "SES_SESSION_TOKEN requires SES_ACCESS_KEY_ID and SES_SECRET_ACCESS_KEY"
  else inl tt.

Definition Validate (c : Config) : unit + goerr :=
  let* _ := require (negb (existsb (λ m, bool_decide (DeliveryMode c = m)) ["acs"; "noop"; "ses"]))
              "DELIVERY_MODE must be one of: acs, noop, ses" in
  let* _ := Validate_mode c in
  let* _ := require (bool_decide (SMTPAllowedCIDRs c = []))
              "SMTP_ALLOWED_CIDRS must be configured to avoid open relay" in
  let* _ := ParseCIDRs (SMTPAllowedCIDRs c) in
  let* _ := require (negb (SMTPRequireAuth c))
              "SMTP_REQUIRE_AUTH must be true to avoid open relay" in
  let* _ := require (negb (bool_decide (TrimSpace (SMTPAuthProvider c) = "static")))
              ("SMTP_AUTH_PROVIDER " +:+ Quote (SMTPAuthProvider c)
               +:+ " is not supported; expected static") in
  let* _ := require (blank_setting (SMTPAuthUsername c))
              "SMTP_AUTH_USERNAME is required when SMTP_REQUIRE_AUTH=true" in
  let* _ := require (blank_setting (SMTPAuthPassword c))
              "SMTP_AUTH_PASSWORD is required when SMTP_REQUIRE_AUTH=true" in
  let tlsConfigured := negb (blank_setting (SMTPTLSCertFile c))
                       && negb (blank_setting (SMTPTLSKeyFile c)) in
  let* _ := require ((SMTPStartTLSEnabled c || negb (blank_setting (SMTPSListenAddr c)))
                     && negb tlsConfigured)
              "SMTP_TLS_CERT_FILE and SMTP_TLS_KEY_FILE are required when STARTTLS or SMTPS is enabled" in
  let* _ := require (SMTPRequireTLS c && negb (SMTPStartTLSEnabled c)
                     && blank_setting (SMTPSListenAddr c))
              "SMTP_REQUIRE_TLS=true requires SMTP_STARTTLS_ENABLED=true or SMTPS_LISTEN_ADDR to be set" in
  let* _ := require (SMTPMaxInflightSends c <? 1) "SMTP_MAX_INFLIGHT_SENDS must be >= 1" in
  let* _ := require (negb (existsb (λ m, bool_decide (TrimSpace (SenderPolicyMode c) = m))
                             ["rewrite"; "strict"]))
              "SENDER_POLICY_MODE must be one of: rewrite, strict" in
  let* _ := require (DeliveryRetryAttempts c <? 1) "DELIVERY_RETRY_ATTEMPTS must be >= 1" in
  let* _ := require (maxDeliveryRetryAttempts <? DeliveryRetryAttempts c)
              ("DELIVERY_RETRY_ATTEMPTS must be <= " +:+ Itoa maxDeliveryRetryAttempts) in
  let* _ := require (DeliveryRetryBaseDelayMS c <? 1) "DELIVERY_RETRY_BASE_DELAY_MS must be >= 1" in
  let* _ := require (DeliveryHTTPTimeoutMS c <? 1) "DELIVERY_HTTP_TIMEOUT_MS must be >= 1" in
  let* _ := require (DeliveryHTTPMaxIdleConns c <? 1)
              "DELIVERY_HTTP_MAX_IDLE_CONNS must be >= 1" in
  let* _ := require (DeliveryHTTPMaxIdleConnsPerHost c <? 1)
              "DELIVERY_HTTP_MAX_IDLE_CONNS_PER_HOST must be >= 1" in
  let* _ := require (DeliveryHTTPIdleConnTimeoutMS c <? 1)
              "DELIVERY_HTTP_IDLE_CONN_TIMEOUT_MS must be >= 1" in
  let* _ := require (blank_setting (SpoolDir c)) "SPOOL_DIR must be non-empty" in
  require (SpoolPollIntervalMS c <? 1) "SPOOL_POLL_INTERVAL_MS must be >= 1".

(** ** Load *)

(** [if v, err := envOrFile(key); err != nil {...} else if v != "" { field = f(v) }] *)
Definition setting (key defaultValue : string) (f : string → string) : string + goerr :=
  let* v := envOrFile key in
  inl (if decide (v = "") then defaultValue else f v).

Definition lowered (v : string) : string := ToLower (TrimSpace v).

Definition Load : Config + goerr :=
  let* smtpListenAddr := setting "SMTP_LISTEN_ADDR" defaultSMTPListenAddr id in
  let* httpListenAddr := setting "HTTP_LISTEN_ADDR" defaultHTTPListenAddr id in
  let* deliveryMode := setting "DELIVERY_MODE" defaultDeliveryMode lowered in
  let* allowedCIDRs := envOrFileList "SMTP_ALLOWED_CIDRS" in
  let* requireAuth := envOrFileBool "SMTP_REQUIRE_AUTH" defaultSMTPRequireAuth in
  let* authProvider := setting "SMTP_AUTH_PROVIDER" defaultSMTPAuthProvider lowered in
  let* authUsername := envOrFile "SMTP_AUTH_USERNAME" in
  let* authPassword := envOrFile "SMTP_AUTH_PASSWORD" in
  let* startTLS := envOrFileBool "SMTP_STARTTLS_ENABLED" defaultSMTPStartTLSEnabled in
  let* requireTLS := envOrFileBool "SMTP_REQUIRE_TLS" defaultSMTPRequireTLS in
  let* smtpsListenAddr := envOrFile "SMTPS_LISTEN_ADDR" in
  let* certFile := envOrFile "SMTP_TLS_CERT_FILE" in
  let* keyFile := envOrFile "SMTP_TLS_KEY_FILE" in
  let* maxInflight := envOrFileInt "SMTP_MAX_INFLIGHT_SENDS" defaultSMTPMaxInflightSends in
  let* policyMode := setting "SENDER_POLICY_MODE" defaultSenderPolicyMode lowered in
  let* allowedDomains := envOrFileList "SENDER_ALLOWED_DOMAINS" in
  let* retryAttempts := envOrFileInt "DELIVERY_RETRY_ATTEMPTS" defaultDeliveryRetryAttempts in
  let* retryBaseDelay := envOrFileInt "DELIVERY_RETRY_BASE_DELAY_MS"
                           defaultDeliveryRetryBaseDelayMS in
  let* httpTimeout := envOrFileInt "DELIVERY_HTTP_TIMEOUT_MS" defaultDeliveryHTTPTimeoutMS in
  let* maxIdle := envOrFileInt "DELIVERY_HTTP_MAX_IDLE_CONNS" defaultDeliveryHTTPMaxIdleConns in
  let* maxIdlePerHost := envOrFileInt "DELIVERY_HTTP_MAX_IDLE_CONNS_PER_HOST"
                           defaultDeliveryHTTPMaxIdleConnsPerHost in
  let* idleTimeout := envOrFileInt "DELIVERY_HTTP_IDLE_CONN_TIMEOUT_MS"
                        defaultDeliveryHTTPIdleConnTimeoutMS in
  let* spoolDir := setting "SPOOL_DIR" defaultSpoolDir id in
  let* pollInterval := envOrFileInt "SPOOL_POLL_INTERVAL_MS" defaultSpoolPollIntervalMS in
  let* acsEndpoint := envOrFile "ACS_ENDPOINT" in
  let* acsConnectionString := envOrFile "ACS_CONNECTION_STRING" in
  let* acsSender := envOrFile "ACS_SENDER" in
  let* caFile := envOrFileCompat "OUTBOUND_TLS_CA_FILE" ["ACS_TLS_CA_FILE"] in
  let* caPEM := envOrFileCompat "OUTBOUND_TLS_CA_PEM" ["ACS_TLS_CA_PEM"] in
  let* sesRegion := envOrFile "SES_REGION" in
  let* sesSender := envOrFile "SES_SENDER" in
  let* sesEndpoint := envOrFile "SES_ENDPOINT" in
  let* sesConfigurationSet := envOrFile "SES_CONFIGURATION_SET" in
  let* sesAccessKeyID := envOrFile "SES_ACCESS_KEY_ID" in
  let* sesSecretAccessKey := envOrFile "SES_SECRET_ACCESS_KEY" in
  let* sesSessionToken := envOrFile "SES_SESSION_TOKEN" in
  let cfg :=
    MkConfig smtpListenAddr httpListenAddr deliveryMode allowedCIDRs requireAuth authProvider
      authUsername authPassword startTLS requireTLS smtpsListenAddr certFile keyFile maxInflight
      policyMode allowedDomains retryAttempts retryBaseDelay httpTimeout maxIdle maxIdlePerHost
      idleTimeout spoolDir pollInterval acsEndpoint acsConnectionString acsSender caFile caPEM
      sesRegion sesSender sesEndpoint sesConfigurationSet sesAccessKeyID sesSecretAccessKey
      sesSessionToken in
  let* _ := Validate cfg in
  inl cfg.
End load.

(** ** Properties *)

Section props.
Context `{U : UnicodeTables}.

Lemma require_ok b m u : require b m = inl u → b = false.
Proof. by destruct b. Qed.

Lemma blank_setting_false s : blank_setting s = false → TrimSpace s ≠ "".
Proof. unfold blank_setting. by case_bool_decide. Qed.

(** What every validated configuration guarantees about who may relay. *)
Record closed_relay (c : Config) : Prop := {
  cr_auth : SMTPRequireAuth c = true;
  cr_provider : TrimSpace (SMTPAuthProvider c) = "static";
  cr_username : TrimSpace (SMTPAuthUsername c) ≠ "";
  cr_password : TrimSpace (SMTPAuthPassword c) ≠ "";
  cr_cidrs : ∃ p ps, ParseCIDRs (SMTPAllowedCIDRs c) = inl (p :: ps);
  cr_tls : SMTPStartTLSEnabled c = true ∨ TrimSpace (SMTPSListenAddr c) ≠ "" →
           TrimSpace (SMTPTLSCertFile c) ≠ "" ∧ TrimSpace (SMTPTLSKeyFile c) ≠ "";
  cr_require_tls : SMTPRequireTLS c = true →
           SMTPStartTLSEnabled c = true ∨ TrimSpace (SMTPSListenAddr c) ≠ "";
}.

(** What the chosen provider needs: credentials and a sender, and for SES either
    no static keys or both, a session token only with both. *)
Record provider_configured (c : Config) : Prop := {
  pc_acs : DeliveryMode c = "acs" →
           TrimSpace (ACSConnectionString c) ≠ "" ∧ TrimSpace (ACSSender c) ≠ "";
  pc_ses : DeliveryMode c = "ses" →
           TrimSpace (SESRegion c) ≠ "" ∧ TrimSpace (SESSender c) ≠ "";
  pc_keys : DeliveryMode c = "ses" →
           (TrimSpace (SESAccessKeyID c) = "" ↔ TrimSpace (SESSecretAccessKey c) = "");
  pc_token : DeliveryMode c = "ses" → TrimSpace (SESSessionToken c) ≠ "" →
           TrimSpace (SESAccessKeyID c) ≠ "" ∧ TrimSpace (SESSecretAccessKey c) ≠ "";
}.

(** The modes, and the range of every numeric setting. *)
Record settings_in_range (c : Config) : Prop := {
  sr_mode : DeliveryMode c ∈ ["acs"; "noop"; "ses"];
  sr_policy : TrimSpace (SenderPolicyMode c) ∈ ["rewrite"; "strict"];
  sr_inflight : 1 <= SMTPMaxInflightSends c;
  sr_attempts : 1 <= DeliveryRetryAttempts c <= maxDeliveryRetryAttempts;
  sr_delay : 1 <= DeliveryRetryBaseDelayMS c;
  sr_timeout : 1 <= DeliveryHTTPTimeoutMS c;
  sr_poll : 1 <= SpoolPollIntervalMS c;
  sr_spool : TrimSpace (SpoolDir c) ≠ "";
  sr_idle : 1 <= DeliveryHTTPMaxIdleConns c;
  sr_idle_host : 1 <= DeliveryHTTPMaxIdleConnsPerHost c;
  sr_idle_timeout : 1 <= DeliveryHTTPIdleConnTimeoutMS c;
}.

Lemma ParseCIDRs_nonempty vs ps : ParseCIDRs vs = inl ps → ∃ p ps', ps = p :: ps'.
Proof.
  unfold ParseCIDRs. intros H. rbind_step H. destruct v as [|p ps']; [done|].
  injection H as <-. eauto.
Qed.

Lemma existsb_elem (x : string) l :
  negb (existsb (λ m, bool_decide (x = m)) l) = false → x ∈ l.
Proof.
  intros H%negb_false_iff%existsb_exists. destruct H as (y & Hy & Hd).
  apply bool_decide_eq_true in Hd as ->. by apply list_elem_of_In.
Qed.

Lemma Validate_ok c u : Validate c = inl u → closed_relay c ∧ settings_in_range c.
Proof.
  unfold Validate. intros H.
  repeat match type of H with rbind _ _ = _ => rbind_step H end.
  repeat match goal with
         | X : require _ _ = inl _ |- _ => apply require_ok in X
         | X : blank_setting _ = false |- _ => apply blank_setting_false in X
         | X : negb (existsb _ _) = false |- _ => apply existsb_elem in X
         | X : (_ <? _) = false |- _ => apply Z.ltb_ge in X
         end.
  destruct (ParseCIDRs_nonempty _ _ Hv2) as (p & ps & ->).
  split; constructor; try done.
  - by apply negb_false_iff.
  - by apply negb_false_iff, bool_decide_eq_true in Hv4.
  - eauto.
  - intros Hor. apply andb_false_iff in Hv7 as [Hno|Hyes].
    + apply orb_false_iff in Hno as [Hs Hl]. apply negb_false_iff in Hl.
      unfold blank_setting in Hl. apply bool_decide_eq_true in Hl.
      destruct Hor; congruence.
    + apply negb_false_iff, andb_true_iff in Hyes as [H1 H2].
      split; apply blank_setting_false; by apply negb_true_iff.
  - intros Hr. rewrite Hr in Hv8. cbn in Hv8.
    destruct (SMTPStartTLSEnabled c); [by left|right]. by apply blank_setting_false.
Qed.

Lemma Validate_mode_ok c u : Validate_mode c = inl u → provider_configured c.
Proof.
  unfold Validate_mode. intros H.
  repeat match type of H with (if ?d then _ else _) = _ => destruct d as [?|?] end;
  repeat match type of H with rbind _ _ = _ => rbind_step H end;
  repeat match goal with
         | X : require _ _ = inl _ |- _ => apply require_ok in X
         | X : blank_setting _ = false |- _ => apply blank_setting_false in X
         end; split; try congruence; try done.
  - intros _. unfold blank_setting in *.
    by repeat match goal with X : xorb _ _ = false |- _ => revert X end; repeat case_bool_decide.
  - intros _ Ht. unfold blank_setting in *. revert H.
    by repeat case_bool_decide.
Qed.

Lemma Load_validate `{Env : Environment} (c : Config) : Load = inl c → Validate c = inl tt.
Proof.
  unfold Load. intros H.
  repeat match type of H with rbind _ _ = _ => rbind_step H end.
  injection H as <-. by match goal with X : Validate _ = inl ?u |- _ => destruct u end.
Qed.

Lemma Load_validated `{Env : Environment} (c : Config) :
  Load = inl c → closed_relay c ∧ settings_in_range c.
Proof. intros H%Load_validate. by eapply Validate_ok. Qed.

(** C31. A configuration that [Load] accepts is not an open relay: authentication is
    required with non-blank credentials, at least one allowed network parses,
    TLS material is present whenever TLS is offered, and TLS can be required
    only when some listener offers it.  The chosen provider has its credentials
    and its sender, and every numeric setting that is checked is in its range:
    the in-flight limit, retry attempts and delay, the HTTP timeout, the three
    connection-pool limits and the poll interval. *)
Theorem Load_safe `{Env : Environment} (c : Config) :
  Load = inl c → closed_relay c ∧ settings_in_range c ∧ provider_configured c.
Proof.
  intros H. destruct (Load_validated c H) as [Hc Hs]. split; [done|]. split; [done|].
  apply Load_validate in H. unfold Validate in H. rbind_step H. rbind_step H.
  by eapply Validate_mode_ok.
Qed.
End props.

Definition demo_settings : list (string * string) :=
  [("DELIVERY_MODE", " ACS "); ("SMTP_ALLOWED_CIDRS", "10.0.0.0/8,"); ("SMTP_AUTH_USERNAME", "u");
   ("SMTP_AUTH_PASSWORD_FILE", "/secret"); ("SMTP_TLS_CERT_FILE", "/tls/crt");
   ("SMTP_TLS_KEY_FILE", "/tls/key"); ("ACS_CONNECTION_STRING", "endpoint=e");
   ("ACS_SENDER", "a@b.c")].

Definition demo_environment : Environment := {|
  LookupEnv key := (list_to_map demo_settings : gmap string string) !! key;
  ReadFile path := if decide (path = "/secret") then inl ("p" +:+ sb [chr 10])
                   else inr (EErrno ENOENT);
|}.

Definition demo_config : Config + goerr :=
  @Load ascii_tables demo_environment.

Lemma Load_safe_witness :
  match demo_config with
  | inl c => DeliveryMode c = "acs" ∧ SMTPAuthPassword c = "p" ∧ SMTPRequireAuth c = true
  | inr _ => False
  end.
Proof.
  destruct demo_config as [c|e] eqn:E; [|exfalso; revert E; vm_compute; discriminate].
  destruct (@Load_safe ascii_tables demo_environment c E) as [[Ha _ _ _ _ _ _] _].
  split_and!; [..|exact Ha]; revert E; vm_compute; intros [= <-]; reflexivity.
Defined.
