(* ===== verification/HTTPClient.v ===== *)
(** * internal/providers/httpclient/builder.go

    The outbound HTTP client: timeouts, pool sizes and the certificates trusted
    in addition to the system's.  [x509.CertPool.AppendCertsFromPEM] is a
    parameter.  [http.DefaultTransport] is an [*http.Transport]: nothing in the
    program replaces it. *)
From S2P Require Import Prelude.
From S2P Require Import GoStrings.
From S2P Require Import GoTime.
From S2P Require Import GoErrors.
From S2P Require Import Config.
#[local] Open Scope Z_scope.
#[local] Open Scope relay_scope.

(** [AppendCertsFromPEM]: whether the text holds a certificate that parses. *)
Class CertPool := AppendCertsFromPEM : string → bool.

Record HTTPConfig := MkHTTPConfig {
  hcfg_Timeout : duration;
  hcfg_MaxIdleConns : Z;
  hcfg_MaxIdleConnsPerHost : Z;
  hcfg_IdleConnTimeout : duration;
  hcfg_TLSCAFile : string;
  hcfg_TLSCAPEM : string;
}.

(** An [*http.Client] with its transport; [hc_Roots] is what was appended to
    the system pool, [None] when the transport keeps its default roots. *)
Record http_client := MkClient {
  hc_Timeout : duration;
  hc_MaxIdleConns : Z;
  hc_MaxIdleConnsPerHost : Z;
  hc_IdleConnTimeout : duration;
  hc_Roots : option (list string);
}.

Section build.
Context `{U : UnicodeTables} `{Env : Environment} `{Pool : CertPool}.

Definition validatePEM (raw : string) : string + goerr :=
  let raw := TrimSpace raw in
  if decide (raw = "") then inr (EText "tls ca pem cannot be empty")
  else if AppendCertsFromPEM raw then inl raw
  else inr (EText "tls ca pem does not contain valid certificates").

Definition collectExtraPEMs (filePath inlinePEM : string) : list string + goerr :=
  let filePath := TrimSpace filePath in
  let* out :=
    (if decide (filePath = "") then inl []
     else match ReadFile filePath with
          | inr e => inr (EWrapf ("read tls ca file " +:+ Quote filePath) e)
          | inl b => let* pem := validatePEM b in inl [pem]
          end) in
  let inlinePEM := TrimSpace inlinePEM in
  if decide (inlinePEM = "") then inl out
  else let* pem := validatePEM inlinePEM in inl (out ++ [pem]).

Fixpoint append_roots (roots pems : list string) : list string + goerr :=
  match pems with
  | [] => inl roots
  | pem :: pems =>
      if AppendCertsFromPEM pem then append_roots (roots ++ [pem]) pems
      else inr (EText "failed to append tls ca certificates")
  end.

Definition httpclient_Build (cfg : HTTPConfig) : http_client + goerr :=
  if hcfg_Timeout cfg <=? 0 then inr (EText "http timeout must be > 0")
  else if hcfg_MaxIdleConns cfg <=? 0 then inr (EText "http max idle conns must be > 0")
  else if hcfg_MaxIdleConnsPerHost cfg <=? 0 then
    inr (EText "http max idle conns per host must be > 0")
  else if hcfg_IdleConnTimeout cfg <=? 0 then inr (EText "http idle conn timeout must be > 0")
  else
    let* extraPEMs := collectExtraPEMs (hcfg_TLSCAFile cfg) (hcfg_TLSCAPEM cfg) in
    let* roots := (match extraPEMs with
                   | [] => inl None
                   | _ => let* l := append_roots [] extraPEMs in inl (Some l)
                   end) in
    inl (MkClient (hcfg_Timeout cfg) (hcfg_MaxIdleConns cfg) (hcfg_MaxIdleConnsPerHost cfg)
           (hcfg_IdleConnTimeout cfg) roots).

(** ** Properties *)

Definition valid_pem (pem : string) : Prop :=
  pem ≠ "" ∧ TrimSpace pem = pem ∧ AppendCertsFromPEM pem = true.

Lemma validatePEM_ok raw pem :
  validatePEM raw = inl pem → pem = TrimSpace raw ∧ valid_pem pem.
Proof.
  unfold validatePEM, valid_pem. case_decide as Hr; [done|].
  destruct (AppendCertsFromPEM _) eqn:Ha; [|done]. intros [= <-].
  by rewrite TrimSpace_idem.
Qed.

Lemma collectExtraPEMs_ok file pem l :
  collectExtraPEMs file pem = inl l →
  Forall valid_pem l ∧
  (l = [] ↔ TrimSpace file = "" ∧ TrimSpace pem = "").
Proof.
  unfold collectExtraPEMs. intros H. rbind_step H. rename v into out, Hv into Hout.
  assert (Hx : Forall valid_pem out ∧ (out = [] ↔ TrimSpace file = "")).
  { destruct (decide (TrimSpace file = "")) as [Hf|Hf]; [by injection Hout as <-|].
    destruct (ReadFile _) as [b|e]; [|done]. rbind_step Hout. injection Hout as <-.
    apply validatePEM_ok in Hv as [_ ?]. split; [by apply Forall_singleton|done]. }
  destruct Hx as [Hx Hn]. case_decide as Hp; [injection H as <-; naive_solver|].
  rbind_step H. injection H as <-. apply validatePEM_ok in Hv as [_ ?].
  split; [apply Forall_app; split; [done|by apply Forall_singleton]|].
  split; [intros [_ ?]%app_nil; naive_solver|naive_solver].
Qed.

Lemma append_roots_valid roots pems :
  Forall valid_pem pems → append_roots roots pems = inl (roots ++ pems).
Proof.
  intros H. revert roots. induction H as [|p ps (_ & _ & Hp) _ IH]; intros roots; cbn.
  - by rewrite app_nil_r.
  - by rewrite Hp, IH, <- app_assoc.
Qed.

(** A client has the positive limits it was configured with, keeps the default
    roots when no certificate is configured, and otherwise trusts only texts
    that hold a valid certificate in addition to them. *)
Lemma httpclient_Build_ok cfg c :
  httpclient_Build cfg = inl c →
  hc_Timeout c = hcfg_Timeout cfg ∧ 0 < hc_Timeout c ∧
  0 < hc_MaxIdleConns c ∧ 0 < hc_MaxIdleConnsPerHost c ∧ 0 < hc_IdleConnTimeout c ∧
  match hc_Roots c with
  | None => TrimSpace (hcfg_TLSCAFile cfg) = "" ∧ TrimSpace (hcfg_TLSCAPEM cfg) = ""
  | Some roots =>
      roots ≠ [] ∧ Forall valid_pem roots ∧
      collectExtraPEMs (hcfg_TLSCAFile cfg) (hcfg_TLSCAPEM cfg) = inl roots
  end.
Proof.
  unfold httpclient_Build. intros H.
  destruct (Z.leb_spec (hcfg_Timeout cfg) 0); [done|].
  destruct (Z.leb_spec (hcfg_MaxIdleConns cfg) 0); [done|].
  destruct (Z.leb_spec (hcfg_MaxIdleConnsPerHost cfg) 0); [done|].
  destruct (Z.leb_spec (hcfg_IdleConnTimeout cfg) 0); [done|].
  rbind_step H. apply collectExtraPEMs_ok in Hv as Hp. destruct Hp as [Hp Hn].
  rbind_step H. injection H as <-. cbn. split_and!; [done..|].
  destruct v as [|p ps]; [injection Hv0 as <-; by apply Hn|].
  rewrite append_roots_valid in Hv0 by done. by injection Hv0 as <-.
Qed.
End build.
