(* ===== verification/ACS.v ===== *)
(** * internal/providers/acs/provider.go

    The Azure Communication Services client: connection string, request
    building and signing, the submit loop with its back-off, and polling.

    [net/url] and the date formats of [net/http] are the parameters of
    [WebLibs]; the clock, the random source, the HTTP exchange and the wait
    between attempts are those of [ACSWorld], each indexed by the number of
    uses.  Logging is left out. *)
From Stdlib Require Import Ascii.
From S2P Require Import Prelude.
From S2P Require Import GoStrings.
From S2P Require Import GoTime.
From S2P Require Import GoErrors.
From S2P Require Import GoEncoding.
From S2P Require Import GoSHA256.
From S2P Require Import GoJSON.
From S2P Require Import Email.
From S2P Require Import SenderPolicy.
From S2P Require Import Config.
From S2P Require Import HTTPClient.
#[local] Open Scope Z_scope.
#[local] Open Scope relay_scope.

Definition emailSendPath : string := "/emails:send".
Definition emailOperationPathPrefix : string := "/emails/operations/".
Definition emailSendAPIVersion : string := "2023-03-31".
Definition acs_defaultRetryAttempts : Z := 3.
Definition acs_maxRetryAttempts : Z := 10.
Definition acs_defaultRetryBaseDelay : duration := 1 * Second.
Definition maxResponseBodyBytes : nat := 8192.
Definition acs_maxDuration : duration := two63 - 1.

(** ** Data *)

(** [url.URL]: the fields the code reads or writes, and the others as
    [url_rest]. *)
Record URL := MkURL {
  url_Scheme : string;
  url_Host : string;
  url_Path : string;
  url_RawQuery : string;
  url_rest : string;
}.

Record recipient := MkRecipient { Address : string }.

Record content := MkContent {
  c_Subject : string;
  c_PlainText : string;
  c_HTML : string;
}.

Record attachmentDTO := MkAttachmentDTO {
  at_Name : string;
  at_ContentType : string;
  at_ContentInBase64 : string;
}.

(** [Recipients] is the struct [recipients] with its only field; a nil map or
    slice is empty. *)
Record sendRequest := MkSendRequest {
  sq_SenderAddress : string;
  sq_Recipients : list recipient;
  sq_Content : content;
  sq_ReplyTo : list recipient;
  sq_Headers : gmap string string;
  sq_Attachments : list attachmentDTO;
}.

Record operationErrorDTO := MkOperationError { oe_Code : string; oe_Message : string }.

Record operationResponseDTO := MkOperation {
  op_ID : string;
  op_Status : string;
  op_Error : option operationErrorDTO;
}.

Record acs_SendError := MkSendError {
  se_RequestID : string;
  se_Attempt : Z;
  se_Attempts : Z;
  se_StatusCode : Z;
  se_Retryable : bool;
  se_Err : option goerr;
}.

(** A [*SendError] as an [error]. *)
Definition acs_error (e : acs_SendError) : goerr :=
  SendError "acs" (se_RequestID e) (se_Attempt e) (se_Attempts e) (se_StatusCode e)
    (se_Retryable e) (se_Err e).

(** [http.Request], with its headers under the names the code sets, and
    [http.Response] with the bytes its body yields before it ends or fails. *)
Record request := MkRequest {
  rq_Method : string;
  rq_URL : URL;
  rq_Body : string;
  rq_Header : gmap string string;
}.

Record response := MkResponse {
  rs_StatusCode : Z;
  rs_Header : string → string;
  rs_Body : string * option goerr;
}.

Record HTTPTransportConfig := MkTransport {
  tc_Timeout : duration;
  tc_MaxIdleConns : Z;
  tc_MaxIdleConnsPerHost : Z;
  tc_IdleConnTimeout : duration;
}.

Record acs_Provider := MkACS {
  endpoint : URL;
  accessKey : bytes;
  sender : string;
  httpClient : option http_client;
  retryAttempts : Z;
  retryBaseDelay : duration;
  extraCAPEMs : list string;
  transportConfig : HTTPTransportConfig;
  hasTransportConfig : bool;
  hasHTTPClient : bool;
}.

Class WebLibs := {
  url_Parse : string → URL + goerr;
  url_String : URL → string;
  url_RequestURI : URL → string;
  (** [q := u.Query(); q.Set(k, v); q.Encode()] on the raw query *)
  query_Set : string → string → string → string;
  (** why [http.NewRequestWithContext] refuses a method and a URL *)
  NewRequest_error : string → string → option goerr;
  http_TimeFormat : time → string;
  http_ParseTime : string → option time;
  base64_CorruptInput : string → goerr;
}.

Class ACSWorld := {
  acs_Now : nat → time;
  acs_rand_Read : nat → bytes + goerr;
  http_Do : nat → option http_client → request → response + goerr;
  (** the [select] between attempts: [Some ctx.Err()], or the timer fired *)
  backoff_wait : nat → option goerr;
}.

(** How often each source was used, the requests sent and the waits. *)
Record astate := MkA {
  a_clock : nat;
  a_rand : nat;
  a_http : nat;
  a_waits : nat;
  a_sent : list request;
  a_slept : list duration;
}.

(** ** Errors *)

Definition clampAttempt (v : Z) : Z := if v <? 1 then 1 else v.

Definition acs_isRetryableStatus (statusCode : Z) : bool :=
  (statusCode =? 429) || (500 <=? statusCode).

Definition acs_permanentSendError (requestID : string) (attempt attempts : Z) (err : goerr)
    : acs_SendError :=
  MkSendError requestID (clampAttempt attempt) (clampAttempt attempts) 0 false (Some err).

Definition acs_temporarySendError (requestID : string) (attempt attempts statusCode : Z)
    (err : goerr) : acs_SendError :=
  MkSendError requestID (clampAttempt attempt) (clampAttempt attempts) statusCode true (Some err).

Definition statusSendError (requestID : string) (attempt attempts statusCode : Z)
    : acs_SendError :=
  MkSendError requestID (clampAttempt attempt) (clampAttempt attempts) statusCode
    (acs_isRetryableStatus statusCode) None.

(** ** Pure helpers *)

(** The loop [for i := 1; i < attempt; i++], [n] turns left. *)
Fixpoint acs_backoff_loop (n : nat) (backoff : duration) : duration :=
  match n with
  | O => backoff
  | S n =>
      if Z.quot acs_maxDuration 2 <? backoff then acs_maxDuration
      else acs_backoff_loop n (wrap64 (backoff * 2))
  end.

Definition acs_retryBackoff (base : duration) (attempt : Z) : duration :=
  if (attempt <=? 1) || (base <=? 0) then base
  else acs_backoff_loop (Z.to_nat (attempt - 1)) base.

Definition hashRequestBody `{WebLibs} (body : string) : string :=
  base64_EncodeToString (sha256 body).

(** [io.ReadAll(io.LimitReader(r, n))] *)
Definition read_limited (n : nat) (body : string * option goerr) : string + goerr :=
  let data := bs body.1 in
  if (length data <? n)%nat then
    match body.2 with Some e => inr e | None => inl body.1 end
  else inl (sb (take n data)).

(** [json.Unmarshal] into [operationResponseDTO] by its struct tags. *)
Definition set_error (name : string) (v : json) (x : operationErrorDTO) : decoded operationErrorDTO :=
  let '(MkOperationError c m) := x in
  if decide (name = "code") then let '(y, e) := decode_string v c in (MkOperationError y m, e)
  else let '(y, e) := decode_string v m in (MkOperationError c y, e).

Definition decode_error : json → operationErrorDTO → decoded operationErrorDTO :=
  decode_struct ["code"; "message"] set_error.

Definition set_operation (name : string) (v : json) (x : operationResponseDTO)
    : decoded operationResponseDTO :=
  let '(MkOperation i s r) := x in
  if decide (name = "id") then let '(y, e) := decode_string v i in (MkOperation y s r, e)
  else if decide (name = "status") then let '(y, e) := decode_string v s in (MkOperation i y r, e)
  else let '(y, e) := decode_pointer decode_error (MkOperationError "" "") v r in (MkOperation i s y, e).

Definition json_Unmarshal (data : string) : operationResponseDTO + goerr :=
  Unmarshal (decode_struct ["id"; "status"; "error"] set_operation) (MkOperation "" "" None) data.

Definition decodeOperationResponse (r : string * option goerr)
    : operationResponseDTO + goerr :=
  let* body := read_limited maxResponseBodyBytes r in
  let body := TrimSpace body in
  if decide (body = "") then inl (MkOperation "" "" None) else json_Unmarshal body.

Definition mapACSOperationState `{UnicodeTables} (raw : string) : SubmissionState + goerr :=
  let s := ToLower (TrimSpace raw) in
  if decide (s = "running" ∨ s = "notstarted") then inl SubmissionStateRunning
  else if decide (s = "succeeded") then inl SubmissionStateSucceeded
  else if decide (s = "failed") then inl SubmissionStateFailed
  else if decide (s = "canceled" ∨ s = "cancelled") then inl SubmissionStateCanceled
  else inr (EText ("unsupported acs operation status " +:+ Quote raw)).

Definition submissionFailureForState `{UnicodeTables} (state : SubmissionState)
    (detail : option operationErrorDTO) : option SubmissionFailure :=
  if decide (state ≠ SubmissionStateFailed ∧ state ≠ SubmissionStateCanceled) then None
  else
    let message :=
      match detail with
      | None => ""
      | Some d =>
          let message := TrimSpace (oe_Message d) in
          if decide (message = "") then TrimSpace (oe_Code d) else message
      end in
    let message := if decide (message = "")
                   then "acs operation ended in " +:+ Quote state +:+ " state" else message in
    Some (MkFailure message false 0).

(** ** Requests *)

Definition acs_trimmedRecipients (to : list string) : list recipient :=
  MkRecipient <$> filter (λ s, s ≠ "") (TrimSpace <$> to).

Definition normalizeReplyToRecipients `{MailRegexp} (addresses : list string)
    : list recipient :=
  addresses ≫= λ raw,
    let raw := TrimSpace raw in
    if decide (raw = "") then []
    else match mail_ParseAddress raw with
         | inr _ => []
         | inl addr => if decide (TrimSpace addr = "") then [] else [MkRecipient addr]
         end.

(** The attachment with index [i], from 0. *)
Definition attachment_dto (i : nat) (a : Attachment) : attachmentDTO :=
  let name := TrimSpace (Filename a) in
  let name := if decide (name = "") then "attachment-" +:+ Itoa (Z.of_nat i + 1) else name in
  let contentType := TrimSpace (ContentType a) in
  let contentType := if decide (contentType = "") then "application/octet-stream"
                     else contentType in
  MkAttachmentDTO name contentType (base64_EncodeToString (bs (Data a))).

Definition buildSendRequest `{MailRegexp} (sender : string) (msg : Message)
    : sendRequest + goerr :=
  if decide (To msg = []) then inr (EText "message has no recipients")
  else
    let toRecipients := acs_trimmedRecipients (To msg) in
    if decide (length toRecipients = 0%nat) then inr (EText "message has no valid recipients")
    else
      let plain := if decide (TextBody msg = "" ∧ HTMLBody msg = "") then "(empty message)"
                   else TextBody msg in
      inl (MkSendRequest sender toRecipients
             (MkContent (Subject msg) plain (HTMLBody msg))
             (normalizeReplyToRecipients (ReplyTo msg))
             (default ∅ (SenderTraceHeaderMap msg))
             (imap attachment_dto (Attachments msg))).

(** *** json.Marshal of a [sendRequest]; it never fails on this type. *)

Definition json_recipient (r : recipient) : string :=
  json_object [("address", json_string (Address r))].

(** A field with [omitempty]. *)
Definition json_omitempty (name v : string) : list (string * string) :=
  if decide (v = "") then [] else [(name, json_string v)].

Definition json_content (c : content) : string :=
  json_object ([("subject", json_string (c_Subject c))]
    ++ json_omitempty "plainText" (c_PlainText c) ++ json_omitempty "html" (c_HTML c)).

Definition json_attachment (a : attachmentDTO) : string :=
  json_object [("name", json_string (at_Name a)); ("contentType", json_string (at_ContentType a));
    ("contentInBase64", json_string (at_ContentInBase64 a))].

(** Map keys are sorted. *)
Definition json_map (m : gmap string string) : string :=
  json_object ((λ f, (f.1, json_string f.2)) <$> sorted_entries m).

Definition json_Marshal (r : sendRequest) : string + goerr :=
  inl (json_object ([("senderAddress", json_string (sq_SenderAddress r));
    ("recipients", json_object [("to", json_array (json_recipient <$> sq_Recipients r))]);
    ("content", json_content (sq_Content r))]
    ++ (if decide (sq_ReplyTo r = []) then []
        else [("replyTo", json_array (json_recipient <$> sq_ReplyTo r))])
    ++ (if decide (sq_Headers r = ∅) then [] else [("headers", json_map (sq_Headers r))])
    ++ (if decide (sq_Attachments r = []) then []
        else [("attachments", json_array (json_attachment <$> sq_Attachments r))]))).

(** ** The connection string *)

Fixpoint parse_parts `{UnicodeTables} (parts : list string) (result : gmap string string)
    : gmap string string + goerr :=
  match parts with
  | [] => inl result
  | part :: parts =>
      let part := TrimSpace part in
      if decide (part = "") then parse_parts parts result
      else
        let invalid := inr (EText ("invalid ACS_CONNECTION_STRING part " +:+ Quote part)) in
        match cut_first (chr 61) (bs part) with
        | None => invalid
        | Some (k, v) =>
            let key := ToLower (TrimSpace (sb k)) in
            let val := TrimSpace (sb v) in
            if decide (key = "" ∨ val = "") then invalid
            else parse_parts parts (<[key := val]> result)
        end
  end.

Definition parseConnectionString `{UnicodeTables} (raw : string) : gmap string string + goerr :=
  let* result := parse_parts (Split raw (chr 59)) ∅ in
  if decide (result = ∅) then inr (EText "ACS_CONNECTION_STRING is empty") else inl result.

Definition parseConnection `{UnicodeTables} `{WebLibs} (endpoint connectionString : string)
    : (URL * bytes) + goerr :=
  let* parts := parseConnectionString connectionString in
  let resolvedEndpoint := TrimSpace endpoint in
  let resolvedEndpoint := if decide (resolvedEndpoint = "")
                          then default "" (parts !! "endpoint") else resolvedEndpoint in
  if decide (resolvedEndpoint = "") then
    inr (EText "acs endpoint is required (ACS_ENDPOINT or endpoint= in ACS_CONNECTION_STRING)")
  else match url_Parse (TrimRightByte resolvedEndpoint (chr 47)) with
       | inr e => inr (EWrapf "parse acs endpoint" e)
       | inl u =>
           if decide (url_Scheme u = "" ∨ url_Host u = "") then
             inr (EText ("invalid acs endpoint " +:+ Quote resolvedEndpoint))
           else if negb (EqualFold (url_Scheme u) "https") then
             inr (EText "acs endpoint must use https scheme")
           else
             let accessKeyStr := default "" (parts !! "accesskey") in
             if decide (accessKeyStr = "") then
               inr (EText "ACS_CONNECTION_STRING missing accesskey")
             else match base64_decode (bs accessKeyStr) with
                  | None => inr (EWrapf "decode accesskey from ACS_CONNECTION_STRING"
                                   (base64_CorruptInput accessKeyStr))
                  | Some accessKey => inl (u, accessKey)
                  end
       end.

(** ** Options and construction *)

Inductive acs_Option :=
  | acs_WithRetry (attempts : Z) (baseDelay : duration)
  | acs_WithHTTPClient (client : option http_client)
  | WithHTTPTransportConfig (cfg : HTTPTransportConfig)
  | WithTLSCAFile (path : string)
  | WithTLSCAPEM (pem : string).

Definition set_retry (a : Z) (d : duration) (p : acs_Provider) : acs_Provider :=
  MkACS (endpoint p) (accessKey p) (sender p) (httpClient p) a d (extraCAPEMs p)
    (transportConfig p) (hasTransportConfig p) (hasHTTPClient p).
Definition set_client (c : http_client) (has : bool) (p : acs_Provider) : acs_Provider :=
  MkACS (endpoint p) (accessKey p) (sender p) (Some c) (retryAttempts p) (retryBaseDelay p)
    (extraCAPEMs p) (transportConfig p) (hasTransportConfig p) has.
Definition set_transport (c : HTTPTransportConfig) (p : acs_Provider) : acs_Provider :=
  MkACS (endpoint p) (accessKey p) (sender p) (httpClient p) (retryAttempts p)
    (retryBaseDelay p) (extraCAPEMs p) c true (hasHTTPClient p).
Definition add_pem (pem : string) (p : acs_Provider) : acs_Provider :=
  MkACS (endpoint p) (accessKey p) (sender p) (httpClient p) (retryAttempts p)
    (retryBaseDelay p) (extraCAPEMs p ++ [pem]) (transportConfig p) (hasTransportConfig p)
    (hasHTTPClient p).

Section acs.
Context `{U : UnicodeTables} `{Rx : MailRegexp} `{Env : Environment} `{Pool : CertPool}.
Context `{Lib : WebLibs}.

Definition appendExtraCAPEM (p : acs_Provider) (pemBytes : string) : acs_Provider + goerr :=
  let pemBytes := TrimSpace pemBytes in
  if decide (pemBytes = "") then inr (EText "tls ca pem cannot be empty")
  else if AppendCertsFromPEM pemBytes then inl (add_pem pemBytes p)
  else inr (EText "tls ca pem does not contain valid certificates").

Definition acs_apply (opt : acs_Option) (p : acs_Provider) : acs_Provider + goerr :=
  match opt with
  | acs_WithRetry attempts baseDelay =>
      if attempts <? 1 then inr (EText "retry attempts must be >= 1")
      else if acs_maxRetryAttempts <? attempts then
        inr (EText ("retry attempts must be <= " +:+ Itoa acs_maxRetryAttempts))
      else if baseDelay <=? 0 then inr (EText "retry base delay must be > 0")
      else inl (set_retry attempts baseDelay p)
  | acs_WithHTTPClient None => inr (EText "http client cannot be nil")
  | acs_WithHTTPClient (Some client) => inl (set_client client true p)
  | WithHTTPTransportConfig cfg =>
      if tc_Timeout cfg <=? 0 then inr (EText "http timeout must be > 0")
      else if tc_MaxIdleConns cfg <=? 0 then inr (EText "http max idle conns must be > 0")
      else if tc_MaxIdleConnsPerHost cfg <=? 0 then
        inr (EText "http max idle conns per host must be > 0")
      else if tc_IdleConnTimeout cfg <=? 0 then inr (EText "http idle conn timeout must be > 0")
      else inl (set_transport cfg p)
  | WithTLSCAFile path =>
      let path := TrimSpace path in
      if decide (path = "") then inr (EText "tls ca file path cannot be empty")
      else match ReadFile path with
           | inr e => inr (EWrapf ("read tls ca file " +:+ Quote path) e)
           | inl b => appendExtraCAPEM p b
           end
  | WithTLSCAPEM pem =>
      let pem := TrimSpace pem in
      if decide (pem = "") then inr (EText "tls ca pem cannot be empty")
      else appendExtraCAPEM p pem
  end.

(** A nil option is [None]. *)
Fixpoint acs_apply_all (opts : list (option acs_Option)) (p : acs_Provider)
    : acs_Provider + goerr :=
  match opts with
  | [] => inl p
  | None :: opts => acs_apply_all opts p
  | Some opt :: opts => let* p := acs_apply opt p in acs_apply_all opts p
  end.

Definition buildHTTPClient (p : acs_Provider) : http_client + goerr :=
  let t := transportConfig p in
  httpclient_Build (MkHTTPConfig (tc_Timeout t) (tc_MaxIdleConns t) (tc_MaxIdleConnsPerHost t)
    (tc_IdleConnTimeout t) "" (Join (extraCAPEMs p) (sb [chr 10]))).

Definition acs_permanent (err : goerr) : goerr := acs_error (acs_permanentSendError "" 1 1 err).

Definition acs_NewProvider (endpoint connectionString sender : string)
    (opts : list (option acs_Option)) : acs_Provider + goerr :=
  match parseConnection endpoint connectionString with
  | inr e => inr (acs_permanent e)
  | inl (parsedEndpoint, accessKey) =>
      if decide (TrimSpace sender = "") then
        inr (acs_permanent (EText "acs sender cannot be empty"))
      else
        match acs_apply_all opts
          (MkACS parsedEndpoint accessKey (TrimSpace sender) None acs_defaultRetryAttempts
             acs_defaultRetryBaseDelay []
             (MkTransport (30 * Second) 100 10 (90 * Second)) false false)
        with
        | inr e => inr (acs_permanent (EWrapf "apply provider option" e))
        | inl p =>
            if hasHTTPClient p && negb (bool_decide (extraCAPEMs p = [])) then
              inr (acs_permanent (EText "cannot combine WithHTTPClient with TLS CA options"))
            else if hasHTTPClient p && hasTransportConfig p then
              inr (acs_permanent
                     (EText "cannot combine WithHTTPClient with WithHTTPTransportConfig"))
            else if hasHTTPClient p then inl p
            else match buildHTTPClient p with
                 | inr e => inr (acs_permanent e)
                 | inl client => inl (set_client client false p)
                 end
        end
  end.

(** ** Requests on the wire *)

Section world.
Context `{World : ACSWorld}.
Context (p : acs_Provider).

Definition A := io acs_SendError astate.

Definition acs_now : A time := λ s,
  (MkA (S (a_clock s)) (a_rand s) (a_http s) (a_waits s) (a_sent s) (a_slept s),
   inl (acs_Now (a_clock s))).

Definition acs_random : A (bytes + goerr) := λ s,
  (MkA (a_clock s) (S (a_rand s)) (a_http s) (a_waits s) (a_sent s) (a_slept s),
   inl (acs_rand_Read (a_rand s))).

Definition acs_Do (req : request) : A (response + goerr) := λ s,
  (MkA (a_clock s) (a_rand s) (S (a_http s)) (a_waits s) (a_sent s ++ [req]) (a_slept s),
   inl (http_Do (a_http s) (httpClient p) req)).

(** [select { case <-ctx.Done(): ... case <-time.After(d): }] *)
Definition acs_sleep (d : duration) : A (option goerr) := λ s,
  (MkA (a_clock s) (a_rand s) (a_http s) (S (a_waits s)) (a_sent s) (a_slept s ++ [d]),
   inl (backoff_wait (a_waits s))).

Definition newRequestID : A (string + goerr) :=
  let! b := acs_random in
  ret (match b with inr e => inr e | inl b => inl (hex_EncodeToString b) end).

Definition with_path (path : string) : URL :=
  let u := endpoint p in
  MkURL (url_Scheme u) (url_Host u) (TrimRightByte (url_Path u) (chr 47) +:+ path)
    (query_Set (url_RawQuery u) "api-version" emailSendAPIVersion) (url_rest u).

Definition sendTarget : URL := with_path emailSendPath.

Definition operationTarget (operationID : string) : URL :=
  with_path (emailOperationPathPrefix +:+ PathEscape operationID).

(** Writing to the hash never fails. *)
Definition buildSignature (method pathAndQuery xmsDate host contentHash : string)
    : string + goerr :=
  let stringToSign :=
    Join [method; pathAndQuery; xmsDate +:+ ";" +:+ host +:+ ";" +:+ contentHash]
      (sb [chr 10]) in
  let sig := base64_EncodeToString (hmac_SHA256 (accessKey p) stringToSign) in
  inl ("HMAC-SHA256 SignedHeaders=x-ms-date;host;x-ms-content-sha256&Signature=" +:+ sig).

(** The headers in the order they are set. *)
Definition request_headers (requestID operationID body xmsDate contentHash signature : string)
    : gmap string string :=
  let h : gmap string string :=
    if decide (body = "") then ∅ else {["Content-Type" := "application/json"]} in
  let h := <["x-ms-date" := xmsDate]> h in
  let h := <["x-ms-content-sha256" := contentHash]> h in
  let h := <["Authorization" := signature]> h in
  let h := <["x-ms-client-request-id" := requestID]> h in
  if decide (TrimSpace operationID = "") then h
  else <["Operation-Id" := TrimSpace operationID]> h.

Definition sendAuthorizedRequest (requestID operationID method : string) (target : URL)
    (body : string) (attempt : Z) : A response :=
  let contentHash := hashRequestBody body in
  let! now := acs_now in
  let xmsDate := http_TimeFormat now in
  match buildSignature method (url_RequestURI target) xmsDate (url_Host target) contentHash with
  | inr e => fail (acs_permanentSendError requestID attempt (retryAttempts p)
                     (EWrapf "build authorization header" e))
  | inl signature =>
      match NewRequest_error method (url_String target) with
      | Some e => fail (acs_permanentSendError requestID attempt (retryAttempts p)
                          (EWrapf "build request" e))
      | None =>
          let! r := acs_Do (MkRequest method target body
                       (request_headers requestID operationID body xmsDate contentHash
                          signature)) in
          match r with
          | inr e => fail (acs_temporarySendError requestID attempt (retryAttempts p) 0 e)
          | inl resp => ret resp
          end
      end
  end.

(** [time.Until] saturates. *)
Definition time_Until (t now : time) : duration :=
  Z.max (- two63) (Z.min (two63 - 1) (t - now)).

Definition parseRetryAfter (raw : string) : A duration :=
  let raw := TrimSpace raw in
  if decide (raw = "") then ret 0
  else
    let date :=
      match http_ParseTime raw with
      | None => ret 0
      | Some t =>
          let! now := acs_now in
          let delay := time_Until t now in
          ret (if delay <? 0 then 0 else delay)
      end in
    match Atoi raw with
    | inl seconds => if 0 <=? seconds then ret (wrap64 (seconds * Second)) else date
    | inr _ => date
    end.

Definition submitOnce (requestID operationID : string) (attempt : Z) (body : string)
    : A SubmissionResult :=
  let! resp := sendAuthorizedRequest requestID operationID "POST" sendTarget body attempt in
  if negb (rs_StatusCode resp =? 202) then
    fail (statusSendError requestID attempt (retryAttempts p) (rs_StatusCode resp))
  else
    match decodeOperationResponse (rs_Body resp) with
    | inr e => fail (acs_permanentSendError requestID attempt (retryAttempts p)
                       (EWrapf "decode acs submit response" e))
    | inl bodyResult =>
        let operationLocation := rs_Header resp "operation-location" in
        let! retryAfter := parseRetryAfter (rs_Header resp "retry-after") in
        ret (MkResult "" (TrimSpace operationLocation) retryAfter SubmissionStateRunning
               (TrimSpace (op_ID bodyResult)) None)
    end.

(** The loop [for attempt := 1; attempt <= p.retryAttempts; attempt++] with [n]
    attempts left.  It falls through only when there was no attempt at all, and
    then returns a nil [*SendError]; [NewProvider] keeps that from happening. *)
Fixpoint submit_loop (n : nat) (requestID operationID body : string) (attempt : Z)
    : io goerr astate SubmissionResult :=
  match n with
  | O => fail (EText "nil *acs.SendError")
  | S n => λ s,
      match submitOnce requestID operationID attempt body s with
      | (s, inl res) =>
          (s, inl (MkResult operationID (sr_OperationLocation res) (sr_RetryAfter res)
                     SubmissionStateRunning (sr_ProviderMessageID res) (sr_Failure res)))
      | (s, inr attemptErr) =>
          if negb (se_Retryable attemptErr) || (attempt =? retryAttempts p) then
            (s, inr (acs_error attemptErr))
          else
            match acs_sleep (acs_retryBackoff (retryBaseDelay p) attempt) s with
            | (s, inl (Some ctxErr)) =>
                (s, inr (acs_error
                           (acs_permanentSendError requestID attempt (retryAttempts p) ctxErr)))
            | (s, _) => submit_loop n requestID operationID body (attempt + 1) s
            end
      end
  end.

Definition acs_Submit (msg : Message) (operationID : string)
    : io goerr astate SubmissionResult :=
  match buildSendRequest (sender p) msg with
  | inr e => fail (acs_permanent e)
  | inl body =>
      match json_Marshal body with
      | inr e => fail (acs_permanent (EWrapf "marshal acs request" e))
      | inl bodyBytes => λ s,
          match newRequestID s with
          | (s, inr e) => (s, inr (acs_error e))
          | (s, inl (inr e)) => (s, inr (acs_permanent (EWrapf "generate request id" e)))
          | (s, inl (inl requestID)) =>
              submit_loop (Z.to_nat (retryAttempts p)) requestID (TrimSpace operationID)
                bodyBytes 1 s
          end
      end
  end.

Definition acs_Poll_once (operationID : string) : A SubmissionStatus :=
  let operationID := TrimSpace operationID in
  if decide (operationID = "") then
    fail (acs_permanentSendError "" 1 1 (EText "acs poll operation id cannot be empty"))
  else
    let! r := newRequestID in
    match r with
    | inr e => fail (acs_permanentSendError operationID 1 1 (EWrapf "generate request id" e))
    | inl requestID =>
        let! resp := sendAuthorizedRequest requestID "" "GET" (operationTarget operationID) "" 1 in
        if negb (rs_StatusCode resp =? 200) then
          fail (statusSendError requestID 1 1 (rs_StatusCode resp))
        else
          match decodeOperationResponse (rs_Body resp) with
          | inr e => fail (acs_permanentSendError requestID 1 1
                             (EWrapf "decode acs poll response" e))
          | inl body =>
              match mapACSOperationState (op_Status body) with
              | inr e => fail (acs_permanentSendError requestID 1 1 e)
              | inl state =>
                  let! retryAfter := parseRetryAfter (rs_Header resp "retry-after") in
                  ret (MkStatus operationID retryAfter state (TrimSpace (op_ID body))
                         (submissionFailureForState state (op_Error body)))
              end
          end
    end.

(** A [*SendError] returned as an [error]. *)
Definition acs_Poll (operationID : string) : io goerr astate SubmissionStatus := λ s,
  match acs_Poll_once operationID s with
  | (s, inl status) => (s, inl status)
  | (s, inr e) => (s, inr (acs_error e))
  end.
End world.
End acs.
