(* ===== verification/ACSProps.v ===== *)
(** * Properties of the ACS provider

    The submit loop (bounded, idempotent, classified), polling, construction,
    the request body and the connection string. *)
From Stdlib Require Import Ascii.
From S2P Require Import Prelude.
From S2P Require Import GoStrings.
From S2P Require Import GoTime.
From S2P Require Import GoErrors.
From S2P Require Import GoEncoding.
From S2P Require Import GoSHA256.
From S2P Require Import Email.
From S2P Require Import SenderPolicy.
From S2P Require Import Config.
From S2P Require Import HTTPClient.
From S2P Require Import ACS.
#[local] Open Scope Z_scope.
#[local] Open Scope relay_scope.

(** ** The back-off *)

Lemma acs_backoff_loop_exact n i base :
  0 < base → 0 <= i → base * 2 ^ i <= acs_maxDuration →
  acs_backoff_loop n (base * 2 ^ i) = Z.min acs_maxDuration (base * 2 ^ (i + Z.of_nat n)).
Proof.
  intros Hb. revert i. induction n as [|n IH]; intros i Hi Hle.
  - cbn. rewrite Z.add_0_r. lia.
  - cbn [acs_backoff_loop]. change (Z.quot acs_maxDuration 2) with 4611686018427387903.
    assert (Hs : 2 ^ (i + 1) = 2 * 2 ^ i) by (rewrite Z.pow_add_r by lia; lia).
    assert (Hm : 2 ^ (i + 1) <= 2 ^ (i + Z.of_nat (S n))) by (apply Z.pow_le_mono_r; lia).
    destruct (Z.ltb_spec 4611686018427387903 (base * 2 ^ i)) as [H|H].
    + unfold acs_maxDuration, two63 in *. nia.
    + rewrite wrap64_id by (unfold in_int64, acs_maxDuration, two63 in *; nia).
      replace (base * 2 ^ i * 2) with (base * 2 ^ (i + 1)) by lia.
      rewrite IH; [do 3 f_equal; lia|lia|].
      unfold acs_maxDuration, two63. lia.
Qed.

(** The wait after the [attempt]-th failure doubles from the base delay and
    saturates. *)
Lemma acs_retryBackoff_exact base attempt :
  0 < base <= acs_maxDuration → 1 <= attempt →
  acs_retryBackoff base attempt = Z.min acs_maxDuration (base * 2 ^ (attempt - 1)).
Proof.
  intros Hb Ha. unfold acs_retryBackoff. destruct (Z.leb_spec base 0); [lia|].
  destruct (Z.leb_spec attempt 1); cbn.
  - replace (attempt - 1) with 0 by lia. lia.
  - pose proof (acs_backoff_loop_exact (Z.to_nat (attempt - 1)) 0 base) as Hx.
    rewrite Z.mul_1_r, Z.add_0_l, Z2Nat.id in Hx by lia. apply Hx; lia.
Qed.

(** ** Requests *)

Section props.
Context `{U : UnicodeTables} `{Rx : MailRegexp} `{Env : Environment} `{Pool : CertPool}.
Context `{Lib : WebLibs} `{World : ACSWorld}.
Context (p : acs_Provider).

(** A request the service can authenticate: its headers carry the hash of its
    body and a signature of method, target, date, host and that hash under the
    access key. *)
Definition authentic (q : request) : Prop :=
  ∃ date, rq_Header q !! "x-ms-date" = Some date ∧
    rq_Header q !! "x-ms-content-sha256" = Some (hashRequestBody (rq_Body q)) ∧
    Some (buildSignature p (rq_Method q) (url_RequestURI (rq_URL q)) date (url_Host (rq_URL q))
            (hashRequestBody (rq_Body q))) = inl <$> rq_Header q !! "Authorization".

(** A request as [sendAuthorizedRequest] makes it. *)
Definition made_for (requestID operationID method : string) (target : URL) (body : string)
    (q : request) : Prop :=
  rq_Method q = method ∧ rq_URL q = target ∧ rq_Body q = body ∧ authentic q ∧
  rq_Header q !! "x-ms-client-request-id" = Some requestID ∧
  rq_Header q !! "Operation-Id" = nonblank operationID.

Lemma request_headers_made requestID operationID method target body date signature :
  buildSignature p method (url_RequestURI target) date (url_Host target) (hashRequestBody body) =
    inl signature →
  made_for requestID operationID method target body
    (MkRequest method target body
       (request_headers requestID operationID body date (hashRequestBody body) signature)).
Proof.
  intros Hs. unfold made_for, authentic, request_headers, nonblank. cbn -[lookup].
  split_and!; [done|done|done|exists date| |].
  - rewrite Hs. repeat case_decide; by simplify_map_eq.
  - repeat case_decide; by simplify_map_eq.
  - repeat case_decide; by simplify_map_eq.
Qed.

(** Either nothing was sent and the error is permanent, or exactly one request
    was, and the outcome is the transport's. *)
Lemma sendAuthorizedRequest_cases requestID operationID method target body attempt s s' r :
  sendAuthorizedRequest p requestID operationID method target body attempt s = (s', r) →
  a_slept s' = a_slept s ∧
  ((a_sent s' = a_sent s ∧ a_http s' = a_http s ∧
    ∃ e, r = inr (acs_permanentSendError requestID attempt (retryAttempts p) e)) ∨
   (∃ q, made_for requestID operationID method target body q ∧
      a_sent s' = a_sent s ++ [q] ∧ a_http s' = S (a_http s) ∧
      r = match http_Do (a_http s) (httpClient p) q with
          | inl resp => inl resp
          | inr e => inr (acs_temporarySendError requestID attempt (retryAttempts p) 0 e)
          end)).
Proof.
  unfold sendAuthorizedRequest, bind, acs_now. cbn -[buildSignature].
  set (date := http_TimeFormat _).
  destruct (buildSignature p method _ date _ _) as [signature|e] eqn:Hs; [|done].
  apply (request_headers_made requestID operationID) in Hs.
  destruct (NewRequest_error _ _) as [e|].
  - intros [= <- <-]. cbn. split; [done|]. left. eauto.
  - cbn. destruct (http_Do _ _ _) as [resp|e] eqn:Hd; intros [= <- <-]; cbn;
      (split; [done|]); right; eexists; (split_and!; [exact Hs|done|done|]); by rewrite Hd.
Qed.

Lemma parseRetryAfter_frame raw s s' r :
  parseRetryAfter raw s = (s', r) →
  a_sent s' = a_sent s ∧ a_slept s' = a_slept s ∧ a_http s' = a_http s ∧ ∃ d, r = inl d.
Proof.
  unfold parseRetryAfter. intros H. case_decide; [injection H as <- <-; eauto|].
  destruct (Atoi _) as [z|e]; [destruct (0 <=? z)|].
  1: injection H as <- <-; eauto.
  all: destruct (http_ParseTime _); injection H as <- <-; cbn; eauto 6.
Qed.

(** ** The submit loop *)

(** An answer that is worth another attempt: the transport failed, or the
    service is overloaded (429) or broken (5xx). *)
Definition transient (a : response + goerr) : Prop :=
  match a with inr _ => True | inl r => rs_StatusCode r = 429 ∨ 500 <= rs_StatusCode r end.

Lemma isRetryableStatus_transient resp :
  acs_isRetryableStatus (rs_StatusCode resp) = true ↔ transient (inl resp).
Proof. unfold acs_isRetryableStatus. cbn. rewrite orb_true_iff, Z.eqb_eq, Z.leb_le. done. Qed.

(** The service has answered [code] with a body that can be read as [op]. *)
Definition answered (code : Z) (op : operationResponseDTO) (a : response + goerr) : Prop :=
  ∃ resp, a = inl resp ∧ rs_StatusCode resp = code ∧
          decodeOperationResponse (rs_Body resp) = inl op.

(** The answers to requests sent one after the other, from the [h]-th on. *)
Fixpoint exchange (h : nat) (reqs : list request) : list (response + goerr) :=
  match reqs with
  | [] => []
  | q :: reqs => http_Do h (httpClient p) q :: exchange (S h) reqs
  end.

Lemma submitOnce_cases requestID operationID attempt body s s' r :
  submitOnce p requestID operationID attempt body s = (s', r) →
  a_slept s' = a_slept s ∧
  ((a_sent s' = a_sent s ∧ ∃ se, r = inr se ∧ se_Retryable se = false) ∨
   (∃ q, made_for requestID operationID "POST" (sendTarget p) body q ∧
      a_sent s' = a_sent s ++ [q] ∧ a_http s' = S (a_http s) ∧
      match r with
      | inl res => sr_Failure res = None ∧
          ∃ op, answered 202 op (http_Do (a_http s) (httpClient p) q) ∧
                sr_ProviderMessageID res = TrimSpace (op_ID op)
      | inr se => (se_Retryable se = true ↔ transient (http_Do (a_http s) (httpClient p) q)) ∧
          ∀ op, ¬ answered 202 op (http_Do (a_http s) (httpClient p) q)
      end)).
Proof.
  unfold submitOnce, bind.
  destruct (sendAuthorizedRequest _ _ _ _ _ _ _ s) as [s1 r1] eqn:Hsend.
  apply sendAuthorizedRequest_cases in Hsend as (Hsl & [(Hs1 & _ & e & ->)|(q & Hq & Hs1 & Hh & ->)]).
  { intros [= <- <-]. eauto 6. }
  destruct (http_Do (a_http s) (httpClient p) q) as [resp|e] eqn:Hd.
  2:{ intros [= <- <-]. split; [done|]. right. exists q. rewrite Hd.
      do 3 (split; [done|]). split; [done|]. by intros op (? & ? & _). }
  destruct (Z.eqb_spec (rs_StatusCode resp) 202) as [H202|H202]; cbn -[maxResponseBodyBytes transient].
  2:{ intros [= <- <-]. split; [done|]. right. exists q. rewrite Hd.
      do 3 (split; [done|]). split; [apply isRetryableStatus_transient|].
      by intros op (? & [= <-] & ? & _). }
  destruct (decodeOperationResponse _) as [b|e] eqn:Hdec.
  2:{ intros [= <- <-]. split; [done|]. right. exists q. rewrite Hd. do 3 (split; [done|]).
      split; [cbn; rewrite H202; split; [done|lia]|].
      intros op (? & [= <-] & _ & Ho). by rewrite Hdec in Ho. }
  destruct (parseRetryAfter _ s1) as [s2 r2] eqn:Hr.
  apply parseRetryAfter_frame in Hr as (Hs2 & Hsl2 & Hh2 & d & ->).
  intros [= <- <-]. split; [congruence|]. right. exists q.
  rewrite Hs2, Hh2. do 3 (split; [done|]). split; [done|]. exists b. split; [by exists resp|done].
Qed.

(** What a loop that starts at [attempt] with [n] attempts left has done: the
    requests, the waits and the outcome. *)
Definition loop_outcome (n : nat) (attempt : Z) (requestID operationID body : string) (h : nat)
    (reqs : list request) (waits : list duration) (r : SubmissionResult + goerr) : Prop :=
  Forall (made_for requestID operationID "POST" (sendTarget p) body) reqs ∧
  (length reqs <= n)%nat ∧ (length waits <= length reqs)%nat ∧ (length waits < n)%nat ∧
  waits = (λ k, acs_retryBackoff (retryBaseDelay p) (attempt + Z.of_nat k))
            <$> seq 0 (length waits) ∧
  match r with
  | inl res =>
      sr_OperationID res = operationID ∧ sr_State res = SubmissionStateRunning ∧
      sr_Failure res = None ∧
      ∃ earlier last op, exchange h reqs = earlier ++ [last] ∧ Forall transient earlier ∧
        answered 202 op last ∧ sr_ProviderMessageID res = TrimSpace (op_ID op)
  | inr e => (∃ se, e = acs_error se ∧
      (se_Retryable se = true ↔ length reqs = n ∧ Forall transient (exchange h reqs))) ∧
      Forall (λ a, ∀ op, ¬ answered 202 op a) (exchange h reqs)
  end.

(** One more failed attempt and wait before a loop's outcome. *)
Lemma loop_outcome_step n attempt requestID operationID body h q reqs waits r :
  made_for requestID operationID "POST" (sendTarget p) body q →
  transient (http_Do h (httpClient p) q) →
  loop_outcome n (attempt + 1) requestID operationID body (S h) reqs waits r →
  loop_outcome (S n) attempt requestID operationID body h (q :: reqs)
    (acs_retryBackoff (retryBaseDelay p) attempt :: waits) r.
Proof.
  intros Hq Ht (Hf & H1 & H2 & H3 & Hw & Hr). unfold loop_outcome. cbn.
  split_and!; [by constructor|lia|lia|lia| |].
  - rewrite Z.add_0_r, <- fmap_S_seq, <- list_fmap_compose. f_equal. rewrite Hw at 1.
    apply list_fmap_ext. intros i k _. cbn. f_equal. lia.
  - destruct r as [res|e].
    + destruct Hr as (? & ? & ? & earlier & last & op & -> & He & ?). split_and!; [done..|].
      exists (http_Do h (httpClient p) q :: earlier), last, op. by rewrite Forall_cons.
    + destruct Hr as [(se & -> & Hse) Hno]. split.
      * exists se. rewrite Forall_cons. split; [done|]. rewrite Hse. naive_solver lia.
      * constructor; [|done]. intros op (resp & Ha & H202 & _). rewrite Ha in Ht. cbn in Ht. lia.
Qed.

(** The loop stops after one request and no wait. *)
#[local] Ltac stops_after q :=
  intros [= <- <-]; exists [q], []; rewrite !app_nil_r; (split_and!; [done..|]);
  unfold loop_outcome; cbn;
  (split; [by apply Forall_singleton|do 3 (split; [lia|]); split; [done|]]).

Lemma submit_loop_ok n requestID operationID body attempt s s' r :
  (0 < n)%nat → attempt + Z.of_nat n = retryAttempts p + 1 →
  submit_loop p n requestID operationID body attempt s = (s', r) →
  ∃ reqs waits, a_sent s' = a_sent s ++ reqs ∧ a_slept s' = a_slept s ++ waits ∧
    loop_outcome n attempt requestID operationID body (a_http s) reqs waits r.
Proof.
  revert attempt s. induction n as [|n IH]; intros attempt s Hn Ha; [lia|]. cbn [submit_loop].
  destruct (submitOnce _ _ _ _ _ s) as [s1 r1] eqn:Ho.
  apply submitOnce_cases in Ho as (Hsl & [(Hs1 & se & -> & Hse)|(q & Hq & Hs1 & Hh & Hr)]).
  { rewrite Hse. intros [= <- <-]. exists [], []. rewrite !app_nil_r. split_and!; [done..|].
    unfold loop_outcome. cbn. split_and!; [done|lia|lia|lia|done|..|done].
    exists se. split; [done|]. rewrite Hse. naive_solver lia. }
  destruct r1 as [res|se].
  { destruct Hr as (Hfail & op & Hans & Hid). stops_after q. do 3 (split; [done|]).
    by exists [], (http_Do (a_http s) (httpClient p) q), op. }
  destruct Hr as [Hr Hno].
  destruct (se_Retryable se) eqn:Hre; cbn.
  2:{ stops_after q. split; [|by apply Forall_singleton].
      exists se. split; [done|]. rewrite Hre, Forall_singleton. naive_solver. }
  assert (Ht : transient (http_Do (a_http s) (httpClient p) q)) by by apply Hr.
  destruct (Z.eqb_spec attempt (retryAttempts p)) as [Hlast|Hlast].
  { stops_after q. split; [|by apply Forall_singleton].
    exists se. split; [done|]. rewrite Hre, Forall_singleton. naive_solver lia. }
  destruct (backoff_wait (a_waits s1)) as [ctxErr|]; cbn.
  { intros [= <- <-]. exists [q], [acs_retryBackoff (retryBaseDelay p) attempt]. cbn.
    rewrite Hsl. split_and!; [done..|]. unfold loop_outcome. cbn.
    split_and!; [by apply Forall_singleton|lia|lia|lia|by rewrite Z.add_0_r|..];
      [|by apply Forall_singleton].
    eexists. split; [done|]. cbn. naive_solver lia. }
  intros Hl. apply IH in Hl as (reqs & waits & Hs' & Hw' & Hout); [|lia|lia].
  cbn in *. rewrite Hs', Hw', Hs1, Hsl, Hh, <- !app_assoc in *.
  exists (q :: reqs), (acs_retryBackoff (retryBaseDelay p) attempt :: waits).
  split_and!; [done..|]. by apply loop_outcome_step.
Qed.

Lemma acs_Submit_run msg operationID s s' r :
  1 <= retryAttempts p →
  acs_Submit p msg operationID s = (s', r) →
  ∃ requestID body reqs waits,
    a_sent s' = a_sent s ++ reqs ∧ a_slept s' = a_slept s ++ waits ∧
    (reqs = [] ∨ ∃ sq, buildSendRequest (sender p) msg = inl sq ∧ json_Marshal sq = inl body) ∧
    loop_outcome (Z.to_nat (retryAttempts p)) 1 requestID (TrimSpace operationID) body
      (a_http s) reqs waits r.
Proof.
  intros Hn. unfold acs_Submit.
  assert (Hnone : ∀ se h rid body, se_Retryable se = false →
    loop_outcome (Z.to_nat (retryAttempts p)) 1 rid (TrimSpace operationID) body h [] []
      (inr (acs_error se))).
  { intros se h rid body Hse. unfold loop_outcome. cbn. split_and!; [done|lia|lia|lia|done|..|done].
    exists se. split; [done|]. rewrite Hse. naive_solver lia. }
  destruct (buildSendRequest _ _) as [sq|e] eqn:Hb.
  2:{ intros [= <- <-]. exists "", "", [], []. rewrite !app_nil_r. split_and!; eauto. }
  destruct (json_Marshal sq) as [body|e] eqn:Hj; [|done].
  unfold newRequestID, bind. cbn. destruct (acs_rand_Read _) as [b|e]; cbn.
  - intros H. apply submit_loop_ok in H as (reqs & waits & Hs & Hw & Ho); [|lia|lia].
    exists (hex_EncodeToString b), body, reqs, waits. split_and!; eauto.
  - intros [= <- <-]. exists "", body, [], []. rewrite !app_nil_r. split_and!; eauto.
Qed.


(** ** Polling *)

(** The service's words for the state of an operation, in any case and with
    blanks around them. *)
Inductive operation_status (raw : string) : SubmissionState → Prop :=
  | status_running :
      ToLower (TrimSpace raw) ∈ ["running"; "notstarted"] →
      operation_status raw SubmissionStateRunning
  | status_succeeded :
      ToLower (TrimSpace raw) = "succeeded" → operation_status raw SubmissionStateSucceeded
  | status_failed :
      ToLower (TrimSpace raw) = "failed" → operation_status raw SubmissionStateFailed
  | status_canceled :
      ToLower (TrimSpace raw) ∈ ["canceled"; "cancelled"] →
      operation_status raw SubmissionStateCanceled.

Lemma mapACSOperationState_status raw st :
  mapACSOperationState raw = inl st ↔ operation_status raw st.
Proof.
  unfold mapACSOperationState. set (w := ToLower (TrimSpace raw)). split.
  - intros H. repeat case_decide; try done; injection H as <-; constructor; fold w; set_solver.
  - intros Hst. destruct Hst as [H|H|H|H]; fold w in H; try (rewrite H; vm_compute; reflexivity);
      apply elem_of_cons in H as [H|H%list_elem_of_singleton]; rewrite H; vm_compute; reflexivity.
Qed.

(** The text of a failed operation: the message of the service's error, else its
    code, else a sentence with the state. *)
Definition failure_text (st : SubmissionState) (d : option operationErrorDTO) : string :=
  let said f := match d with Some d => TrimSpace (f d) | None => "" end in
  default ("acs operation ended in " +:+ Quote st +:+ " state")
    (head (filter (λ x, x ≠ "") [said oe_Message; said oe_Code])).

Lemma submissionFailureForState_text st d :
  submissionFailureForState st d =
  if decide (st = SubmissionStateFailed ∨ st = SubmissionStateCanceled)
  then Some (MkFailure (failure_text st d) false 0) else None.
Proof.
  unfold submissionFailureForState, failure_text.
  destruct (decide (st = SubmissionStateFailed ∨ st = SubmissionStateCanceled)) as [H|H];
    [rewrite decide_False by tauto|by rewrite decide_True by tauto].
  destruct d as [d|]; [|done]. cbn. repeat case_decide; try done; try congruence.
Qed.

(** What a poll did: the request and the outcome. *)
Definition poll_outcome (requestID operationID : string) (h : nat) (reqs : list request)
    (r : SubmissionStatus + goerr) : Prop :=
  (length reqs <= 1)%nat ∧
  Forall (made_for requestID "" "GET" (operationTarget p operationID) "") reqs ∧
  match r with
  | inl st =>
      ss_OperationID st = operationID ∧ operationID ≠ "" ∧
      ∃ a op, exchange h reqs = [a] ∧ answered 200 op a ∧
        operation_status (op_Status op) (ss_State st) ∧
        ss_ProviderMessageID st = TrimSpace (op_ID op) ∧
        ss_Failure st =
          if decide (ss_State st = SubmissionStateFailed ∨ ss_State st = SubmissionStateCanceled)
          then Some (MkFailure (failure_text (ss_State st) (op_Error op)) false 0) else None
  | inr e => (∃ se, e = acs_error se ∧
      (se_Retryable se = true ↔ reqs ≠ [] ∧ Forall transient (exchange h reqs))) ∧
      Forall (λ a, ∀ op st, answered 200 op a → ¬ operation_status (op_Status op) st)
        (exchange h reqs)
  end.

(** A poll that fails before it sends anything, or on its only request. *)
Lemma poll_fails_before requestID operationID h se :
  se_Retryable se = false → poll_outcome requestID operationID h [] (inr (acs_error se)).
Proof. intros Hse. split_and!; cbn; [lia|done|..|done]. exists se. rewrite Hse. naive_solver. Qed.

Lemma poll_fails_on requestID operationID h q se :
  made_for requestID "" "GET" (operationTarget p operationID) "" q →
  (se_Retryable se = true ↔ transient (http_Do h (httpClient p) q)) →
  (∀ op st, answered 200 op (http_Do h (httpClient p) q) → ¬ operation_status (op_Status op) st) →
  poll_outcome requestID operationID h [q] (inr (acs_error se)).
Proof.
  intros Hq Hse Hno. split; [cbn; lia|]. split; [by apply Forall_singleton|].
  split; [|by apply Forall_singleton].
  exists se. split; [done|]. cbn. rewrite Forall_singleton. naive_solver.
Qed.

#[local] Ltac poll_stops requestID reqs :=
  intros [= <- <-]; (split; [done|]); exists requestID, reqs; rewrite ?app_nil_r; (split; [done|]).

(** C35. One [Poll] sends at most one request, an authenticated GET of the operation.
    It gives a status exactly when the service answered 200 with a body that can
    be decoded and names one of the known states: the status carries the
    operation id asked for, the state is the one the service's word stands for
    (running and notStarted, succeeded, failed, canceled and cancelled), and it
    has a failure, permanent and with the service's text, exactly when that state
    is failed or cancelled.  An error is temporary exactly when the transport
    failed or the service answered 429 or 5xx. *)
Theorem acs_Poll_ok (operationID : string) (s s' : astate) (r : SubmissionStatus + goerr) :
  acs_Poll p operationID s = (s', r) →
  a_slept s' = a_slept s ∧
  ∃ requestID reqs, a_sent s' = a_sent s ++ reqs ∧
    poll_outcome requestID (TrimSpace operationID) (a_http s) reqs r.
Proof.
  unfold acs_Poll, acs_Poll_once. case_decide as Hop.
  { poll_stops "" (@nil request). by apply poll_fails_before. }
  unfold bind at 1, newRequestID, bind at 1. cbn.
  destruct (acs_rand_Read _) as [b|e]; cbn.
  2:{ poll_stops "" (@nil request). by apply poll_fails_before. }
  unfold bind. set (s0 := MkA _ _ _ _ _ _). set (rid := hex_EncodeToString b).
  destruct (sendAuthorizedRequest _ _ _ _ _ _ _ s0) as [s1 r1] eqn:Hsend.
  apply sendAuthorizedRequest_cases in Hsend
    as (Hsl & [(Hs1 & _ & e & ->)|(q & Hq & Hs1 & Hh & ->)]); cbn in Hsl, Hs1.
  { poll_stops rid (@nil request). by apply poll_fails_before. }
  change (a_http s0) with (a_http s).
  destruct (http_Do (a_http s) (httpClient p) q) as [resp|e] eqn:Hd.
  2:{ poll_stops rid [q]. apply poll_fails_on; [done|by rewrite Hd|].
      rewrite Hd. by intros op st (? & ? & _). }
  destruct (Z.eqb_spec (rs_StatusCode resp) 200) as [H200|H200];
    cbn -[maxResponseBodyBytes transient].
  2:{ poll_stops rid [q]. apply poll_fails_on; [done| |]; rewrite Hd;
        [apply isRetryableStatus_transient|]. by intros op st (? & [= <-] & ? & _). }
  assert (Hperm : false = true ↔ transient (inl resp)) by (cbn; split; [done|lia]).
  destruct (decodeOperationResponse _) as [body|e] eqn:Hdec.
  2:{ poll_stops rid [q]. apply poll_fails_on; [done|by rewrite Hd|]. rewrite Hd.
      intros op st (? & [= <-] & _ & Ho). by rewrite Hdec in Ho. }
  destruct (mapACSOperationState _) as [st|e] eqn:Hst.
  2:{ poll_stops rid [q]. apply poll_fails_on; [done|by rewrite Hd|]. rewrite Hd.
      intros op st (? & [= <-] & _ & Ho). rewrite Hdec in Ho. injection Ho as <-.
      intros Hx%mapACSOperationState_status. by rewrite Hst in Hx. }
  destruct (parseRetryAfter _ s1) as [s2 r2] eqn:Hr.
  apply parseRetryAfter_frame in Hr as (Hs2 & Hsl2 & Hh2 & d & ->).
  intros [= <- <-]. split; [congruence|]. exists rid, [q]. split; [congruence|].
  split; [done|]. split; [by apply Forall_singleton|]. cbn. do 2 (split; [done|]).
  exists (inl resp), body. rewrite Hd. split; [done|]. split; [by exists resp|].
  split; [by apply mapACSOperationState_status|]. split; [done|].
  apply submissionFailureForState_text.
Qed.
End props.

(** ** Construction *)

Section construction.
Context `{U : UnicodeTables} `{Rx : MailRegexp} `{Env : Environment} `{Pool : CertPool}.
Context `{Lib : WebLibs}.

(** What no option can break. *)
Definition acs_configured (u : URL) (key : bytes) (from : string) (p : acs_Provider) : Prop :=
  endpoint p = u ∧ accessKey p = key ∧ sender p = from ∧
  1 <= retryAttempts p <= acs_maxRetryAttempts ∧ 0 < retryBaseDelay p ∧
  (hasHTTPClient p = true → is_Some (httpClient p)).

Lemma acs_apply_configured u key from opt p p' :
  acs_configured u key from p → acs_apply opt p = inl p' → acs_configured u key from p'.
Proof.
  intros (Hu & Hk & Hf & Ha & Hd & Hc) H. unfold acs_configured, acs_apply, appendExtraCAPEM in *.
  destruct opt as [a d|[c|]|t|path|pem]; cbn in H.
  - destruct (Z.ltb_spec a 1); [done|]. destruct (Z.ltb_spec acs_maxRetryAttempts a); [done|].
    destruct (Z.leb_spec d 0); [done|]. injection H as <-. cbn. by split_and!.
  - injection H as <-. cbn. split_and!; try done; lia.
  - done.
  - repeat case_match; try done. injection H as <-. cbn. by split_and!; try lia.
  - repeat case_match; try done; injection H as <-; cbn; by split_and!; try lia.
  - repeat case_match; try done; injection H as <-; cbn; by split_and!; try lia.
Qed.

Lemma acs_apply_all_configured u key from opts p p' :
  acs_configured u key from p → acs_apply_all opts p = inl p' → acs_configured u key from p'.
Proof.
  revert p. induction opts as [|[o|] opts IH]; intros p Hp H; cbn in H.
  - by injection H as <-.
  - rbind_step H. eapply IH; [|done]. by eapply acs_apply_configured.
  - by eapply IH.
Qed.

Lemma parseConnection_ok ep cs u key :
  parseConnection ep cs = inl (u, key) →
  url_Host u ≠ "" ∧ EqualFold (url_Scheme u) "https" = true ∧
  ∃ parts v, parseConnectionString cs = inl parts ∧ parts !! "accesskey" = Some v ∧
    base64_decode (bs v) = Some key.
Proof.
  unfold parseConnection. intros H. rbind_step H. rename v into parts.
  set (e := if decide (TrimSpace ep = "") then _ else _) in H.
  destruct (decide (e = "")); [done|]. destruct (url_Parse _) as [u'|]; [|done].
  destruct (decide (url_Scheme u' = "" ∨ url_Host u' = "")) as [|Hn]; [done|].
  destruct (EqualFold (url_Scheme u') "https") eqn:Hs; [|done]. cbn [negb] in H.
  destruct (parts !! "accesskey") as [v|] eqn:Hk; cbn [default from_option id] in H; [|done].
  case_decide; [done|]. destruct (base64_decode (bs v)) as [k|] eqn:Hd; [|done].
  injection H as <- <-. split_and!; [naive_solver|done|]. by exists parts, v.
Qed.

(** C36. A constructed ACS provider talks to an HTTPS host, signs with the key the
    connection string carries, sends from the configured sender only, retries
    between one and ten times with a positive delay, and has an HTTP client. *)
Theorem acs_NewProvider_ok (ep cs from : string) (opts : list (option acs_Option))
    (p : acs_Provider) :
  acs_NewProvider ep cs from opts = inl p →
  url_Host (endpoint p) ≠ "" ∧ EqualFold (url_Scheme (endpoint p)) "https" = true ∧
  sender p = TrimSpace from ∧ sender p ≠ "" ∧
  1 <= retryAttempts p <= acs_maxRetryAttempts ∧ 0 < retryBaseDelay p ∧
  is_Some (httpClient p) ∧
  ∃ parts v, parseConnectionString cs = inl parts ∧ parts !! "accesskey" = Some v ∧
    base64_decode (bs v) = Some (accessKey p).
Proof.
  unfold acs_NewProvider. destruct (parseConnection ep cs) as [[u key]|e] eqn:Hc; [|done].
  apply parseConnection_ok in Hc as (Hh & Hs & Hk).
  destruct (decide (TrimSpace from = "")) as [|Hf]; [done|].
  destruct (acs_apply_all _ _) as [q|e] eqn:Ha; [|done].
  apply (acs_apply_all_configured u key (TrimSpace from)) in Ha;
    [|by split_and!].
  destruct Ha as (<- & <- & Hfrom & Hr & Hd & Hcl). rewrite <- Hfrom in Hf.
  destruct (hasHTTPClient q) eqn:Hq; cbn.
  - destruct (negb _); [done|]. destruct (hasTransportConfig q); [done|].
    intros [= <-]. split_and!; [done|done|done|done|lia|lia|lia|by apply Hcl|done].
  - destruct (buildHTTPClient q) as [c|e]; [|done]. intros [= <-]. cbn.
    split_and!; [done|done|done|done|lia|lia|lia|done|done].
Qed.

(** *** The connection string *)

Definition connection_string (ep : string) (key : bytes) : string :=
  "endpoint=" +:+ ep +:+ ";accesskey=" +:+ base64_EncodeToString key.

Lemma parse_part key val rest m :
  forallb graphic (bs key) = true → forallb graphic (bs val) = true →
  key ≠ "" → val ≠ "" → chr 61 ∉ bs key → ToLower key = key →
  parse_parts ((key +:+ "=" +:+ val) :: rest) m = parse_parts rest (<[key := val]> m).
Proof.
  intros Hk Hv Hkn Hvn He Hl. cbn [parse_parts].
  assert (Hg : TrimSpace (key +:+ "=" +:+ val) = key +:+ "=" +:+ val).
  { apply TrimSpace_graphic. rewrite !bs_app, !forallb_app, Hk, Hv. done. }
  rewrite Hg. rewrite decide_False.
  2:{ intros H%(f_equal bs). rewrite bs_app in H. by destruct key. }
  rewrite !bs_app. change (bs "=") with [chr 61]. cbn [app].
  rewrite cut_first_app, !sb_bs, !TrimSpace_graphic, Hl by done.
  rewrite decide_False; [done|]. naive_solver.
Qed.

(** A connection string printed from an endpoint and a key parses back to
    them: the padding of the encoded key is not taken for a separator. *)
Theorem parseConnection_round_trip (ep : string) (key : bytes) (u : URL) :
  forallb graphic (bs ep) = true → ep ≠ "" → chr 59 ∉ bs ep → key ≠ [] →
  url_Parse (TrimRightByte ep (chr 47)) = inl u →
  url_Host u ≠ "" → url_Scheme u = "https" →
  parseConnection "" (connection_string ep key) = inl (u, key).
Proof.
  intros Hg Hne Hsemi Hkey Hu Hh Hs.
  pose proof (base64_encode_graphic key) as Hb.
  set (k64 := base64_EncodeToString key).
  assert (Hk64 : forallb graphic (bs k64) = true ∧ k64 ≠ "" ∧ chr 59 ∉ bs k64).
  { unfold k64, base64_EncodeToString. rewrite bs_sb. split_and!.
    - apply forallb_forall. intros c Hc%list_elem_of_In. rewrite Forall_forall in Hb. by apply Hb.
    - destruct key as [|a [|b [|c l]]]; [done|..]; cbn; done.
    - intros Hin. rewrite Forall_forall in Hb. by destruct (Hb _ Hin). }
  destruct Hk64 as (Hkg & Hkn & Hks).
  assert (Hp : parseConnectionString (connection_string ep key) =
    inl (<["accesskey" := k64]> (<["endpoint" := ep]> ∅))).
  { unfold parseConnectionString, Split.
    assert (Hsplit : split_on (chr 59) (bs (connection_string ep key)) =
      [bs ("endpoint" +:+ "=" +:+ ep); bs ("accesskey" +:+ "=" +:+ k64)]).
    { unfold connection_string. fold k64.
      replace (bs ("endpoint=" +:+ ep +:+ ";accesskey=" +:+ k64))
        with (bs ("endpoint" +:+ "=" +:+ ep) ++ chr 59 :: bs ("accesskey" +:+ "=" +:+ k64)).
      2:{ by rewrite !bs_app, <- !app_assoc. }
      rewrite split_on_app by (rewrite !bs_app; cbn; set_solver). f_equal.
      apply split_on_single. rewrite !bs_app. cbn. set_solver. }
    rewrite Hsplit. cbn [fmap list_fmap]. rewrite !sb_bs.
    rewrite (parse_part "endpoint"), (parse_part "accesskey")
      by first [done|reflexivity|apply (bool_decide_unpack _); vm_compute; done].
    cbn [parse_parts].
    cbn [rbind]. rewrite decide_False; [done|]. apply insert_non_empty. }
  unfold parseConnection. rewrite Hp. cbn [rbind].
  change (TrimSpace "") with "". destruct (decide ("" = "")) as [_|]; [|done].
  rewrite lookup_insert_ne, lookup_insert_eq by done. cbn [default from_option id].
  rewrite decide_False, Hu by done. rewrite decide_False by (rewrite Hs; naive_solver).
  rewrite Hs. change (EqualFold "https" "https") with true. cbn [negb].
  rewrite lookup_insert_eq. cbn [default from_option id]. rewrite decide_False by done.
  unfold k64, base64_EncodeToString. by rewrite bs_sb, base64_round_trip.
Qed.

(** ** The request body *)

Lemma attachment_dto_ok i a :
  at_Name (attachment_dto i a) ≠ "" ∧ at_ContentType (attachment_dto i a) ≠ "" ∧
  base64_decode (bs (at_ContentInBase64 (attachment_dto i a))) = Some (bs (Data a)).
Proof.
  unfold attachment_dto, base64_EncodeToString. cbn -[base64_decode].
  rewrite bs_sb, base64_round_trip. split_and!; [by repeat case_decide..|done].
Qed.

(** The body of a submission: the configured sender and never the client's,
    exactly the non-blank recipients in order, a content that is not empty and
    keeps the client's texts, the sender trace headers, and every attachment
    under a name and a type, decoding to its bytes. *)
Lemma buildSendRequest_ok (from : string) (msg : Message) (r : sendRequest) :
  buildSendRequest from msg = inl r →
  sq_SenderAddress r = from ∧
  Address <$> sq_Recipients r = filter (λ s, s ≠ "") (TrimSpace <$> To msg) ∧
  sq_Recipients r ≠ [] ∧
  c_Subject (sq_Content r) = Subject msg ∧ c_HTML (sq_Content r) = HTMLBody msg ∧
  (TextBody msg ≠ "" → c_PlainText (sq_Content r) = TextBody msg) ∧
  (c_PlainText (sq_Content r) ≠ "" ∨ c_HTML (sq_Content r) ≠ "") ∧
  (∀ name, sq_Headers r !! name =
     if decide (name = TraceHeaderEnvelopeFrom) then nonblank (EnvelopeFrom msg)
     else if decide (name = TraceHeaderHeaderFrom) then nonblank (HeaderFrom msg) else None) ∧
  length (sq_Attachments r) = length (Attachments msg) ∧
  (∀ i a, Attachments msg !! i = Some a →
     ∃ d, sq_Attachments r !! i = Some d ∧ at_Name d ≠ "" ∧ at_ContentType d ≠ "" ∧
       base64_decode (bs (at_ContentInBase64 d)) = Some (bs (Data a))).
Proof.
  unfold buildSendRequest. intros H.
  destruct (decide (To msg = [])); [done|].
  destruct (decide (length _ = 0%nat)) as [|Hn]; [done|]. injection H as <-.
  cbn -[lookup base64_decode]. split_and!.
  - done.
  - unfold acs_trimmedRecipients. rewrite <- list_fmap_compose. apply list_fmap_id.
  - by intros H%(f_equal length).
  - done.
  - done.
  - intros Ht. by rewrite decide_False by naive_solver.
  - destruct (decide (TextBody msg = "" ∧ HTMLBody msg = "")) as [|Hx]; [by left|].
    destruct (decide (TextBody msg = "")); naive_solver.
  - apply SenderTraceHeaderMap_lookup.
  - apply length_imap.
  - intros i a Ha. exists (attachment_dto i a). rewrite list_lookup_imap, Ha.
    split; [done|]. apply attachment_dto_ok.
Qed.
End construction.
