(* ===== verification/SES.v ===== *)
(** * internal/providers/ses/provider.go

    The Amazon SES client: construction, the raw MIME message, one
    [SendEmail] call per submission and the classification of its errors.

    The AWS SDK is the class [AWS]: a client or why it cannot be configured,
    and the HTTP status or API error code that [errors.As] finds in an error
    of the SDK.  [SESWorld] is one call of [Submit]: the boundaries that
    [multipart.NewWriter] draws and what [SendEmail] answers.  Writes to a
    [bytes.Buffer] do not fail, so the MIME builders return their text; logging
    is left out. *)
From Stdlib Require Import Ascii.
From S2P Require Import Prelude.
From S2P Require Import GoStrings.
From S2P Require Import GoTime.
From S2P Require Import GoErrors.
From S2P Require Import GoEncoding.
From S2P Require Import Email.
From S2P Require Import SenderPolicy.
From S2P Require Import Config.
From S2P Require Import HTTPClient.
From S2P Require Import ACS.
#[local] Open Scope Z_scope.
#[local] Open Scope relay_scope.

Definition ses_providerName : string := "ses".
Definition ses_defaultRetryAttempts : Z := 3.
Definition ses_maxRetryAttempts : Z := 10.
Definition ses_defaultRetryBaseDelay : duration := 1 * Second.
Definition ses_maxDuration : duration := two63 - 1.

(** ** Data *)

Record SendEmailInput := MkInput {
  in_FromEmailAddress : string;
  in_ToAddresses : list string;
  in_RawData : string;
  in_ReplyToAddresses : list string;
  in_ConfigurationSetName : option string;
}.

Record static_credentials := MkCredentials {
  cr_accessKeyID : string;
  cr_secretAccessKey : string;
  cr_sessionToken : string;
}.

(** What [NewProvider] hands to [awsconfig.LoadDefaultConfig] and
    [sesv2.NewFromConfig]; an empty endpoint is the SDK's own. *)
Record ses_client_config := MkClientConfig {
  cc_region : string;
  cc_MaxAttempts : Z;
  cc_backoffBase : duration;
  cc_HTTPClient : option http_client;
  cc_credentials : option static_credentials;
  cc_endpoint : string;
}.

Class AWS := {
  ses_client : Type;
  aws_NewClient : ses_client_config → ses_client + goerr;
  as_ResponseError : goerr → option Z;
  as_APIError : goerr → option string;
}.

Class SESWorld `{AWS} := {
  new_boundary : nat → string;
  SendEmail : ses_client → SendEmailInput → option string + goerr;
}.

Record ses_Provider `{AWS} := MkSES {
  ses_Client : ses_client;
  ses_Sender : string;
  ses_configurationSet : string;
}.

Record ses_providerOptions `{AWS} := MkSESOptions {
  so_httpClient : option http_client;
  so_retryAttempts : Z;
  so_retryBaseDelay : duration;
  so_accessKeyID : string;
  so_secretAccessKey : string;
  so_sessionToken : string;
  so_client : option ses_client;
}.

#[global] Arguments MkSES {_} _ _ _.
#[global] Arguments MkSESOptions {_} _ _ _ _ _ _ _.

(** ** Errors and the back-off *)

Definition ses_permanentSendError (err : goerr) : goerr :=
  SendError ses_providerName "" 1 1 0 false (Some err).

Definition ses_temporarySendError (statusCode : Z) (err : goerr) : goerr :=
  SendError ses_providerName "" 1 1 statusCode true (Some err).

Definition ses_isRetryableStatus (statusCode : Z) : bool :=
  (statusCode =? 429) || (500 <=? statusCode).

Definition isRetryableAPIError `{UnicodeTables} (code : string) : bool :=
  let code := ToLower (TrimSpace code) in
  if decide (code = "") then false
  else Contains code "throttl" || Contains code "too_many_requests"
       || Contains code "toomanyrequests" || Contains code "timeout"
       || Contains code "serviceunavailable" || Contains code "internal".

Definition errorsIsContextCanceled `{UnicodeTables} (err : goerr) : bool :=
  Contains (ToLower (err_Error err)) "context canceled"
  || Contains (ToLower (err_Error err)) "context deadline exceeded".

Definition classifySendError `{UnicodeTables} `{AWS} (err : goerr) : goerr :=
  match as_ResponseError err with
  | Some status =>
      if ses_isRetryableStatus status then ses_temporarySendError status err
      else SendError ses_providerName "" 1 1 status false (Some err)
  | None =>
      match as_APIError err with
      | Some code =>
          if isRetryableAPIError code then ses_temporarySendError 0 err
          else ses_permanentSendError err
      | None =>
          if errorsIsContextCanceled err then ses_permanentSendError err
          else ses_temporarySendError 0 err
      end
  end.

(** The doubling loop is that of the ACS client. *)
Definition BackoffDelay (base : duration) (attempt : Z) : duration :=
  if base <=? 0 then ses_defaultRetryBaseDelay
  else if attempt <=? 1 then base
  else acs_backoff_loop (Z.to_nat (attempt - 1)) base.

(** ** The MIME message *)

Definition CRLF : string := sb [chr 13; chr 10].

Definition normalizeRecipients (recipients : list string) : list string :=
  filter (λ s, s ≠ "") (TrimSpace <$> recipients).

Definition normalizeReplyTo `{MailRegexp} (values : list string) : list string :=
  values ≫= λ value,
    let value := TrimSpace value in
    if decide (value = "") then []
    else match mail_ParseAddress value with
         | inr _ => []
         | inl addr => if decide (TrimSpace addr = "") then [] else [addr]
         end.

Definition normalizeLineEndings (s : string) : string :=
  let s := ReplaceAll s CRLF (sb [chr 10]) in
  let s := ReplaceAll s (sb [chr 13]) (sb [chr 10]) in
  ReplaceAll s (sb [chr 10]) CRLF.

Definition writeHeader (key value : string) : string := key +:+ ": " +:+ value +:+ CRLF.

(** The loop of [writeBase64MIME]: lines of 76 characters. *)
Fixpoint base64_lines (fuel : nat) (encoded : bytes) : bytes :=
  match fuel with
  | O => encoded ++ [chr 13; chr 10]
  | S fuel =>
      if (76 <? length encoded)%nat then
        take 76 encoded ++ [chr 13; chr 10] ++ base64_lines fuel (drop 76 encoded)
      else encoded ++ [chr 13; chr 10]
  end.

Definition writeBase64MIME (data : string) : string :=
  let encoded := base64_encode (bs data) in
  sb (base64_lines (length encoded) encoded).

(** A part of a multipart body: its headers and its content. *)
Definition mime_part : Type := gmap string string * string.

(** [multipart.Writer]: [CreatePart] and the content written to it. *)
Fixpoint write_parts (boundary : string) (first : bool) (parts : list mime_part) : string :=
  match parts with
  | [] => ""
  | (h, body) :: parts =>
      (if first then "" else CRLF) +:+ "--" +:+ boundary +:+ CRLF
      +:+ Join ((λ e, writeHeader e.1 e.2) <$> sorted_entries h) "" +:+ CRLF +:+ body
      +:+ write_parts boundary false parts
  end.

(** With the terminating line that [Close] writes. *)
Definition multipart (boundary : string) (parts : list mime_part) : string :=
  write_parts boundary true parts +:+ CRLF +:+ "--" +:+ boundary +:+ "--" +:+ CRLF.

Definition text_part (contentType body : string) : mime_part :=
  ({["Content-Type" := contentType; "Content-Transfer-Encoding" := "8bit"]}, body).

Definition text_plain : string := "text/plain; charset=UTF-8".
Definition text_html : string := "text/html; charset=UTF-8".

(** [n] numbers the writers made so far. *)
Definition buildAlternativeBody `{UnicodeTables} (bnd : nat → string) (n : nat)
    (plain html : string) : string * string :=
  ("multipart/alternative; boundary=" +:+ Quote (bnd n),
   multipart (bnd n)
     ((if decide (plain = "") then [] else [text_part text_plain plain])
      ++ (if decide (html = "") then [] else [text_part text_html html]))).

Definition attachment_part `{UnicodeTables} (i : nat) (a : Attachment) : mime_part :=
  let name := TrimSpace (Filename a) in
  let name := if decide (name = "") then "attachment-" +:+ Itoa (Z.of_nat i + 1) else name in
  let contentType := TrimSpace (ContentType a) in
  let contentType := if decide (contentType = "") then "application/octet-stream"
                     else contentType in
  ({["Content-Type" := contentType +:+ "; name=" +:+ Quote name;
     "Content-Disposition" := "attachment; filename=" +:+ Quote name;
     "Content-Transfer-Encoding" := "base64"]},
   writeBase64MIME (Data a)).

Definition mixed_text_part `{UnicodeTables} (bnd : nat → string) (plain html : string)
    : mime_part :=
  if decide (plain ≠ "" ∧ html ≠ "") then
    let (altContentType, altBody) := buildAlternativeBody bnd 1 plain html in
    ({["Content-Type" := altContentType]}, altBody)
  else if decide (html = "") then text_part text_plain plain
  else text_part text_html html.

Definition buildMixedBody `{UnicodeTables} (bnd : nat → string) (plain html : string)
    (attachments : list Attachment) : string * string :=
  ("multipart/mixed; boundary=" +:+ Quote (bnd 0%nat),
   multipart (bnd 0%nat)
     (mixed_text_part bnd plain html :: imap attachment_part attachments)).

Definition buildMIMEBody `{UnicodeTables} (bnd : nat → string) (plain html : string)
    (attachments : list Attachment) : string * string :=
  let plain := normalizeLineEndings plain in
  let html := normalizeLineEndings html in
  match attachments with
  | [] =>
      if decide (plain ≠ "" ∧ html ≠ "") then buildAlternativeBody bnd 0 plain html
      else if decide (html = "") then (text_plain, plain) else (text_html, html)
  | _ => buildMixedBody bnd plain html attachments
  end.

(** The header fields of the raw message, in order. *)
Definition raw_headers (sender : string) (recipients replyTo : list string) (msg : Message)
    (contentType : string) : list (string * string) :=
  [("From", sender); ("To", Join recipients ", ")]
  ++ (match replyTo with [] => [] | _ => [("Reply-To", Join replyTo ", ")] end)
  ++ ((λ h, (th_Name h, th_Value h)) <$> SenderTraceHeaders msg)
  ++ [("Subject", if decide (TrimSpace (Subject msg) = "") then "" else QEncode (Subject msg));
      ("MIME-Version", "1.0"); ("Content-Type", contentType)].

Definition buildRawMessage `{UnicodeTables} `{MailRegexp} (bnd : nat → string)
    (sender : string) (msg : Message) : (string * list string * list string) + goerr :=
  let recipients := normalizeRecipients (To msg) in
  if decide (recipients = []) then inr (EText "message has no valid recipients")
  else
    let replyTo := normalizeReplyTo (ReplyTo msg) in
    let html := HTMLBody msg in
    let plain := if decide (TrimSpace (TextBody msg) = "" ∧ TrimSpace html = "")
                 then "(empty message)" else TextBody msg in
    let (contentType, body) := buildMIMEBody bnd plain html (Attachments msg) in
    inl (Join ((λ h, writeHeader h.1 h.2)
                 <$> raw_headers sender recipients replyTo msg contentType) "" +:+ CRLF +:+ body,
         recipients, replyTo).

(** ** Options and construction *)

Section ses.
Context `{U : UnicodeTables} `{Rx : MailRegexp} `{Lib : WebLibs} `{Aws : AWS}.

Inductive ses_Option :=
  | ses_WithHTTPClient (client : option http_client)
  | ses_WithRetry (attempts : Z) (baseDelay : duration)
  | WithStaticCredentials (accessKeyID secretAccessKey sessionToken : string)
  | WithClient (client : option ses_client).

Definition ses_apply (opt : ses_Option) (o : ses_providerOptions)
    : ses_providerOptions + goerr :=
  match opt with
  | ses_WithHTTPClient None => inr (EText "http client cannot be nil")
  | ses_WithHTTPClient (Some client) =>
      inl (MkSESOptions (Some client) (so_retryAttempts o) (so_retryBaseDelay o)
             (so_accessKeyID o) (so_secretAccessKey o) (so_sessionToken o) (so_client o))
  | ses_WithRetry attempts baseDelay =>
      if attempts <? 1 then inr (EText "retry attempts must be >= 1")
      else if ses_maxRetryAttempts <? attempts then
        inr (EText ("retry attempts must be <= " +:+ Itoa ses_maxRetryAttempts))
      else if baseDelay <=? 0 then inr (EText "retry base delay must be > 0")
      else inl (MkSESOptions (so_httpClient o) attempts baseDelay
                  (so_accessKeyID o) (so_secretAccessKey o) (so_sessionToken o) (so_client o))
  | WithStaticCredentials accessKeyID secretAccessKey sessionToken =>
      let accessKeyID := TrimSpace accessKeyID in
      let secretAccessKey := TrimSpace secretAccessKey in
      let sessionToken := TrimSpace sessionToken in
      let hasAccess := negb (bool_decide (accessKeyID = "")) in
      let hasSecret := negb (bool_decide (secretAccessKey = "")) in
      if xorb hasAccess hasSecret then
        inr (EText "ses static credentials require both access key and secret")
      else if negb (bool_decide (sessionToken = "")) && (negb hasAccess || negb hasSecret) then
        inr (EText "session token requires access key and secret")
      else inl (MkSESOptions (so_httpClient o) (so_retryAttempts o) (so_retryBaseDelay o)
                  accessKeyID secretAccessKey sessionToken (so_client o))
  | WithClient None => inr (EText "ses client cannot be nil")
  | WithClient (Some client) =>
      inl (MkSESOptions (so_httpClient o) (so_retryAttempts o) (so_retryBaseDelay o)
             (so_accessKeyID o) (so_secretAccessKey o) (so_sessionToken o) (Some client))
  end.

(** A nil option is [None]. *)
Fixpoint ses_apply_all (opts : list (option ses_Option)) (o : ses_providerOptions)
    : ses_providerOptions + goerr :=
  match opts with
  | [] => inl o
  | None :: opts => ses_apply_all opts o
  | Some opt :: opts => let* o := ses_apply opt o in ses_apply_all opts o
  end.

Definition validateEndpoint (raw : string) : string + goerr :=
  let raw := TrimSpace raw in
  if decide (raw = "") then inl ""
  else match url_Parse raw with
       | inr e => inr (EWrapf "parse ses endpoint" e)
       | inl u =>
           if decide (url_Scheme u = "" ∨ url_Host u = "") then
             inr (EText ("invalid ses endpoint " +:+ Quote raw))
           else if negb (EqualFold (url_Scheme u) "https") then
             inr (EText "ses endpoint must use https scheme")
           else inl (url_String u)
       end.

Definition client_config (region endpoint : string) (o : ses_providerOptions)
    : ses_client_config :=
  MkClientConfig region (so_retryAttempts o) (so_retryBaseDelay o) (so_httpClient o)
    (if decide (so_accessKeyID o = "") then None
     else Some (MkCredentials (so_accessKeyID o) (so_secretAccessKey o) (so_sessionToken o)))
    endpoint.

Definition ses_NewProvider (region sender endpoint configurationSet : string)
    (opts : list (option ses_Option)) : ses_Provider + goerr :=
  let region := TrimSpace region in
  let sender := TrimSpace sender in
  let endpoint := TrimSpace endpoint in
  let configurationSet := TrimSpace configurationSet in
  if decide (region = "") then
    inr (ses_permanentSendError (EText "ses region cannot be empty"))
  else if decide (sender = "") then
    inr (ses_permanentSendError (EText "ses sender cannot be empty"))
  else
    match validateEndpoint endpoint with
    | inr e => inr (ses_permanentSendError e)
    | inl endpoint =>
        match ses_apply_all opts
          (MkSESOptions None ses_defaultRetryAttempts ses_defaultRetryBaseDelay "" "" "" None)
        with
        | inr e => inr (ses_permanentSendError (EWrapf "apply ses option" e))
        | inl o =>
            match so_client o with
            | Some client => inl (MkSES client sender configurationSet)
            | None =>
                match aws_NewClient (client_config region endpoint o) with
                | inr e => inr (ses_permanentSendError (EWrapf "load aws config" e))
                | inl client => inl (MkSES client sender configurationSet)
                end
            end
        end
    end.

(** ** Submit and Poll *)

(** The state is the list of inputs sent so far. *)
Definition ses_Submit `{World : !SESWorld} (p : ses_Provider) (msg : Message)
    (operationID : string) : io goerr (list SendEmailInput) SubmissionResult := λ sent,
  match buildRawMessage new_boundary (ses_Sender p) msg with
  | inr e => (sent, inr (ses_permanentSendError e))
  | inl (raw, recipients, replyTo) =>
      let input := MkInput (ses_Sender p) recipients raw replyTo
        (if decide (ses_configurationSet p = "") then None
         else Some (ses_configurationSet p)) in
      match SendEmail (ses_Client p) input with
      | inr e => (sent ++ [input], inr (classifySendError e))
      | inl messageID =>
          (sent ++ [input],
           inl (MkResult "" "" 0 SubmissionStateSucceeded (default "" messageID) None))
      end
  end.

Definition ses_Poll (operationID : string) : SubmissionStatus + goerr :=
  inl (MkStatus (TrimSpace operationID) 0 SubmissionStateSucceeded "" None).
End ses.
