(* ===== verification/SESProps.v ===== *)
(** * Properties of the SES provider

    Line endings and base64 lines of the MIME body, encoded words, the header
    block of the raw message, and one submission. *)
From Stdlib Require Import Ascii.
From S2P Require Import Prelude.
From S2P Require Import GoStrings.
From S2P Require Import GoTime.
From S2P Require Import GoErrors.
From S2P Require Import GoEncoding.
From S2P Require Import Email.
From S2P Require Import SenderPolicy.
From S2P Require Import HTTPClient.
From S2P Require Import ACS.
From S2P Require Import SES.
#[local] Open Scope Z_scope.

(** ** Line endings *)

Abbreviation CR := (chr 13).
Abbreviation LF := (chr 10).

(** Every CR is followed by LF and every LF preceded by CR. *)
Fixpoint crlf_only (l : bytes) : bool :=
  match l with
  | [] => true
  | a :: l' =>
      if decide (a = LF) then false
      else if decide (a = CR) then
        match l' with b :: l'' => bool_decide (b = LF) && crlf_only l'' | [] => false end
      else crlf_only l'
  end.

#[local] Arguments chr : simpl never.

(** Replacing one byte, without fuel. *)
Definition subst_byte (c : ascii) (new l : bytes) : bytes :=
  l ≫= λ a, if decide (a = c) then new else [a].
#[local] Arguments subst_byte : simpl never.

Lemma replace_byte c new l fuel :
  (length l <= fuel)%nat → replace_bytes fuel [c] new l = subst_byte c new l.
Proof.
  revert fuel. induction l as [|a l IH]; intros [|fuel] Hf; cbn in *; try done; [lia|].
  unfold subst_byte. cbn. destruct (Ascii.eqb_spec c a) as [->|Hne].
  - rewrite decide_True by done. f_equal. apply IH. lia.
  - rewrite decide_False by done. cbn. f_equal. apply IH. lia.
Qed.

Lemma subst_byte_notin c new l : c ∉ new → c ∉ subst_byte c new l.
Proof.
  intros Hn. unfold subst_byte. rewrite list_elem_of_bind. intros (a & Ha & _).
  case_decide; set_solver.
Qed.

Lemma subst_byte_id c new l : c ∉ l → subst_byte c new l = l.
Proof.
  induction l as [|a l IH]; intros Hc; [done|]. unfold subst_byte in *. cbn.
  rewrite decide_False, IH by set_solver. done.
Qed.

Lemma subst_byte_cons c new a l :
  subst_byte c new (a :: l) = (if decide (a = c) then new else [a]) ++ subst_byte c new l.
Proof. done. Qed.

Lemma crlf_only_subst l : CR ∉ l → crlf_only (subst_byte LF [CR; LF] l) = true.
Proof.
  induction l as [|a l IH]; intros Hc; [done|]. rewrite subst_byte_cons.
  rewrite elem_of_cons in Hc. destruct (decide (a = LF)) as [->|Hl].
  - cbn. apply IH. naive_solver.
  - cbn [app crlf_only]. rewrite !decide_False by naive_solver. apply IH. naive_solver.
Qed.

(** Bringing CRLF text to LF and back is the identity. *)
Lemma unix_and_back fuel l :
  (length l <= fuel)%nat → crlf_only l = true →
  CR ∉ replace_bytes fuel [CR; LF] [LF] l ∧
  subst_byte LF [CR; LF] (replace_bytes fuel [CR; LF] [LF] l) = l.
Proof.
  revert l. induction fuel as [|fuel IH]; intros l Hf Hl.
  { destruct l; cbn in *; [|lia]. split; [set_solver|done]. }
  destruct l as [|a l]; [split; [set_solver|done]|]. cbn [crlf_only] in Hl.
  destruct (decide (a = LF)) as [|Ha]; [done|].
  destruct (decide (a = CR)) as [->|Hc].
  - destruct l as [|b l]; [done|]. apply andb_true_iff in Hl as [->%bool_decide_eq_true Hl].
    destruct (IH l) as [H1 H2]; [cbn in *; lia|done|].
    change (replace_bytes (S fuel) [CR; LF] [LF] (CR :: LF :: l))
      with (LF :: replace_bytes fuel [CR; LF] [LF] l). split; [set_solver|].
    by rewrite subst_byte_cons, H2.
  - destruct (IH l) as [H1 H2]; [cbn in *; lia|done|].
    assert (Hs : strip_prefix [CR; LF] (a :: l) = None).
    { unfold strip_prefix. destruct (Ascii.eqb_spec CR a); [by subst|done]. }
    cbn [replace_bytes]. rewrite Hs. split; [set_solver|].
    by rewrite subst_byte_cons, H2, decide_False.
Qed.

Lemma normalizeLineEndings_bytes s :
  bs (normalizeLineEndings s) =
  subst_byte LF [CR; LF] (subst_byte CR [LF] (replace_bytes (length (bs s)) [CR; LF] [LF] (bs s))).
Proof. unfold normalizeLineEndings, ReplaceAll. by rewrite !bs_sb, !replace_byte. Qed.

(** [normalizeLineEndings] leaves no bare CR or LF, and changes nothing in a
    text that has none. *)
Lemma normalizeLineEndings_ok (s : string) :
  crlf_only (bs (normalizeLineEndings s)) = true ∧
  (crlf_only (bs s) = true → normalizeLineEndings s = s).
Proof.
  split.
  - rewrite normalizeLineEndings_bytes. apply crlf_only_subst, subst_byte_notin.
    by apply (bool_decide_unpack _).
  - intros Hs. rewrite <- (sb_bs (normalizeLineEndings s)), normalizeLineEndings_bytes.
    destruct (unix_and_back (length (bs s)) (bs s)) as [H1 H2]; [done|done|].
    by rewrite (subst_byte_id CR), H2, sb_bs.
Qed.

(** ** Base64 lines *)

Lemma base64_lines_filter fuel l :
  filter (λ c, c ≠ LF ∧ c ≠ CR) (base64_lines fuel l) = filter (λ c, c ≠ LF ∧ c ≠ CR) l.
Proof.
  assert (Hend : filter (λ c, c ≠ LF ∧ c ≠ CR) [CR; LF] = []) by done.
  revert l. induction fuel as [|fuel IH]; intros l; cbn [base64_lines].
  - rewrite filter_app, Hend. apply app_nil_r.
  - case_match; rewrite !filter_app, Hend.
    + rewrite IH, app_nil_l, <- filter_app, take_drop. done.
    + apply app_nil_r.
Qed.

Lemma base64_lines_short fuel l :
  (length l <= fuel)%nat → LF ∉ l →
  Forall (λ line, (length line <= 77)%nat) (split_on LF (base64_lines fuel l)).
Proof.
  assert (Hend : ∀ k rest, LF ∉ k → (length k <= 76)%nat →
    Forall (λ line, (length line <= 77)%nat) (split_on LF rest) →
    Forall (λ line, (length line <= 77)%nat) (split_on LF (k ++ [CR; LF] ++ rest))).
  { intros k rest Hk Hlen Hr. change (k ++ [CR; LF] ++ rest) with (k ++ [CR] ++ LF :: rest).
    rewrite app_assoc, split_on_app by set_solver. constructor; [|done].
    rewrite length_app. cbn. lia. }
  revert l. induction fuel as [|fuel IH]; intros l Hf Hl; cbn [base64_lines].
  - rewrite <- (app_nil_r [CR; LF]). apply Hend; [done|lia|]. cbn. by repeat constructor; cbn; lia.
  - destruct (Nat.ltb_spec 76 (length l)).
    + apply Hend; [|rewrite length_take; lia|apply IH].
      * intros Hin. apply Hl. rewrite <- (take_drop 76 l). set_solver.
      * rewrite length_drop. lia.
      * intros Hin. apply Hl. rewrite <- (take_drop 76 l). set_solver.
    + rewrite <- (app_nil_r [CR; LF]). apply Hend; [done|lia|]. by repeat constructor; cbn; lia.
Qed.

(** An attachment written as base64 lines decodes to its bytes, and no line
    is longer than 76 characters and its CR. *)
Lemma writeBase64MIME_ok (data : string) :
  base64_decode (bs (writeBase64MIME data)) = Some (bs data) ∧
  Forall (λ line, (length line <= 77)%nat) (split_on LF (bs (writeBase64MIME data))).
Proof.
  unfold writeBase64MIME. rewrite bs_sb. split.
  - unfold base64_decode. rewrite base64_lines_filter, base64_encode_clean.
    apply base64_quanta_encode.
  - apply base64_lines_short; [done|]. intros Hin.
    pose proof (base64_encode_graphic (bs data)) as Hg. rewrite Forall_forall in Hg.
    by destruct (Hg _ Hin) as [? _].
Qed.

(** ** Header lines *)

(** Text that cannot end a header line. *)
Definition inline (c : ascii) : Prop := c ≠ CR ∧ c ≠ LF.
Definition oneline (s : string) : Prop := Forall inline (bs s).
#[export] Instance inline_dec c : Decision (inline c).
Proof. unfold inline. apply _. Defined.

Lemma oneline_app s t : oneline (s +:+ t) ↔ oneline s ∧ oneline t.
Proof. unfold oneline. rewrite bs_app. apply Forall_app. Qed.

Lemma oneline_TrimSpace s : oneline s → oneline (TrimSpace s).
Proof.
  unfold oneline, TrimSpace. rewrite bs_sb. intros H. unfold trim_right.
  destruct (trim_with_suffix space_encodings (length (bs s)) (bs s)) as [p Hp].
  assert (Hl : Forall inline (trim_left (bs s))).
  { unfold trim_left. rewrite Hp in H. by apply Forall_app in H as [_ ?]. }
  set (l := trim_left (bs s)) in *.
  destruct (trim_with_suffix (map reverse space_encodings) (length l) (reverse l)) as [q Hq].
  apply Forall_reverse. rewrite <- Forall_reverse, Hq in Hl. by apply Forall_app in Hl as [_ ?].
Qed.

Lemma oneline_Join l sep : Forall oneline l → oneline sep → oneline (Join l sep).
Proof.
  unfold oneline, Join. rewrite bs_sb. intros Hl Hs.
  induction Hl as [|x [|y l] Hx Hl IH]; cbn; [done|done|].
  rewrite !Forall_app. by split_and!.
Qed.

(** Bytes of printable ASCII text. *)
Lemma inline_between a b c : between a b c = true → 14 <= a → inline c.
Proof.
  unfold between. intros [H1 H2]%andb_true_iff Ha. apply Z.leb_le in H1.
  split; intros ->; unfold byte_val, chr in *; cbn in *; lia.
Qed.

Lemma hex_upper_inline z : 0 <= z < 16 → inline (hex_upper z).
Proof.
  intros Hz. unfold hex_upper. destruct (Z.ltb_spec z 10);
    (apply (inline_between 48 70); [|lia]); unfold between;
    rewrite byte_val_chr by lia; apply andb_true_iff; rewrite !Z.leb_le; lia.
Qed.

Lemma hex_digit_inline z : 0 <= z < 16 → inline (hex_digit z).
Proof.
  intros Hz. unfold hex_digit. destruct (Z.ltb_spec z 10);
    (apply (inline_between 48 102); [|lia]); unfold between;
    rewrite byte_val_chr by lia; apply andb_true_iff; rewrite !Z.leb_le; lia.
Qed.

Lemma q_byte_inline c : Forall inline (q_byte c).
Proof.
  unfold q_byte. pose proof (byte_val_range c). case_decide; [by repeat constructor|].
  destruct (q_plain c) eqn:Hp.
  - apply andb_true_iff in Hp as [Hp _]. apply Forall_singleton. by eapply inline_between.
  - repeat constructor; try done; apply hex_upper_inline; Z.div_mod_to_equations; lia.
Qed.

Lemma Forall_bind {A B} (P : B → Prop) (f : A → list B) (l : list A) :
  (∀ a, Forall P (f a)) → Forall P (l ≫= f).
Proof. intros Hf. induction l; cbn; [done|]. by apply Forall_app. Qed.

Lemma q_words_inline fuel n l : Forall inline (q_words fuel n l).
Proof.
  revert n l. induction fuel as [|fuel IH]; intros n [|b l]; try done. cbn [q_words].
  apply Forall_app. split; [case_match; by repeat constructor|].
  apply Forall_app. split; [apply Forall_bind, q_byte_inline|apply IH].
Qed.

(** Whatever the subject, its encoding stays on one line. *)
Lemma QEncode_oneline s : oneline (QEncode s).
Proof.
  unfold QEncode, oneline. destruct (q_needs_encoding s) eqn:Hn.
  - rewrite bs_sb. apply Forall_app. split; [by repeat constructor|].
    apply Forall_app. split; [apply q_words_inline|by repeat constructor].
  - apply Forall_forall. intros c Hc. unfold q_needs_encoding in Hn.
    destruct (between 32 126 c) eqn:Hb; [by eapply inline_between|].
    destruct (decide (c = chr 9)) as [->|H9]; [done|].
    exfalso. assert (Ht : existsb (λ c, negb (between 32 126 c) && negb (bool_decide (c = chr 9)))
      (bs s) = true); [|congruence].
    apply existsb_exists. exists c. rewrite <- list_elem_of_In. split; [done|].
    by rewrite Hb, bool_decide_false.
Qed.

Lemma Quote_oneline `{UnicodeTables} s : isASCII s = true → oneline (Quote s).
Proof.
  intros Ha. unfold Quote, oneline. rewrite Ha, bs_sb. apply Forall_cons. split; [done|].
  apply Forall_app. split; [|by repeat constructor]. apply Forall_bind. intros c.
  unfold quote_byte. pose proof (byte_val_range c).
  destruct (bool_decide_reflect (c = dquote ∨ c = backslash)) as [[-> | ->]|]; [by repeat constructor..|].
  destruct (between 32 126 c) eqn:Hb; [apply Forall_singleton; by eapply inline_between|].
  repeat case_match; try (by repeat constructor).
  all: repeat constructor; try done; apply hex_digit_inline; Z.div_mod_to_equations; lia.
Qed.

(** ** The raw message *)

Section raw.
Context `{U : UnicodeTables} `{Rx : MailRegexp}.

Lemma normalizeRecipients_oneline l :
  Forall oneline l → Forall oneline (normalizeRecipients l).
Proof.
  unfold normalizeRecipients. rewrite !Forall_forall. intros H x Hx.
  apply list_elem_of_filter in Hx as [_ (y & -> & Hy)%list_elem_of_fmap].
  by apply oneline_TrimSpace, H.
Qed.

Lemma SenderTraceHeaders_oneline msg :
  oneline (EnvelopeFrom msg) → oneline (HeaderFrom msg) →
  Forall (λ h, oneline (th_Name h) ∧ oneline (th_Value h)) (SenderTraceHeaders msg).
Proof.
  intros He Hh. unfold SenderTraceHeaders.
  assert (oneline TraceHeaderEnvelopeFrom ∧ oneline TraceHeaderHeaderFrom) as [? ?]
    by by repeat constructor.
  repeat case_decide; repeat constructor; try done; by apply oneline_TrimSpace.
Qed.

Lemma buildMIMEBody_type_oneline bnd plain html atts :
  (∀ n, isASCII (bnd n) = true) → oneline (buildMIMEBody bnd plain html atts).1.
Proof.
  intros Hb. unfold buildMIMEBody, buildAlternativeBody, buildMixedBody.
  assert (Hm : ∀ s n, oneline s → oneline (s +:+ Quote (bnd n))).
  { intros s n Hs. apply oneline_app. split; [done|by apply Quote_oneline]. }
  repeat case_match; cbn [fst]; first [apply Hm; by repeat constructor|by repeat constructor].
Qed.

(** C37. No header can be smuggled into the raw message: when the addresses hold
    no line break, the message starts with the header lines in their order,
    none of which is broken by its value, whatever the subject, the bodies and
    the attachments hold; an empty line ends them. *)
Theorem buildRawMessage_headers (bnd : nat → string) (from : string) (msg : Message)
    (raw : string) (recipients replyTo : list string) :
  buildRawMessage bnd from msg = inl (raw, recipients, replyTo) →
  (∀ n, isASCII (bnd n) = true) →
  oneline from → Forall oneline (To msg) → Forall oneline replyTo →
  oneline (EnvelopeFrom msg) → oneline (HeaderFrom msg) →
  recipients = normalizeRecipients (To msg) ∧ recipients ≠ [] ∧
  ∃ headers contentType body,
    raw = Join ((λ h, writeHeader h.1 h.2) <$> headers) "" +:+ CRLF +:+ body ∧
    headers = raw_headers from recipients replyTo msg contentType ∧
    Forall (λ h, oneline h.1 ∧ oneline h.2) headers.
Proof.
  unfold buildRawMessage. intros H Hb Hf Ht Hr He Hh.
  destruct (decide (normalizeRecipients (To msg) = [])) as [|Hn]; [done|].
  set (plain := if decide _ then _ else _) in H.
  pose proof (buildMIMEBody_type_oneline bnd plain (HTMLBody msg) (Attachments msg) Hb) as Hty.
  destruct (buildMIMEBody bnd plain (HTMLBody msg) (Attachments msg)) as [ty body].
  injection H as <- <- <-. split_and!; [done|done|].
  exists (raw_headers from (normalizeRecipients (To msg)) (normalizeReplyTo (ReplyTo msg)) msg ty),
    ty, body.
  split; [done|]. split; [done|]. cbn [fst] in Hty.
  assert (Hsep : oneline ", ") by by repeat constructor.
  unfold raw_headers. rewrite !Forall_app, Forall_fmap. split_and!.
  - repeat constructor; try done. apply oneline_Join; [|done].
    by apply normalizeRecipients_oneline.
  - destruct (normalizeReplyTo (ReplyTo msg)) eqn:Hrt; [done|].
    apply Forall_singleton. split; [by repeat constructor|]. by apply oneline_Join.
  - by apply SenderTraceHeaders_oneline.
  - repeat apply Forall_cons; split_and!; try done; try (by repeat constructor).
    cbn [snd]. case_decide; [by constructor|apply QEncode_oneline].
Qed.
End raw.

(** ** One submission *)

Section submit.
Context `{U : UnicodeTables} `{Rx : MailRegexp} `{Aws : AWS} `{World : !SESWorld}.
Context (p : ses_Provider).

(** Errors of the SDK that are worth another attempt: an overloaded or broken
    service, a throttling code, or a failure without either that is not the end
    of the context. *)
Definition ses_transient (err : goerr) : bool :=
  match as_ResponseError err with
  | Some status => (status =? 429) || (500 <=? status)
  | None =>
      match as_APIError err with
      | Some code => isRetryableAPIError code
      | None => negb (errorsIsContextCanceled err)
      end
  end.

Lemma classifySendError_ok err :
  ∃ status, classifySendError err =
    SendError ses_providerName "" 1 1 status (ses_transient err) (Some err).
Proof.
  unfold classifySendError, ses_transient, ses_isRetryableStatus, ses_temporarySendError,
    ses_permanentSendError.
  destruct (as_ResponseError err) as [st|]; [destruct ((st =? 429) || (500 <=? st)); eauto|].
  destruct (as_APIError err) as [code|]; [destruct (isRetryableAPIError code); eauto|].
  destruct (errorsIsContextCanceled err); eauto.
Qed.

(** The call a submission makes: from the configured sender to the trimmed
    recipients. *)
Definition ses_call (msg : Message) (i : SendEmailInput) : Prop :=
  in_FromEmailAddress i = ses_Sender p ∧ in_ToAddresses i = normalizeRecipients (To msg) ∧
  in_ToAddresses i ≠ [].

(** C38. A submission to SES makes at most one call.  It succeeds exactly when the
    call was accepted, and then as a terminal success, so that the worker never
    polls; a message without recipients is refused for good without a call; an
    error of the call is temporary exactly for the transient ones. *)
Theorem ses_Submit_ok (msg : Message) (operationID : string) (sent sent' : list SendEmailInput)
    (r : SubmissionResult + goerr) :
  ses_Submit p msg operationID sent = (sent', r) →
  match r with
  | inl res =>
      sr_State res = SubmissionStateSucceeded ∧ sr_Failure res = None ∧
      ∃ i messageID, sent' = sent ++ [i] ∧ ses_call msg i ∧
        SendEmail (ses_Client p) i = inl messageID ∧
        sr_ProviderMessageID res = default "" messageID
  | inr e => ∃ d, AsDeliveryError e = Some d ∧ de_provider d = "ses" ∧
      ((sent' = sent ∧ normalizeRecipients (To msg) = [] ∧ de_temporary d = false) ∨
       ∃ i err, sent' = sent ++ [i] ∧ ses_call msg i ∧
         SendEmail (ses_Client p) i = inr err ∧ de_temporary d = ses_transient err)
  end.
Proof.
  unfold ses_Submit, buildRawMessage.
  destruct (decide (normalizeRecipients (To msg) = [])) as [Hn|Hn].
  { intros [= <- <-]. eexists. split; [done|]. split; [done|]. by left. }
  destruct (buildMIMEBody _ _ _ _) as [ty body]. set (input := MkInput _ _ _ _ _).
  assert (Hc : ses_call msg input) by done.
  destruct (SendEmail (ses_Client p) input) as [mid|err] eqn:Hs; intros [= <- <-].
  - split_and!; [done|done|]. by exists input, mid.
  - destruct (classifySendError_ok err) as [st ->]. eexists. split; [done|]. split; [done|].
    right. by exists input, err.
Qed.
End submit.
