(* ===== verification/Startup.v ===== *)
(** * internal/providers/factory.go, internal/providers/noop and the wiring of
    cmd/relay/main.go

    Delivery-runtime selection with its timeout budget, the worker
    configuration derived from it, background delivery with the store that is
    closed when it fails, and readiness. *)
From S2P Require Import Prelude.
From S2P Require Import GoStrings.
From S2P Require Import GoTime.
From S2P Require Import GoErrors.
From S2P Require Import Email.
From S2P Require Import SenderPolicy.
From S2P Require Import Worker.
From S2P Require Import Config.
From S2P Require Import HTTPClient.
From S2P Require Import ACS.
From S2P Require Import SES.
#[local] Open Scope Z_scope.
#[local] Open Scope relay_scope.

(** [time.Duration(1<<63 - 1)] *)
Definition maxDuration : duration := two63 - 1.

(** [time.Duration(ms) * time.Millisecond] *)
Definition ms_duration (ms : Z) : duration := wrap64 (ms * Millisecond).

Fixpoint saturating_loop (total : duration) (values : list duration) : duration :=
  match values with
  | [] => total
  | v :: values =>
      if v <=? 0 then saturating_loop total values
      else if maxDuration - v <? total then maxDuration
      else saturating_loop (wrap64 (total + v)) values
  end.

Definition saturatingAdd (values : list duration) : duration := saturating_loop 0 values.

(** Go's [/] truncates towards zero. *)
Definition multiplyDuration (d : duration) (n : Z) : duration :=
  if (d <=? 0) || (n <=? 0) then 0
  else if Z.quot maxDuration n <? d then maxDuration
  else wrap64 (d * n).

(** The loop [for i := 1; i < attempts; i++], [n] turns left. *)
Fixpoint backoff_loop (n : nat) (total backoff : duration) : duration :=
  match n with
  | O => total
  | S n =>
      let total := saturatingAdd [total; backoff] in
      let backoff := if Z.quot maxDuration 2 <? backoff then maxDuration
                     else wrap64 (backoff * 2) in
      backoff_loop n total backoff
  end.

Definition retryBackoffTotal (base : duration) (attempts : Z) : duration :=
  if (attempts <=? 1) || (base <=? 0) then 0
  else backoff_loop (Z.to_nat (attempts - 1)) 0 base.

Definition runtimeSendTimeout (httpTimeout baseDelay : duration) (attempts : Z) : duration :=
  let retryTransportBudget := multiplyDuration httpTimeout attempts in
  let retryBackoffBudget := retryBackoffTotal baseDelay attempts in
  saturatingAdd [retryTransportBudget; retryBackoffBudget; 2 * Second].

(** ** noop/provider.go *)

Definition noop_Submit (msg : Message) (operationID : string) : SubmissionResult + goerr :=
  inl (MkResult (TrimSpace operationID) "" 0 SubmissionStateSucceeded "" None).

Definition noop_Poll (operationID : string) : SubmissionStatus + goerr :=
  inl (MkStatus (TrimSpace operationID) 0 SubmissionStateSucceeded "" None).

Definition noop_Provider : Provider := {|
  Submit _ := noop_Submit;
  Poll _ := noop_Poll;
|}.

(** ** Build *)

Record Runtime := MkRuntime { rt_Provider : option Provider; rt_SendTimeout : duration }.

(** The n-th call of a provider sees its own part of the world. *)
Class Worlds `{AWS} := {
  acs_world : nat → ACSWorld;
  ses_world : nat → SESWorld;
}.

Section startup.
Context `{U : UnicodeTables} `{Rx : MailRegexp} `{Env : Environment} `{Pool : CertPool}.
Context `{Lib : WebLibs} `{Aws : AWS} `{Wld : !Worlds}.

(** The two clients as [email.Provider]s. *)
Definition acs_as_Provider (p : acs_Provider) : Provider := {|
  Submit n msg operationID :=
    (acs_Submit (World := acs_world n) p msg operationID (MkA 0 0 0 0 [] [])).2;
  Poll n operationID :=
    (acs_Poll (World := acs_world n) p operationID (MkA 0 0 0 0 [] [])).2;
|}.

Definition ses_as_Provider (p : ses_Provider) : Provider := {|
  Submit n msg operationID :=
    (ses_Submit (World := ses_world n) p msg operationID []).2;
  Poll _ := ses_Poll;
|}.

Definition outbound_http (cfg : Config) : HTTPConfig :=
  MkHTTPConfig (ms_duration (DeliveryHTTPTimeoutMS cfg)) (DeliveryHTTPMaxIdleConns cfg)
    (DeliveryHTTPMaxIdleConnsPerHost cfg) (ms_duration (DeliveryHTTPIdleConnTimeoutMS cfg))
    (OutboundTLSCAFile cfg) (OutboundTLSCAPEM cfg).

Definition build_acs (cfg : Config) (client : http_client) (baseDelay : duration)
    : Provider + goerr :=
  let opts := [Some (acs_WithRetry (DeliveryRetryAttempts cfg) baseDelay);
               Some (acs_WithHTTPClient (Some client))] in
  let* p := acs_NewProvider (ACSEndpoint cfg) (ACSConnectionString cfg) (ACSSender cfg) opts in
  inl (acs_as_Provider p).

Definition build_ses (cfg : Config) (client : http_client) (baseDelay : duration)
    : Provider + goerr :=
  let opts := [Some (ses_WithHTTPClient (Some client));
               Some (ses_WithRetry (DeliveryRetryAttempts cfg) baseDelay)] in
  let opts := if decide (TrimSpace (SESAccessKeyID cfg) = "") then opts
              else opts ++ [Some (WithStaticCredentials (SESAccessKeyID cfg)
                                    (SESSecretAccessKey cfg) (SESSessionToken cfg))] in
  let* p := ses_NewProvider (SESRegion cfg) (SESSender cfg) (SESEndpoint cfg)
              (SESConfigurationSet cfg) opts in
  inl (ses_as_Provider p).

(** The common shape of the two cloud branches. *)
Definition build_cloud (what : string)
    (mk : Config → http_client → duration → Provider + goerr) (cfg : Config) : Runtime + goerr :=
  let baseDelay := ms_duration (DeliveryRetryBaseDelayMS cfg) in
  let httpTimeout := ms_duration (DeliveryHTTPTimeoutMS cfg) in
  let sendTimeout := runtimeSendTimeout httpTimeout baseDelay (DeliveryRetryAttempts cfg) in
  match httpclient_Build (outbound_http cfg) with
  | inr e => inr (EWrapf ("build " +:+ what +:+ " http client") e)
  | inl client =>
      let* p := mk cfg client baseDelay in
      inl (MkRuntime (Some p) sendTimeout)
  end.

Definition Build (cfg : Config) : Runtime + goerr :=
  let mode := ToLower (TrimSpace (DeliveryMode cfg)) in
  if decide (mode = "noop") then inl (MkRuntime (Some noop_Provider) 0)
  else if decide (mode = "acs") then build_cloud "acs" build_acs cfg
  else if decide (mode = "ses") then build_cloud "ses" build_ses cfg
  else inr (EText ("unsupported delivery mode " +:+ Quote (DeliveryMode cfg))).

(** ** main.go *)

Definition worker_config (cfg : Config) (rt : Runtime) : WorkerConfig :=
  MkWorkerConfig (rt_SendTimeout rt) DefaultFinalizeTimeout
    (ms_duration (SpoolPollIntervalMS cfg)) (DeliveryRetryAttempts cfg)
    (ms_duration (DeliveryRetryBaseDelayMS cfg)) DefaultSubmittedTimeout (DeliveryMode cfg).

(** The spool store while the process starts: the state of the one that was
    opened, and how often it was closed. *)
Record boot (St : Type) := MkBoot { bt_store : option St; bt_closes : nat }.
#[global] Arguments MkBoot {St} _ _.
#[global] Arguments bt_store {St} _.
#[global] Arguments bt_closes {St} _.

Definition boot0 {St} : boot St := MkBoot None 0.

(** [_ = store.Close()] *)
Definition boot_Close {St} : io goerr (boot St) unit :=
  modify (λ b, MkBoot (bt_store b) (S (bt_closes b))).

(** [if err := m(); err != nil { _ = store.Close(); ... }] *)
Definition or_close {St A} (m : io goerr (boot St) A) : io goerr (boot St) A :=
  try m (λ r, match r with
              | inl a => ret a
              | inr e => boot_Close ;;! fail e
              end).

(** [newStore] is the outcome of [spool.NewSpoolStore(root)]. *)
Definition buildBackgroundDelivery {St} (newStore : St + goerr) (rt : Runtime)
    (workerCfg : WorkerConfig) : io goerr (boot St) WorkerConfig :=
  match rt_Provider rt with
  | None => fail (EText "delivery runtime provider cannot be nil")
  | Some _ =>
      let! store := lift newStore in
      modify (λ b, MkBoot (Some store) (bt_closes b)) ;;!
      or_close (lift (NewWorker true true workerCfg))
  end.

(** The start of [main] up to the background delivery: an error exits. *)
Definition main_background {St} (newStore : St + goerr) (cfg : Config)
    : io goerr (boot St) WorkerConfig :=
  let! rt := lift (Build cfg) in
  buildBackgroundDelivery newStore rt (worker_config cfg rt).
End startup.

(** *** processReadiness *)

Record processReadiness := MkReadiness { smtpReady : bool; recoveryReady : bool }.

(** A nil receiver is [None]. *)
Definition Ready (r : option processReadiness) : bool :=
  match r with None => false | Some r => smtpReady r && recoveryReady r end.
Definition setSMTPReady (ready : bool) (r : option processReadiness) : option processReadiness :=
  (λ r, MkReadiness ready (recoveryReady r)) <$> r.
Definition setRecoveryReady (ready : bool) (r : option processReadiness)
    : option processReadiness := (λ r, MkReadiness (smtpReady r) ready) <$> r.

(** ** Properties *)

Lemma saturating_loop_exact total vs :
  0 <= total <= maxDuration → Forall in_int64 vs →
  saturating_loop total vs = Z.min maxDuration (total + foldr (λ v acc, Z.max v 0 + acc) 0 vs).
Proof.
  intros Ht Hvs. revert total Ht. induction Hvs as [|v vs Hv _ IH]; intros total Ht; cbn.
  - lia.
  - assert (Hs : 0 <= foldr (λ v acc, Z.max v 0 + acc) 0 vs) by (clear; induction vs; cbn; lia).
    unfold in_int64, maxDuration, two63 in *.
    destruct (Z.leb_spec v 0); [rewrite IH by lia; lia|].
    destruct (Z.ltb_spec (9223372036854775808 - 1 - v) total); [lia|].
    rewrite wrap64_id by (unfold in_int64, two63; lia). rewrite IH by lia. lia.
Qed.

Lemma multiplyDuration_exact d n :
  0 <= d <= maxDuration → 0 <= n <= maxDuration →
  multiplyDuration d n = Z.min maxDuration (d * n).
Proof.
  intros Hd Hn. unfold multiplyDuration, maxDuration, two63 in *.
  destruct (Z.leb_spec d 0), (Z.leb_spec n 0); cbn; try nia.
  rewrite Z.quot_div_nonneg by lia.
  destruct (Z.ltb_spec ((9223372036854775808 - 1) / n) d) as [Hlt|Hle].
  - assert (9223372036854775808 - 1 < d * n); [|lia].
    apply Z.lt_nge. intros Hc. rewrite Z.mul_comm in Hc.
    apply Z.div_le_lower_bound in Hc; lia.
  - assert (d * n <= 9223372036854775808 - 1).
    { pose proof (Z.mul_div_le (9223372036854775808 - 1) n). nia. }
    rewrite wrap64_id by (unfold in_int64, two63; nia). lia.
Qed.

Lemma backoff_loop_exact n i base :
  0 < base → 0 <= i →
  backoff_loop n (Z.min maxDuration (base * (2 ^ i - 1))) (Z.min maxDuration (base * 2 ^ i)) =
  Z.min maxDuration (base * (2 ^ (i + Z.of_nat n) - 1)).
Proof.
  intros Hb. revert i. induction n as [|n IH]; intros i Hi.
  - cbn. by rewrite Z.add_0_r.
  - cbn [backoff_loop].
    assert (Hp : 1 <= 2 ^ i) by (apply (Z.pow_le_mono_r 2 0); lia).
    assert (Hs : 2 ^ (i + 1) = 2 * 2 ^ i) by (rewrite Z.pow_add_r by lia; lia).
    unfold saturatingAdd. rewrite saturating_loop_exact.
    2:{ unfold maxDuration, two63. lia. }
    2:{ repeat constructor; unfold in_int64, maxDuration, two63; nia. }
    replace (Z.min maxDuration (0 + foldr _ 0 _)) with (Z.min maxDuration (base * (2 ^ (i + 1) - 1)))
      by (cbn; unfold maxDuration, two63; nia).
    replace (if Z.quot maxDuration 2 <? _ then maxDuration else _)
      with (Z.min maxDuration (base * 2 ^ (i + 1))).
    + rewrite IH by lia. do 4 f_equal. lia.
    + change (Z.quot maxDuration 2) with 4611686018427387903.
      destruct (Z.ltb_spec 4611686018427387903 (Z.min maxDuration (base * 2 ^ i))) as [H|H].
      * rewrite Hs. unfold maxDuration, two63 in *. nia.
      * rewrite wrap64_id by (unfold in_int64, maxDuration, two63 in *; nia).
        rewrite Hs. unfold maxDuration, two63 in *. nia.
Qed.

Lemma retryBackoffTotal_exact base attempts :
  0 <= base <= maxDuration → 1 <= attempts →
  retryBackoffTotal base attempts = Z.min maxDuration (base * (2 ^ (attempts - 1) - 1)).
Proof.
  intros Hb Ha. unfold retryBackoffTotal.
  destruct (Z.leb_spec attempts 1); cbn.
  { replace attempts with 1 by lia. cbn. unfold maxDuration, two63. lia. }
  destruct (Z.leb_spec base 0); [replace base with 0 by lia; unfold maxDuration, two63; lia|].
  pose proof (backoff_loop_exact (Z.to_nat (attempts - 1)) 0 base ltac:(lia) ltac:(lia)) as Hx.
  rewrite Z.add_0_l, Z2Nat.id in Hx by lia. rewrite <- Hx.
  f_equal; unfold maxDuration, two63 in *; cbn; lia.
Qed.

Lemma runtimeSendTimeout_value httpTimeout baseDelay attempts :
  0 <= httpTimeout <= maxDuration → 0 <= baseDelay <= maxDuration →
  1 <= attempts <= maxDuration →
  0 <= httpTimeout * attempts ∧ 0 <= baseDelay * (2 ^ (attempts - 1) - 1) ∧
  runtimeSendTimeout httpTimeout baseDelay attempts =
    Z.min maxDuration
      (httpTimeout * attempts + baseDelay * (2 ^ (attempts - 1) - 1) + 2 * Second).
Proof.
  intros Ht Hb Ha. unfold runtimeSendTimeout.
  rewrite multiplyDuration_exact, retryBackoffTotal_exact by lia.
  assert (Hp : 1 <= 2 ^ (attempts - 1)) by (apply (Z.pow_le_mono_r 2 0); lia).
  assert (0 <= httpTimeout * attempts) by nia.
  assert (0 <= baseDelay * (2 ^ (attempts - 1) - 1)) by nia.
  split; [done|]. split; [done|]. unfold saturatingAdd. rewrite saturating_loop_exact.
  - cbn. unfold maxDuration, two63, Second. lia.
  - unfold maxDuration, two63. lia.
  - repeat constructor; unfold in_int64, maxDuration, two63, Second; lia.
Qed.

(** The submission budget is exact: the transport timeout for every attempt, the
    exponential back-off between attempts and two seconds of slack, saturating
    at the largest duration instead of overflowing.  It is always positive. *)
Lemma runtimeSendTimeout_exact (httpTimeout baseDelay : duration) (attempts : Z) :
  0 <= httpTimeout <= maxDuration → 0 <= baseDelay <= maxDuration →
  1 <= attempts <= maxDuration →
  runtimeSendTimeout httpTimeout baseDelay attempts =
    Z.min maxDuration
      (httpTimeout * attempts + baseDelay * (2 ^ (attempts - 1) - 1) + 2 * Second) ∧
  0 < runtimeSendTimeout httpTimeout baseDelay attempts.
Proof.
  intros Ht Hb Ha.
  destruct (runtimeSendTimeout_value httpTimeout baseDelay attempts Ht Hb Ha) as (? & ? & ->).
  unfold maxDuration, two63, Second. lia.
Qed.

Lemma runtimeSendTimeout_exact_witness :
  runtimeSendTimeout (30 * Second) Second 3 = 95 * Second.
Proof.
  destruct (runtimeSendTimeout_exact (30 * Second) Second 3) as [H _];
    [vm_compute; split; discriminate..|exact H].
Defined.

Section startup_props.
Context `{U : UnicodeTables} `{Rx : MailRegexp} `{Env : Environment} `{Pool : CertPool}.
Context `{Lib : WebLibs} `{Aws : AWS} `{Wld : !Worlds}.

(** C33. The documented local mode cannot start: with [DELIVERY_MODE=noop] the runtime
    carries no send timeout, the worker refuses a zero submit timeout, and
    [main] exits, whatever the rest of the configuration says. *)
Theorem noop_never_starts {St} (newStore : St + goerr) (cfg : Config) :
  DeliveryMode cfg = "noop" →
  ∃ b e, main_background newStore cfg boot0 = (b, inr e) ∧
    (e = EText "spool worker submit timeout must be > 0" ∧ bt_closes b = 1%nat ∨
     newStore = inr e ∧ b = boot0).
Proof.
  intros Hm. unfold main_background, Build, bind, lift. rewrite Hm.
  change (ToLower (TrimSpace "noop")) with "noop". rewrite decide_True by done. cbn.
  destruct newStore as [st|e]; cbn; eauto 10.
Qed.

(** Every validated cloud configuration starts: when the intervals fit a
    64-bit duration and the provider and the store can be built, the worker
    accepts the derived configuration. *)
Lemma cloud_starts {St} (st : St) (cfg : Config) (rt : Runtime) :
  settings_in_range cfg → DeliveryMode cfg ≠ "noop" →
  SpoolPollIntervalMS cfg * Millisecond < two63 →
  DeliveryRetryBaseDelayMS cfg * Millisecond < two63 →
  DeliveryHTTPTimeoutMS cfg * Millisecond < two63 →
  Build cfg = inl rt →
  main_background (inl st) cfg boot0 = (MkBoot (Some st) 0, inl (worker_config cfg rt)) ∧
  NewWorker true true (worker_config cfg rt) = inl (worker_config cfg rt).
Proof.
  intros Hr Hnoop H1 H2 H3 Hb. unfold main_background, bind at 1, lift. rewrite Hb.
  destruct Hr as [Hm _ _ Ha Hd Ht Hp _ _ _ _]. unfold Millisecond, two63 in *.
  assert (Hw : ∀ ms, 1 <= ms → ms * 1000000 < 9223372036854775808 →
               ms_duration ms = ms * 1000000).
  { intros ms ? ?. unfold ms_duration. apply wrap64_id. unfold in_int64, Millisecond, two63. lia. }
  assert (Hrt : is_Some (rt_Provider rt) ∧ 0 < rt_SendTimeout rt).
  { unfold maxDeliveryRetryAttempts in Ha.
    assert (Hc : ∀ what mk, build_cloud what mk cfg = inl rt →
              is_Some (rt_Provider rt) ∧ 0 < rt_SendTimeout rt).
    { intros what mk Hc. unfold build_cloud in Hc. destruct (httpclient_Build _); [|done].
      rbind_step Hc. injection Hc as <-. cbn [rt_Provider rt_SendTimeout]. split; [by eexists|].
      rewrite !Hw by lia.
      match goal with |- 0 < runtimeSendTimeout ?a ?b ?c =>
        destruct (runtimeSendTimeout_value a b c) as (? & ? & ->) end;
        unfold maxDuration, two63, Second in *; lia. }
    unfold Build in Hb. rewrite !elem_of_cons, elem_of_nil in Hm.
    destruct Hm as [Hm|[Hm|[Hm|[]]]]; rewrite Hm in *; [|done|].
    - change (ToLower (TrimSpace "acs")) with "acs" in Hb.
      rewrite decide_False, decide_True in Hb by done. by eapply Hc.
    - change (ToLower (TrimSpace "ses")) with "ses" in Hb.
      rewrite !decide_False, decide_True in Hb by done. by eapply Hc. }
  destruct Hrt as [[p Hp'] Hs].
  assert (Hn : NewWorker true true (worker_config cfg rt) = inl (worker_config cfg rt)).
  { unfold NewWorker. cbn -[Z.leb Z.ltb]. rewrite !Hw by lia.
    rewrite !(proj2 (Z.leb_gt _ _)), (proj2 (Z.ltb_ge _ _))
      by (unfold DefaultFinalizeTimeout, DefaultSubmittedTimeout, Hour, Second; lia).
    done. }
  split; [|exact Hn]. unfold buildBackgroundDelivery. rewrite Hp'.
  unfold bind, or_close, try, lift, modify. by rewrite Hn.
Qed.
End startup_props.
