(* ===== verification/Delivery.v ===== *)
(** * The cloud providers under the worker

    Two compositions: the time budget the factory computes covers everything
    the ACS client does in one submission, and what the worker makes of a
    submission that a shutdown interrupts. *)
From Stdlib Require Import Ascii.
From S2P Require Import Prelude.
From S2P Require Import GoStrings.
From S2P Require Import GoTime.
From S2P Require Import GoErrors.
From S2P Require Import Email.
From S2P Require Import SenderPolicy.
From S2P Require Import SpoolCommon.
From S2P Require Import SpoolStore.
From S2P Require Import Worker.
From S2P Require Import Config.
From S2P Require Import HTTPClient.
From S2P Require Import ACS.
From S2P Require Import ACSProps.
From S2P Require Import SES.
From S2P Require Import SESProps.
From S2P Require Import Startup.
#[local] Open Scope Z_scope.
#[local] Open Scope relay_scope.

(** ** The time budget *)

Definition total (l : list duration) : Z := foldr Z.add 0 l.

Lemma total_app l k : total (l ++ k) = total l + total k.
Proof. unfold total. induction l; cbn; lia. Qed.

(** The first [n] waits of the loop. *)
Lemma backoff_total base n :
  0 < base <= acs_maxDuration →
  total ((λ k, acs_retryBackoff base (1 + Z.of_nat k)) <$> seq 0 n)
    <= base * (2 ^ Z.of_nat n - 1).
Proof.
  intros Hb. induction n as [|n IH]; [cbn; lia|].
  rewrite seq_S, fmap_app, total_app. cbn [fmap list_fmap total foldr].
  rewrite acs_retryBackoff_exact by lia. replace (1 + Z.of_nat (0 + n) - 1) with (Z.of_nat n) by lia.
  replace (Z.of_nat (S n)) with (Z.of_nat n + 1) by lia. rewrite Z.pow_add_r by lia. lia.
Qed.

Section budget.
Context `{U : UnicodeTables} `{Rx : MailRegexp} `{Env : Environment} `{Pool : CertPool}.
Context `{Lib : WebLibs} `{Aws : AWS} `{Wld : !Worlds}.

(** What a submission spends: the transport timeout for every request and the
    waits in between. *)
Lemma submit_spends `{World : ACSWorld} p msg operationID s s' r timeout :
  1 <= retryAttempts p → 0 < retryBaseDelay p <= acs_maxDuration → 0 <= timeout →
  acs_Submit p msg operationID s = (s', r) →
  timeout * Z.of_nat (length (a_sent s') - length (a_sent s))
    + total (drop (length (a_slept s)) (a_slept s'))
    <= timeout * retryAttempts p + retryBaseDelay p * (2 ^ (retryAttempts p - 1) - 1).
Proof.
  intros Ha Hb Ht Hr.
  assert (Hrun : ∃ reqs waits, a_sent s' = a_sent s ++ reqs ∧ a_slept s' = a_slept s ++ waits ∧
    Z.of_nat (length reqs) <= retryAttempts p ∧ Z.of_nat (length waits) < retryAttempts p ∧
    waits = (λ k, acs_retryBackoff (retryBaseDelay p) (1 + Z.of_nat k)) <$> seq 0 (length waits)).
  { apply acs_Submit_run in Hr as (rid & body & reqs & waits & Hs & Hw & _ & Ho); [|done].
    exists reqs, waits. destruct Ho as (_ & H1 & _ & H2 & H3 & _). split_and!; [done|done|lia|lia|done]. }
  destruct Hrun as (reqs & waits & -> & -> & Hn & Hw & Hwaits).
  rewrite length_app, drop_app_length.
  replace (length (a_sent s) + length reqs - length (a_sent s))%nat with (length reqs) by lia.
  pose proof (backoff_total (retryBaseDelay p) (length waits) Hb) as Htot. rewrite <- Hwaits in Htot.
  assert (2 ^ Z.of_nat (length waits) <= 2 ^ (retryAttempts p - 1))
    by (apply Z.pow_le_mono_r; lia).
  nia.
Qed.

Lemma build_acs_ok cfg client base prov :
  build_acs cfg client base = inl prov →
  ∃ p, prov = acs_as_Provider p ∧ retryAttempts p = DeliveryRetryAttempts cfg ∧
    retryBaseDelay p = base ∧ httpClient p = Some client ∧
    1 <= retryAttempts p <= acs_maxRetryAttempts ∧ 0 < base.
Proof.
  unfold build_acs. intros H. rbind_step H. injection H as <-. exists v. split; [done|].
  unfold acs_NewProvider in Hv. destruct (parseConnection _ _) as [[u key]|]; [|done].
  destruct (decide (TrimSpace (ACSSender cfg) = "")); [done|]. cbn in Hv.
  destruct (Z.ltb_spec (DeliveryRetryAttempts cfg) 1); [done|].
  destruct (Z.ltb_spec acs_maxRetryAttempts (DeliveryRetryAttempts cfg)); [done|].
  destruct (Z.leb_spec base 0); [done|]. cbn in Hv. injection Hv as <-. cbn. done.
Qed.

(** C39. The send timeout the factory gives an ACS runtime is never the reason a
    submission ends: for every message and whatever the service does, the
    transport timeouts of all requests, all waits between them and two seconds
    of slack fit into it, as long as that sum is representable. *)
Theorem acs_submit_within_budget (cfg : Config) (rt : Runtime) :
  Build cfg = inl rt → DeliveryMode cfg = "acs" →
  1 <= DeliveryHTTPTimeoutMS cfg → 1 <= DeliveryRetryBaseDelayMS cfg →
  DeliveryHTTPTimeoutMS cfg * Millisecond * DeliveryRetryAttempts cfg
    + DeliveryRetryBaseDelayMS cfg * Millisecond * (2 ^ (DeliveryRetryAttempts cfg - 1) - 1)
    + 2 * Second <= maxDuration →
  DeliveryRetryBaseDelayMS cfg * Millisecond <= maxDuration →
  ∃ p client, rt_Provider rt = Some (acs_as_Provider p) ∧ httpClient p = Some client ∧
    ∀ (World : ACSWorld) msg operationID s s' r, acs_Submit p msg operationID s = (s', r) →
      hc_Timeout client * Z.of_nat (length (a_sent s') - length (a_sent s))
        + total (drop (length (a_slept s)) (a_slept s')) + 2 * Second
        <= rt_SendTimeout rt.
Proof.
  intros Hb Hm Ht Hd Hsum Hdm. unfold Build in Hb. rewrite Hm in Hb.
  change (ToLower (TrimSpace "acs")) with "acs" in Hb.
  rewrite decide_False, decide_True in Hb by done. unfold build_cloud in Hb.
  destruct (httpclient_Build (outbound_http cfg)) as [client|e] eqn:Hc; [|done].
  apply httpclient_Build_ok in Hc as (Hto & _). rbind_step Hb. injection Hb as <-.
  apply build_acs_ok in Hv as (p & -> & Hra & Hrb & Hcl & Hr & Hpos).
  exists p, client. split; [done|]. split; [done|]. intros World msg op s s' r Hs.
  cbn [rt_SendTimeout]. cbn [outbound_http hcfg_Timeout] in Hto.
  unfold acs_maxRetryAttempts in Hr. rewrite Hra in Hr. unfold Millisecond in *.
  assert (Hp : 1 <= 2 ^ (DeliveryRetryAttempts cfg - 1)) by (apply (Z.pow_le_mono_r 2 0); lia).
  assert (Hx : ∀ ms, 1 <= ms → ms * 1000000 <= maxDuration → ms_duration ms = ms * 1000000).
  { intros ms ? ?. apply wrap64_id. unfold in_int64, Millisecond, maxDuration, two63 in *. lia. }
  assert (DeliveryHTTPTimeoutMS cfg * 1000000 <= maxDuration) by (unfold Second in *; nia).
  rewrite (Hx (DeliveryHTTPTimeoutMS cfg)) in * by done.
  rewrite (Hx (DeliveryRetryBaseDelayMS cfg)) in * by done.
  destruct (runtimeSendTimeout_value (DeliveryHTTPTimeoutMS cfg * 1000000)
    (DeliveryRetryBaseDelayMS cfg * 1000000) (DeliveryRetryAttempts cfg)) as (_ & _ & ->);
    [unfold maxDuration, two63 in *; lia..|].
  rewrite Z.min_r by lia.
  pose proof (submit_spends p msg op s s' r (hc_Timeout client)) as Hspend.
  rewrite Hra, Hrb, Hto in Hspend. rewrite Hto.
  specialize (Hspend ltac:(lia)). unfold maxDuration, acs_maxDuration in *.
  specialize (Hspend ltac:(lia) ltac:(lia) Hs). lia.
Qed.
End budget.

(** ** Shutdown during a submission *)

Section shutdown.
Context `{U : UnicodeTables} `{Rx : MailRegexp} `{Env : Environment} `{Pool : CertPool}.
Context `{Lib : WebLibs} `{Aws : AWS}.
Context {St : Store} (cfg : WorkerConfig).

(** The worker gives the record up. *)
Definition gives_up (now : time) (rec : SpoolRecord) (answer : SubmissionResult + goerr) : Prop :=
  ∃ outcome lastErr, settle_submit cfg now rec answer =
    (emit (ObserveSubmission (ProviderName cfg) outcome) ;;!
     finalizeRecord "dead-letter queued record after submit error" (rec_ID rec)
       (store_MarkDeadLetter rec (Some lastErr)) ;;!
     ret true).

Lemma permanent_gives_up now rec provider rid a n status err :
  gives_up now rec (inr (SendError provider rid a n status false err)).
Proof. do 2 eexists. cbn. reflexivity. Qed.

(** A wait of the ACS client that ends with the context. *)
Lemma acs_Submit_interrupted `{World : ACSWorld} p msg operationID s sq rid e ctxErr :
  1 < retryAttempts p → buildSendRequest (sender p) msg = inl sq →
  acs_rand_Read (a_rand s) = inl rid →
  NewRequest_error "POST" (url_String (sendTarget p)) = None →
  (∀ q, http_Do (a_http s) (httpClient p) q = inr e) →
  backoff_wait (a_waits s) = Some ctxErr →
  ∃ requestID, (acs_Submit p msg operationID s).2 =
    inr (acs_error (acs_permanentSendError requestID 1 (retryAttempts p) ctxErr)).
Proof.
  intros Hn Hb Hrd Hnr Hdo Hw. unfold acs_Submit. rewrite Hb.
  destruct (json_Marshal sq) as [body|] eqn:Hj; [|done]. unfold newRequestID, bind. cbn -[submit_loop].
  rewrite Hrd. cbn -[submit_loop]. exists (GoEncoding.hex_EncodeToString rid).
  destruct (Z.to_nat (retryAttempts p)) as [|n] eqn:Hk; [lia|]. cbn [submit_loop].
  unfold submitOnce, bind, sendAuthorizedRequest, bind, buildSignature, acs_now, acs_Do.
  rewrite Hnr. cbn [a_http fst snd]. rewrite Hdo. cbn [fail se_Retryable acs_temporarySendError].
  rewrite (proj2 (Z.eqb_neq 1 (retryAttempts p))) by lia. cbn. by rewrite Hw.
Qed.

(** C40. A shutdown loses the message it interrupts.  The worker means to retry a
    submission that the end of its context cut short, and does when it sees the
    bare [context.Canceled]; but both cloud clients wrap it into a permanent
    delivery error, and the worker dead-letters the record: the ACS client when
    the context ends while it waits to repeat a failed request, the SES client
    whenever [SendEmail] fails with the cancellation. *)
Theorem shutdown_dead_letters (now : time) (rec : SpoolRecord) :
  le_Temporary (lastErrorFromProviderError ECanceled now) = true ∧
  (∀ (World : ACSWorld) p msg operationID s sq rid e,
     1 < retryAttempts p → buildSendRequest (sender p) msg = inl sq →
     acs_rand_Read (a_rand s) = inl rid →
     NewRequest_error "POST" (url_String (sendTarget p)) = None →
     (∀ q, http_Do (a_http s) (httpClient p) q = inr e) →
     backoff_wait (a_waits s) = Some ECanceled →
     gives_up now rec (acs_Submit p msg operationID s).2) ∧
  (∀ (World : SESWorld) p msg operationID sent,
     normalizeRecipients (To msg) ≠ [] →
     as_ResponseError ECanceled = None → as_APIError ECanceled = None →
     (∀ i, SendEmail (ses_Client p) i = inr ECanceled) →
     gives_up now rec (ses_Submit p msg operationID sent).2).
Proof.
  split; [done|]. split.
  - intros World p msg op s sq rid e Hn Hb Hrd Hnr Hdo Hw.
    destruct (acs_Submit_interrupted p msg op s sq rid e ECanceled) as [r ->]; [done..|].
    apply permanent_gives_up.
  - intros World p msg op sent Hne Hre Hae Hs.
    destruct (ses_Submit p msg op sent) as [sent' r] eqn:Hr.
    unfold ses_Submit, buildRawMessage in Hr. rewrite decide_False in Hr by done.
    destruct (buildMIMEBody _ _ _ _) as [ty body]. rewrite Hs in Hr. injection Hr as <- <-.
    unfold classifySendError. rewrite Hre, Hae. apply permanent_gives_up.
Qed.
End shutdown.
