(* ===== verification/SMTPServer.v ===== *)
(** * internal/smtp/server.go

    The SMTP session behind go-smtp's callbacks, connection admission, and the
    construction of the server.  go-smtp itself is not modelled: it may call the
    session's methods in any order, and every property is about any sequence of
    calls.  Its error values and the TLS state it reports are parameters.  The
    life cycle of the listeners is in [SMTPLifecycle].

    Logging is left out. *)
From Stdlib Require Import Ascii.
From S2P Require Import Prelude.
From S2P Require Import GoStrings.
From S2P Require Import GoTime.
From S2P Require Import GoErrors.
From S2P Require Import GoEncoding.
From S2P Require Import GoNetip.
From S2P Require Import GoMail.
From S2P Require Import GoMIME.
From S2P Require Import Email.
From S2P Require Import SenderPolicy.
From S2P Require Import SMTPParser.
From S2P Require Import Observability.
#[local] Open Scope Z_scope.
#[local] Open Scope relay_scope.

Definition defaultDomain : string := "smtp-cloud-relay.local".
Definition defaultMaxMessageSize : Z := Z.shiftl 25 20.
Definition defaultMaxRecipients : Z := 100.
Definition defaultReadTimeout : duration := 30 * Second.
Definition defaultWriteTimeout : duration := 30 * Second.
Definition defaultHandlerTimeout : duration := 45 * Second.

(** go-smtp's errors, and [net.SplitHostPort]. *)
Class GoSMTP := {
  ErrAuthUnsupported : goerr;
  ErrAuthUnknownMechanism : goerr;
  SplitHostPort : string → option string;
}.

(** [AuthProvider]: the error of [AuthPlain], if any. *)
Definition AuthProvider : Type := string → string → option goerr.

(** [StaticAuthProvider.AuthPlain]; [subtle.ConstantTimeCompare] is 1 exactly
    when the slices are equal. *)
Definition AuthPlain (Username Password : string) : AuthProvider := λ username password,
  if decide (username ≠ Username) then Some (EText "invalid username or password")
  else if decide (password ≠ Password) then Some (EText "invalid username or password")
  else None.

(** ** Admission *)

(** A [net.Addr]: the three kinds with an IP, and any other by its text. *)
Inductive net_Addr :=
  | TCPAddr (ip : bytes) (text : string)
  | UDPAddr (ip : bytes) (text : string)
  | IPAddr (ip : bytes) (text : string)
  | OtherAddr (text : string).

Definition addr_String (a : net_Addr) : string :=
  match a with TCPAddr _ t | UDPAddr _ t | IPAddr _ t | OtherAddr t => t end.

(** [strings.TrimSuffix] of one byte *)
Definition TrimSuffixByte (s : string) (c : ascii) : string :=
  match reverse (bs s) with
  | d :: l => if decide (d = c) then sb (reverse l) else s
  | [] => s
  end.

Definition isAddrAllowed (addr : Addr) (allowed : list Prefix) : bool :=
  existsb (λ p, prefix_Contains p addr) allowed.

Section admission.
Context `{G : GoSMTP}.

Definition addr_of_ip (kind : string) (ip : bytes) : Addr + goerr :=
  match AddrFromSlice ip with
  | Some a => inl (Unmap a)
  | None => inr (EText ("invalid " +:+ kind +:+ " remote ip"))
  end.

(** [None]: the connection or its remote address is nil. *)
Definition remoteAddrIP (remote : option net_Addr) : (Addr * string) + goerr :=
  match remote with
  | None => inr (EText "missing remote address")
  | Some a =>
      let text := addr_String a in
      let* addr :=
        match a with
        | TCPAddr ip _ => addr_of_ip "tcp" ip
        | UDPAddr ip _ => addr_of_ip "udp" ip
        | IPAddr ip _ => addr_of_ip "ip" ip
        | OtherAddr _ =>
            let host := default text (SplitHostPort text) in
            let host := TrimPrefix host "[" in
            let host := TrimSuffixByte host "]"%char in
            match ParseAddr host with
            | inl addr => inl (Unmap addr)
            | inr e => inr (EWrapf "parse remote ip" e)
            end
        end in
      inl (addr, text)
  end.
End admission.

(** ** The session *)

Record sessionPolicy := MkPolicy {
  sp_allowedCIDRs : list Prefix;
  sp_requireAuth : bool;
  sp_requireTLS : bool;
  sp_authProvider : option AuthProvider;
  sp_handlerTimeout : duration;
}.

Record session := MkSession {
  se_from : string;
  se_to : list string;
  se_authed : bool;
  se_remoteAddr : string;
  se_authProvider : option AuthProvider;
  se_requireAuth : bool;
  se_requireTLS : bool;
  se_timeout : duration;
}.

(** [MessageHandler]: the context carries a timeout or none. *)
Class MessageHandler := {
  mh_state : Type;
  smtp_HandleMessage : option duration → Message → io goerr mh_state unit;
}.

Definition access_denied : goerr := SMTPError 554 (5, 7, 1) "access denied".
Definition authentication_failed : goerr := SMTPError 535 (5, 7, 8) "authentication failed".
Definition starttls_first : goerr := SMTPError 530 (5, 7, 0) "Must issue STARTTLS first".
Definition authentication_required : goerr := SMTPError 530 (5, 7, 0) "Authentication required".
Definition invalid_content : goerr := SMTPError 554 (5, 6, 0) "invalid message content".

Section session.
Context `{U : UnicodeTables} `{Rx : MailRegexp} `{AL : AddressList} `{ME : MIMEEnv}.
Context `{G : GoSMTP} `{MH : MessageHandler}.

(** The session, the metrics, and the state behind the handler. *)
Record smtp_state := MkSMTP {
  ss_session : session;
  ss_metrics : option Metrics;
  ss_handler : mh_state;
}.

Definition SM := io goerr smtp_state.

Definition set_session (f : session → session) : SM unit :=
  modify (λ s, MkSMTP (f (ss_session s)) (ss_metrics s) (ss_handler s)).
Definition on_metrics (f : option Metrics → option Metrics) : SM unit :=
  modify (λ s, MkSMTP (ss_session s) (f (ss_metrics s)) (ss_handler s)).
Definition on_handler {A} (m : io goerr mh_state A) : SM A := λ s,
  match m (ss_handler s) with (h, r) => (MkSMTP (ss_session s) (ss_metrics s) h, r) end.

(** [backend.NewSession] *)
Definition NewSession (policy : sessionPolicy) (remote : option net_Addr)
    (metrics : option Metrics) : option Metrics * (session + goerr) :=
  match remoteAddrIP remote with
  | inr _ => (IncSessionsDenied metrics, inr access_denied)
  | inl (remoteIP, remoteAddr) =>
      if negb (isAddrAllowed remoteIP (sp_allowedCIDRs policy)) then
        (IncSessionsDenied metrics, inr access_denied)
      else
        (metrics, inl (MkSession "" [] false remoteAddr (sp_authProvider policy)
                         (sp_requireAuth policy) (sp_requireTLS policy)
                         (sp_handlerTimeout policy)))
  end.

Definition AuthMechanisms (s : session) : list string :=
  if negb (se_requireAuth s) || bool_decide (se_authProvider s = None) then [] else ["PLAIN"].

(** [Auth]: the authenticator given to [sasl.NewPlainServer], which go-sasl
    calls with the identity, user name and password of the client. *)
Definition session_Auth (mech : string) : SM (string → string → string → SM unit) := λ st,
  let s := ss_session st in
  match se_authProvider s with
  | Some provider =>
      if negb (se_requireAuth s) then (st, inr ErrAuthUnsupported)
      else if negb (EqualFold mech "PLAIN") then (st, inr ErrAuthUnknownMechanism)
      else
        (st, inl (λ _ username password,
          match provider username password with
          | Some _ => on_metrics IncAuthFailures ;;! fail authentication_failed
          | None =>
              set_session (λ s,
                MkSession (se_from s) (se_to s) true (se_remoteAddr s) (se_authProvider s)
                  (se_requireAuth s) (se_requireTLS s) (se_timeout s))
          end))
  | None => (st, inr ErrAuthUnsupported)
  end.

(** [isTLSActive]: what the connection reports, [None] when it is nil. *)
Definition isTLSActive (conn : option bool) : bool := default false conn.

Definition enforceSessionPolicy (conn : option bool) (s : session) : option goerr :=
  if se_requireTLS s && negb (isTLSActive conn) then Some starttls_first
  else if se_requireAuth s && negb (se_authed s) then Some authentication_required
  else None.

Definition enforce (conn : option bool) : SM unit := λ st,
  (st, match enforceSessionPolicy conn (ss_session st) with
       | Some e => inr e
       | None => inl tt
       end).

Definition session_Mail (conn : option bool) (from : string) : SM unit :=
  enforce conn ;;!
  set_session (λ s,
    MkSession from (se_to s) (se_authed s) (se_remoteAddr s) (se_authProvider s)
      (se_requireAuth s) (se_requireTLS s) (se_timeout s)).

Definition session_Rcpt (conn : option bool) (to : string) : SM unit :=
  enforce conn ;;!
  set_session (λ s,
    MkSession (se_from s) (se_to s ++ [to]) (se_authed s) (se_remoteAddr s) (se_authProvider s)
      (se_requireAuth s) (se_requireTLS s) (se_timeout s)).

Definition session_Data (conn : option bool) (r : stream) : SM unit :=
  enforce conn ;;!
  let! st := get in
  let s := ss_session st in
  match ParseMessage r (se_from s) (se_to s) with
  | inr _ => fail invalid_content
  | inl msg =>
      let handleCtx := if 0 <? se_timeout s then Some (se_timeout s) else None in
      try (on_handler (smtp_HandleMessage handleCtx msg)) (λ res,
        match res with
        | inl _ => ret tt
        | inr e =>
            match AsSMTPError e with
            | Some (code, enh, message) => fail (SMTPError code enh message)
            | None => fail (EWrapf "handle parsed message" e)
            end
        end)
  end.

Definition session_Reset : SM unit :=
  set_session (λ s,
    MkSession "" [] (se_authed s) (se_remoteAddr s) (se_authProvider s)
      (se_requireAuth s) (se_requireTLS s) (se_timeout s)).

Definition session_Logout : SM unit := ret tt.
End session.

(** ** NewServer *)

Record SMTPConfig := MkSMTPConfig {
  sc_ListenAddr : string;
  sc_SMTPSListenAddr : string;
  sc_Domain : string;
  sc_AllowedCIDRs : list Prefix;
  sc_RequireAuth : bool;
  sc_RequireTLS : bool;
  sc_StartTLSEnabled : bool;
  sc_TLSConfig : bool;      (** whether a TLS configuration is given *)
  sc_MaxMessageBytes : Z;
  sc_MaxRecipients : Z;
  sc_ReadTimeout : duration;
  sc_WriteTimeout : duration;
  sc_HandlerTimeout : duration;
}.

(** A configured [gosmtp.Server]. *)
Record gosmtp_Server := MkGoSMTP {
  gs_Addr : string;
  gs_Domain : string;
  gs_AllowInsecureAuth : bool;
  gs_MaxMessageBytes : Z;
  gs_MaxRecipients : Z;
  gs_ReadTimeout : duration;
  gs_WriteTimeout : duration;
  gs_TLSConfig : bool;
  gs_policy : sessionPolicy;
}.

Record Server := MkServer {
  sv_smtpServer : option gosmtp_Server;
  sv_smtpsServer : option gosmtp_Server;
}.

Definition newSMTPListener (addr domain : string) (policy : sessionPolicy)
    (allowInsecureAuth : bool) (maxMessageBytes maxRecipients : Z)
    (readTimeout writeTimeout : duration) (tls : bool) : gosmtp_Server :=
  MkGoSMTP addr domain allowInsecureAuth maxMessageBytes maxRecipients readTimeout writeTimeout
    tls policy.

Definition blank_addr (s : string) : bool := bool_decide (TrimSpace s = "").

(** [handler] says whether the interface value is non-nil. *)
Definition NewServer (cfg : SMTPConfig) (handler : bool) (authProvider : option AuthProvider)
    : Server + goerr :=
  let smtp := negb (blank_addr (sc_ListenAddr cfg)) in
  let smtps := negb (blank_addr (sc_SMTPSListenAddr cfg)) in
  if negb handler then inr (EText "smtp handler is required")
  else if bool_decide (sc_AllowedCIDRs cfg = []) then
    inr (EText "at least one allowed CIDR is required")
  else if negb smtp && negb smtps then
    inr (EText "at least one SMTP listener address is required")
  else if sc_RequireAuth cfg && bool_decide (authProvider = None) then
    inr (EText "auth provider is required when auth is enforced")
  else if (sc_StartTLSEnabled cfg || smtps) && negb (sc_TLSConfig cfg) then
    inr (EText "tls config is required when STARTTLS or SMTPS is enabled")
  else
    let domain := if decide (TrimSpace (sc_Domain cfg) = "") then defaultDomain
                  else TrimSpace (sc_Domain cfg) in
    let positive (x dflt : Z) := if x <=? 0 then dflt else x in
    let maxMessageBytes := positive (sc_MaxMessageBytes cfg) defaultMaxMessageSize in
    let maxRecipients := positive (sc_MaxRecipients cfg) defaultMaxRecipients in
    let readTimeout := positive (sc_ReadTimeout cfg) defaultReadTimeout in
    let writeTimeout := positive (sc_WriteTimeout cfg) defaultWriteTimeout in
    let handlerTimeout := if sc_HandlerTimeout cfg <? 0 then defaultHandlerTimeout
                          else sc_HandlerTimeout cfg in
    let policy := MkPolicy (sc_AllowedCIDRs cfg) (sc_RequireAuth cfg) (sc_RequireTLS cfg)
                    authProvider handlerTimeout in
    let listener addr insecure tls :=
      newSMTPListener addr domain policy insecure maxMessageBytes maxRecipients readTimeout
        writeTimeout tls in
    inl (MkServer
      (if smtp then Some (listener (sc_ListenAddr cfg) (negb (sc_RequireTLS cfg))
                            (sc_StartTLSEnabled cfg && sc_TLSConfig cfg)) else None)
      (if smtps then Some (listener (sc_SMTPSListenAddr cfg) false (sc_TLSConfig cfg))
       else None)).
