(* ===== verification/Main.v ===== *)
(** * cmd/relay/main.go: starting, running and stopping the process

    [main_startup] is [main] up to the point where the goroutines start: the
    delivery runtime, the spool store and the worker, startup recovery, the
    network allowlist, the TLS certificate, the handler and the SMTP server, in
    that order.  [pstep] is the rest of [main]: the three goroutines, the two
    [select]s and the shutdown sequence, in every interleaving. *)
From stdpp Require Import relations.
From S2P Require Import Prelude.
From S2P Require Import GoStrings.
From S2P Require Import GoTime.
From S2P Require Import GoErrors.
From S2P Require Import GoNetip.
From S2P Require Import Email.
From S2P Require Import SenderPolicy.
From S2P Require Import SpoolCommon.
From S2P Require Import SpoolStore.
From S2P Require Import Worker.
From S2P Require Import Relay.
From S2P Require Import Config.
From S2P Require Import HTTPClient.
From S2P Require Import ACS.
From S2P Require Import SES.
From S2P Require Import Startup.
From S2P Require Import SMTPServer.
#[local] Open Scope Z_scope.
#[local] Open Scope relay_scope.

(** ** Building the parts *)

(** [tls.LoadX509KeyPair]. *)
Class KeyPairs := { certificate : Type; LoadX509KeyPair : string → string → certificate + goerr }.

Record tls_Config `{KeyPairs} := MkTLS {
  tls_MinVersion : Z;
  tls_Certificates : list certificate;
}.

Definition VersionTLS12 : Z := 771.

Definition loadSMTPServerTLS `{KeyPairs} (certFile keyFile : string) : tls_Config + goerr :=
  let* cert := LoadX509KeyPair (TrimSpace certFile) (TrimSpace keyFile) in
  inl (MkTLS _ VersionTLS12 [cert]).

Section wiring.
Context `{U : UnicodeTables} `{Rx : MailRegexp}.

Definition buildSenderPolicy (cfg : Config) : SenderPolicy + goerr :=
  NewSenderPolicy {| opt_Mode := SenderPolicyMode cfg;
                     opt_AllowedDomainPatterns := SenderAllowedDomains cfg |}.

Definition buildRelayHandler (cfg : Config) (store : bool) : Handler + goerr :=
  let* senderPolicy := buildSenderPolicy cfg in
  NewHandler (SenderPolicyMode cfg) senderPolicy store (SMTPMaxInflightSends cfg).

(** The handler behind [newEnqueueMessageHandler], and its timeout. *)
Definition buildMessageHandler (cfg : Config) (store : bool) : (Handler * duration) + goerr :=
  let* relayHandler := buildRelayHandler cfg store in
  inl (relayHandler, 0).

(** [smtprelay.Config]: what is not set keeps its zero value. *)
Definition smtp_config (cfg : Config) (allowedCIDRs : list Prefix) (tls : bool)
    (handlerTimeout : duration) : SMTPConfig :=
  MkSMTPConfig (SMTPListenAddr cfg) (SMTPSListenAddr cfg) "" allowedCIDRs (SMTPRequireAuth cfg)
    (SMTPRequireTLS cfg) (SMTPStartTLSEnabled cfg) tls 0 0 0 0 handlerTimeout.
End wiring.

(** ** Startup *)

Section startup.
Context `{U : UnicodeTables} `{Rx : MailRegexp} `{Env : Environment} `{Pool : CertPool}.
Context `{Lib : WebLibs} `{Aws : AWS} `{Wld : !Worlds} `{KP : KeyPairs} `{St : Store}.

Abbreviation BM := (io goerr (boot sstate)).

(** [runStartupRecovery]; the recoverer is the worker over the open store. *)
Definition runStartupRecovery (ctx : option goerr) (now : time) : BM RecoveryResult := λ b,
  match bt_store b with
  | None => (b, inr (EText "startup recoverer cannot be nil"))
  | Some st =>
      match store_Recover ctx now st with
      | (st', r) => (MkBoot (Some st') (bt_closes b), r)
      end
  end.

(** What [main] has built when it starts the goroutines. *)
Record running := MkRunning {
  run_worker : WorkerConfig;
  run_recovery : RecoveryResult;
  run_handler : Handler;
  run_server : Server;
  run_readiness : option processReadiness;
}.

(** [newStore] is the outcome of [spool.NewSpoolStore(cfg.SpoolDir)], [ctx] is
    the state of the signal context when recovery runs. *)
Definition main_startup (newStore : sstate + goerr) (cfg : Config) (ctx : option goerr)
    (now : time) : BM running :=
  let! deliveryRuntime := lift (Build cfg) in
  let workerCfg := worker_config cfg deliveryRuntime in
  let! _ := buildBackgroundDelivery newStore deliveryRuntime workerCfg in
  let! recovery := or_close (runStartupRecovery ctx now) in
  let! worker := or_close (lift (NewWorker true true workerCfg)) in
  let! allowedCIDRs := or_close (lift (ParseCIDRs (SMTPAllowedCIDRs cfg))) in
  let! tlsCfg :=
    (if SMTPStartTLSEnabled cfg || negb (bool_decide (TrimSpace (SMTPSListenAddr cfg) = "")) then
       let! c := or_close (lift (loadSMTPServerTLS (SMTPTLSCertFile cfg) (SMTPTLSKeyFile cfg))) in
       ret (Some c)
     else ret None) in
  let! h := or_close (lift (buildMessageHandler cfg true)) in
  let authProvider := AuthPlain (SMTPAuthUsername cfg) (SMTPAuthPassword cfg) in
  let! smtpServer := or_close (lift (NewServer
    (smtp_config cfg allowedCIDRs (bool_decide (is_Some tlsCfg)) h.2) true (Some authProvider))) in
  ret (MkRunning worker recovery h.1 smtpServer
         (setRecoveryReady true (Some (MkReadiness false false)))).
End startup.

(** ** Running and stopping *)

Inductive main_pc :=
| AwaitReady | Serving | ShutdownSMTP | ShutdownObs | AwaitWorker | CloseStore | Exited.

Record proc := MkProc {
  pr_pc : main_pc;
  pr_ready : option processReadiness;
  pr_ctxDone : bool;          (** the signal context *)
  pr_errCh : list goerr;      (** a channel of capacity 3 *)
  pr_listening : bool;        (** [smtpServer.Ready()] is closed *)
  pr_worker : bool;           (** the goroutines that have not returned *)
  pr_smtp : bool;
  pr_obs : bool;
  pr_storeOpen : bool;
}.

(** A goroutine that returns sends its error, when there is room. *)
Definition sends (e : option goerr) (ch ch' : list goerr) : Prop :=
  match e with
  | None => ch' = ch
  | Some e => (length ch < 3)%nat ∧ ch' = ch ++ [e]
  end.

Inductive env_step : proc → proc → Prop :=
| signal pc rd d ch l w s o st :
    env_step (MkProc pc rd d ch l w s o st) (MkProc pc rd true ch l w s o st)
| listening pc rd d ch l w o st :
    env_step (MkProc pc rd d ch l w true o st) (MkProc pc rd d ch true w true o st)
| worker_returns e pc rd d ch ch' l s o st :
    sends e ch ch' →
    env_step (MkProc pc rd d ch l true s o st) (MkProc pc rd d ch' l false s o st)
| smtp_returns e pc rd d ch ch' l w o st :
    sends e ch ch' →
    env_step (MkProc pc rd d ch l w true o st) (MkProc pc rd d ch' l w false o st)
| obs_returns e pc rd d ch ch' l w s st :
    sends e ch ch' →
    env_step (MkProc pc rd d ch l w s true st) (MkProc pc rd d ch' l w s false st).

(** The two [Shutdown] calls have a context of ten seconds, so each returns; what
    they do to the listeners is [SMTPLifecycle]'s. *)
Inductive main_step : proc → proc → Prop :=
| startup_ready rd d ch w s o st :
    main_step (MkProc AwaitReady rd d ch true w s o st)
              (MkProc Serving (setSMTPReady true rd) d ch true w s o st)
| startup_signal rd ch l w s o st :
    main_step (MkProc AwaitReady rd true ch l w s o st) (MkProc Serving rd true ch l w s o st)
| startup_failed rd d e ch l w s o st :
    main_step (MkProc AwaitReady rd d (e :: ch) l w s o st) (MkProc Serving rd true ch l w s o st)
| serving_signal rd ch l w s o st :
    main_step (MkProc Serving rd true ch l w s o st)
              (MkProc ShutdownSMTP (setSMTPReady false rd) true ch l w s o st)
| serving_failed rd d e ch l w s o st :
    main_step (MkProc Serving rd d (e :: ch) l w s o st)
              (MkProc ShutdownSMTP (setSMTPReady false rd) true ch l w s o st)
| shutdown_smtp rd d ch l w s o st :
    main_step (MkProc ShutdownSMTP rd d ch l w s o st) (MkProc ShutdownObs rd d ch l w s o st)
| shutdown_obs rd d ch l w s o st :
    main_step (MkProc ShutdownObs rd d ch l w s o st) (MkProc AwaitWorker rd d ch l w s o st)
| worker_done rd d ch l s o st :
    main_step (MkProc AwaitWorker rd d ch l false s o st) (MkProc CloseStore rd d ch l false s o st)
| close_store rd d ch l w s o st :
    main_step (MkProc CloseStore rd d ch l w s o st) (MkProc Exited rd d ch l w s o false).

Definition pstep (p p' : proc) : Prop := env_step p p' ∨ main_step p p'.

(** The process when [main_startup] has succeeded. *)
Definition started (rd : option processReadiness) : proc :=
  MkProc AwaitReady rd false [] false true true true true.

(** ** Properties of startup *)

Lemma or_close_lift {St A} (x : A + goerr) (b : boot St) :
  or_close (lift x) b =
  match x with
  | inl a => (b, inl a)
  | inr e => (MkBoot (bt_store b) (S (bt_closes b)), inr e)
  end.
Proof. by destruct x. Qed.

(** The two listeners of a server carry one policy. *)
Definition listener_policy (P : sessionPolicy → Prop) (sv : Server) : Prop :=
  ∀ g, sv_smtpServer sv = Some g ∨ sv_smtpsServer sv = Some g → P (gs_policy g).

Lemma NewServer_policy cfg auth sv :
  NewServer cfg true auth = inl sv →
  listener_policy (λ p, sp_allowedCIDRs p = sc_AllowedCIDRs cfg ∧
    sp_requireAuth p = sc_RequireAuth cfg ∧ sp_requireTLS p = sc_RequireTLS cfg ∧
    sp_authProvider p = auth) sv.
Proof.
  unfold NewServer. cbn [negb]. intros H.
  repeat match type of H with (if ?b then _ else _) = _ => destruct b; [done|] end.
  injection H as <-. intros g [Hg|Hg]; cbn in Hg;
    match type of Hg with (if ?b then _ else _) = _ => destruct b; [|done] end;
    injection Hg as <-; cbn; auto.
Qed.

Section startup_props.
Context `{U : UnicodeTables} `{Rx : MailRegexp} `{Env : Environment} `{Pool : CertPool}.
Context `{Lib : WebLibs} `{Aws : AWS} `{Wld : !Worlds} `{KP : KeyPairs} `{St : Store}.

(** A failed startup leaves no store open. *)
Definition released (b : boot sstate) : Prop :=
  (bt_store b = None ∧ bt_closes b = 0%nat) ∨ (is_Some (bt_store b) ∧ bt_closes b = 1%nat).

Lemma background_run newStore rt wcfg b' r :
  buildBackgroundDelivery newStore rt wcfg (boot0 : boot sstate) = (b', r) →
  match r with
  | inr _ => released b'
  | inl _ => ∃ st, newStore = inl st ∧ b' = MkBoot (Some st) 0
  end.
Proof.
  unfold buildBackgroundDelivery. destruct (rt_Provider rt).
  2:{ intros [= <- <-]. by left. }
  unfold bind, modify. destruct newStore as [st|e]; cbn -[or_close NewWorker];
    [|intros [= <- <-]; by left].
  rewrite or_close_lift. destruct (NewWorker true true wcfg); intros [= <- <-]; [eauto|].
  right. cbn. eauto.
Qed.

Lemma buildMessageHandler_timeout cfg p : buildMessageHandler cfg true = inl p → p.2 = 0.
Proof.
  unfold buildMessageHandler. destruct (buildRelayHandler cfg true); cbn; [|done].
  by intros [= <-].
Qed.

(** Run a step of [main] that can only fail by closing the store. *)
Ltac startup_step H :=
  unfold bind at 1 in H; rewrite or_close_lift in H;
  match type of H with
  | context [match ?x with inl _ => _ | inr _ => _ end] =>
      destruct x as [?|?] eqn:?; [|injection H as <- <-; right; cbn; by eauto]
  end; cbn [fst snd] in H.

Lemma main_startup_run newStore cfg ctx now b' r :
  main_startup newStore cfg ctx now boot0 = (b', r) →
  match r with
  | inr _ => released b'
  | inl run => ∃ st st', newStore = inl st ∧
      store_Recover ctx now st = (st', inl (run_recovery run)) ∧ b' = MkBoot (Some st') 0 ∧
      ∃ rt cidrs tls, Build cfg = inl rt ∧ run_worker run = worker_config cfg rt ∧
        ParseCIDRs (SMTPAllowedCIDRs cfg) = inl cidrs ∧
        buildMessageHandler cfg true = inl (run_handler run, 0) ∧
        NewServer (smtp_config cfg cidrs tls 0) true
          (Some (AuthPlain (SMTPAuthUsername cfg) (SMTPAuthPassword cfg))) = inl (run_server run) ∧
        run_readiness run = Some (MkReadiness false true)
  end.
Proof.
  unfold main_startup. intros H. unfold bind at 1, lift at 1 in H.
  destruct (Build cfg) as [rt|e] eqn:Hb; [|injection H as <- <-; by left].
  unfold bind at 1 in H. destruct (buildBackgroundDelivery _ _ _ _) as [b1 [w0|e]] eqn:Hbg;
    apply background_run in Hbg; [|by injection H as <- <-].
  destruct Hbg as (st & -> & ->).
  unfold bind at 1, or_close at 1, try at 1, runStartupRecovery in H. cbn [bt_store bt_closes] in H.
  destruct (store_Recover ctx now st) as [st' [rec|e]] eqn:Hrec; cbn beta iota in H;
    [|injection H as <- <-; right; cbn; by eauto].
  cbn [ret] in H. startup_step H. startup_step H.
  unfold bind at 1 in H.
  set (tls := if _ || _ then _ else _) in H.
  assert (Htls : ∃ b2 o, tls (MkBoot (Some st') 0) = (b2, o) ∧
            match o with inl _ => b2 = MkBoot (Some st') 0 | inr _ => released b2 end).
  { unfold tls. destruct (_ || _); [|by eexists _, _].
    unfold bind. rewrite or_close_lift.
    destruct (loadSMTPServerTLS _ _); eexists _, _; (split; [reflexivity|]); cbn; [done|].
    right. cbn. eauto. }
  destruct Htls as (b2 & o & Ht & Ho). rewrite Ht in H.
  destruct o as [t|e]; [subst b2|by injection H as <- <-].
  startup_step H. startup_step H. injection H as <- <-.
  cbn [run_recovery run_worker run_handler run_server].
  eexists _, st'. split; [done|]. split; [done|]. split; [done|]. eexists rt, _, _.
  split; [done|]. split; [|split; [done|]].
  - unfold NewWorker in *. repeat case_match; simplify_eq; done.
  - match goal with Hm : buildMessageHandler cfg true = inl ?p |- _ =>
      pose proof (buildMessageHandler_timeout cfg p Hm) as Hz; destruct p as [h z] end.
    cbn [fst snd] in *. subst z.
    eauto.
Qed.

(** C19. Startup either fails with the store it opened closed exactly once, or
    comes to the point where the goroutines start with the store open and
    startup recovery done on it.  Then both listeners enforce the configured
    networks, authentication and TLS, the handler has the configured limit, and
    the process does not report ready yet. *)
Theorem main_startup_ok (newStore : sstate + goerr) (cfg : Config) (ctx : option goerr)
    (now : time) (b' : boot sstate) (r : running + goerr) :
  main_startup newStore cfg ctx now boot0 = (b', r) →
  match r with
  | inr _ => released b'
  | inl run =>
      (∃ st st', newStore = inl st ∧
         store_Recover ctx now st = (st', inl (run_recovery run)) ∧ b' = MkBoot (Some st') 0) ∧
      (∃ cidrs, ParseCIDRs (SMTPAllowedCIDRs cfg) = inl cidrs ∧
         listener_policy (λ p, sp_allowedCIDRs p = cidrs ∧
           sp_requireAuth p = SMTPRequireAuth cfg ∧ sp_requireTLS p = SMTPRequireTLS cfg ∧
           sp_authProvider p = Some (AuthPlain (SMTPAuthUsername cfg) (SMTPAuthPassword cfg)))
           (run_server run)) ∧
      h_maxInflight (run_handler run) = SMTPMaxInflightSends cfg ∧
      Ready (run_readiness run) = false
  end.
Proof.
  intros H. pose proof (main_startup_run _ _ _ _ _ _ H) as Hr. destruct r as [run|e]; [|done].
  destruct Hr as (st & st' & Hst & Hrec & Hb & rt & cidrs & tls & _ & _ & Hc & Hh & Hs & Hrd).
  split; [eauto 10|]. split; [exists cidrs; split; [done|]; by apply NewServer_policy in Hs|].
  split; [|by rewrite Hrd].
  unfold buildMessageHandler, buildRelayHandler in Hh. destruct (buildSenderPolicy cfg); [|done].
  unfold NewHandler in Hh. cbn in Hh. destruct (_ <=? 0); [done|]. by injection Hh as <-.
Qed.

Lemma buildMessageHandler_works cfg ms :
  settings_in_range cfg → compileMatchers (SenderAllowedDomains cfg) = inl ms →
  ∃ h, buildMessageHandler cfg true = inl (h, 0).
Proof.
  intros Hr Hm. unfold buildMessageHandler, buildRelayHandler, buildSenderPolicy, NewSenderPolicy.
  cbn [opt_Mode opt_AllowedDomainPatterns]. rewrite Hm.
  destruct Hr as [_ Hp Hi _ _ _ _ _ _ _ _]. rewrite !elem_of_cons, elem_of_nil in Hp.
  rewrite decide_True.
  2:{ destruct Hp as [->|[->|[]]]; [left|right]; reflexivity. }
  cbn. unfold NewHandler. cbn [negb]. destruct (Z.leb_spec (SMTPMaxInflightSends cfg) 0); [lia|].
  by eexists.
Qed.

Lemma NewServer_starts cfg p ps tls timeout auth :
  TrimSpace (SMTPListenAddr cfg) ≠ "" ∨ TrimSpace (SMTPSListenAddr cfg) ≠ "" →
  (SMTPStartTLSEnabled cfg || negb (bool_decide (TrimSpace (SMTPSListenAddr cfg) = "")) = true →
   tls = true) →
  ∃ sv, NewServer (smtp_config cfg (p :: ps) tls timeout) true (Some auth) = inl sv.
Proof.
  intros Ha Ht. unfold NewServer, blank_addr.
  cbn [smtp_config sc_ListenAddr sc_SMTPSListenAddr sc_AllowedCIDRs sc_RequireAuth
       sc_StartTLSEnabled sc_TLSConfig negb].
  rewrite !(bool_decide_eq_false_2 (_ :: _ = [])), !(bool_decide_eq_false_2 (Some _ = None)) by done.
  rewrite andb_false_r. cbn [negb].
  destruct (_ || _) eqn:Hon.
  - rewrite (Ht eq_refl). cbn [negb andb].
    rewrite (proj2 (andb_false_iff _ _)); [by eexists|].
    destruct Ha as [Ha|Ha]; [left|right]; by rewrite bool_decide_eq_false_2.
  - cbn [andb]. rewrite (proj2 (andb_false_iff _ _)); [by eexists|].
    destruct Ha as [Ha|Ha]; [left|right]; by rewrite bool_decide_eq_false_2.
Qed.

(** C21. Every configuration that [Load] accepts for a cloud provider starts: when
    its intervals fit a 64-bit duration, its domain patterns compile, it has a
    listener address, the provider can be built, the store opens and recovers,
    and, only if STARTTLS or the SMTPS listener is on, the certificate loads,
    [main] gets to the point where the goroutines start, with the store open,
    the recovery that was done and the configured worker.  Without TLS the
    certificate is not looked at. *)
Theorem loaded_configuration_starts (cfg : Config) (rt : Runtime) (ctx : option goerr)
    (now : time) (st st' : sstate) (rec : RecoveryResult) (ms : list senderDomainMatcher) :
  Load = inl cfg → DeliveryMode cfg ≠ "noop" →
  SpoolPollIntervalMS cfg * Millisecond < two63 →
  DeliveryRetryBaseDelayMS cfg * Millisecond < two63 →
  DeliveryHTTPTimeoutMS cfg * Millisecond < two63 →
  compileMatchers (SenderAllowedDomains cfg) = inl ms →
  TrimSpace (SMTPListenAddr cfg) ≠ "" ∨ TrimSpace (SMTPSListenAddr cfg) ≠ "" →
  (SMTPStartTLSEnabled cfg = true ∨ TrimSpace (SMTPSListenAddr cfg) ≠ "" →
   ∃ tls, loadSMTPServerTLS (SMTPTLSCertFile cfg) (SMTPTLSKeyFile cfg) = inl tls) →
  Build cfg = inl rt → store_Recover ctx now st = (st', inl rec) →
  ∃ run, main_startup (inl st) cfg ctx now boot0 = (MkBoot (Some st') 0, inl run) ∧
         run_recovery run = rec ∧ run_worker run = worker_config cfg rt.
Proof.
  intros Hl Hnoop H1 H2 H3 Hm Haddr Hcert Hb Hrec.
  destruct (Load_validated cfg Hl) as [Hcr Hsr].
  destruct (cloud_starts st cfg rt Hsr Hnoop H1 H2 H3 Hb) as [Hbg Hw].
  destruct (buildMessageHandler_works cfg ms Hsr Hm) as [h Hh].
  unfold main_background in Hbg. unfold bind at 1, lift at 1 in Hbg. rewrite Hb in Hbg.
  unfold main_startup. unfold bind at 1, lift at 1. rewrite Hb. unfold bind at 1. rewrite Hbg.
  unfold bind at 1, or_close at 1, try at 1, runStartupRecovery. cbn [bt_store bt_closes].
  rewrite Hrec. cbn [ret]. unfold bind at 1. rewrite or_close_lift, Hw.
  destruct Hcr as [Ha _ _ _ (p & ps & Hps) _ _].
  unfold bind at 1. rewrite or_close_lift, Hps.
  set (on := SMTPStartTLSEnabled cfg || negb (bool_decide (TrimSpace (SMTPSListenAddr cfg) = ""))).
  assert (Htls : ∃ tlsCfg, (on = true → is_Some tlsCfg) ∧
    (if on then let! c := or_close (lift (loadSMTPServerTLS (SMTPTLSCertFile cfg)
                                            (SMTPTLSKeyFile cfg))) in ret (Some c)
     else ret None) (MkBoot (Some st') 0) = (MkBoot (Some st') 0, inl tlsCfg)).
  { destruct on eqn:Hon; [|by exists None]. subst on.
    destruct Hcert as [tls Ht].
    { apply orb_true_iff in Hon as [?|Hs%negb_true_iff]; [by left|right].
      by apply bool_decide_eq_false in Hs. }
    exists (Some tls). split; [by eexists|]. unfold bind. by rewrite or_close_lift, Ht. }
  destruct Htls as (tlsCfg & Hsome & Htls). unfold bind at 1. rewrite Htls.
  unfold bind at 1. rewrite or_close_lift, Hh. cbn [fst snd].
  unfold bind at 1. rewrite or_close_lift.
  destruct (NewServer_starts cfg p ps (bool_decide (is_Some tlsCfg)) 0
    (AuthPlain (SMTPAuthUsername cfg) (SMTPAuthPassword cfg)) Haddr) as [sv ->].
  { intros Hon. apply bool_decide_eq_true, Hsome, Hon. }
  eexists. split; [reflexivity|]. done.
Qed.
End startup_props.

(** ** Properties of the running process *)

Definition alive (p : proc) : nat :=
  Nat.b2n (pr_worker p) + Nat.b2n (pr_smtp p) + Nat.b2n (pr_obs p).

(** How far the shutdown has come. *)
Definition stopping (pc : main_pc) : bool :=
  match pc with AwaitReady | Serving => false | _ => true end.
Definition past_worker (pc : main_pc) : bool :=
  match pc with CloseStore | Exited => true | _ => false end.

Definition proc_ok (p : proc) : Prop :=
  (Ready (pr_ready p) = true → pr_pc p = Serving ∧ pr_listening p = true) ∧
  (pr_storeOpen p = false ↔ pr_pc p = Exited) ∧
  (past_worker (pr_pc p) = true → pr_worker p = false) ∧
  (stopping (pr_pc p) = true → pr_ctxDone p = true) ∧
  (length (pr_errCh p) + alive p <= 3)%nat.

Lemma Ready_down rd : Ready (setSMTPReady false rd) = false.
Proof. by destruct rd. Qed.

Ltac proc_cases :=
  unfold proc_ok, alive; cbn; rewrite ?Ready_down; intros (H1 & H2 & H3 & H4 & H5);
  split_and!; intros; try done; try lia; try (by intuition congruence).

Lemma env_step_ok p p' : env_step p p' → proc_ok p → proc_ok p'.
Proof.
  intros Hs. destruct Hs; proc_cases.
  all: unfold sends in *; case_match; [destruct_and!; subst; rewrite length_app; cbn|subst]; lia.
Qed.

Lemma main_step_ok p p' : main_step p p' → proc_ok p → proc_ok p'.
Proof. intros Hs. destruct Hs; proc_cases. Qed.

Lemma started_ok rd : Ready rd = false → proc_ok (started rd).
Proof. intros Hr. unfold proc_ok. cbn. rewrite Hr. repeat split; (done || lia). Qed.

Lemma process_ok rd p : Ready rd = false → rtc pstep (started rd) p → proc_ok p.
Proof.
  intros Hr Hs. pose proof (started_ok rd Hr) as H. revert H.
  induction Hs as [|x y z [He|Hm] _ IH]; eauto using env_step_ok, main_step_ok.
Qed.

(** The steps left for [main] when nothing else moves. *)
Definition steps_left (pc : main_pc) : nat :=
  match pc with
  | AwaitReady => 6 | Serving => 5 | ShutdownSMTP => 4 | ShutdownObs => 3 | AwaitWorker => 2
  | CloseStore => 1 | Exited => 0
  end.

(** With the context done, [main] waits for nothing but the worker. *)
Lemma main_moves p :
  pr_ctxDone p = true → pr_pc p ≠ Exited → (pr_pc p = AwaitWorker → pr_worker p = false) →
  ∃ p', main_step p p' ∧ pr_ctxDone p' = true ∧ pr_worker p' = pr_worker p ∧
        steps_left (pr_pc p) = S (steps_left (pr_pc p')).
Proof.
  destruct p as [pc rd d ch l w s o st]. cbn. intros -> Hpc Hw. destruct pc; [..|done].
  all: try (eexists; split; [by constructor|done]).
  rewrite Hw in * by done. eexists. split; [by constructor|done].
Qed.

Lemma main_finishes p :
  pr_ctxDone p = true → pr_worker p = false → ∃ p', rtc main_step p p' ∧ pr_pc p' = Exited.
Proof.
  remember (steps_left (pr_pc p)) as n eqn:Hn. revert p Hn.
  induction n as [|n IH]; intros p Hn Hd Hw.
  { exists p. split; [done|]. by destruct (pr_pc p). }
  destruct (main_moves p Hd) as (p1 & Hs & Hd1 & Hw1 & Hl); [by intros He; rewrite He in Hn|done|].
  rewrite <- Hn in Hl. injection Hl as Hl. rewrite Hw in Hw1.
  destruct (IH p1 Hl Hd1 Hw1) as (p2 & Hr & He). exists p2. split; [|done].
  by eapply rtc_l.
Qed.

(** C20. In every interleaving of [main] with its goroutines: the process reports
    ready only while it serves, with the listeners up and the store open; the
    store is closed only after the worker has returned; a goroutine that fails
    always finds room in the error channel; and once a shutdown has begun and
    the worker has returned, [main] finishes by its own steps. *)
Theorem process_shutdown (rd : option processReadiness) (p : proc) :
  Ready rd = false → rtc pstep (started rd) p →
  (Ready (pr_ready p) = true →
     pr_pc p = Serving ∧ pr_listening p = true ∧ pr_storeOpen p = true) ∧
  (pr_storeOpen p = false → pr_worker p = false ∧ pr_ctxDone p = true) ∧
  ((0 < alive p)%nat → (length (pr_errCh p) < 3)%nat) ∧
  (stopping (pr_pc p) = true → pr_worker p = false →
   ∃ p', rtc main_step p p' ∧ pr_pc p' = Exited).
Proof.
  intros Hr Hs. destruct (process_ok rd p Hr Hs) as (H1 & H2 & H3 & H4 & H5). split_and!.
  - intros Hrd. destruct (H1 Hrd) as [Hpc Hl]. split; [done|]. split; [done|].
    destruct (pr_storeOpen p); [done|]. rewrite (proj1 H2 eq_refl) in Hpc. done.
  - intros Ho. apply H2 in Ho. rewrite Ho in *. auto.
  - lia.
  - intros Hst Hw. apply main_finishes; auto.
Qed.
