(* ===== verification/SMTPLifecycle.v ===== *)
(** * internal/smtp/server.go: the life cycle of the listeners

    [Start], [Shutdown] and [Close] run concurrently with each other and with
    one goroutine per listener.  [lstep] interleaves them at the points where
    they touch shared state: the started flag, the two channels, the managed
    listeners, the wait group and the error channel.

    [net.Listen] may fail.  [gosmtp.Server.Serve] returns when its listener is
    closed, or with any other error at any time; [gosmtp.Server.Close] closes
    listeners handed to [Serve]. *)
From S2P Require Import Prelude.
From S2P Require Import GoStrings.
From S2P Require Import GoErrors.
#[local] Open Scope nat_scope.

Definition ErrServerAlreadyStarted : goerr :=
  EText "smtp server is single-use and has already been started".

(** The fields of [Server] that change, the sockets, and the goroutines.  The
    wait group counts [lf_serving].  [lf_bound] and [lf_failed] only record what
    happened: the listeners bound, and those whose [Serve] failed. *)
Record life := MkLife {
  lf_started : bool;
  lf_startDone : nat;        (** how often [startDoneCh] was closed *)
  lf_ready : bool;           (** [readyCh] is closed, once *)
  lf_managed : list nat;     (** [s.listeners] *)
  lf_open : gset nat;
  lf_serving : gset nat;
  lf_errCh : list goerr;
  lf_cancelled : bool;       (** the context of [Start] is done *)
  lf_bound : list nat;
  lf_failed : gset nat;
}.

(** Where a [Shutdown] is: taking the managed listeners, closing them, closing
    the servers, waiting for the goroutines. *)
Inductive shutdown_pc :=
  | Sh_take
  | Sh_closing (todo : list nat)
  | Sh_servers
  | Sh_wait.

(** Where a [Start] is: [beginStart], binding the addresses, storing and serving
    the listeners, the [select], its own [Shutdown], [markStartDone], done.
    [St_refused] has returned [ErrServerAlreadyStarted], or that no listener is
    configured. *)
Inductive start_pc :=
  | St_begin
  | St_refused
  | St_bind (todo : list string)
  | St_serve (todo : list nat)
  | St_select
  | St_shutdown (pc : shutdown_pc) (result : option goerr)
  | St_mark (result : option goerr)
  | St_return (result : option goerr).

(** A call of one of the three methods; [Close] waits for [startDoneCh] after
    its [Shutdown]. *)
Inductive call :=
  | Starting (pc : start_pc)
  | Shutting (pc : shutdown_pc)
  | Closing (pc : shutdown_pc)
  | AwaitStart
  | Finished.

Section life.
(** The configured listener addresses. *)
Context (addrs : list string).

Definition set_started (s : life) : life :=
  MkLife true (lf_startDone s) (lf_ready s) (lf_managed s) (lf_open s) (lf_serving s) (lf_errCh s)
    (lf_cancelled s) (lf_bound s) (lf_failed s).
Definition bind_listener (l : nat) (s : life) : life :=
  MkLife (lf_started s) (lf_startDone s) (lf_ready s) (lf_managed s) ({[l]} ∪ lf_open s)
    (lf_serving s) (lf_errCh s) (lf_cancelled s) (lf_bound s ++ [l]) (lf_failed s).
Definition close_listeners (X : gset nat) (s : life) : life :=
  MkLife (lf_started s) (lf_startDone s) (lf_ready s) (lf_managed s) (lf_open s ∖ X)
    (lf_serving s) (lf_errCh s) (lf_cancelled s) (lf_bound s) (lf_failed s).
Definition storeManagedListeners (ls : list nat) (s : life) : life :=
  MkLife (lf_started s) (lf_startDone s) (lf_ready s) ls (lf_open s)
    (lf_serving s) (lf_errCh s) (lf_cancelled s) (lf_bound s) (lf_failed s).
Definition set_serving (X : gset nat) (s : life) : life :=
  MkLife (lf_started s) (lf_startDone s) (lf_ready s) (lf_managed s) (lf_open s)
    X (lf_errCh s) (lf_cancelled s) (lf_bound s) (lf_failed s).
Definition serve_failed (l : nat) (e : goerr) (s : life) : life :=
  MkLife (lf_started s) (lf_startDone s) (lf_ready s) (lf_managed s) (lf_open s)
    (lf_serving s ∖ {[l]}) (lf_errCh s ++ [e]) (lf_cancelled s) (lf_bound s)
    ({[l]} ∪ lf_failed s).
Definition close_ready (s : life) : life :=
  MkLife (lf_started s) (lf_startDone s) true (lf_managed s) (lf_open s) (lf_serving s)
    (lf_errCh s) (lf_cancelled s) (lf_bound s) (lf_failed s).
Definition markStartDone (s : life) : life :=
  MkLife (lf_started s) (S (lf_startDone s)) (lf_ready s) (lf_managed s) (lf_open s)
    (lf_serving s) (lf_errCh s) (lf_cancelled s) (lf_bound s) (lf_failed s).
Definition receive_err (es : list goerr) (s : life) : life :=
  MkLife (lf_started s) (lf_startDone s) (lf_ready s) (lf_managed s) (lf_open s) (lf_serving s)
    es (lf_cancelled s) (lf_bound s) (lf_failed s).
Definition cancel (s : life) : life :=
  MkLife (lf_started s) (lf_startDone s) (lf_ready s) (lf_managed s) (lf_open s) (lf_serving s)
    (lf_errCh s) true (lf_bound s) (lf_failed s).

(** One step of a [Shutdown]; [None] is its return.  [bounded] says whether its
    context can expire. *)
Inductive shutdown_step (bounded : bool) : life → shutdown_pc → life → option shutdown_pc → Prop :=
  | shutdown_take s :
      shutdown_step bounded s Sh_take (storeManagedListeners [] s) (Some (Sh_closing (lf_managed s)))
  | shutdown_close l todo s :
      shutdown_step bounded s (Sh_closing (l :: todo)) (close_listeners {[l]} s)
        (Some (Sh_closing todo))
  | shutdown_closed s : shutdown_step bounded s (Sh_closing []) s (Some Sh_servers)
  | shutdown_servers X s :
      X ⊆ lf_serving s →
      shutdown_step bounded s Sh_servers (close_listeners X s) (Some Sh_wait)
  | shutdown_done s : lf_serving s = ∅ → shutdown_step bounded s Sh_wait s None
  | shutdown_expired s : bounded = true → shutdown_step bounded s Sh_wait s None.

Inductive start_step : life → start_pc → life → start_pc → Prop :=
  | start_refused s :
      lf_started s = true → start_step s St_begin s St_refused
  | start_none s : addrs = [] → start_step s St_begin s St_refused
  | start_begin s :
      addrs ≠ [] → lf_started s = false →
      start_step s St_begin (set_started s) (St_bind addrs)
  | start_bind l addr todo s :
      l ∉ lf_open s → l ∉ lf_bound s →
      start_step s (St_bind (addr :: todo)) (bind_listener l s) (St_bind todo)
  | start_bind_fails e addr todo s :
      start_step s (St_bind (addr :: todo)) (close_listeners (list_to_set (lf_bound s)) s)
        (St_mark (Some e))
  | start_store s :
      start_step s (St_bind []) (storeManagedListeners (lf_bound s) s) (St_serve (lf_bound s))
  | start_serve l todo s :
      start_step s (St_serve (l :: todo)) (set_serving ({[l]} ∪ lf_serving s) s) (St_serve todo)
  | start_ready s : start_step s (St_serve []) (close_ready s) St_select
  | start_error e es s :
      lf_errCh s = e :: es →
      start_step s St_select (receive_err es s) (St_shutdown Sh_take (Some e))
  | start_wait s : lf_serving s = ∅ → start_step s St_select s (St_mark None)
  | start_ctx s :
      lf_cancelled s = true → start_step s St_select s (St_shutdown Sh_take None)
  | start_shutdown pc pc' r s s' :
      shutdown_step false s pc s' (Some pc') →
      start_step s (St_shutdown pc r) s' (St_shutdown pc' r)
  | start_stopped pc r s s' :
      shutdown_step false s pc s' None → start_step s (St_shutdown pc r) s' (St_mark r)
  | start_mark r s : start_step s (St_mark r) (markStartDone s) (St_return r).

Inductive call_step : life → call → life → call → Prop :=
  | call_start s s' pc pc' :
      start_step s pc s' pc' → call_step s (Starting pc) s' (Starting pc')
  | call_shutdown s s' pc pc' :
      shutdown_step true s pc s' (Some pc') → call_step s (Shutting pc) s' (Shutting pc')
  | call_shutdown_returns s s' pc :
      shutdown_step true s pc s' None → call_step s (Shutting pc) s' Finished
  | call_close s s' pc pc' :
      shutdown_step false s pc s' (Some pc') → call_step s (Closing pc) s' (Closing pc')
  | call_close_awaits s s' pc :
      shutdown_step false s pc s' None → call_step s (Closing pc) s' AwaitStart
  | call_close_returns s :
      lf_started s = false ∨ 0 < lf_startDone s → call_step s AwaitStart s Finished.

(** The process: the server and the calls of its methods. *)
Definition sys : Type := life * gmap nat call.

Inductive lstep : sys → sys → Prop :=
  | step_call i s s' c c' cs :
      cs !! i = Some c → call_step s c s' c' → lstep (s, cs) (s', <[i := c']> cs)
  | step_new i c s cs :
      cs !! i = None → c ∈ [Starting St_begin; Shutting Sh_take; Closing Sh_take] →
      lstep (s, cs) (s, <[i := c]> cs)
  | step_serve_closed l s cs :
      l ∈ lf_serving s → l ∉ lf_open s →
      lstep (s, cs) (set_serving (lf_serving s ∖ {[l]}) s, cs)
  | step_serve_fails l e s cs :
      l ∈ lf_serving s → length (lf_errCh s) < 2 → lstep (s, cs) (serve_failed l e s, cs)
  | step_cancel s cs : lstep (s, cs) (cancel s, cs).

Definition fresh_server : sys := (MkLife false 0 false [] ∅ ∅ [] false [] ∅, ∅).

(** ** Properties *)

(** The listeners a call is about to close. *)
Definition closing_pc (pc : shutdown_pc) : list nat :=
  match pc with Sh_closing todo => todo | _ => [] end.
Definition closing_of (c : call) : list nat :=
  match c with
  | Starting (St_shutdown pc _) | Shutting pc | Closing pc => closing_pc pc
  | _ => []
  end.

(** A [Start] that got past [beginStart]. *)
Definition owner (c : call) : Prop :=
  match c with Starting St_begin | Starting St_refused => False | Starting _ => True | _ => False end.

(** Every open listener is managed or about to be closed. *)
Definition covered (s : life) (cs : gmap nat call) : Prop :=
  ∀ l, l ∈ lf_open s → l ∈ lf_managed s ∨ ∃ j c, cs !! j = Some c ∧ l ∈ closing_of c.

Definition idle (cs : gmap nat call) : Prop := ∀ j c, cs !! j = Some c → closing_of c = [].

(** No failure of [Serve] has been taken from the channel. *)
Definition reported (s : life) : Prop := lf_failed s ≠ ∅ → lf_errCh s ≠ [].

Definition unbound (s : life) : Prop :=
  lf_startDone s = 0 ∧ lf_ready s = false ∧ lf_managed s = [] ∧ lf_serving s = ∅ ∧
  lf_failed s = ∅ ∧ lf_errCh s = [] ∧ lf_open s = list_to_set (lf_bound s).

(** What holds once [Start] is on its way out. *)
Definition leaving (s : life) (cs : gmap nat call) : Prop :=
  (lf_managed s = [] ∧ covered s cs) ∨
  (lf_serving s = ∅ ∧ reported s ∧ lf_open s ⊆ lf_failed s).

Definition start_ok (pc : start_pc) (s : life) (cs : gmap nat call) : Prop :=
  match pc with
  | St_begin | St_refused => False
  | St_bind todo =>
      unbound s ∧ idle cs ∧ length (lf_bound s) + length todo = length addrs
  | St_serve todo =>
      lf_startDone s = 0 ∧ lf_ready s = false ∧ covered s cs ∧ reported s ∧
      length (lf_bound s) = length addrs ∧
      lf_open s ⊆ lf_serving s ∪ lf_failed s ∪ list_to_set todo
  | St_select =>
      lf_startDone s = 0 ∧ covered s cs ∧ reported s ∧ length (lf_bound s) = length addrs ∧
      lf_open s ⊆ lf_serving s ∪ lf_failed s
  | St_shutdown pc _ =>
      lf_startDone s = 0 ∧ covered s cs ∧ length (lf_bound s) = length addrs ∧
      (pc = Sh_take ∨ lf_managed s = [])
  | St_mark _ =>
      lf_startDone s = 0 ∧ leaving s cs ∧
      (lf_ready s = true → length (lf_bound s) = length addrs)
  | St_return _ =>
      lf_startDone s = 1 ∧ leaving s cs ∧
      (lf_ready s = true → length (lf_bound s) = length addrs)
  end.

Definition life_inv (σ : sys) : Prop :=
  let '(s, cs) := σ in
  (lf_started s = false ∧ unbound s ∧ lf_bound s = [] ∧ idle cs ∧
   ∀ j c, cs !! j = Some c → ¬ owner c) ∨
  (lf_started s = true ∧ ∃ i pc, cs !! i = Some (Starting pc) ∧ start_ok pc s cs ∧
   ∀ j c, j ≠ i → cs !! j = Some c → ¬ owner c).

(** What a step of another call leaves alone. *)
Definition quiet (s s' : life) : Prop :=
  lf_started s' = lf_started s ∧ lf_startDone s' = lf_startDone s ∧ lf_ready s' = lf_ready s ∧
  lf_serving s' = lf_serving s ∧ lf_errCh s' = lf_errCh s ∧ lf_bound s' = lf_bound s ∧
  lf_failed s' = lf_failed s ∧ lf_open s' ⊆ lf_open s ∧
  (lf_managed s' = lf_managed s ∨ lf_managed s' = []).

Lemma shutdown_quiet b s pc s' o : shutdown_step b s pc s' o → quiet s s'.
Proof. destruct 1; unfold quiet; cbn; split_and!; auto; set_solver. Qed.

(** A listener about to be closed stays so, or is closed. *)
Lemma shutdown_closing b s pc s' o l :
  shutdown_step b s pc s' o → l ∈ lf_open s' →
  l ∈ lf_managed s ∨ l ∈ closing_pc pc →
  l ∈ lf_managed s' ∨ l ∈ closing_pc (default Sh_wait o).
Proof. destruct 1; cbn; set_solver. Qed.

Lemma covered_shutdown b s pc s' o cs i c c' :
  shutdown_step b s pc s' o → cs !! i = Some c →
  closing_of c = closing_pc pc → closing_of c' = closing_pc (default Sh_wait o) →
  covered s cs → covered s' (<[i := c']> cs).
Proof.
  intros Hstep Hi Hc Hc' Hcov l Hl.
  pose proof (shutdown_quiet _ _ _ _ _ Hstep) as (_ & _ & _ & _ & _ & _ & _ & Hsub & Hm).
  assert (Hown : l ∈ lf_managed s' ∨ l ∈ closing_of c' →
    l ∈ lf_managed s' ∨ ∃ j d, <[i := c']> cs !! j = Some d ∧ l ∈ closing_of d).
  { intros [?|?]; [by left|right]. exists i, c'. by rewrite lookup_insert_eq. }
  destruct (Hcov l (Hsub l Hl)) as [Hin|(j & d & Hj & Hin)].
  - apply Hown. rewrite Hc'. eapply shutdown_closing; eauto.
  - destruct (decide (j = i)) as [->|Hne].
    + apply Hown. rewrite Hc'. rewrite Hi in Hj. injection Hj as <-. rewrite Hc in Hin.
      eapply shutdown_closing; eauto.
    + right. exists j, d. by rewrite lookup_insert_ne.
Qed.

Lemma other_cases s c s' c' :
  call_step s c s' c' → ¬ owner c → lf_started s = true ∨ lf_started s' ≠ true →
  ¬ owner c' ∧
  ((s' = s ∧ closing_of c = [] ∧ closing_of c' = []) ∨
   ∃ b pc o, shutdown_step b s pc s' o ∧ closing_of c = closing_pc pc ∧
             closing_of c' = closing_pc (default Sh_wait o)).
Proof.
  intros Hstep Ho Hs. destruct Hstep as [s s' pc pc' Hp| | | | |]; cbn in *;
    try (split; [tauto|]; right; eauto 10; fail); [|split; [tauto|]; by left].
  destruct pc; try tauto.
  - inversion Hp; subst; cbn; try (split; [tauto|]; by left). destruct Hs as [Hs|Hs]; [congruence|]. by destruct Hs.
  - inversion Hp.
Qed.

Lemma covered_insert s cs j c c' :
  cs !! j = Some c → closing_of c = [] → covered s cs → covered s (<[j := c']> cs).
Proof.
  intros Hj Hc Hcov l Hl. destruct (Hcov l Hl) as [?|(k & d & Hk & Hin)]; [by left|right].
  destruct (decide (k = j)) as [->|Hne]; [|exists k, d; by rewrite lookup_insert_ne].
  rewrite Hj in Hk. injection Hk as <-. rewrite Hc in Hin. by apply elem_of_nil in Hin.
Qed.

Lemma idle_insert cs j c : idle cs → closing_of c = [] → idle (<[j := c]> cs).
Proof. intros Hi Hc k d. rewrite lookup_insert_Some. intros [[_ <-]|[_ ?]]; eauto. Qed.

Lemma unbound_shutdown b s pc s' o :
  shutdown_step b s pc s' o → closing_pc pc = [] → unbound s →
  unbound s' ∧ lf_bound s' = lf_bound s ∧ closing_pc (default Sh_wait o) = [].
Proof.
  intros Hstep Hc (?&?&Hm&Hs&?&?&?). destruct Hstep; cbn in *; try discriminate;
    unfold unbound; cbn; split_and!; try done; set_solver.
Qed.

(** A step of another call keeps what is known of the owner's. *)
Lemma start_ok_other pc s cs s' j c c' :
  call_step s c s' c' → cs !! j = Some c → ¬ owner c → lf_started s = true →
  start_ok pc s cs → start_ok pc s' (<[j := c']> cs) ∧ ¬ owner c' ∧ lf_started s' = true.
Proof.
  intros Hstep Hj Ho Hs Hok.
  destruct (other_cases _ _ _ _ Hstep Ho (or_introl Hs)) as [Ho' [(-> & Hc & Hc')|(b & p & o & Hsh & Hc & Hc')]].
  - split; [|done]. pose proof (covered_insert s cs j c c' Hj Hc) as Hcov.
    destruct pc; cbn in *; unfold leaving in *; try naive_solver.
    destruct Hok as (? & ? & ?). split_and!; try done. by apply idle_insert.
  - pose proof (shutdown_quiet _ _ _ _ _ Hsh) as (H1 & H2 & H3 & H4 & H5 & H6 & H7 & H8 & H9).
    split; [|split; [done|congruence]].
    pose proof (covered_shutdown _ _ _ _ _ _ _ _ _ Hsh Hj Hc Hc') as Hcov.
    destruct pc; cbn in *; unfold leaving, reported in *; rewrite ?H2, ?H3, ?H4, ?H5, ?H6, ?H7.
    1, 2: done.
    + destruct Hok as (Hu & Hi & Hl).
      destruct (unbound_shutdown _ _ _ _ _ Hsh) as (Hu' & Hb' & Hc2); [|done|].
      { rewrite <- Hc. by apply (Hi j). }
      split_and!; [done|apply idle_insert; [done|congruence]|done].
    + split_and!; try naive_solver. set_solver.
    + split_and!; try naive_solver. set_solver.
    + split_and!; try naive_solver. destruct Hok as (_ & _ & _ & [?|?]); [by left|right].
      destruct H9; congruence.
    + destruct Hok as (? & [[Hm ?]|(? & ? & ?)] & ?); split_and!; try done;
        [left; split; [destruct H9; congruence|auto]|right; split_and!; auto; set_solver].
    + destruct Hok as (? & [[Hm ?]|(? & ? & ?)] & ?); split_and!; try done;
        [left; split; [destruct H9; congruence|auto]|right; split_and!; auto; set_solver].
Qed.

(** The owner's own steps. *)
Lemma start_ok_step pc s cs s' pc' i :
  start_step s pc s' pc' → cs !! i = Some (Starting pc) → lf_started s = true →
  start_ok pc s cs → start_ok pc' s' (<[i := Starting pc']> cs) ∧ lf_started s' = true.
Proof.
  intros Hstep Hi Hs Hok.
  assert (Hins : closing_of (Starting pc) = [] → covered s cs →
    covered s (<[i := Starting pc']> cs)) by (intros; eapply covered_insert; eauto).
  destruct Hstep as [s|s|s|l a todo s Ho Hb|e a todo s|s|l todo s|s|e es s He|s He|s He|p p' r s s' Hsh|p r s s' Hsh|r s];
    cbn in Hok; try done.
  - destruct Hok as ((?&?&?&?&?&?&Hop)&?&Hl). split; [|done]. cbn. unfold unbound; cbn.
    split_and!; try done; [|by apply idle_insert|rewrite length_app; cbn in *; lia].
    rewrite Hop, list_to_set_app_L. set_solver.
  - destruct Hok as ((?&Hr&?&?&?&?&Hop)&?&_). split; [|done]. cbn. split_and!; [done| |].
    + left. split; [done|]. intros l. cbn. rewrite Hop. set_solver.
    + rewrite Hr. done.
  - destruct Hok as ((?&Hr&?&?&?&?&Hop)&?&Hl). split; [|done]. cbn. split_and!; try done.
    + intros l. cbn. rewrite Hop. set_solver.
    + by intros ?.
    + cbn in *. lia.
    + rewrite Hop. set_solver.
  - destruct Hok as (?&?&?&?&?&Hop). split; [|done]. cbn in *. split_and!; try done; [by apply Hins|].
    set_solver.
  - destruct Hok as (?&?&?&?&?&Hop). split; [|done]. cbn in *. split_and!; try done; [by apply Hins|].
    set_solver.
  - destruct Hok as (?&Hc&?&?&Hop). split; [|done]. cbn in *. split_and!; try done; [|by left].
    intros l Hl. by apply Hins.
  - destruct Hok as (?&?&?&?&Hop). split; [|done]. cbn. split_and!; try done.
    right. split_and!; try done. set_solver.
  - destruct Hok as (?&?&?&?&Hop). split; [|done]. cbn in *. split_and!; try done; [by apply Hins|by left].
  - pose proof (shutdown_quiet _ _ _ _ _ Hsh) as (H1 & H2 & H3 & H4 & H5 & H6 & H7 & H8 & H9).
    destruct Hok as (?&?&?&Hm). split; [|congruence]. cbn. rewrite H2, H6. split_and!; try done.
    + by eapply covered_shutdown.
    + right. destruct Hsh; cbn in *; destruct Hm as [?|?]; done.
  - pose proof (shutdown_quiet _ _ _ _ _ Hsh) as (H1 & H2 & H3 & H4 & H5 & H6 & H7 & H8 & H9).
    destruct Hok as (?&?&?&Hm). split; [|congruence]. cbn. rewrite H2, H6. split_and!; try done.
    left. split; [|by eapply covered_shutdown].
    inversion Hsh; subst; destruct Hm as [?|?]; done.
  - destruct Hok as (Hd&[[? ?]|?]&?). 
    + split; [|done]. cbn in *. split_and!; [by rewrite Hd|left; split; [done|]|done].
      intros l Hl. by apply Hins.
    + split; [|done]. cbn in *. split_and!; [by rewrite Hd|by right|done].
Qed.

Lemma covered_new s cs j c : cs !! j = None → covered s cs → covered s (<[j := c]> cs).
Proof.
  intros Hj Hcov l Hl. destruct (Hcov l Hl) as [?|(k & d & Hk & Hin)]; [by left|right].
  exists k, d. rewrite lookup_insert_ne; [done|congruence].
Qed.

Lemma start_ok_new pc s cs j c :
  cs !! j = None → closing_of c = [] → start_ok pc s cs → start_ok pc s (<[j := c]> cs).
Proof.
  intros Hj Hc Hok. pose proof (covered_new s cs j c Hj) as Hcov.
  destruct pc; cbn in *; unfold leaving in *; try naive_solver.
  destruct Hok as (? & ? & ?). split_and!; try done. by apply idle_insert.
Qed.

Lemma start_ok_serve pc s cs l s' :
  l ∈ lf_serving s →
  (l ∉ lf_open s ∧ s' = set_serving (lf_serving s ∖ {[l]}) s) ∨ (∃ e, s' = serve_failed l e s) →
  start_ok pc s cs → start_ok pc s' cs.
Proof.
  intros Hl Hs' Hok.
  assert (Hrep : reported s → reported s').
  { unfold reported. destruct Hs' as [[_ ->]|[e ->]]; cbn; [done|]. intros _ _. by destruct (lf_errCh s). }
  assert (Hsub : lf_open s ⊆ lf_serving s ∪ lf_failed s → lf_open s' ⊆ lf_serving s' ∪ lf_failed s').
  { destruct Hs' as [[Ho ->]|[e ->]]; cbn; [set_solver|]. intros H x Hx. specialize (H x Hx).
    destruct (decide (x = l)); set_solver. }
  assert (Hsame : lf_open s' = lf_open s ∧ lf_managed s' = lf_managed s ∧
    lf_startDone s' = lf_startDone s ∧ lf_ready s' = lf_ready s ∧ lf_bound s' = lf_bound s).
  { by destruct Hs' as [[_ ->]|[e ->]]. }
  destruct Hsame as (Ho & Hm & Hd & Hr & Hb).
  destruct pc; cbn in *; unfold leaving, covered in *; rewrite ?Ho, ?Hm, ?Hd, ?Hr, ?Hb in *; try done.
  - destruct Hok as ((_&_&_&Hse&_)&_). set_solver.
  - destruct Hok as (?&?&?&?&?&Hop). split_and!; auto.
    destruct Hs' as [[Hno ->]|[e ->]]; cbn; intros x Hx; specialize (Hop x Hx);
      destruct (decide (x = l)); set_solver.
  - naive_solver.
  - destruct Hok as (?&[?|(Hse&?&?)]&?); [by auto|set_solver].
  - destruct Hok as (?&[?|(Hse&?&?)]&?); [by auto|set_solver].
Qed.

Lemma lstep_inv σ σ' : lstep σ σ' → life_inv σ → life_inv σ'.
Proof.
  intros Hstep Hinv. destruct Hstep as [k s s' c c' cs Hk Hc|k c s cs Hk Hc|l s cs Hl Ho|l e s cs Hl|s cs];
    cbn in Hinv |- *.
  - destruct Hinv as [(Hs & Hu & Hb & Hidle & Hno)|(Hs & i & pc & Hi & Hok & Hno)].
    + destruct (decide (lf_started s' = true)) as [Hs'|Hs'].
      * right. split; [done|].
        assert (∃ pc', c' = Starting pc' ∧ start_ok pc' s' (<[k := c']> cs)) as (pc' & -> & Hok).
        { destruct Hc as [s s' pc pc' Hp|s s' pc pc' Hp|s s' pc Hp|s s' pc pc' Hp|s s' pc Hp|s Hp];
            try (apply shutdown_quiet in Hp as (? & _); congruence); [|congruence].
          pose proof (Hno k _ Hk) as Hown. destruct Hp; cbn in Hown; try tauto; try congruence.
          exists (St_bind addrs). split; [done|]. cbn. split_and!; [done|by apply idle_insert|].
          by rewrite Hb. }
        exists k, pc'. rewrite lookup_insert_eq. split_and!; [done|done|].
        intros j d Hj. rewrite lookup_insert_ne by done. apply Hno.
      * left.
        destruct (other_cases _ _ _ _ Hc (Hno k c Hk) (or_intror Hs')) as [Ho' Hcases].
        assert (Hidle' : closing_of c' = [] → idle (<[k := c']> cs)) by (intros; by apply idle_insert).
        assert (Hno' : ∀ j d, <[k := c']> cs !! j = Some d → ¬ owner d).
        { intros j d. rewrite lookup_insert_Some. intros [[_ <-]|[_ ?]]; eauto. }
        destruct Hcases as [(-> & _ & Hcl)|(b & p & o & Hsh & Hcl & Hcl')].
        -- split_and!; auto.
        -- destruct (unbound_shutdown _ _ _ _ _ Hsh) as (Hu' & Hb' & Hc2); [|done|].
           { rewrite <- Hcl. by apply (Hidle k). }
           split_and!; try done; [by apply not_true_is_false|congruence|].
           apply Hidle'. congruence.
    + right. destruct (decide (k = i)) as [->|Hne].
      * rewrite Hi in Hk. injection Hk as <-. inversion Hc as [? ? ? pc' Hp| | | | |]; subst.
        destruct (start_ok_step _ _ _ _ _ _ Hp Hi Hs Hok) as [Hok' Hs']. split; [done|].
        exists i, pc'. rewrite lookup_insert_eq. split_and!; [done|done|].
        intros j d Hj. rewrite lookup_insert_ne by done. by apply Hno.
      * destruct (start_ok_other _ _ _ _ _ _ _ Hc Hk (Hno k c Hne Hk) Hs Hok) as (Hok' & Ho' & Hs').
        split; [done|]. exists i, pc. rewrite lookup_insert_ne by done. split_and!; [done|done|].
        intros j d Hj. rewrite lookup_insert_Some. intros [[_ <-]|[_ ?]]; eauto.
  - assert (Hn : ¬ owner c ∧ closing_of c = []) by (set_unfold in Hc; destruct_or! Hc; subst c; cbn; tauto).
    destruct Hn as [Hno' Hcl].
    destruct Hinv as [(Hs & Hu & Hb & Hidle & Hno)|(Hs & i & pc & Hi & Hok & Hno)]; [left|right].
    + split_and!; try done; [by apply idle_insert|].
      intros j d. rewrite lookup_insert_Some. intros [[_ <-]|[_ ?]]; eauto.
    + split; [done|]. exists i, pc. rewrite lookup_insert_ne by congruence.
      split_and!; [done|by apply start_ok_new|].
      intros j d Hj. rewrite lookup_insert_Some. intros [[_ <-]|[_ ?]]; eauto.
  - destruct Hinv as [(Hs & (_&_&_&Hse&_) & _)|(Hs & i & pc & Hi & Hok & Hno)]; [set_solver|right].
    split; [done|]. exists i, pc. split_and!; [done| |done]. eapply start_ok_serve; eauto.
  - destruct Hinv as [(Hs & (_&_&_&Hse&_) & _)|(Hs & i & pc & Hi & Hok & Hno)]; [set_solver|right].
    split; [done|]. exists i, pc. split_and!; [done| |done]. eapply start_ok_serve; eauto.
  - destruct Hinv as [?|(Hs & i & pc & Hi & Hok & Hno)]; [by left|right]. split; [done|].
    exists i, pc. split_and!; [done| |done]. by destruct pc.
Qed.

Lemma reachable_inv σ : rtc lstep fresh_server σ → life_inv σ.
Proof.
  intros H. apply (rtc_invariant lstep life_inv _ _ lstep_inv H).
  left. unfold unbound. cbn. split_and!; try done; by intros ? ?.
Qed.

(** C22. The server is single-use in every interleaving of [Start], [Shutdown] and
    [Close] with the serving goroutines: at most one [Start] gets past
    [beginStart], its completion channel is closed at most once (a second close
    would panic), and the server reports ready only after every configured
    address is bound. *)
Theorem server_single_use (s : life) (cs : gmap nat call) :
  rtc lstep fresh_server (s, cs) →
  lf_startDone s <= 1 ∧
  (∀ i j c d, cs !! i = Some c → cs !! j = Some d → owner c → owner d → i = j) ∧
  (lf_ready s = true → length (lf_bound s) = length addrs).
Proof.
  intros H. destruct (reachable_inv _ H) as [(Hs & (Hd & Hr & _) & _ & _ & Hno)|(Hs & i & pc & Hi & Hok & Hno)].
  - split_and!; [lia| |congruence]. intros i j c d Hc _ Ho. by destruct (Hno _ _ Hc).
  - split_and!.
    + destruct pc; cbn in Hok; unfold unbound in Hok; naive_solver lia.
    + assert (Heq : ∀ j c, cs !! j = Some c → owner c → j = i).
      { intros j c Hj Ho. destruct (decide (j = i)); [done|]. by destruct (Hno j c). }
      intros j k c d Hj Hk Hoc Hod. by rewrite (Heq j c), (Heq k d).
    + destruct pc; cbn in Hok; unfold unbound in Hok; intuition congruence.
Qed.

(** No socket is forgotten: when [Start] has returned, every listener that is
    still open is about to be closed by a running [Shutdown] or [Close], or the
    failure of its [Serve] was left in the error channel. *)
Lemma listeners_closed (s : life) (cs : gmap nat call) (i : nat) (r : option goerr) (l : nat) :
  rtc lstep fresh_server (s, cs) → cs !! i = Some (Starting (St_return r)) → l ∈ lf_open s →
  lf_errCh s ≠ [] ∨ ∃ j c, cs !! j = Some c ∧ l ∈ closing_of c.
Proof.
  intros H Hi Hl.
  destruct (reachable_inv _ H) as [(_ & _ & _ & _ & Hno)|(Hs & k & pc & Hk & Hok & Hno)];
    [by destruct (Hno _ _ Hi)|].
  destruct (decide (i = k)) as [->|Hne]; [|by destruct (Hno _ _ Hne Hi)].
  rewrite Hi in Hk. injection Hk as <-. cbn in Hok. destruct Hok as (_ & [[Hm Hcov]|(Hse & Hrep & Hop)] & _).
  - right. destruct (Hcov l Hl) as [Hin|?]; [|done]. rewrite Hm in Hin. by apply elem_of_nil in Hin.
  - left. apply Hrep. set_solver.
Qed.
End life.

(** [Start] with one listener that fails before the [select]. *)
Lemma serve_error_run (addr : string) (e : goerr) :
  ∃ s cs, rtc (lstep [addr]) fresh_server (s, cs) ∧
    cs = {[0 := Starting (St_return None)]} ∧ lf_errCh s = [e] ∧ lf_open s = {[0]} ∧
    lf_serving s = ∅ ∧ lf_ready s = true ∧ lf_cancelled s = false.
Proof.
  eexists _, _. split.
  { unfold fresh_server.
    eapply rtc_l; [apply (step_new _ 0 (Starting St_begin)); [done|set_solver]|].
    eapply rtc_l; [eapply (step_call _ 0); [apply lookup_insert_eq|]; by apply call_start, start_begin|].
    rewrite insert_insert_eq.
    eapply rtc_l; [eapply (step_call _ 0); [apply lookup_insert_eq|];
      by apply call_start, (start_bind _ 0); cbn; set_solver|].
    rewrite insert_insert_eq.
    eapply rtc_l; [eapply (step_call _ 0); [apply lookup_insert_eq|]; by apply call_start, start_store|].
    rewrite insert_insert_eq. cbn [lf_bound bind_listener set_started app].
    eapply rtc_l; [eapply (step_call _ 0); [apply lookup_insert_eq|]; by apply call_start, start_serve|].
    rewrite insert_insert_eq.
    eapply rtc_l; [apply (step_serve_fails _ 0 e); cbn; [set_solver|lia]|].
    eapply rtc_l; [eapply (step_call _ 0); [apply lookup_insert_eq|]; by apply call_start, start_ready|].
    rewrite insert_insert_eq.
    eapply rtc_l; [eapply (step_call _ 0); [apply lookup_insert_eq|]; apply call_start, start_wait; cbn; set_solver|].
    rewrite insert_insert_eq.
    eapply rtc_l; [eapply (step_call _ 0); [apply lookup_insert_eq|]; by apply call_start, start_mark|].
    rewrite insert_insert_eq. apply rtc_refl. }
  cbn. split_and!; try done; set_solver.
Qed.

(** C23. A failure of [Serve] can be lost.  When the only listener fails before
    [Start] reaches its [select], both the error and the end of the wait group
    are ready, and the choice is random: [Start] may return nil, with the error
    unread, the socket open, the server reported ready and nothing cancelled. *)
Theorem serve_error_lost (addr : string) (e : goerr) :
  ∃ s cs, rtc (lstep [addr]) fresh_server (s, cs) ∧
    cs = {[0 := Starting (St_return None)]} ∧ lf_errCh s = [e] ∧ lf_open s = {[0]} ∧
    lf_serving s = ∅ ∧ lf_ready s = true ∧ lf_cancelled s = false.
Proof. apply serve_error_run. Qed.
