(* ===== verification/SMTPProps.v ===== *)
(** * Properties of the SMTP session

    What a client can reach: admission by address, the TLS and authentication
    gates over any sequence of session calls, and the envelope of the message
    that reaches the handler. *)
From Stdlib Require Import Ascii.
From S2P Require Import Prelude.
From S2P Require Import GoStrings.
From S2P Require Import GoTime.
From S2P Require Import GoErrors.
From S2P Require Import GoEncoding.
From S2P Require Import GoNetip.
From S2P Require Import GoMail.
From S2P Require Import GoMIME.
From S2P Require Import Email.
From S2P Require Import SenderPolicy.
From S2P Require Import Config.
From S2P Require Import SMTPParser.
From S2P Require Import Observability.
From S2P Require Import SMTPServer.
#[local] Open Scope Z_scope.
#[local] Open Scope relay_scope.

(** ** The parser and the envelope *)

Section envelope.
Context `{U : UnicodeTables} `{Rx : MailRegexp} `{AL : AddressList} `{ME : MIMEEnv}.

(** Equal but for bodies and attachments. *)
Definition same_envelope (m m' : Message) : Prop :=
  EnvelopeFrom m' = EnvelopeFrom m ∧ HeaderFrom m' = HeaderFrom m ∧ ReplyTo m' = ReplyTo m ∧
  To m' = To m ∧ Subject m' = Subject m.

#[local] Instance same_envelope_preorder : PreOrder same_envelope.
Proof.
  split; [done|]. unfold same_envelope. intros x y z (?&?&?&?&?) (?&?&?&?&?). split_and!; congruence.
Qed.

Lemma parse_leaf_envelope part mediaType out m :
  parse_leaf part mediaType out = inl m → same_envelope out m.
Proof.
  unfold parse_leaf. destruct (ReadAll _); [|done]. intros H. apply rbind_ok in H as (d & _ & H).
  destruct (ParseMediaType _) as [[disp ps] e].
  repeat match type of H with context [if ?b then _ else _] => destruct b end;
    injection H as <-; done.
Qed.

Lemma parse_multipart_envelope fuel mr out m :
  parse_multipart fuel mr out = Some (inl m) → same_envelope out m.
Proof.
  revert mr out m. induction fuel as [|fuel IH]; intros mr out m; cbn [parse_multipart]; [done|].
  destruct (NextPart mr) as [[part mr']|[e|]]; [|done|by intros [= <-]].
  destruct (ParseMediaType _) as [[mt ps] e].
  destruct (is_multipart _); [case_decide; [apply IH|]|].
  - destruct (parse_multipart fuel (multipart_NewReader _ _) out) as [[o|?]|] eqn:H1; [|done..].
    intros H2. transitivity o; eauto.
  - destruct (parse_leaf _ _ out) as [o|?] eqn:H1; [|done]. apply parse_leaf_envelope in H1.
    intros H2. transitivity o; eauto.
Qed.

(** What the parser takes from where: sender and recipients of the transaction
    from the envelope alone, the rest from the header. *)
Lemma ParseMessage_envelope r from to m :
  ParseMessage r from to = inl m →
  ∃ h body, ReadMessage r = inl (h, body) ∧ same_envelope (parsed_headers h from to) m.
Proof.
  unfold ParseMessage. destruct (ReadMessage r) as [[h body]|e]; [|done]. intros H.
  exists h, body. split; [done|].
  destruct (ParseMediaType _) as [[mt ps] e]. destruct (is_multipart _).
  - case_decide; [done|]. unfold parseMultipart in H.
    destruct (parse_multipart _ _ _) as [o|] eqn:Hp; [|done]. cbn in H. subst o.
    by apply parse_multipart_envelope in Hp.
  - destruct (ReadAll body); [|done]. apply rbind_ok in H as (d & _ & H).
    destruct (EqualFold _ _); injection H as <-; done.
Qed.
End envelope.

(** ** Admission *)

Lemma parse_cidrs_elem `{UnicodeTables} values ps p :
  parse_cidrs values = inl ps →
  p ∈ ps ↔ ∃ raw, raw ∈ values ∧ TrimSpace raw ≠ "" ∧ ParsePrefix (TrimSpace raw) = inl p.
Proof.
  revert ps. induction values as [|raw values IH]; intros ps; cbn.
  - intros [= <-]. split; [by intros ?%elem_of_nil|]. by intros (raw & ?%elem_of_nil & _).
  - case_decide as Hb; [intros Hp; rewrite (IH _ Hp); split|].
    + intros (r & ? & ?). exists r. split; [by right|done].
    + intros (r & [->|?]%elem_of_cons & Hr); [by destruct Hr|by exists r].
    + destruct (ParsePrefix (TrimSpace raw)) as [q|e] eqn:Hq; [|done].
      intros (qs & Hqs & [= <-])%rbind_ok. rewrite elem_of_cons, (IH _ Hqs). split.
      * intros [->|(r & ? & ?)]; [exists raw|exists r]; (split; [set_solver|done]).
      * intros (r & [->|?]%elem_of_cons & Hr); [left; destruct Hr; congruence|right; by exists r].
Qed.

Lemma remoteAddrIP_wf `{GoSMTP} remote ip text :
  remoteAddrIP remote = inl (ip, text) → addr_wf ip.
Proof.
  unfold remoteAddrIP. destruct remote as [a|]; [|done]. intros (x & Hx & [= <- _])%rbind_ok.
  assert (Hip : ∀ kind l, addr_of_ip kind l = inl x → addr_wf x).
  { unfold addr_of_ip. intros kind l. destruct (AddrFromSlice l) eqn:Ha; [|done]. intros [= <-].
    by eapply Unmap_wf, AddrFromSlice_wf. }
  destruct a; [by eapply Hip..|]. destruct (ParseAddr _) as [b|] eqn:Hb; [|done].
  injection Hx as <-. by eapply Unmap_wf, ParseAddr_wf.
Qed.

(** [remote] has an address in a network that [values] names. *)
Definition in_networks `{G : GoSMTP} (values : list string) (remote : option net_Addr) : Prop :=
  ∃ ip text raw p, remoteAddrIP remote = inl (ip, text) ∧ raw ∈ values ∧
    ParsePrefix (TrimSpace raw) = inl p ∧ in_block p ip.

(** C17. Admission is CIDR membership of the configured text: a connection gets a
    session exactly when its remote address (an IPv4 address also in its
    IPv6-mapped form) has the leading bits of a network that
    SMTP_ALLOWED_CIDRS names; otherwise it is refused with 554 and counted. *)
Theorem admission_by_cidr `{U : UnicodeTables} `{G : GoSMTP} (values : list string)
    (policy : sessionPolicy) (remote : option net_Addr) (m : Metrics) :
  ParseCIDRs values = inl (sp_allowedCIDRs policy) →
  ((∃ se, NewSession policy remote (Some m) = (Some m, inl se)) ↔ in_networks values remote) ∧
  (¬ in_networks values remote →
   NewSession policy remote (Some m) = (IncSessionsDenied (Some m), inr access_denied)).
Proof.
  intros (ps & Hps & Hc)%rbind_ok. unfold NewSession.
  unfold in_networks. destruct (remoteAddrIP remote) as [[ip text]|e] eqn:Hr;
    [|split; [split; [by intros [? ?]|by intros (? & ? & ? & ? & ? & _)]|done]].
  apply remoteAddrIP_wf in Hr as Hwf.
  assert (Ha : isAddrAllowed ip (sp_allowedCIDRs policy) = true ↔
    ∃ raw p, raw ∈ values ∧ ParsePrefix (TrimSpace raw) = inl p ∧ in_block p ip).
  { assert (sp_allowedCIDRs policy = ps) as -> by (destruct ps; congruence).
    unfold isAddrAllowed. rewrite existsb_exists. split.
    - intros (p & Hin%list_elem_of_In & Hp). apply (parse_cidrs_elem _ _ _ Hps) in Hin as (raw & ? & _ & Hq).
      exists raw, p. split_and!; [done|done|]. apply prefix_Contains_spec; [by eapply ParsePrefix_wf|done|done].
    - intros (raw & p & Hin & Hq & Hp). exists p. split.
      + apply list_elem_of_In, (parse_cidrs_elem _ _ _ Hps). exists raw. split_and!; [done| |done].
        intros Hb. rewrite Hb in Hq. by vm_compute in Hq.
      + apply prefix_Contains_spec; [by eapply ParsePrefix_wf|done|done]. }
  assert (Hn : in_networks values remote ↔
    ∃ raw p, raw ∈ values ∧ ParsePrefix (TrimSpace raw) = inl p ∧ in_block p ip).
  { unfold in_networks. rewrite Hr. naive_solver. }
  unfold in_networks in Hn. rewrite Hr in Hn. rewrite Hn, <- Ha.
  destruct (isAddrAllowed ip _); cbn; (split; [split|]); try done; [by eexists|by intros [? ?]].
Qed.

(** ** Session calls *)

Inductive sevent :=
  | EvAuth (mech identity username password : string)
  | EvMail (conn : option bool) (from : string)
  | EvRcpt (conn : option bool) (to : string)
  | EvData (conn : option bool) (r : stream)
  | EvReset
  | EvLogout.

Section calls.
Context `{U : UnicodeTables} `{Rx : MailRegexp} `{AL : AddressList} `{ME : MIMEEnv}.
Context `{G : GoSMTP} `{MH : MessageHandler}.

Definition session_event (ev : sevent) : SM unit :=
  match ev with
  | EvAuth mech identity username password =>
      let! authenticate := session_Auth mech in authenticate identity username password
  | EvMail conn from => session_Mail conn from
  | EvRcpt conn to => session_Rcpt conn to
  | EvData conn r => session_Data conn r
  | EvReset => session_Reset
  | EvLogout => session_Logout
  end.

Definition session_run (evs : list sevent) (s : smtp_state) : smtp_state :=
  foldl (λ s ev, fst (session_event ev s)) s evs.

(** The recipients and senders named since the last reset. *)
Fixpoint since_reset (evs acc : list sevent) : list sevent :=
  match evs with
  | [] => acc
  | EvReset :: evs => since_reset evs []
  | ev :: evs => since_reset evs (acc ++ [ev])
  end.

Definition named_recipients (evs : list sevent) : list string :=
  evs ≫= λ ev, match ev with EvRcpt _ to => [to] | _ => [] end.
Definition named_senders (evs : list sevent) : list string :=
  evs ≫= λ ev, match ev with EvMail _ from => [from] | _ => [] end.

(** Credentials that the provider of [policy] accepted. *)
Definition authenticated (policy : sessionPolicy) (evs : list sevent) : Prop :=
  ∃ provider mech identity username password,
    sp_authProvider policy = Some provider ∧ provider username password = None ∧
    EvAuth mech identity username password ∈ evs.

(** What is known of a session of [policy] after [evs]. *)
Definition session_ok (policy : sessionPolicy) (evs : list sevent) (se : session) : Prop :=
  se_requireAuth se = sp_requireAuth policy ∧ se_requireTLS se = sp_requireTLS policy ∧
  se_authProvider se = sp_authProvider policy ∧ se_timeout se = sp_handlerTimeout policy ∧
  (se_authed se = true → authenticated policy evs) ∧
  se_to se `sublist_of` named_recipients (since_reset evs []) ∧
  (se_from se = "" ∨ se_from se ∈ named_senders (since_reset evs [])).

Lemma since_reset_snoc evs ev acc :
  since_reset (evs ++ [ev]) acc =
  match ev with EvReset => [] | _ => since_reset evs acc ++ [ev] end.
Proof.
  revert acc. induction evs as [|e evs IH]; intros acc; cbn; [by destruct ev|].
  destruct e; apply IH.
Qed.

Lemma authenticated_app policy evs ev :
  authenticated policy evs → authenticated policy (evs ++ [ev]).
Proof.
  intros (p & m & i & u & w & ? & ? & ?). exists p, m, i, u, w. split_and!; [done|done|set_solver].
Qed.

(** An event that leaves the session alone. *)
Lemma session_ok_skip policy evs ev se :
  session_ok policy evs se → ev ≠ EvReset → session_ok policy (evs ++ [ev]) se.
Proof.
  intros (?&?&?&?&Ha&Hto&Hfrom) Hev. unfold session_ok. rewrite since_reset_snoc.
  assert (Hs : match ev with EvReset => [] | _ => since_reset evs [] ++ [ev] end
               = since_reset evs [] ++ [ev]) by (by destruct ev).
  rewrite Hs. unfold named_recipients, named_senders. rewrite !bind_app. split_and!; try done.
  - intros He. by apply authenticated_app, Ha.
  - etrans; [exact Hto|]. by apply sublist_inserts_r.
  - destruct Hfrom; [by left|right]. set_solver.
Qed.

Lemma session_Data_session conn r s :
  ss_session (fst (session_Data conn r s)) = ss_session s.
Proof.
  unfold session_Data, enforce, bind, get. cbn.
  destruct (enforceSessionPolicy _ _); [done|].
  destruct (ParseMessage _ _ _) as [msg|e]; [|done]. unfold try, on_handler.
  destruct (smtp_HandleMessage _ _ _) as [h [?|e]]; [done|]. by destruct (AsSMTPError e) as [[[? ?] ?]|].
Qed.

Lemma session_event_ok policy evs ev s :
  session_ok policy evs (ss_session s) →
  session_ok policy (evs ++ [ev]) (ss_session (fst (session_event ev s))).
Proof.
  intros Hok. destruct ev as [mech ident user pass|conn from|conn to|conn r| |]; cbn [session_event].
  - unfold bind, session_Auth. destruct (se_authProvider (ss_session s)) as [p|] eqn:Hp;
      [|by apply session_ok_skip].
    destruct (negb (se_requireAuth _)); [by apply session_ok_skip|].
    destruct (negb (EqualFold mech "PLAIN")); [by apply session_ok_skip|].
    destruct (p user pass) eqn:Hc; [by apply session_ok_skip|].
    pose proof (session_ok_skip policy evs (EvAuth mech ident user pass) _ Hok) as Hskip.
    destruct Hskip as (?&?&Hpp&?&_&?&?); [done|]. cbn. unfold session_ok. cbn. split_and!; try done.
    intros _. exists p, mech, ident, user, pass. split_and!; [congruence|done|set_solver].
  - unfold session_Mail, bind, enforce. destruct (enforceSessionPolicy _ _); [by apply session_ok_skip|].
    destruct (session_ok_skip policy evs (EvMail conn from) _ Hok) as (?&?&?&?&?&?&_); [done|].
    unfold session_ok; cbn; split_and!; try done. right. rewrite since_reset_snoc.
    unfold named_senders. rewrite bind_app. set_solver.
  - unfold session_Rcpt, bind, enforce. destruct (enforceSessionPolicy _ _); [by apply session_ok_skip|].
    destruct (session_ok_skip policy evs (EvRcpt conn to) _ Hok) as (?&?&?&?&?&_&?); [done|].
    unfold session_ok; cbn; split_and!; try done. rewrite since_reset_snoc.
    unfold named_recipients. rewrite bind_app. apply sublist_app; [apply Hok|done].
  - rewrite session_Data_session. by apply session_ok_skip.
  - destruct Hok as (?&?&?&?&Ha&_&_). unfold session_ok. cbn. rewrite since_reset_snoc. cbn.
    split_and!; try done; [|by left]. intros He. by apply authenticated_app, Ha.
  - by apply session_ok_skip.
Qed.

Lemma session_run_ok policy evs0 evs s :
  session_ok policy evs0 (ss_session s) →
  session_ok policy (evs0 ++ evs) (ss_session (session_run evs s)).
Proof.
  revert evs0 s. induction evs as [|ev evs IH]; intros evs0 s Hok; [by rewrite app_nil_r|].
  cbn. rewrite cons_middle, app_assoc. apply IH, session_event_ok, Hok.
Qed.

Lemma NewSession_ok policy remote m m' se :
  NewSession policy remote m = (m', inl se) →
  session_ok policy [] se ∧ m' = m ∧
  ∃ ip text, remoteAddrIP remote = inl (ip, text) ∧ isAddrAllowed ip (sp_allowedCIDRs policy) = true.
Proof.
  unfold NewSession. destruct (remoteAddrIP remote) as [[ip text]|e]; [|done].
  destruct (isAddrAllowed ip _) eqn:Ha; cbn; [|done]. intros [= <- <-].
  split_and!; [|done|by eauto]. unfold session_ok. cbn. split_and!; try done. by left.
Qed.

(** One DATA command: refused with the handler untouched, or handled once. *)
Lemma session_Data_cases conn r s s' res :
  session_Data conn r s = (s', res) →
  (s' = s ∧ ∃ e, res = inr e) ∨
  (enforceSessionPolicy conn (ss_session s) = None ∧
   ∃ msg h rh, ParseMessage r (se_from (ss_session s)) (se_to (ss_session s)) = inl msg ∧
     smtp_HandleMessage
       (if 0 <? se_timeout (ss_session s) then Some (se_timeout (ss_session s)) else None)
       msg (ss_handler s) = (h, rh) ∧
     s' = MkSMTP (ss_session s) (ss_metrics s) h ∧
     match rh with
     | inl _ => res = inl tt
     | inr e => res = inr (match AsSMTPError e with
                           | Some (code, enh, message) => SMTPError code enh message
                           | None => EWrapf "handle parsed message" e
                           end)
     end).
Proof.
  unfold session_Data, enforce, bind, get. cbn.
  destruct (enforceSessionPolicy _ _) eqn:He; [intros [= <- <-]; left; eauto|].
  destruct (ParseMessage _ _ _) as [msg|e] eqn:Hp; [|intros [= <- <-]; left; eauto].
  unfold try, on_handler. destruct (smtp_HandleMessage _ _ _) as [h rh] eqn:Hh. intros H. right.
  split; [done|]. exists msg, h, rh. split_and!; [done|done| |];
    destruct rh as [[]|e]; cbn in *; try (by injection H as <- <-);
    by destruct (AsSMTPError e) as [[[? ?] ?]|]; injection H as <- <-.
Qed.

Lemma enforce_passed conn se :
  enforceSessionPolicy conn se = None →
  (se_requireTLS se = true → conn = Some true) ∧ (se_requireAuth se = true → se_authed se = true).
Proof.
  unfold enforceSessionPolicy, isTLSActive.
  destruct (se_requireTLS se), conn as [[]|], (se_requireAuth se), (se_authed se); cbn; done.
Qed.

(** C6. The relay is closed.  Whatever calls go-smtp makes on a session in whatever
    order, a DATA command either is refused without touching the handler, or
    hands over exactly one message, and then the client's address is in an
    allowed network, TLS is active if it is required, the client has given
    credentials that the provider accepts if authentication is required, and the
    recipients and the sender of the message are ones the client named since
    the last reset, whatever its header says.  The client is told success
    exactly when the handler reports it. *)
Theorem session_gate (policy : sessionPolicy) (remote : option net_Addr)
    (m m' : option Metrics) (se : session) (h : mh_state) (evs : list sevent)
    (conn : option bool) (r : stream) (s' : smtp_state) (res : unit + goerr) :
  NewSession policy remote m = (m', inl se) →
  let s := session_run evs (MkSMTP se m' h) in
  session_Data conn r s = (s', res) →
  (s' = s ∧ ∃ e, res = inr e) ∨
  (∃ ip text, remoteAddrIP remote = inl (ip, text) ∧
     isAddrAllowed ip (sp_allowedCIDRs policy) = true) ∧
  (sp_requireTLS policy = true → conn = Some true) ∧
  (sp_requireAuth policy = true → authenticated policy evs) ∧
  ∃ msg to hr, smtp_HandleMessage
      (if 0 <? sp_handlerTimeout policy then Some (sp_handlerTimeout policy) else None)
      msg (ss_handler s) = (ss_handler s', hr) ∧
    To msg = normalizeAddresses to ∧
    to `sublist_of` named_recipients (since_reset evs []) ∧
    (EnvelopeFrom msg = "" ∨
     ∃ from, from ∈ named_senders (since_reset evs []) ∧ EnvelopeFrom msg = TrimSpace from) ∧
    (res = inl tt ↔ hr = inl tt).
Proof.
  intros Hnew s Hdata. destruct (NewSession_ok _ _ _ _ _ Hnew) as (Hok0 & -> & Haddr).
  assert (Hok : session_ok policy evs (ss_session s)) by (by apply (session_run_ok policy [] evs)).
  destruct (session_Data_cases _ _ _ _ _ Hdata) as [?|(He & msg & h' & rh & Hp & Hh & -> & Hres)];
    [by left|right].
  apply enforce_passed in He as [Htls Hauth]. destruct Hok as (Hra & Hrt & _ & Hto & Ha & Hsub & Hfrom).
  rewrite Hra, Hrt, Hto in *. split_and!; [done|done|auto|].
  destruct (ParseMessage_envelope _ _ _ _ Hp) as (hd & body & _ & (Hef & _ & _ & HTo & _)).
  exists msg, (se_to (ss_session s)), rh. split_and!; [done|done|done| |].
  - rewrite Hef. cbn. destruct Hfrom as [->|Hin]; [by left|right]. eauto.
  - destruct rh as [[]|e]; rewrite Hres; [done|]. by destruct (AsSMTPError e) as [[[? ?] ?]|].
Qed.
End calls.
