(* ===== verification/EndToEnd.v ===== *)
(** * The accept path from the socket to the disk

    The session, the parser, the relay handler, the record store and the payload
    store composed the way [main] composes them: what a client that is told
    success can rely on. *)
From S2P Require Import Prelude.
From S2P Require Import GoStrings.
From S2P Require Import GoTime.
From S2P Require Import GoErrors.
From S2P Require Import GoMail.
From S2P Require Import GoMIME.
From S2P Require Import Email.
From S2P Require Import SenderPolicy.
From S2P Require Import SpoolCommon.
From S2P Require Import Records.
From S2P Require Import RecordsProps.
From S2P Require Import SpoolStore.
From S2P Require Import SpoolStoreProps.
From S2P Require Import PayloadFS.
From S2P Require Import PayloadTree.
From S2P Require Import PayloadStore.
From S2P Require Import PayloadProps.
From S2P Require Import PayloadRefine.
From S2P Require Import PayloadCodec.
From S2P Require Import DiskSpool.
From S2P Require Import Schema.
From S2P Require Import SchemaProps.
From S2P Require Import PayloadInit.
From S2P Require Import SpoolOpen.
From S2P Require Import Relay.
From S2P Require Import SMTPParser.
From S2P Require Import Observability.
From S2P Require Import SMTPServer.
From S2P Require Import SMTPProps.
#[local] Open Scope Z_scope.
#[local] Open Scope relay_scope.

#[local] Existing Instance json_codec.

Section accept.
Context `{U : UnicodeTables} `{Rx : MailRegexp} `{AL : AddressList} `{ME : MIMEEnv} `{G : GoSMTP}.
Context `{Env : RecordEnv} `{Rnd : IDSource} `{FS : FSEnv} {FL : FSLaws}.
Context (ps : PayloadStore) (h : Handler).

(** What the handler sees of its context, when it starts and when it enqueues. *)
Context (seen : option duration → option goerr * option goerr).

(** The store of [main]. *)
#[local] Instance disk_store : Store := @SpoolStore U Env Rnd (disk_payloads ps).

(** [newEnqueueMessageHandler] as the server's [MessageHandler]. *)
#[local] Instance relay_handler : MessageHandler := {|
  mh_state := hstate;
  smtp_HandleMessage ctx msg := newEnqueueMessageHandler h (seen ctx).1 (seen ctx).2 msg;
|}.

Definition spool_of (s : smtp_state) : disk_spool ps := hs_store (ss_handler s).

(** A client that is told 250 has its mail on disk.  When a DATA command
    succeeds, the message the parser read, as the sender policy left it, is
    recorded: a row in state [queued] under a fresh identifier is committed, and
    the synced payload directory has one entry more, a directory of synced files
    from which that message is read back.  No other record or payload has
    changed. *)
Lemma accepted_mail_is_durable (conn : option bool) (r : stream) (s s' : smtp_state) :
  session_Data conn r s = (s', inl tt) →
  ∃ msg rec, ParseMessage r (se_from (ss_session s)) (se_to (ss_session s)) = inl msg ∧
    let sent := pr_Message (ApplySenderPolicy msg (h_senderPolicy h)).1 in
    snd (ApplySenderPolicy msg (h_senderPolicy h)) = None ∧ canonical_id (rec_ID rec) ∧
    durable (sp_records (spool_of s')) =
      <[rec_ID rec := rowOf rec]> (durable (sp_records (spool_of s))) ∧
    r_state (rowOf rec) = StateQueued ∧
    ∃ pes b n,
      fs_get (payloads_at ps) (tree ps (spool_of s)) = Some (Dir pes b) ∧
      pes !! rec_ID rec = None ∧
      fs_get (payloads_at ps) (tree ps (spool_of s')) = Some (Dir (<[rec_ID rec := n]> pes) true) ∧
      settled n ∧ read_payload n = Some (stored_message sent) ∧
      ∀ id, id ≠ rec_ID rec →
        stored_payload ps (tree ps (spool_of s')) id = stored_payload ps (tree ps (spool_of s)) id.
Proof.
  intros H. destruct (session_Data_cases _ _ _ _ _ H) as [[_ [e ?]]|(_ & msg & h' & rh & Hp & Hh & -> & Hres)];
    [done|].
  destruct rh as [[]|e]; [|done].
  destruct (handler_success h _ _ _ _ _ Hh) as (Hpol & _ & rec & He).
  exists msg, rec. split; [done|]. split; [done|].
  exact (Enqueue_survives_crash ps _ _ _ _ _ He).
Qed.

(** The spool directory as the next process finds it: the committed rows, in a
    database of version 1, and the tree. *)
Definition left_behind (s : smtp_state) (v : volume) : Prop :=
  db_txn (v_db v) = None ∧ f_version (durable (v_db v)) = spoolSchemaVersion ∧
  f_rows (durable (v_db v)) = durable (sp_records (spool_of s)) ∧
  p_tree (v_fs v) = tree ps (spool_of s).

(** C5. A client that is told 250 has its mail on disk, and the next process finds
    it there.  When a DATA command succeeds, the message the parser read, as the
    sender policy left it, is recorded under a fresh identifier: a row in state
    [queued] is committed, and the synced payload directory has one entry more, a
    directory of synced files.  Whenever a process opens this spool directory
    afterwards, the row is among its records and the message is read back. *)
Theorem accepted_mail_survives (conn : option bool) (r : stream) (s s' : smtp_state) :
  session_Data conn r s = (s', inl tt) →
  ∃ msg rec, ParseMessage r (se_from (ss_session s)) (se_to (ss_session s)) = inl msg ∧
    let sent := pr_Message (ApplySenderPolicy msg (h_senderPolicy h)).1 in
    snd (ApplySenderPolicy msg (h_senderPolicy h)) = None ∧
    durable (sp_records (spool_of s')) =
      <[rec_ID rec := rowOf rec]> (durable (sp_records (spool_of s))) ∧
    r_state (rowOf rec) = StateQueued ∧
    (∃ pes b n,
       fs_get (payloads_at ps) (tree ps (spool_of s)) = Some (Dir pes b) ∧
       pes !! rec_ID rec = None ∧
       fs_get (payloads_at ps) (tree ps (spool_of s')) = Some (Dir (<[rec_ID rec := n]> pes) true) ∧
       settled n) ∧
    ∀ order root v v' store, (∀ l, order l ≡ₚ l) → left_behind s' v →
      NewSpoolStore order root v = (v', inl store) →
      let c := filepath_Clean (TrimSpace root) in
      TrimSpace c = c → ps = store_at c →
      durable (sp_records (spool_of_volume (ss_payloads store) v')) !! rec_ID rec = Some (rowOf rec) ∧
      stored_payload (ss_payloads store) (p_tree (v_fs v')) (rec_ID rec) = Some (stored_message sent).
Proof.
  intros H. destruct (accepted_mail_is_durable _ _ _ _ H)
    as (msg & rec & Hp & Hpol & Hcan & Hdb & Hst & pes & b & n & Hp0 & Hnew & Hp1 & Hset & Hread & _).
  exists msg, rec. split; [done|]. split; [done|]. split; [done|]. split; [done|].
  split; [by exists pes, b, n|].
  intros order root v v' store Hperm (Hn & Hv & Hrows & Htree) Ho c Hc Hps.
  destruct (NewSpoolStore_run order root v v' _ Hperm Hn Ho) as (_ & _ & Hok).
  destruct (Hok store eq_refl) as (Hacc & _ & _ & Hrest).
  destruct (Hrest Hc) as (Hsp & _ & Hd & _ & _ & Hpay).
  assert (durable (v_db v') = durable (v_db v)) as Hsame.
  { destruct Hacc as [(_ & _ & ->)|(Hv0 & _)]; [done|]. by rewrite Hv in Hv0. }
  fold c in Hsp. rewrite Hd, Hsame, Hpay, Hsp, <- Hps, Htree. split.
  - rewrite Hrows, Hdb. apply lookup_insert_eq.
  - unfold stored_payload, payload_at. rewrite fs_get_app, Hp1. cbn. rewrite lookup_insert_eq.
    destruct (validateCanonicalRecordID (rec_ID rec)) as [[]|e] eqn:Hval; [exact Hread|].
    apply validate_canonical in Hcan. by rewrite Hcan in Hval.
Qed.
End accept.
