(* ===== verification/Witnesses.v ===== *)
(** * Concrete runs

    A fault-free world with an in-memory payload store and the no-op provider:
    one message is enqueued, claimed, submitted and recovered, and each
    theorem with hypotheses is applied to such a run. *)
From S2P Require Import Prelude.
From S2P Require Import GoStrings.
From S2P Require Import GoTime.
From S2P Require Import GoErrors.
From S2P Require Import Startup.
From S2P Require Import Email.
From S2P Require Import SenderPolicy.
From S2P Require Import SpoolCommon.
From S2P Require Import Records.
From S2P Require Import RecordsProps.
From S2P Require Import RecordsSpec.
From S2P Require Import RecordsInv.
From S2P Require Import SpoolStore.
From S2P Require Import SpoolStoreProps.
From S2P Require Import SpoolLife.
From S2P Require Import StoreLaws.
From S2P Require Import Worker.
From S2P Require Import WorkerProps.
From S2P Require Import Relay.
#[local] Open Scope Z_scope.
#[local] Open Scope relay_scope.

#[local] Existing Instance ascii_tables.

(** ** The world *)

(** 1 January 2025 and one second per reading. *)
Definition demo_time : time := 1735689600 * Second.

#[local] Instance demo_env : RecordEnv := {|
  drv_fault _ := None;
  drv_lands _ := false;
  drv_resets := false;
  clock n := demo_time + Z.of_nat n * Second;
|}.

#[local] Instance demo_ids : IDSource := λ _, inl demo_random.

(** A payload store in memory. *)
Abbreviation mem := (gmap string Message).

Definition mem_Save (id : string) (m : Message) : io goerr mem unit := λ p,
  match p !! TrimSpace id with
  | Some _ => (p, inr (EText "payload already exists"))
  | None => (<[TrimSpace id := m]> p, inl tt)
  end.
Definition mem_Load (id : string) : io goerr mem Message := λ p,
  (p, match p !! TrimSpace id with
      | Some m => inl m
      | None => inr (PayloadCorruptionError id "" (EText "payload directory is missing"))
      end).
Definition mem_Remove (id : string) : io goerr mem unit := λ p, (delete (TrimSpace id) p, inl tt).
Definition mem_Quarantine (ids : gset string) : io goerr mem (list string) := λ p,
  (filter (λ x, x.1 ∈ ids) p, inl []).

#[local] Instance mem_payloads : Payloads := {|
  pstate := mem;
  Save := mem_Save;
  Load := mem_Load;
  Remove := mem_Remove;
  QuarantineOrphans := mem_Quarantine;
|}.

Lemma mem_Save_cases id m (p : mem) :
  (p !! TrimSpace id = None ∧ mem_Save id m p = (<[TrimSpace id := m]> p, inl tt)) ∨
  (is_Some (p !! TrimSpace id) ∧ ∃ e, mem_Save id m p = (p, inr e)).
Proof. unfold mem_Save. destruct (p !! TrimSpace id); [right|left]; eauto. Qed.

#[local] Instance mem_view : PayloadView mem_payloads := {|
  payload p id := (p : mem) !! id;
  stored m := m;
|}.

#[local] Instance mem_laws : PayloadLaws mem_payloads.
Proof.
  constructor; cbn.
  - intros id m s s' Hs. destruct (mem_Save_cases id m s) as [[_ H]|[_ [e H]]];
      rewrite H in Hs; [|done]. injection Hs as <-. apply lookup_insert_eq.
  - intros id m s id' Hne. destruct (mem_Save_cases id m s) as [[_ ->]|[_ [e ->]]]; [|done].
    by apply lookup_insert_ne.
  - intros id m s m0 Hm. destruct (mem_Save_cases id m s) as [[H _]|[_ [e ->]]]; [|eauto].
    congruence.
  - intros id s s' m [= _ H]. revert H. case_match; [by intros [= <-]|done].
  - intros id s s' e [= _ H]. revert H. case_match; [done|]. by intros [= <-].
  - done.
  - intros id s s' e x [= _ H] _. revert H. by case_match.
  - intros id s id' Hne. by apply lookup_delete_ne.
  - intros ids s id Hid. destruct ((s : mem) !! id) as [m|] eqn:E.
    + by apply map_lookup_filter_Some.
    + apply map_lookup_filter_None. by left.
Qed.

Definition demo_msg : Message :=
  MkMessage "from@example.com" "from@example.com" [] ["to@example.com"] "hello" "text" "" [].

Definition spool0 : spool := MkSpool (MkDB ∅ None false 0 0) ∅ 0.

Definition spool1 : spool := fst (Enqueue None demo_msg spool0).

Definition later : time := demo_time + Hour.

(** Only the shape of a run's outcome is evaluated; the theorems say the rest. *)
Definition is_ok {S A} (r : S * (A + goerr)) : bool :=
  match r with (_, inl _) => true | _ => false end.
Definition is_found {S A} (r : S * (option A + goerr)) : bool :=
  match r with (_, inl (Some _)) => true | _ => false end.
Definition is_done {S} (r : S * (bool + goerr)) : bool :=
  match r with (_, inl true) => true | _ => false end.

Ltac run_ok check E :=
  match goal with |- match ?r with _ => _ end =>
    let H := fresh in let s := fresh "rs" in let x := fresh "rx" in let y := fresh "ry" in
    assert (H : check r = true) by (vm_compute; reflexivity);
    destruct r as [s [x|?]] eqn:E; [|discriminate H];
    try first [destruct x as [y|]; [|discriminate H] | destruct x as [|]; [|discriminate H]];
    clear H
  end.

(** ** Record store *)

Definition demo_id : string := "30313233-3435-4637-b839-616263646566".

Lemma claimReadyMetadata_ok_witness :
  match claimReadyMetadata later (sp_records spool1) with
  | (s, inl (Some m)) => ∃ r, durable (sp_records spool1) !! m_ID m = Some r ∧
                              r_state r = StateQueued ∧ m_State m = StateWorking
  | _ => False
  end.
Proof.
  run_ok (@is_found dbstate recordMetadata) E.
  apply claimReadyMetadata_ok in E. destruct E as (r & m0 & k & (Hl & (Hq & _) & _) & _ & -> & _).
  exists r. exact (conj Hl (conj Hq eq_refl)).
Defined.

Definition demo_record : SpoolRecord := new_record demo_id demo_msg demo_time.

Lemma demo_record_wf : wf_record demo_record.
Proof.
  assert (Ht : ms_range demo_time) by (vm_compute; split; reflexivity).
  split; [|done|done|exact Ht|exact Ht|exact Ht|done|by left|done].
  apply validate_canonical. vm_compute. reflexivity.
Qed.

Lemma scan_rowOf_witness : scanMetadata demo_id (rowOf demo_record) = inl (metaOf demo_record).
Proof. apply (scan_rowOf demo_record), demo_record_wf. Defined.

(** The message was claimed when the process stopped. *)
Definition spool2 : spool := fst (ClaimReady None later spool1).

Lemma recoverMetadata_ok_witness :
  match recoverMetadata later (sp_records spool2) with
  | (s, inl sn) => m_ID <$> sn_requeued sn = [demo_id] ∧ db_txn s = None
  | _ => False
  end.
Proof.
  run_ok (@is_ok dbstate recordRecoverySnapshot) E. apply recoverMetadata_ok in E as (Hn & Hids & _). split; [|exact Hn].
  rewrite Hids. vm_compute. reflexivity.
Defined.

(** ** Spool *)

Lemma Enqueue_ok_witness :
  match Enqueue None demo_msg spool0 with
  | (s, inl rec) => table s !! rec_ID rec = Some (rowOf rec) ∧
                    readable s (rec_ID rec) = Some demo_msg
  | _ => False
  end.
Proof.
  run_ok (@is_ok spool SpoolRecord) E. apply Enqueue_ok in E as (_ & _ & _ & _ & Ht & _ & Hp & _).
  split; [rewrite Ht; apply lookup_insert_eq|exact Hp].
Defined.

Lemma Enqueue_preserves_witness :
  readable (fst (Enqueue None emptyMessage spool1)) demo_id = Some demo_msg.
Proof.
  destruct (Enqueue None emptyMessage spool1) as [s r] eqn:E.
  apply Enqueue_preserves in E as [Hp _]. apply Hp. vm_compute. reflexivity.
Defined.

Lemma ClaimReady_ok_witness :
  match ClaimReady None later spool1 with
  | (s, inl (Some rec)) => readable spool1 (rec_ID rec) = Some (rec_Message rec)
  | _ => False
  end.
Proof.
  run_ok (@is_found spool SpoolRecord) E.
  apply ClaimReady_ok in E as (dead & _ & _ & (_ & x & m0 & _ & _ & _ & Hr & _) & _). exact Hr.
Defined.

Lemma ClaimReady_terminates_witness : claims later spool1 (ClaimReady None later spool1).
Proof. apply ClaimReady_terminates. Defined.

Lemma Recover_ok_witness :
  match Recover None later spool2 with
  | (s, inl res) => readable s demo_id = Some demo_msg
  | _ => False
  end.
Proof.
  run_ok (@is_ok spool RecoveryResult) E. apply Recover_ok in E as [H _].
  destruct (table spool2 !! demo_id) as [r|] eqn:Hl; [|revert Hl; vm_compute; discriminate].
  destruct (H demo_id r Hl) as [_ ->]. vm_compute. reflexivity.
Defined.

Definition demo_ops : list spool_op :=
  [OpEnqueue None demo_msg; OpClaimReady None later; OpCrash; OpRecover None later;
   OpClaimReady None later].

Lemma spool_lifecycle_witness : evolves (table spool0) (table (run_ops demo_ops spool0)).
Proof. apply (spool_lifecycle demo_ops spool0). reflexivity. Defined.

Lemma spool_table_ok_witness : table_ok (table (run_ops demo_ops spool0)).
Proof. apply (spool_table_ok demo_ops spool0); [reflexivity|]. apply map_Forall_empty. Defined.

(** ** Worker *)

#[local] Instance demo_provider : Provider := noop_Provider.
#[local] Instance demo_store : Store := SpoolStore.
#[local] Instance demo_world : WorkerEnv := {|
  ctx_Err _ := None;
  time_Now _ := later;
  timer _ := Some ECanceled;
|}.

Definition store0 : @sstate demo_store := spool0.

Definition worker1 : wstate := MkW (spool1 : sstate) 0 0 [].

Lemma processQueuedOnce_ok_witness :
  match processQueuedOnce demo_worker later worker1 with
  | (s, inl true) => ∃ rec r, mail (w_store worker1) (rec_ID rec) = Some (rec_Message rec) ∧
      ledger (w_store s) !! rec_ID rec = Some (StateSucceeded, wrap64 (rec_Attempt r + 1))
  | _ => False
  end.
Proof.
  run_ok (@is_done wstate) E.
  apply processQueuedOnce_ok in E as (st & rec & r & _ & _ & _ & _ & Hm & H & _).
  exists rec, r. exact (conj Hm H).
Defined.

(** A provider that is still working on everything. *)
Definition slow_provider : Provider := {|
  Submit _ _ id := inl (MkResult id "" 0 SubmissionStateRunning "" None);
  Poll _ id := inl (MkStatus id 0 SubmissionStateRunning "" None);
|}.

Definition worker2 : wstate :=
  fst (@processQueuedOnce _ _ slow_provider _ demo_worker later worker1).

Lemma processSubmittedOnce_ok_witness :
  match @processSubmittedOnce _ _ slow_provider demo_worker (later + Hour) worker2 with
  | (s, inl true) => ∃ rec, committed (w_store worker2) (rec_ID rec) = Some rec ∧
                            rec_State rec = StateSubmitted
  | _ => False
  end.
Proof.
  run_ok (@is_done wstate) E.
  apply processSubmittedOnce_ok in E as (st & rec & _ & Hc & Hs & _). exists rec. exact (conj Hc Hs).
Defined.

Lemma submissions_bounded_witness :
  submits demo_id (fst (Start demo_worker 5 worker1)) - submits demo_id worker1 <= 4.
Proof.
  assert (Hb : budget demo_worker (ledger (w_store worker1) !! demo_id) = 4)
    by (vm_compute; reflexivity).
  rewrite <- Hb. apply (submissions_bounded demo_worker). vm_compute. reflexivity.
Defined.

(** ** Relay *)

#[local] Existing Instance demo_mail.

Definition demo_handler : Handler := MkHandler "rewrite" demo_policy 1.

Definition normalised : Message := pr_Message (fst (ApplySenderPolicy demo_msg demo_policy)).

(** One session has been admitted. *)
Definition process1 : process :=
  MkProcess (MkH 1 store0 0 0) {[0%nat := normalised]} ∅.

(** Its message has been enqueued. *)
Definition process2 : process :=
  MkProcess (fst (handle_enqueue None normalised (p_state process1)))
    (delete 0%nat (p_running process1)) (<[0%nat := None]> (p_replies process1)).

Lemma process1_reached : rtc (hstep demo_handler) (initial store0) process1.
Proof.
  apply rtc_once. apply (step_admit demo_handler 0 None demo_msg normalised (initial _)); try done.
Qed.

Lemma process2_reached : rtc (hstep demo_handler) (initial store0) process2.
Proof.
  eapply rtc_r; [exact process1_reached|].
  destruct (handle_enqueue None normalised (p_state process1)) as [s [[]|e]] eqn:E.
  - pose proof (step_enqueue demo_handler 0 None normalised process1 s (inl tt) eq_refl E) as H.
    cbn [fst] in *. unfold process2. rewrite E. exact H.
  - assert (Hok : is_ok (handle_enqueue None normalised (p_state process1)) = true)
      by (vm_compute; reflexivity).
    by rewrite E in Hok.
Qed.

Lemma inflight_bounded_witness :
  hs_inflight (p_state process1) = 1 ∧ (size (p_running process1) <= 1)%nat.
Proof.
  destruct (inflight_bounded demo_handler store0 process1) as [H1 H2];
    [vm_compute; congruence|exact process1_reached|].
  split; [reflexivity|]. cbn in H2. vm_compute. constructor.
Defined.

Lemma accepted_have_records_witness :
  (accepted process2 <= size (ledger (hs_store (p_state process2))))%nat ∧ accepted process2 = 1%nat.
Proof.
  destruct (accepted_have_records demo_handler store0 process2) as [H _];
    [vm_compute; congruence|exact process2_reached|].
  split; [|vm_compute; reflexivity]. revert H. apply Nat.le_trans. apply Nat.le_add_l.
Defined.

Lemma newEnqueueMessageHandler_reply_witness :
  match newEnqueueMessageHandler demo_handler None None demo_msg (MkH 0 store0 0 0) with
  | (s, inl _) => hs_inflight s = 0
  | _ => False
  end.
Proof.
  run_ok (@is_ok hstate unit) E. apply newEnqueueMessageHandler_reply in E as [_ H]. exact H.
Defined.

(** ** A failing driver *)

(** The fourth driver call, the [COMMIT] of the first insert, fails. *)
Definition locked : goerr := EText "database is locked".

Definition commit_fails : RecordEnv := {|
  drv_fault n := if decide (n = 3%nat) then Some locked else None;
  drv_lands _ := false;
  drv_resets := false;
  clock n := demo_time + Z.of_nat n * Second;
|}.

(** The rest of the day: recovery, a second message and a look at the counters. *)
Definition after_failure : list spool_op :=
  [OpRecover None later; OpEnqueue None demo_msg; OpStateCounts].

Lemma failed_commit_wedges_witness :
  let s1 := fst (@Enqueue _ commit_fails _ _ None demo_msg spool0) in
  table (@run_ops _ commit_fails _ _ after_failure s1) = ∅ ∧
  is_Some (@op_error _ commit_fails _ _ (OpEnqueue None demo_msg)
             (@run_ops _ commit_fails _ _ after_failure s1)).
Proof.
  destruct (@failed_commit_wedges _ commit_fails _ _ eq_refl spool0 demo_msg demo_id
    {[demo_id := demo_msg]} locked after_failure) as (_ & Ht & Hw).
  - reflexivity.
  - vm_compute. reflexivity.
  - apply (@validate_canonical ascii_tables). vm_compute. reflexivity.
  - vm_compute. reflexivity.
  - reflexivity.
  - vm_compute. reflexivity.
  - intros [|[|[|k]]] Hk; [reflexivity..|lia].
  - reflexivity.
  - reflexivity.
  - unfold after_failure. rewrite !elem_of_cons, elem_of_nil. naive_solver.
  - split; [exact Ht|]. apply Hw. constructor.
Defined.
