(* ===== verification/ProviderWitnesses.v ===== *)
(** * Concrete runs of the providers and of the start

    A service that is overloaded once and then accepts, toy URLs, and a
    validated configuration. *)
From Stdlib Require Import Ascii.
From S2P Require Import Prelude.
From S2P Require Import GoStrings.
From S2P Require Import GoTime.
From S2P Require Import GoErrors.
From S2P Require Import GoEncoding.
From S2P Require Import GoSHA256.
From S2P Require Import Email.
From S2P Require Import SenderPolicy.
From S2P Require Import SpoolCommon.
From S2P Require Import SpoolStore.
From S2P Require Import Worker.
From S2P Require Import WorkerProps.
From S2P Require Import Config.
From S2P Require Import HTTPClient.
From S2P Require Import ACS.
From S2P Require Import ACSProps.
From S2P Require Import SES.
From S2P Require Import SESProps.
From S2P Require Import Startup.
From S2P Require Import Delivery.
From S2P Require Import Witnesses.
#[local] Open Scope Z_scope.
#[local] Open Scope relay_scope.

#[local] Existing Instance ascii_tables.
#[local] Existing Instance demo_mail.
#[local] Existing Instance demo_environment.
#[local] Instance demo_pool : CertPool := λ _, true.

(** A URL parser that takes everything for a host. *)
#[local] Instance demo_libs : WebLibs := {|
  url_Parse s := inl (MkURL "https" s "" "" "");
  url_String u := url_Scheme u +:+ "://" +:+ url_Host u +:+ url_Path u;
  url_RequestURI u := url_Path u +:+ "?" +:+ url_RawQuery u;
  query_Set raw k v := k +:+ "=" +:+ v;
  NewRequest_error _ _ := None;
  http_TimeFormat _ := "Wed, 01 Jan 2025 00:00:00 GMT";
  http_ParseTime _ := None;
  base64_CorruptInput _ := EText "illegal base64 data";
|}.

(** The first answer is 503, the others are what [status] says. *)
Definition flaky (status : Z) : ACSWorld := {|
  acs_Now n := 1735689600 * Second;
  acs_rand_Read n := inl (repeat (chr 7) 16);
  http_Do n _ _ := inl (MkResponse (if decide (n = 0%nat) then 503 else status) (λ _, "3")
    (json_object [("id", json_string "op-1"); ("status", json_string "Succeeded")], None));
  backoff_wait _ := None;
|}.

(** The network is gone and the context ends during the first wait. *)
Definition interrupted : ACSWorld := {|
  acs_Now n := 1735689600 * Second;
  acs_rand_Read n := inl (repeat (chr 7) 16);
  http_Do n _ _ := inr ECanceled;
  backoff_wait _ := Some ECanceled;
|}.

#[local] Instance demo_aws : AWS := {|
  ses_client := unit;
  aws_NewClient _ := inl tt;
  as_ResponseError _ := None;
  as_APIError _ := None;
|}.

Definition accepting : SESWorld := {|
  new_boundary n := match n with O => "b0" | S _ => "b1" end;
  SendEmail _ _ := inl (Some "m-1");
|}.

Definition cancelling : SESWorld := {|
  new_boundary n := match n with O => "b0" | S _ => "b1" end;
  SendEmail _ _ := inr ECanceled;
|}.

#[local] Instance demo_worlds : Worlds := {|
  acs_world _ := flaky 202;
  ses_world _ := accepting;
|}.

Definition fresh : astate := MkA 0 0 0 0 [] [].

(** ** Configuration and start *)

Definition config_for (deliveryMode : string) : Config :=
  MkConfig "0.0.0.0:2525" "0.0.0.0:8080" deliveryMode ["10.0.0.0/8"] true "static" "u" "p" false
    false "" "" "" 200 "rewrite" [] 3 1000 30000 200 50 90000 "/spool" 1000 "" 
    "endpoint=https://h.example/;accesskey=a2V5" "a@b.c" "" ""
    "r" "a@b.c" "" "" "" "" "".

Lemma noop_never_starts_witness :
  ∃ b e, main_background (inl tt : unit + goerr) (config_for "noop") boot0 = (b, inr e).
Proof.
  destruct (noop_never_starts (inl tt : unit + goerr) (config_for "noop") eq_refl)
    as (b & e & H & _).
  exists b, e. exact H.
Defined.

Definition built (r : Runtime + goerr) : bool := match r with inl _ => true | inr _ => false end.

Lemma cloud_starts_demo :
  match Build (config_for "acs") with
  | inl rt => main_background (inl tt : unit + goerr) (config_for "acs") boot0 =
              (MkBoot (Some tt) 0, inl (worker_config (config_for "acs") rt))
  | inr _ => False
  end.
Proof.
  assert (Hb : built (Build (config_for "acs")) = true) by (vm_compute; reflexivity).
  destruct (Build (config_for "acs")) as [rt|e] eqn:E.
  - refine (proj1 (cloud_starts tt (config_for "acs") rt _ _ _ _ _ E)); [|vm_compute; congruence..].
    clear E. split; cbn; first [set_solver|done|idtac]; unfold maxDeliveryRetryAttempts; lia.
  - discriminate Hb.
Defined.

(** ** ACS *)

Definition demo_acs : acs_Provider :=
  MkACS (MkURL "https" "h.example" "" "" "") (bs "key") "relay@h.example"
    (Some (MkClient (30 * Second) 200 50 (90 * Second) None)) 3 Second [] 
    (MkTransport (30 * Second) 100 10 (90 * Second)) false true.


Lemma acs_Poll_ok_witness :
  match acs_Poll (World := flaky 200) demo_acs "op" (MkA 0 0 1 0 [] []) with
  | (s, inl st) => a_slept s = [] ∧ ss_State st = SubmissionStateSucceeded ∧
      ∃ a op, answered 200 op a ∧ operation_status (op_Status op) (ss_State st)
  | _ => False
  end.
Proof.
  destruct (acs_Poll (World := flaky 200) demo_acs "op" (MkA 0 0 1 0 [] [])) as [s [st|e]] eqn:E.
  - pose proof (acs_Poll_ok (World := flaky 200) demo_acs "op" _ s (inl st) E)
      as (Hs & rid & reqs & _ & _ & _ & _ & _ & a & op & _ & Ha & Hst & _).
    split; [exact Hs|]. split; [|exists a, op; exact (conj Ha Hst)].
    revert E. vm_compute. intros [= <- <-]. reflexivity.
  - exfalso. revert E. vm_compute. discriminate.
Defined.

Lemma acs_NewProvider_ok_witness :
  match acs_NewProvider "" "endpoint=h.example;accesskey=a2V5" " a@b.c " [None; Some (acs_WithRetry 5 Second)] with
  | inl p => sender p = "a@b.c" ∧ accessKey p = bs "key" ∧ is_Some (httpClient p)
  | inr _ => False
  end.
Proof.
  destruct (acs_NewProvider _ _ _ _) as [p|e] eqn:E.
  - pose proof (acs_NewProvider_ok _ _ _ _ _ E) as (_ & _ & Hs & _ & _ & _ & Hc & _).
    split; [exact Hs|]. split; [|exact Hc]. revert E. vm_compute. intros [= <-]. reflexivity.
  - exfalso. revert E. vm_compute. discriminate.
Defined.

Lemma parseConnection_round_trip_witness :
  parseConnection "" (connection_string "https://h.example" (bs "k")) =
    inl (MkURL "https" "https://h.example" "" "" "", bs "k").
Proof.
  apply parseConnection_round_trip;
    first [reflexivity|discriminate|apply (bool_decide_unpack _); vm_compute; exact I].
Defined.

Definition with_attachment : Message :=
  MkMessage "env@c.example" "" [] [" a@b.c "; " "] "hi" "" "" [MkAttachment " " "" "data"].

Lemma buildSendRequest_ok_witness :
  match buildSendRequest "relay@h.example" with_attachment with
  | inl r => sq_SenderAddress r = "relay@h.example" ∧ Address <$> sq_Recipients r = ["a@b.c"]
  | inr _ => False
  end.
Proof.
  destruct (buildSendRequest _ _) as [r|e] eqn:E.
  - pose proof (buildSendRequest_ok _ _ _ E) as (Hs & Hr & _). split; [exact Hs|].
    rewrite Hr. vm_compute. reflexivity.
  - exfalso. revert E. vm_compute. discriminate.
Defined.

(** ** SES *)

Definition demo_ses : ses_Provider := MkSES (tt : ses_client) "relay@h.example" "".

Lemma buildRawMessage_headers_witness :
  match buildRawMessage (@new_boundary _ accepting) "relay@h.example" with_attachment with
  | inl (raw, recipients, replyTo) => recipients = ["a@b.c"] ∧ HasPrefix raw "From: " = true
  | inr _ => False
  end.
Proof.
  destruct (buildRawMessage _ _ _) as [[[raw rc] rt]|e] eqn:E.
  - assert (rt = []) as -> by (revert E; vm_compute; by intros [= _ _ <-]).
    pose proof (buildRawMessage_headers _ _ _ _ _ _ E) as H.
    destruct H as (Hr & _ & hs & ty & body & Hraw & Hhs & _);
      [intros [|n]; reflexivity|repeat constructor; vm_compute; congruence..|].
    split; [rewrite Hr; vm_compute; reflexivity|]. rewrite Hraw, Hhs. reflexivity.
  - exfalso. revert E. vm_compute. discriminate.
Defined.

Lemma ses_Submit_ok_witness :
  match ses_Submit (World := accepting) demo_ses with_attachment "op" [] with
  | (sent, inl res) => sr_State res = SubmissionStateSucceeded ∧ length sent = 1%nat
  | _ => False
  end.
Proof.
  destruct (ses_Submit (World := accepting) demo_ses with_attachment "op" []) as [sent [res|e]] eqn:E.
  - pose proof (ses_Submit_ok (World := accepting) demo_ses _ _ _ _ _ E) as (Hs & _ & i & m & -> & _).
    split; [exact Hs|reflexivity].
  - exfalso. revert E. vm_compute. discriminate.
Defined.

(** ** Composition *)

Lemma acs_submit_within_budget_witness :
  match Build (config_for "acs") with
  | inl rt => ∃ p client, rt_Provider rt = Some (acs_as_Provider p) ∧ httpClient p = Some client
  | inr _ => False
  end.
Proof.
  assert (Hb : built (Build (config_for "acs")) = true) by (vm_compute; reflexivity).
  destruct (Build (config_for "acs")) as [rt|e] eqn:E.
  - destruct (acs_submit_within_budget (config_for "acs") rt E) as (p & c & Hp & Hc & _);
      [vm_compute; congruence..|]. exists p, c. split; [exact Hp|exact Hc].
  - discriminate Hb.
Defined.

#[local] Existing Instance demo_store.

Lemma shutdown_dead_letters_witness :
  gives_up demo_worker later demo_record (acs_Submit (World := interrupted) demo_acs demo_msg "op" fresh).2 ∧
  gives_up demo_worker later demo_record (ses_Submit (World := cancelling) demo_ses demo_msg "op" []).2.
Proof.
  destruct (shutdown_dead_letters demo_worker later demo_record) as (_ & Ha & Hs). split.
  - eapply (Ha interrupted); [vm_compute; congruence|reflexivity..].
  - eapply (Hs cancelling); [vm_compute; congruence|reflexivity..].
Defined.
