(* ===== verification/PayloadWitnesses.v ===== *)
(** * Concrete runs of the payload store

    An empty disk on which the store is opened, a message with an attachment is
    saved across devices and loaded again, and an orphan is set aside. *)
From Stdlib Require Import Ascii.
From S2P Require Import Prelude.
From S2P Require Import GoStrings.
From S2P Require Import GoTime.
From S2P Require Import GoErrors.
From S2P Require Import GoEncoding.
From S2P Require Import Email.
From S2P Require Import SpoolCommon.
From S2P Require Import Records.
From S2P Require Import RecordsProps.
From S2P Require Import SpoolStore.
From S2P Require Import PayloadFS.
From S2P Require Import PayloadTree.
From S2P Require Import PayloadHoare.
From S2P Require Import PayloadStore.
From S2P Require Import PayloadProps.
From S2P Require Import PayloadRefine.
From S2P Require Import PayloadInit.
From S2P Require Import PayloadCodec.
From S2P Require Import DiskSpool.
From S2P Require Import Witnesses.
#[local] Open Scope Z_scope.
#[local] Open Scope relay_scope.

#[local] Existing Instance ascii_tables.
#[local] Existing Instance json_codec.
#[local] Existing Instance demo_env.
#[local] Existing Instance demo_ids.

(** No faults; every rename between directories crosses devices. *)
#[local] Instance disk_env : FSEnv := {|
  sys_fault _ := None;
  exdev _ := true;
  short_write _ := O;
  pay_rand n := inl (repeat (chr (Z.of_nat n)) 16);
  dir_order l := l;
  cwd := [];
|}.

#[local] Instance disk_env_laws : FSLaws.
Proof. intros l. done. Qed.

#[local] Instance disk_env_healthy : Healthy.
Proof. split; [done|]. intros n. by eexists. Qed.

Definition attached : Message :=
  MkMessage "from@example.com" "from@example.com" [] ["to@example.com"] "hello" "text" ""
    [MkAttachment "a.txt" "text/plain" "content"].

Definition disk0 : pst := MkP (Dir ∅ true) 0 0.
Definition disk1 : pst := fst (NewPayloadStore "/spool" disk0).
Definition disk_store : PayloadStore := store_at "/spool".

Lemma NewPayloadStore_ok_witness :
  match NewPayloadStore "/spool" disk0 with
  | (s, inl ps) => ps = disk_store ∧ save_ready ps (p_tree s) demo_id
  | _ => False
  end.
Proof.
  run_ok (@is_ok pst PayloadStore) E. assert (Hs : rs = disk1) by (unfold disk1; by rewrite E).
  apply NewPayloadStore_ok in E as (-> & _ & Hready & _). split; [reflexivity|].
  apply Hready. rewrite Hs. vm_compute. reflexivity.
Defined.

Lemma disk1_ready : save_ready disk_store (p_tree disk1) demo_id.
Proof.
  apply fresh_ready; [|vm_compute; reflexivity].
  pose proof (h_NewPayloadStore (p_tree disk0) "/spool" dir_order_perm disk0 eq_refl) as H.
  unfold disk1. assert (Hok : is_ok (NewPayloadStore "/spool" disk0) = true) by (vm_compute; reflexivity).
  destruct (NewPayloadStore "/spool" disk0) as [s [ps|]]; [|done].
  destruct H as (-> & Hf & _). exact Hf.
Qed.

Lemma demo_id_canonical : canonical_id demo_id.
Proof. apply validate_canonical. vm_compute. reflexivity. Qed.

Lemma Save_then_Load_witness :
  ∃ s1 s2, ps_Save disk_store demo_id attached disk1 = (s1, inl tt) ∧
           ps_Load disk_store demo_id s1 = (s2, inl (stored_message attached)).
Proof.
  apply (Save_then_Load disk_store demo_id attached disk1).
  - intros e. vm_compute. discriminate.
  - rewrite canonical_id_trim; apply demo_id_canonical.
  - rewrite canonical_id_trim; [apply disk1_ready|apply demo_id_canonical].
Defined.

Lemma payload_store_refines_witness : @PayloadLaws (disk_payloads disk_store) (disk_view disk_store).
Proof. exact (payload_store_refines disk_store). Defined.

(** A store with one payload that no record names. *)
Definition orphan : node := Dir {["message.json" := File "{}" true]} true.
Definition orphaned : node :=
  Dir {["spool" := Dir (<["payloads" := Dir {[demo_id := orphan]} true]>
                        (<["payload-orphans" := Dir {[demo_id := Dir ∅ true]} true]>
                         {["staging" := Dir ∅ true]})) true]} true.

Lemma orphan_movable x n : ({[demo_id := orphan]} : gmap string node) !! x = Some n → movable x n.
Proof.
  intros [<- <-]%lookup_singleton_Some. split; [apply demo_id_canonical|]. split; [done|]. split.
  - apply settled_plain, settled_dir. intros y m [_ <-]%lookup_singleton_Some. apply settled_file.
  - intros [|y q] es b; cbn -[orphan].
    + intros [= <- <-] x. by apply lookup_singleton_ne.
    + destruct (({["message.json" := File "{}" true]} : gmap string node) !! y) as [m|] eqn:Hy.
      * apply lookup_singleton_Some in Hy as [<- <-]. by destruct q.
      * unfold orphan. cbn -[lookup]. by rewrite Hy.
Qed.

Lemma QuarantineOrphans_ok_witness :
  ∃ s' qs pes' oes',
    ps_QuarantineOrphans disk_store ∅ (MkP orphaned 0 0) = (s', inl qs) ∧
    scan_dirs disk_store (p_tree s') pes' oes' ∧ pes' !! demo_id = None ∧
    oes' !! demo_id = Some (Dir ∅ true) ∧ ∃ y, y ≠ demo_id ∧ kept_as oes' y orphan.
Proof.
  destruct (QuarantineOrphans_ok disk_store ∅ (MkP orphaned 0 0)
    {[demo_id := orphan]} {[demo_id := Dir ∅ true]}) as (s' & qs & pes' & oes' & Hq & Hsd & Hp & Ho & Hk).
  - split; [by exists (<["payloads" := Dir {[demo_id := orphan]} true]>
      (<["payload-orphans" := Dir {[demo_id := Dir ∅ true]} true]> {["staging" := Dir ∅ true]})), true|].
    vm_compute. intros H. repeat (apply elem_of_cons in H as [H|H]; [discriminate H|]).
    by apply elem_of_nil in H.
  - exists true, true. split; vm_compute; reflexivity.
  - apply orphan_movable.
  - exists s', qs, pes', oes'. split; [exact Hq|]. split; [exact Hsd|].
    split; [rewrite Hp; vm_compute; reflexivity|].
    split; [apply Ho; vm_compute; reflexivity|].
    destruct (Hk demo_id orphan) as (y & Hy & _ & Hkept); [vm_compute; reflexivity|done|].
    exists y. split; [|exact Hkept]. intros ->. vm_compute in Hy. discriminate Hy.
Defined.

Lemma manifest_round_trip_witness :
  match json_manifest_Marshal (manifest_for attached) with
  | inl d => json_manifest_Unmarshal d = inl (manifest_for attached)
  | inr _ => False
  end.
Proof.
  destruct (json_manifest_Marshal (manifest_for attached)) as [d|e] eqn:E.
  - apply (manifest_round_trip _ d E). vm_compute. reflexivity.
  - vm_compute in E. discriminate E.
Defined.

(** The spool on this disk: the identifier is drawn, the payload published
    through a copy, the record committed. *)
Lemma Enqueue_survives_crash_witness :
  match Enqueue (P := disk_payloads disk_store) None attached
          (@MkSpool (disk_payloads disk_store) (MkDB ∅ None false 0 0) disk1 0) with
  | (s', inl rec) => ∃ n, fs_get (payload_at disk_store (rec_ID rec)) (tree disk_store s') = Some n ∧
                          settled n ∧ read_payload n = Some (stored_message attached)
  | _ => False
  end.
Proof.
  run_ok (@is_ok (@spool (disk_payloads disk_store)) SpoolRecord) E.
  apply (Enqueue_survives_crash disk_store) in E as (_ & _ & _ & pes & b & n & _ & _ & Hp & Hs & Hr & _).
  exists n. split; [|exact (conj Hs Hr)]. unfold payload_at. rewrite fs_get_app, Hp. cbn.
  by rewrite lookup_insert_eq.
Defined.
