(* ===== verification/SMTPWitnesses.v ===== *)
(** * Concrete sessions

    A client of an allowed network authenticates and sends the multipart message
    of the parser's tests; the server binds two listeners and is shut down. *)
From Stdlib Require Import Ascii.
From stdpp Require Import relations.
From S2P Require Import Prelude.
From S2P Require Import GoStrings.
From S2P Require Import GoTime.
From S2P Require Import GoErrors.
From S2P Require Import GoNetip.
From S2P Require Import GoMail.
From S2P Require Import GoMIME.
From S2P Require Import Email.
From S2P Require Import SenderPolicy.
From S2P Require Import SMTPParser.
From S2P Require Import SMTPParserProps.
From S2P Require Import SpoolCommon.
From S2P Require Import Records.
From S2P Require Import SpoolStore.
From S2P Require Import PayloadFS.
From S2P Require Import PayloadTree.
From S2P Require Import PayloadStore.
From S2P Require Import PayloadProps.
From S2P Require Import PayloadRefine.
From S2P Require Import PayloadInit.
From S2P Require Import PayloadCodec.
From S2P Require Import DiskSpool.
From S2P Require Import Schema.
From S2P Require Import SchemaProps.
From S2P Require Import SpoolOpen.
From S2P Require Import Observability.
From S2P Require Import Relay.
From S2P Require Import Config.
From S2P Require Import SMTPServer.
From S2P Require Import SMTPLifecycle.
From S2P Require Import SMTPProps.
From S2P Require Import EndToEnd.
From S2P Require Import Witnesses.
From S2P Require Import PayloadWitnesses.
#[local] Open Scope Z_scope.
#[local] Open Scope relay_scope.

#[local] Existing Instance ascii_tables.
#[local] Existing Instance demo_env.
#[local] Existing Instance demo_ids.
#[local] Existing Instance mem_payloads.
#[local] Existing Instance disk_env.
#[local] Existing Instance disk_env_laws.
#[local] Existing Instance json_codec.

(** An address parser that takes what stands in angle brackets. *)
Definition bracketed (s : string) : string :=
  match cut_last "<"%char (bs s) with
  | Some (_, l) => sb (removelast l)
  | None => s
  end.

#[local] Instance demo_addresses : MailRegexp := {|
  mail_ParseAddress s := if ContainsByte s at_sign then inl (bracketed s)
                         else inr (EText "no address");
  regexp_Compile _ := inr (EText "unsupported");
|}.
#[local] Instance demo_address_list : AddressList := λ s,
  if ContainsByte s at_sign then inl [bracketed s] else inr (EText "no address").
#[local] Instance demo_mime : MIMEEnv := λ _, O.
#[local] Instance demo_gosmtp : GoSMTP := {|
  ErrAuthUnsupported := EText "auth unsupported";
  ErrAuthUnknownMechanism := EText "unknown mechanism";
  SplitHostPort _ := None;
|}.

(** ** The parser *)

Definition crlf : string := sb [CR; LF].

(** The message of [TestParseMessageMultipart]. *)
Definition multipart_raw : string := Join
  ["From: Dev <dev@example.com>"; "To: Test <test@example.com>"; "Subject: Test message";
   "MIME-Version: 1.0"; "Content-Type: multipart/mixed; boundary=abc123"; "";
   "--abc123"; "Content-Type: text/plain; charset=utf-8"; ""; "hello world";
   "--abc123"; "Content-Type: text/html; charset=utf-8"; ""; "<p>hello world</p>";
   "--abc123"; "Content-Type: text/plain"; "Content-Disposition: attachment; filename=note.txt";
   "Content-Transfer-Encoding: base64"; ""; "aGVsbG8gYXR0YWNobWVudA==";
   "--abc123--"; ""] crlf.

Definition multipart_stream : stream := MkStream (bs multipart_raw) None.

Definition multipart_message : Message :=
  MkMessage "envelope@example.com" "dev@example.com" [] ["rcpt@example.com"] "Test message"
    "hello world" "<p>hello world</p>" [MkAttachment "note.txt" "text/plain" "hello attachment"].

Example ParseMessage_multipart :
  ParseMessage multipart_stream "envelope@example.com" ["rcpt@example.com"] = inl multipart_message.
Proof. vm_compute. reflexivity. Qed.

(** A part without a content type is lost. *)
Example ParseMessage_untyped_part :
  ParseMessage (MkStream (bs (Join
    ["From: dev@example.com"; "Content-Type: multipart/mixed; boundary=abc123"; "";
     "--abc123"; ""; "hello world"; "--abc123--"; ""] crlf)) None)
    "envelope@example.com" ["rcpt@example.com"] =
  inl (MkMessage "envelope@example.com" "dev@example.com" [] ["rcpt@example.com"] "" "" "" []).
Proof. vm_compute. reflexivity. Qed.

Lemma parseMultipart_terminates_witness :
  parse_multipart 2000 (multipart_NewReader multipart_stream "abc123") emptyMessage =
  Some (parseMultipart (multipart_NewReader multipart_stream "abc123") emptyMessage).
Proof.
  destruct (parseMultipart_terminates (multipart_NewReader multipart_stream "abc123")
    emptyMessage 2000) as [(r & H1 & H2) _].
  - apply Nat.ltb_lt. vm_compute. reflexivity.
  - rewrite H1, H2. reflexivity.
Defined.

(** ** Admission and sessions *)

Definition demo_policy : sessionPolicy :=
  MkPolicy [MkPrefix (Addr4 167772160) 8] true true (Some (AuthPlain "u" "p")) 0.

Definition inside : option net_Addr := Some (TCPAddr (map chr [10; 1; 2; 3]) "10.1.2.3:4711").

Definition no_metrics : Metrics := NewMetrics.

Lemma admission_by_cidr_witness :
  ParseCIDRs ["10.0.0.0/8"; " "] = inl (sp_allowedCIDRs demo_policy) ∧
  in_networks ["10.0.0.0/8"; " "] inside.
Proof.
  assert (Hp : ParseCIDRs ["10.0.0.0/8"; " "] = inl (sp_allowedCIDRs demo_policy))
    by (vm_compute; reflexivity).
  split; [exact Hp|].
  apply (admission_by_cidr _ demo_policy inside no_metrics Hp). eexists. vm_compute. reflexivity.
Defined.

Definition demo_handler : Handler := MkHandler "rewrite" (SenderPolicy.MkPolicy "rewrite" []) 5.

(** The enqueue handler over the spool on disk; its context is never done. *)
Definition alive_ctx : option duration → option goerr * option goerr := λ _, (None, None).

#[local] Instance demo_store : Store := EndToEnd.disk_store disk_store.
#[local] Instance demo_smtp_handler : MessageHandler :=
  relay_handler disk_store demo_handler alive_ctx.

Definition demo_spool : disk_spool disk_store :=
  @MkSpool (disk_payloads disk_store) (MkDB ∅ None false 0 0) disk1 0.

Definition opening : list sevent :=
  [EvAuth "PLAIN" "" "u" "p"; EvMail (Some true) "envelope@example.com";
   EvRcpt (Some true) "rcpt@example.com"].

Definition demo_session : session :=
  match (NewSession demo_policy inside None).2 with
  | inl se => se
  | inr _ => MkSession "" [] false "" None true true 0
  end.

Definition demo_queue : @mh_state demo_smtp_handler := MkH 0 demo_spool 0 0.

Definition before_data : smtp_state := session_run opening (MkSMTP demo_session None demo_queue).

(** The parsed message goes through the policy and onto the disk; the next
    process opens the spool directory and finds it. *)
Definition volume_after (s : smtp_state) : volume :=
  let sp := spool_of disk_store demo_handler alive_ctx s in
  MkVolume (sp_payloads sp : pst)
    (MkDB (MkFile spoolSchemaVersion v1_objects (durable (sp_records sp))) None false 0 0).

Lemma volume_after_left s : left_behind disk_store demo_handler alive_ctx s (volume_after s).
Proof. repeat split. Qed.

Definition after_data : smtp_state :=
  (session_Data (Some true) multipart_stream before_data).1.

Lemma accepted_mail_survives_witness :
  match session_Data (Some true) multipart_stream before_data,
        NewSpoolStore id "/spool" (volume_after after_data) with
  | (_, inl _), (v', inl store) =>
      ∃ rid, is_Some (durable (sp_records (spool_of_volume (ss_payloads store) v')) !! rid) ∧
             is_Some (stored_payload (ss_payloads store) (p_tree (v_fs v')) rid)
  | _, _ => False
  end.
Proof.
  assert (H : is_ok (session_Data (Some true) multipart_stream before_data) = true)
    by (vm_compute; reflexivity).
  assert (Hn : is_ok (NewSpoolStore id "/spool" (volume_after after_data)) = true)
    by (vm_compute; reflexivity).
  pose proof (volume_after_left after_data) as Hl. unfold after_data in *.
  destruct (session_Data (Some true) multipart_stream before_data) as [s' [[]|e]] eqn:E;
    [|discriminate H].
  cbn [fst] in *.
  destruct (NewSpoolStore id "/spool" (volume_after s')) as [v' [store|e]] eqn:Ho;
    [|discriminate Hn].
  destruct (accepted_mail_survives disk_store demo_handler alive_ctx _ _ _ _ E)
    as (msg & rec & _ & _ & _ & _ & _ & Hnext).
  destruct (Hnext id "/spool" (volume_after s') v' store (λ l, reflexivity l) Hl Ho eq_refl eq_refl)
    as [Hr Hp].
  exists (rec_ID rec). split; [by rewrite Hr|by rewrite Hp].
Defined.

Lemma session_gate_witness :
  NewSession demo_policy inside None = (None, inl demo_session) ∧
  authenticated demo_policy opening.
Proof.
  assert (Hn : NewSession demo_policy inside None = (None, inl demo_session))
    by (vm_compute; reflexivity).
  split; [exact Hn|].
  destruct (session_Data (Some true) multipart_stream before_data) as [s' res] eqn:E.
  destruct (session_gate demo_policy inside None None demo_session demo_queue opening
    (Some true) multipart_stream s' res Hn E) as [[_ [e He]]|(_ & _ & Ha & _)].
  - exfalso. assert (Hok : is_ok (session_Data (Some true) multipart_stream before_data) = true)
      by (vm_compute; reflexivity).
    rewrite E, He in Hok. discriminate Hok.
  - apply Ha. reflexivity.
Defined.

(** ** The server's life *)

(** [Start] returns although its only listener has failed. *)
Lemma server_single_use_witness :
  ∃ s cs, rtc (lstep [":25"]) fresh_server (s, cs) ∧ lf_ready s = true ∧
          length (lf_bound s) = 1%nat.
Proof.
  destruct (serve_error_run ":25" (EText "e")) as (s & cs & Hr & _ & _ & _ & _ & Hready & _).
  exists s, cs. split; [exact Hr|]. split; [exact Hready|].
  exact (proj2 (proj2 (server_single_use [":25"] s cs Hr)) Hready).
Defined.

Lemma listeners_closed_witness :
  ∃ s cs, rtc (lstep [":25"]) fresh_server (s, cs) ∧ 0%nat ∈ lf_open s ∧
    (lf_errCh s ≠ [] ∨ ∃ j c, cs !! j = Some c ∧ 0%nat ∈ closing_of c).
Proof.
  destruct (serve_error_run ":25" (EText "e")) as (s & cs & Hr & Hcs & _ & Ho & _).
  assert (Hin : 0%nat ∈ lf_open s) by (rewrite Ho; set_solver).
  exists s, cs. split; [exact Hr|]. split; [exact Hin|].
  apply (listeners_closed [":25"] s cs 0 None 0 Hr); [|exact Hin]. subst cs. done.
Defined.

(** ** Metrics *)

Lemma scrape_counts_witness :
  match StateCounts spool1 with
  | (_, inl r) => ∃ m', refreshSpoolStateCounts (Some (inl r)) (Some no_metrics) = Some m' ∧
                        mt_spoolRecords m' !! "queued" =
                          Some (count_state (db_cur (sp_records spool1)) "queued")
  | _ => False
  end.
Proof.
  assert (H : is_ok (StateCounts spool1) = true) by (vm_compute; reflexivity).
  destruct (StateCounts spool1) as [s' [r|e]] eqn:E; [|discriminate H].
  apply (scrape_counts spool1 s' (inl r) no_metrics "queued" E). apply elem_of_cons. by left.
Defined.
