(* ===== verification/OpenWitnesses.v ===== *)
(** * Concrete starts

    A spool directory is created, closed and opened again, and the process
    starts on it. *)
From Stdlib Require Import Ascii.
From stdpp Require Import relations.
From S2P Require Import Prelude.
From S2P Require Import GoStrings.
From S2P Require Import GoTime.
From S2P Require Import GoErrors.
From S2P Require Import GoNetip.
From S2P Require Import Email.
From S2P Require Import SenderPolicy.
From S2P Require Import SpoolCommon.
From S2P Require Import Records.
From S2P Require Import RecordsProps.
From S2P Require Import Schema.
From S2P Require Import SchemaProps.
From S2P Require Import SpoolStore.
From S2P Require Import PayloadFS.
From S2P Require Import PayloadTree.
From S2P Require Import PayloadStore.
From S2P Require Import PayloadProps.
From S2P Require Import PayloadRefine.
From S2P Require Import PayloadInit.
From S2P Require Import PayloadCodec.
From S2P Require Import DiskSpool.
From S2P Require Import SpoolOpen.
From S2P Require Import Worker.
From S2P Require Import Relay.
From S2P Require Import Config.
From S2P Require Import HTTPClient.
From S2P Require Import ACS.
From S2P Require Import SES.
From S2P Require Import Startup.
From S2P Require Import SMTPServer.
From S2P Require Import Main.
From S2P Require Import Witnesses.
From S2P Require Import ProviderWitnesses.
From S2P Require Import PayloadWitnesses.
#[local] Open Scope Z_scope.
#[local] Open Scope relay_scope.

#[local] Existing Instance ascii_tables.
#[local] Existing Instance demo_env.
#[local] Existing Instance disk_env.
#[local] Existing Instance disk_env_laws.
#[local] Existing Instance json_codec.

Definition in_order (l : list (string * string)) : list (string * string) := l.

Lemma in_order_perm l : in_order l ≡ₚ l.
Proof. done. Qed.

(** ** The schema *)

Definition db0 : database dbfile := MkDB newfile None false 0 0.
Definition db1 : database dbfile := (schema_init "/spool" in_order db0).1.

Lemma newfile_unclaimed : unclaimed newfile.
Proof. constructor. Qed.

Lemma demo_calm : calm.
Proof. done. Qed.

Lemma db1_opened : schema_init "/spool" in_order db0 = (db1, inl tt).
Proof.
  assert (H : is_ok (schema_init "/spool" in_order db0) = true) by (vm_compute; reflexivity).
  unfold db1. destruct (schema_init "/spool" in_order db0) as [s [[]|e]]; [done|discriminate H].
Qed.

Lemma schema_init_restart_witness :
  schema_init "/spool" in_order db0 = (db1, inl tt) ∧
  (schema_init "/spool" (@reverse _) (MkDB (durable db1) None false 7 0)).2 = inl tt.
Proof.
  split; [apply db1_opened|].
  refine (proj2 (schema_init_restart "/spool" "/spool" in_order (@reverse _) db0 db1
    (MkDB (durable db1) None false 7 0) in_order_perm _ db1_opened eq_refl _ eq_refl eq_refl) demo_calm).
  - intros l. apply reverse_Permutation.
  - intros _. apply newfile_unclaimed.
Defined.

(** The schema that was made passes, an empty file does not. *)
Lemma validateCurrentSchema_equiv_witness :
  schema_v1 (db_cur db1) ∧ ¬ schema_v1 (db_cur db0).
Proof.
  split.
  - apply (validateCurrentSchema_equiv "/spool" in_order db1 in_order_perm).
    vm_compute. reflexivity.
  - intros H. apply (validateCurrentSchema_equiv "/spool" in_order db0 in_order_perm) in H;
      [|exact demo_calm].
    assert (Hv : bool_decide (is_Some (match (validateCurrentSchema "/spool" in_order db0).2 with
                   | inl _ => Some tt | inr _ => None end)) = false) by (vm_compute; reflexivity).
    rewrite H in Hv. discriminate Hv.
Defined.

(** ** The spool *)

Definition volume0 : volume := MkVolume disk0 db0.

Lemma NewSpoolStore_ok_witness :
  match NewSpoolStore in_order " /spool/ " volume0 with
  | (v, inl store) =>
      ss_payloads store = disk_store ∧ schema_v1 (durable (v_db v)) ∧
      durable (sp_records (spool_of_volume (ss_payloads store) v)) = ∅ ∧
      fresh_store (ss_payloads store) (p_tree (v_fs v))
  | _ => False
  end.
Proof.
  assert (H : is_ok (NewSpoolStore in_order " /spool/ " volume0) = true) by (vm_compute; reflexivity).
  destruct (NewSpoolStore in_order " /spool/ " volume0) as [v r] eqn:E.
  destruct (NewSpoolStore_ok in_order " /spool/ " volume0 v r in_order_perm eq_refl E) as (_ & _ & Hok).
  destruct r as [store|e]; [|discriminate H].
  destruct (Hok store eq_refl) as (_ & _ & Hnew & Hrest).
  destruct (Hnew eq_refl newfile_unclaimed) as [Hs Hrows].
  destruct (Hrest eq_refl) as (Hp & _ & Hr & Hf & _).
  split; [rewrite Hp; vm_compute; reflexivity|]. split; [exact Hs|].
  split; [rewrite Hr; exact Hrows|exact Hf].
Defined.

(** A legacy table is refused: version 0 with a table [records]. *)
Definition legacy_file : dbfile :=
  MkFile 0 [MkObject TypeTable "records" (Some "CREATE TABLE records (id)") ["id"]] ∅.

Example NewSpoolStore_refuses_legacy :
  match NewSpoolStore in_order "/spool" (MkVolume disk0 (MkDB legacy_file None false 0 0)) with
  | (v, inr _) => f_version (durable (v_db v)) = 0
  | _ => False
  end.
Proof. vm_compute. reflexivity. Qed.

(** A file of version 0 in which another table has an index of the store's name:
    the schema statements skip the index ([IF NOT EXISTS]), the version is set
    and the store opens, and every later start is refused. *)
Definition foreign_file : dbfile :=
  MkFile 0 [MkObject TypeTable "t" (Some "CREATE TABLE t (a)") ["a"];
            MkObject TypeIndex "idx_records_ready"
              (Some "CREATE INDEX idx_records_ready ON t(a)") []] ∅.

Example foreign_index_opens_once :
  let s0 := MkDB foreign_file None false 0 0 in
  let s1 := (schema_init "/spool" in_order s0).1 in
  is_ok (schema_init "/spool" in_order s0) = true ∧ f_version (durable s1) = 1 ∧
  is_ok (schema_init "/spool" in_order (MkDB (durable s1) None false 0 0)) = false.
Proof. vm_compute. done. Qed.

(** ** The process *)

#[local] Existing Instance demo_mail.
#[local] Existing Instance demo_pool.
#[local] Existing Instance demo_libs.
#[local] Existing Instance demo_aws.
#[local] Existing Instance demo_worlds.
#[local] Existing Instance demo_ids.
#[local] Existing Instance mem_payloads.
#[local] Instance start_store : Store := SpoolStore.
#[local] Instance demo_keys : KeyPairs := {|
  certificate := unit;
  LoadX509KeyPair _ _ := inl tt;
|}.

Definition start_settings : list (string * string) :=
  [("DELIVERY_MODE", "acs"); ("SMTP_ALLOWED_CIDRS", "10.0.0.0/8"); ("SMTP_AUTH_USERNAME", "u");
   ("SMTP_AUTH_PASSWORD", "p"); ("SMTP_TLS_CERT_FILE", "/tls/crt");
   ("SMTP_TLS_KEY_FILE", "/tls/key"); ("ACS_SENDER", "a@b.c");
   ("ACS_CONNECTION_STRING", "endpoint=https://h.example/;accesskey=a2V5")].

#[local] Instance start_environment : Environment := {|
  LookupEnv key := (list_to_map start_settings : gmap string string) !! key;
  ReadFile _ := inr (EErrno ENOENT);
|}.

Definition no_config : Config := config_for "noop".
Definition start_config : Config := match Load with inl c => c | inr _ => no_config end.

Lemma start_config_loaded : Load = inl start_config.
Proof. vm_compute. reflexivity. Qed.

Definition start_spool : @sstate start_store := spool1.

Lemma main_startup_ok_witness :
  match main_startup (inl start_spool) start_config None later boot0 with
  | (b, inl run) => bt_closes b = 0%nat ∧ Ready (run_readiness run) = false
  | _ => False
  end.
Proof.
  assert (H : is_ok (main_startup (inl start_spool) start_config None later boot0) = true)
    by (vm_compute; reflexivity).
  destruct (main_startup (inl start_spool) start_config None later boot0) as [b r] eqn:E.
  pose proof (main_startup_ok _ _ _ _ b r E) as Hok. destruct r as [run|e]; [|discriminate H].
  destruct Hok as ((st & st' & _ & _ & ->) & _ & _ & Hr). split; [reflexivity|exact Hr].
Defined.

(** A relay without TLS starts although no certificate can be loaded. *)
#[local] Instance no_keys : KeyPairs := {|
  certificate := unit;
  LoadX509KeyPair _ _ := inr (EErrno ENOENT);
|}.

Definition plain_settings : list (string * string) :=
  [("SMTP_STARTTLS_ENABLED", "false"); ("SMTP_REQUIRE_TLS", "false");
   ("DELIVERY_MODE", "acs"); ("SMTP_ALLOWED_CIDRS", "10.0.0.0/8"); ("SMTP_AUTH_USERNAME", "u");
   ("SMTP_AUTH_PASSWORD", "p"); ("ACS_SENDER", "a@b.c");
   ("ACS_CONNECTION_STRING", "endpoint=https://h.example/;accesskey=a2V5")].

#[local] Instance plain_environment : Environment := {|
  LookupEnv key := (list_to_map plain_settings : gmap string string) !! key;
  ReadFile _ := inr (EErrno ENOENT);
|}.

Definition plain_config : Config := match Load with inl c => c | inr _ => no_config end.

Lemma plain_config_loaded : Load = inl plain_config.
Proof. vm_compute. reflexivity. Qed.

Definition built_runtime : Runtime :=
  match Build plain_config with inl rt => rt | inr _ => MkRuntime None 0 end.

Lemma plain_built : Build plain_config = inl built_runtime.
Proof.
  assert (H : built (Build plain_config) = true) by (vm_compute; reflexivity).
  unfold built_runtime. destruct (Build plain_config); [done|discriminate H].
Qed.

Lemma loaded_configuration_starts_witness :
  match store_Recover None later start_spool with
  | (st', inl _) =>
      ∃ run, main_startup (inl start_spool) plain_config None later boot0 =
             (MkBoot (Some st') 0, inl run)
  | _ => False
  end.
Proof.
  assert (H : is_ok (store_Recover None later start_spool) = true) by (vm_compute; reflexivity).
  destruct (store_Recover None later start_spool) as [st' [rec|e]] eqn:E; [|discriminate H].
  destruct (loaded_configuration_starts plain_config built_runtime None later start_spool st' rec [])
    as (run & Hrun & _).
  - apply plain_config_loaded.
  - vm_compute. discriminate.
  - vm_compute. reflexivity.
  - vm_compute. reflexivity.
  - vm_compute. reflexivity.
  - vm_compute. reflexivity.
  - left. vm_compute. discriminate.
  - intros [Hs|Hs]; exfalso; revert Hs; vm_compute; [discriminate|intros Hs; by apply Hs].
  - apply plain_built.
  - exact E.
  - exists run. exact Hrun.
Defined.

(** A signal arrives while the process starts; the worker returns and [main]
    closes the store. *)
Lemma process_shutdown_witness :
  ∃ p p', rtc pstep (started (Some (MkReadiness false true))) p ∧
          rtc main_step p p' ∧ pr_pc p' = Exited.
Proof.
  assert (Hr : rtc pstep (started (Some (MkReadiness false true)))
    (MkProc ShutdownSMTP (Some (MkReadiness false true)) true [] false false true true true)).
  { eapply rtc_l; [left; apply signal|].
    eapply rtc_l; [left; by apply (worker_returns None)|].
    eapply rtc_l; [right; apply startup_signal|].
    eapply rtc_l; [right; apply serving_signal|]. apply rtc_refl. }
  destruct (process_shutdown (Some (MkReadiness false true)) _ eq_refl Hr) as (_ & _ & _ & Hx).
  destruct (Hx eq_refl eq_refl) as (p' & Hp & He). eexists _, p'. split; [exact Hr|]. split; [exact Hp|exact He].
Defined.
